(** * Arduino-Gestion-Classe: the deployment orchestration core

    A shallow embedding of the host registry ([HostRegistry.importFromCsv]),
    of the job scheduler ([JobQueue]) and of the strategy selection of the
    deployment manager ([DeploymentManager.executeJob]), with the properties
    of the design document that concern them.

    Conventions of the embedding:
    - a JavaScript [Map] is a [gmap]; the properties below depend on lookups,
      sizes and the multiset of values only, never on the iteration order.
      The strategy map of the manager, which is searched in insertion order,
      is a list;
    - JavaScript numbers that count things or measure milliseconds are [Z];
      the average and the two rates of the telemetry, which are quotients,
      are rationals ([Q]): the exact quotients in [getTelemetry], and the
      doubles nearest to them, which the program computes, in
      [getTelemetryDoubles];
    - text is a [string] of bytes, the UTF-8 encoding of the characters;
      [trim] removes the white space and the line terminators of
      ECMAScript; [toLowerCase] acts on the ASCII letters, and its result is
      only compared with ASCII names without the letter k (the Kelvin sign
      is the one character outside ASCII whose lower case is ASCII text);
    - an ISO-8601 timestamp is the number of milliseconds it denotes;
    - asynchronous code runs in turns of the event loop: a call of a public
      method, or the resumption of an [async] method after an [await], runs
      to its next [await] or to its end without interruption.  The frames
      suspended at an [await] are part of the state of the queue, and so are
      the events emitted and the calls made to the executor, which the
      properties observe;
    - [uuidv4()] returns a non-empty identifier that was never returned
      before;
    - listeners do not call the queue back while an event is delivered, and
      the logger is not modelled: it has no effect on the state. *)

From Stdlib Require Import ZArith QArith Qfield Qround Qabs Qpower Lqa.
From Stdlib Require Import String Ascii List Lia DecimalString.
From Stdlib Require SpecFloat.
From stdpp Require Import gmap strings list fin_maps.

Local Open Scope Z_scope.

(** ** The fragment of the JavaScript library used by the sources *)

Module Js.

(** [x ?? d] *)
Definition nullish {A} (x : option A) (d : A) : A :=
  match x with Some v => v | None => d end.

(** [xs[i]] for an arbitrary integer [i]: [undefined] outside the array. *)
Definition at_index {A} (xs : list A) (i : Z) : option A :=
  if i <? 0 then None else nth_error xs (Z.to_nat i).

(** [xs.indexOf(x)]: first position, [-1] when absent. *)
Fixpoint indexOf_from (xs : list string) (x : string) (i : Z) : Z :=
  match xs with
  | [] => -1
  | y :: ys => if String.eqb y x then i else indexOf_from ys x (i + 1)
  end.

Definition indexOf (xs : list string) (x : string) : Z := indexOf_from xs x 0.

(** The UTF-8 encoding of a character of the basic plane, given by its
    code point. *)
Definition utf8 (codePoint : N) : string :=
  if (codePoint <? 128)%N then
    String (ascii_of_N codePoint) EmptyString
  else if (codePoint <? 2048)%N then
    String (ascii_of_N (192 + codePoint / 64))
      (String (ascii_of_N (128 + codePoint mod 64)) EmptyString)
  else
    String (ascii_of_N (224 + codePoint / 4096))
      (String (ascii_of_N (128 + (codePoint / 64) mod 64))
         (String (ascii_of_N (128 + codePoint mod 64)) EmptyString)).

(** The white space and the line terminators that [trim] removes, by the
    bytes of their encoding.  One byte: U+0009 to U+000D and U+0020. *)
Definition is_space (c : ascii) : bool :=
  let n := nat_of_ascii c in
  ((9 <=? n)%nat && (n <=? 13)%nat) || (n =? 32)%nat.

(** Two bytes: U+00A0. *)
Definition is_space2 (c1 c2 : ascii) : bool :=
  (nat_of_ascii c1 =? 194)%nat && (nat_of_ascii c2 =? 160)%nat.

(** Three bytes: U+1680, U+2000 to U+200A, U+2028, U+2029, U+202F, U+205F,
    U+3000 and U+FEFF. *)
Definition is_space3 (c1 c2 c3 : ascii) : bool :=
  let n1 := nat_of_ascii c1 in
  let n2 := nat_of_ascii c2 in
  let n3 := nat_of_ascii c3 in
  ((n1 =? 225) && (n2 =? 154) && (n3 =? 128))%nat
  || ((n1 =? 226) && (n2 =? 128)
      && (((128 <=? n3) && (n3 <=? 138)) || (n3 =? 168) || (n3 =? 169) || (n3 =? 175)))%nat
  || ((n1 =? 226) && (n2 =? 129) && (n3 =? 159))%nat
  || ((n1 =? 227) && (n2 =? 128) && (n3 =? 128))%nat
  || ((n1 =? 239) && (n2 =? 187) && (n3 =? 191))%nat.

Fixpoint trimStart (s : string) : string :=
  match s with
  | EmptyString => EmptyString
  | String c1 rest1 =>
      if is_space c1 then trimStart rest1
      else
        match rest1 with
        | EmptyString => s
        | String c2 rest2 =>
            if is_space2 c1 c2 then trimStart rest2
            else
              match rest2 with
              | EmptyString => s
              | String c3 rest3 => if is_space3 c1 c2 c3 then trimStart rest3 else s
              end
        end
  end.

(** The text without its longest end made of white space only. *)
Fixpoint trimEnd (s : string) : string :=
  match s with
  | EmptyString => EmptyString
  | String c rest =>
      match trimStart s with
      | EmptyString => EmptyString
      | _ => String c (trimEnd rest)
      end
  end.

Definition trim (s : string) : string := trimEnd (trimStart s).

Definition lower_ascii (c : ascii) : ascii :=
  let n := nat_of_ascii c in
  if ((65 <=? n)%nat && (n <=? 90)%nat)%bool then ascii_of_nat (n + 32) else c.

Fixpoint toLowerCase (s : string) : string :=
  match s with
  | EmptyString => EmptyString
  | String c rest => String (lower_ascii c) (toLowerCase rest)
  end.

(** [s.split(sep)] for a separator that is one character out of a class:
    always at least one piece. *)
Fixpoint split_on (sep : ascii -> bool) (s : string) : list string :=
  match s with
  | EmptyString => [EmptyString]
  | String c rest =>
      if sep c then EmptyString :: split_on sep rest
      else match split_on sep rest with
           | piece :: pieces => String c piece :: pieces
           | [] => [String c EmptyString]
           end
  end.

Definition is_comma (c : ascii) : bool := Ascii.eqb c ","%char.
Definition is_tag_separator (c : ascii) : bool :=
  Ascii.eqb c ";"%char || Ascii.eqb c "|"%char.

Definition LF : ascii := ascii_of_nat 10.
Definition CR : ascii := ascii_of_nat 13.

(** [s.split(/\r?\n/)] *)
Fixpoint split_lines (s : string) : list string :=
  match s with
  | EmptyString => [EmptyString]
  | String c rest =>
      if Ascii.eqb c LF then EmptyString :: split_lines rest
      else
        let keep :=
          match split_lines rest with
          | piece :: pieces => String c piece :: pieces
          | [] => [String c EmptyString]
          end in
        if Ascii.eqb c CR then
          match rest with
          | String d rest' =>
              if Ascii.eqb d LF then EmptyString :: split_lines rest' else keep
          | EmptyString => keep
          end
        else keep
  end.

Definition newline : string := String LF EmptyString.

(** A string is truthy when it is not empty. *)
Definition truthy (s : string) : bool :=
  match s with EmptyString => false | _ => true end.

(** Decimal rendering of a loop index inside a template literal. *)
Definition of_nat (n : nat) : string := NilZero.string_of_uint (Nat.to_uint n).

End Js.

(** ** Host registry *)

Record HostRecord := mkHostRecord {
  host_id : string;
  host_name : string;
  host_address : string;
  host_os : string;
  host_tags : list string;
  host_enabled : bool;
  host_groups : option (list string);
  host_notes : option string;
  host_lastSeenAt : option string
}.

Record HostGroup := mkHostGroup {
  group_id : string;
  group_label : string;
  group_hostIds : list string
}.

(** The fields of the [Partial<HostRecord>] default record that the import
    reads. *)
Record HostDefaults := mkHostDefaults {
  default_os : option string;
  default_enabled : option bool;
  default_groups : option (list string);
  default_notes : option string;
  default_lastSeenAt : option string
}.

Definition noDefaults : HostDefaults := mkHostDefaults None None None None None.

Record ImportResult := mkImportResult {
  added : Z;
  updated : Z;
  skipped : Z
}.

Record HostRegistrySnapshot := mkHostRegistrySnapshot {
  snapshot_hosts : list HostRecord;
  snapshot_groups : list HostGroup
}.

Record HostRegistry := mkHostRegistry {
  hosts : gmap string HostRecord;
  groups : gmap string HostGroup;
  subject : HostRegistrySnapshot
}.

Module Registry.

Definition empty : HostRegistry :=
  mkHostRegistry ∅ ∅ (mkHostRegistrySnapshot [] []).

Definition listHosts (r : HostRegistry) : list HostRecord :=
  (map_to_list (hosts r)).*2.

Definition listGroups (r : HostRegistry) : list HostGroup :=
  (map_to_list (groups r)).*2.

Definition publish (r : HostRegistry) : HostRegistry :=
  mkHostRegistry (hosts r) (groups r)
    (mkHostRegistrySnapshot (listHosts r) (listGroups r)).

Definition getHostById (r : HostRegistry) (hostId : string) : option HostRecord :=
  hosts r !! hostId.

Definition upsertHost (h : HostRecord) (r : HostRegistry) : HostRegistry :=
  publish (mkHostRegistry (<[host_id h := h]> (hosts r)) (groups r) (subject r)).

(** The non-empty trimmed lines of the text. *)
Definition csvLines (csvContent : string) : list string :=
  List.filter (fun line => (0 <? Z.of_nat (String.length line)))
    (List.map Js.trim (Js.split_lines csvContent)).

Definition csvHeaders (headerLine : string) : list string :=
  List.map (fun h => Js.toLowerCase (Js.trim h)) (Js.split_on Js.is_comma headerLine).

(** The five column positions computed from the header line. *)
Record Columns := mkColumns {
  idIndex : Z;
  nameIndex : Z;
  addressIndex : Z;
  osIndex : Z;
  tagsIndex : Z
}.

Definition columnsOf (headers : list string) : Columns :=
  mkColumns
    (Js.indexOf headers "id")
    (if 0 <=? Js.indexOf headers "nom" then Js.indexOf headers "nom"
     else Js.indexOf headers "name")
    (if 0 <=? Js.indexOf headers "ip" then Js.indexOf headers "ip"
     else Js.indexOf headers "address")
    (Js.indexOf headers "os")
    (if 0 <=? Js.indexOf headers "tag" then Js.indexOf headers "tag"
     else Js.indexOf headers "tags").

Definition rawColumnsOf (line : string) : list string :=
  List.map Js.trim (Js.split_on Js.is_comma line).

Definition rowId (cols : Columns) (i : nat) (line : string) : string :=
  Js.nullish (Js.at_index (rawColumnsOf line) (idIndex cols)) ("host-" +:+ Js.of_nat i).

Definition rowAddress (cols : Columns) (line : string) : string :=
  Js.nullish (Js.at_index (rawColumnsOf line) (addressIndex cols)) "".

Definition rowTags (cols : Columns) (line : string) : list string :=
  let tagsRaw := Js.nullish (Js.at_index (rawColumnsOf line) (tagsIndex cols)) "" in
  if (0 <? Z.of_nat (String.length tagsRaw))
  then List.filter Js.truthy (List.map Js.trim (Js.split_on Js.is_tag_separator tagsRaw))
  else [].

(** The record built by the loop body for line number [i]; [None] when the
    body takes the [continue] branch. *)
Definition rowHost (cols : Columns) (defaults : HostDefaults) (i : nat) (line : string)
  : option HostRecord :=
  let rawColumns := rawColumnsOf line in
  let id := rowId cols i line in
  let name := Js.nullish (Js.at_index rawColumns (nameIndex cols)) id in
  let address := rowAddress cols line in
  if negb (Js.truthy address) then None
  else
    let os :=
      match Js.at_index rawColumns (osIndex cols) with
      | Some o => o
      | None => Js.nullish (default_os defaults) "windows"
      end in
    Some (mkHostRecord id name address os (rowTags cols line)
            (Js.nullish (default_enabled defaults) true)
            (Some (Js.nullish (default_groups defaults) []))
            (default_notes defaults)
            (default_lastSeenAt defaults)).

(** The loop state: the three counters and the host table. *)
Definition ImportState : Type := ImportResult * gmap string HostRecord.

Definition importRow (cols : Columns) (defaults : HostDefaults) (i : nat) (line : string)
  (st : ImportState) : ImportState :=
  let '(res, table) := st in
  match rowHost cols defaults i line with
  | None => (mkImportResult (added res) (updated res) (skipped res + 1), table)
  | Some host =>
      let id := host_id host in
      let res' :=
        if bool_decide (is_Some (table !! id))
        then mkImportResult (added res) (updated res + 1) (skipped res)
        else mkImportResult (added res + 1) (updated res) (skipped res) in
      (res', <[id := host]> table)
  end.

(** [for (let i = 1; i < lines.length; i += 1)], entered at index [i] with
    the lines that remain. *)
Fixpoint importRows (cols : Columns) (defaults : HostDefaults) (i : nat)
  (rows : list string) (st : ImportState) : ImportState :=
  match rows with
  | [] => st
  | line :: rest => importRows cols defaults (S i) rest (importRow cols defaults i line st)
  end.

Definition importFromCsv (csvContent : string) (defaults : HostDefaults) (r : HostRegistry)
  : ImportResult * HostRegistry :=
  match csvLines csvContent with
  | [] => (mkImportResult 0 0 0, r)
  | headerLine :: rows =>
      let cols := columnsOf (csvHeaders headerLine) in
      let '(res, table) :=
        importRows cols defaults 1 rows (mkImportResult 0 0 0, hosts r) in
      (res, publish (mkHostRegistry table (groups r) (subject r)))
  end.

End Registry.

(** *** What the design document says about the import, as functions of the
    rows alone *)

Module ImportSpec.
Import Registry.

(** The counters the document prescribes: a row without address is skipped,
    a row whose id is already known is an update, any other row is an
    addition (and its id becomes known). *)
Fixpoint countRows (cols : Columns) (i : nat) (rows : list string)
  (known : gset string) (res : ImportResult) : ImportResult :=
  match rows with
  | [] => res
  | line :: rest =>
      if negb (Js.truthy (rowAddress cols line))
      then countRows cols (S i) rest known
             (mkImportResult (added res) (updated res) (skipped res + 1))
      else if bool_decide (rowId cols i line ∈ known)
      then countRows cols (S i) rest known
             (mkImportResult (added res) (updated res + 1) (skipped res))
      else countRows cols (S i) rest ({[rowId cols i line]} ∪ known)
             (mkImportResult (added res + 1) (updated res) (skipped res))
  end.

(** The record of the last row that carries [id] and has an address. *)
Fixpoint lastImported (cols : Columns) (defaults : HostDefaults) (i : nat)
  (rows : list string) (id : string) : option HostRecord :=
  match rows with
  | [] => None
  | line :: rest =>
      match lastImported cols defaults (S i) rest id with
      | Some h => Some h
      | None =>
          if Js.truthy (rowAddress cols line) && String.eqb (rowId cols i line) id
          then rowHost cols defaults i line
          else None
      end
  end.

Definition header (csvContent : string) : Columns :=
  columnsOf (csvHeaders (hd "" (csvLines csvContent))).

Definition dataRows (csvContent : string) : list string := tl (csvLines csvContent).

Definition withoutAddress (cols : Columns) (line : string) : bool :=
  negb (Js.truthy (rowAddress cols line)).

(** The tables of the two scenarios of the document. *)
Definition twoRowsOneWithoutAddress : string :=
  "id,name,address" +:+ Js.newline +:+ "h1,PC-01,10.0.0.1" +:+ Js.newline +:+ "h2,PC-02,".

Definition firstImport : string :=
  "id,nom,ip" +:+ Js.newline +:+ "h1,PC-01,10.0.0.1".

Definition secondImport : string :=
  "id,nom,ip" +:+ Js.newline +:+ "h1,PC-01,10.0.0.2".

(** *** The format of the table, as the document describes it

    Comma-delimited text with a header row; the columns are recognised by
    their headers, whatever the case of their letters: id, name or nom,
    address or ip, os, tags or tag.  A table is given here as it is
    written: line by line and cell by cell, each cell with the white space
    written around its text, each line with its line end. *)

(** The white space that can be written around the text of a cell: the
    white space characters and line terminators of ECMAScript, by their
    code points, the line feed and the carriage return apart. *)
Definition blanks : list N :=
  [ 9; 11; 12; 32; 160; 5760; 8192; 8193; 8194; 8195; 8196; 8197; 8198; 8199; 8200;
    8201; 8202; 8232; 8233; 8239; 8287; 12288; 65279 ]%N.

Record Cell := mkCell {
  cell_before : list N;
  cell_text : string;
  cell_after : list N
}.

(** A line: its cells, and whether it ends with a carriage return and a
    line feed rather than with a line feed alone. *)
Record Line := mkLine {
  line_cells : list Cell;
  line_crlf : bool
}.

Definition pad (codePoints : list N) : string :=
  fold_right (fun codePoint rest => Js.utf8 codePoint +:+ rest) "" codePoints.

Definition writeCell (c : Cell) : string :=
  pad (cell_before c) +:+ cell_text c +:+ pad (cell_after c).

Fixpoint writeCells (cells : list Cell) : string :=
  match cells with
  | [] => ""
  | [c] => writeCell c
  | c :: rest => writeCell c +:+ "," +:+ writeCells rest
  end.

Definition lineEnd (crlf : bool) : string :=
  if crlf then String Js.CR Js.newline else Js.newline.

(** The text of the table; the last line has no line end (a text that
    ends with one has an empty last line). *)
Fixpoint write (lines : list Line) : string :=
  match lines with
  | [] => ""
  | [l] => writeCells (line_cells l)
  | l :: rest => writeCells (line_cells l) +:+ lineEnd (line_crlf l) +:+ write rest
  end.

(** The text of a cell holds no comma and no line end, and it begins and
    ends with a visible ASCII character. *)
Definition visible (c : ascii) : bool :=
  let n := nat_of_ascii c in
  (33 <=? n)%nat && (n <=? 126)%nat.

Definition inText (c : ascii) : bool :=
  negb (Js.is_comma c || Ascii.eqb c Js.LF || Ascii.eqb c Js.CR).

Definition plainText (text : string) : bool :=
  let chars := list_ascii_of_string text in
  forallb inText chars
  && match chars with [] => true | c :: _ => visible c end
  && match rev chars with [] => true | c :: _ => visible c end.

Definition isBlank (codePoint : N) : bool := existsb (N.eqb codePoint) blanks.

Definition wellWrittenCell (c : Cell) : bool :=
  forallb isBlank (cell_before c) && plainText (cell_text c) && forallb isBlank (cell_after c).

Definition wellWritten (lines : list Line) : bool :=
  forallb (fun l => forallb wellWrittenCell (line_cells l)) lines.

(** The rows of the table: the texts of the cells of every line that is
    not empty.  The first row is the header row. *)
Definition textsOf (l : Line) : list string := List.map cell_text (line_cells l).

Definition emptyLine (texts : list string) : bool :=
  match texts with
  | [] => true
  | [text] => negb (Js.truthy text)
  | _ => false
  end.

Definition rowsOf (lines : list Line) : list (list string) :=
  List.filter (fun texts => negb (emptyLine texts)) (List.map textsOf lines).

Definition headersOf (lines : list Line) : list string := hd [] (rowsOf lines).

Definition dataOf (lines : list Line) : list (list string) := tl (rowsOf lines).

(** A header reads [name], a name in lower case, whatever the case of its
    own letters. *)
Definition sameLetter (n h : ascii) : bool :=
  let k := nat_of_ascii h in
  if ((65 <=? k)%nat && (k <=? 90)%nat)%bool
  then (nat_of_ascii n =? k + 32)%nat
  else Ascii.eqb n h.

Fixpoint reads (name header : string) : bool :=
  match name, header with
  | EmptyString, EmptyString => true
  | String n name', String h header' => sameLetter n h && reads name' header'
  | _, _ => false
  end.

(** The cell of a row in the first column whose header reads [name]:
    [None] when there is no such column, or when the row ends before
    it. *)
Fixpoint field (name : string) (headers cells : list string) : option string :=
  match headers with
  | [] => None
  | header :: headers' =>
      if reads name header then head cells else field name headers' (tail cells)
  end.

Definition hasColumn (name : string) (headers : list string) : bool :=
  existsb (reads name) headers.

(** The address of a row is its cell in the ip column or, when the table
    has no ip column, in the address column. *)
Definition addressOf (headers cells : list string) : option string :=
  if hasColumn "ip" headers then field "ip" headers cells
  else field "address" headers cells.

Definition missingAddress (headers cells : list string) : bool :=
  match addressOf headers cells with
  | None => true
  | Some address => negb (Js.truthy address)
  end.

(** The id of the row number [i] is its cell in the id column, or
    [host-i] without it. *)
Definition idOf (headers : list string) (i : nat) (cells : list string) : string :=
  Js.nullish (field "id" headers cells) ("host-" +:+ Js.of_nat i).

(** The counters the document prescribes, over the rows: a row whose
    address is missing or empty is skipped, a row whose id is known is an
    update, any other row is an addition, and its id becomes known. *)
Fixpoint count (headers : list string) (i : nat) (rows : list (list string))
  (known : gset string) (res : ImportResult) : ImportResult :=
  match rows with
  | [] => res
  | cells :: rest =>
      if missingAddress headers cells
      then count headers (S i) rest known
             (mkImportResult (added res) (updated res) (skipped res + 1))
      else if bool_decide (idOf headers i cells ∈ known)
      then count headers (S i) rest known
             (mkImportResult (added res) (updated res + 1) (skipped res))
      else count headers (S i) rest ({[idOf headers i cells]} ∪ known)
             (mkImportResult (added res + 1) (updated res) (skipped res))
  end.

(** The address of the last row that carries [id] and is not skipped. *)
Fixpoint latestAddress (headers : list string) (i : nat) (rows : list (list string))
  (id : string) : option string :=
  match rows with
  | [] => None
  | cells :: rest =>
      match latestAddress headers (S i) rest id with
      | Some address => Some address
      | None =>
          if negb (missingAddress headers cells) && String.eqb (idOf headers i cells) id
          then addressOf headers cells
          else None
      end
  end.

(** The import reads a line as a row: the line is not empty, and its
    cells, as the import cuts them out, are those of the row. *)
Definition readAs (line : string) (cells : list string) : Prop :=
  line <> "" /\ rawColumnsOf line = cells.

(** The column positions the import computes from these headers. *)
Definition columnsFor (headers : list string) : Columns :=
  columnsOf (List.map Js.toLowerCase headers).

(** A table written with a byte order mark, padded cells, headers in upper
    case and both kinds of line ends: its second row has no address cell,
    its third an empty one, and its fourth carries the id of the first. *)
Definition paddedTable : list Line :=
  let nbsp := 160%N in
  let bom := 65279%N in
  let plain text := mkCell [] text [] in
  [ mkLine [ mkCell [bom] "ID" [32%N]; mkCell [9%N] "Nom" []; mkCell [nbsp] "IP" [nbsp] ] true;
    mkLine [ plain "h1"; mkCell [32%N; 32%N] "PC-01" []; mkCell [] "10.0.0.1" [12288%N] ] true;
    mkLine [ mkCell [] "" [32%N] ] false;
    mkLine [ plain "h2"; plain "PC-02" ] false;
    mkLine [ plain "h3"; plain "PC-03"; mkCell [32%N] "" [9%N] ] true;
    mkLine [ plain "h1"; plain "PC-01"; plain "10.0.0.9" ] false;
    mkLine [] false ].

End ImportSpec.


(** ** Doubles

    The numbers of the program are IEEE 754 doubles (binary64).  A counter
    or a number of milliseconds is an integer below [2 ^ 53], which a double
    holds exactly; a quotient of two such integers need not be a double, and
    the division of the program returns the double nearest to it.  A double
    is given here by the rational number it denotes, and an operation by the
    rounding of its exact result: to the nearest double, and to the one with
    the even significand when two doubles are as near; 53 significant bits,
    and subnormal numbers below [2 ^ -1022].  Overflow to an infinity is not
    modelled: no number as large as [2 ^ 1024] is computed. *)

Module Double.

(** The integer part of the binary logarithm of [x], for [0 < x]. *)
Definition ilog2 (x : Q) : Z :=
  let k := Z.log2 (Qnum x) - Z.log2 (Zpos (Qden x)) in
  if Qle_bool (2 ^ k) x then k else k - 1.

(** The integer nearest to [x], the even one of the two when [x] is half
    way between two integers. *)
Definition nearestEven (x : Q) : Z :=
  let f := Qfloor x in
  match (x - inject_Z f ?= 1 # 2)%Q with
  | Lt => f
  | Gt => f + 1
  | Eq => if Z.even f then f else f + 1
  end.

(** The exponent of the unit in the last place of the doubles around
    [x]. *)
Definition ulpExponent (x : Q) : Z := Z.max (ilog2 (Qabs x) - 52) (-1074).

(** The double nearest to [x]. *)
Definition round (x : Q) : Q :=
  if Qeq_bool x 0 then 0%Q
  else (inject_Z (nearestEven (x / 2 ^ ulpExponent x)) * 2 ^ ulpExponent x)%Q.

(** [x + y] and [x / y] on doubles. *)
Definition add (x y : Q) : Q := round (x + y).
Definition div (x y : Q) : Q := round (x / y).

(** Half the distance between 1 and the double below it, [2 ^ -54]. *)
Definition halfUlpBelowOne : Q := 1 # 18014398509481984.

(** The binary64 operations of the standard library's specification of
    floating-point numbers, to compare [div] and [add] with: the float
    that holds a counter, and the number a finite float denotes. *)
Definition ofCounter (n : Z) : SpecFloat.spec_float :=
  match n with
  | Zpos p => SpecFloat.S754_finite false p 0
  | Zneg p => SpecFloat.S754_finite true p 0
  | Z0 => SpecFloat.S754_zero false
  end.

Definition valueOf (f : SpecFloat.spec_float) : Q :=
  match f with
  | SpecFloat.S754_finite sign m e =>
      ((if (sign : bool) then -1 else 1) * inject_Z (Zpos m) * 2 ^ e)%Q
  | _ => 0%Q
  end.

(** For the two counters [c] and [n - c] of [n] jobs: the two quotients
    and their sum, computed by [div] and [add], are those of the
    specification. *)
Definition agreesOn (c n : Z) : bool :=
  let x := SpecFloat.SFdiv 53 1024 (ofCounter c) (ofCounter n) in
  let y := SpecFloat.SFdiv 53 1024 (ofCounter (n - c)) (ofCounter n) in
  Qeq_bool (div (inject_Z c) (inject_Z n)) (valueOf x)
  && Qeq_bool (div (inject_Z (n - c)) (inject_Z n)) (valueOf y)
  && Qeq_bool (add (valueOf x) (valueOf y)) (valueOf (SpecFloat.SFadd 53 1024 x y)).

Definition agreesUpTo (bound : nat) : bool :=
  forallb (fun n => forallb (fun c => agreesOn (Z.of_nat c) (Z.of_nat n)) (seq 0 (S n)))
    (seq 1 bound).

End Double.

(** ** Jobs, results and contexts ([models/types.ts]) *)

Inductive JobState := Queued | Running | Succeeded | Failed | Cancelled | Skipped.
Inductive DeploymentAction := Detect | Upload | Erase.
Inductive JobMode := Normal | DryRun.

(** The status of a result: one of the three of its declared type, or any
    other value ([Unlisted]), which the unchecked cast of a parsed response
    lets through ([WinRMClient.execute] copies the [status] member of
    whatever its agent printed). *)
Inductive ResultStatus := OK | ERROR | TIMEOUT | Unlisted.

Record JobMetrics := mkJobMetrics {
  queuedAt : Z;
  startedAt : option Z;
  completedAt : option Z;
  elapsedMs : option Z;
  attempt : Z
}.

Record DeploymentResult := mkDeploymentResult {
  result_status : ResultStatus;
  result_port : option string;
  result_elapsedMs : option Z;
  result_logs : list string;
  result_error : option string;
  result_checksum : option string
}.

Record DeploymentJob := mkDeploymentJob {
  job_id : string;
  job_hostId : string;
  job_action : DeploymentAction;
  job_profileId : string;
  job_sketchPath : option string;
  job_hexPath : option string;
  job_mode : JobMode;
  job_status : JobState;
  job_metrics : JobMetrics;
  job_result : option DeploymentResult;
  job_error : option string
}.

Record DeploymentProfile := mkDeploymentProfile {
  profile_id : string;
  profile_fqbn : string;
  profile_maxParallel : Z;
  profile_timeoutMs : Z;
  profile_retryCount : option Z
}.

(** The members of [DeploymentContext] that the scheduler, the manager and
    the strategies read: the profile, the host and the dry-run option. *)
Record DeploymentContext := mkDeploymentContext {
  ctx_profile : DeploymentProfile;
  ctx_host : HostRecord;
  ctx_dryRun : option bool
}.

(** A thrown value: an [Error] with its message, an error of a subclass of
    [Error] with its name and its message, or any other value with its
    [String(...)] rendering. *)
Inductive Thrown :=
| ErrorObject (message : string)
| NamedError (name message : string)
| OtherValue (rendering : string).

(** How a call of the executor ends: its promise resolves with a result or
    rejects with a thrown value. *)
Inductive Outcome :=
| Resolves (result : DeploymentResult)
| Rejects (error : Thrown).

(** What is known of an executor: which outcomes a call with the given
    arguments may have. *)
Definition ExecutorModel : Type := DeploymentJob -> DeploymentContext -> Outcome -> bool.

#[global] Instance JobState_eq_dec : EqDecision JobState.
Proof. solve_decision. Defined.
#[global] Instance DeploymentAction_eq_dec : EqDecision DeploymentAction.
Proof. solve_decision. Defined.
#[global] Instance JobMode_eq_dec : EqDecision JobMode.
Proof. solve_decision. Defined.
#[global] Instance ResultStatus_eq_dec : EqDecision ResultStatus.
Proof. solve_decision. Defined.
#[global] Instance DeploymentResult_eq_dec : EqDecision DeploymentResult.
Proof. solve_decision. Defined.
#[global] Instance Thrown_eq_dec : EqDecision Thrown.
Proof. solve_decision. Defined.
#[global] Instance Outcome_eq_dec : EqDecision Outcome.
Proof. solve_decision. Defined.

(** Functional updates of a job, as the object spreads of the source. *)
Definition with_status (st : JobState) (job : DeploymentJob) : DeploymentJob :=
  mkDeploymentJob (job_id job) (job_hostId job) (job_action job) (job_profileId job)
    (job_sketchPath job) (job_hexPath job) (job_mode job) st (job_metrics job)
    (job_result job) (job_error job).

Definition with_metrics (m : JobMetrics) (job : DeploymentJob) : DeploymentJob :=
  mkDeploymentJob (job_id job) (job_hostId job) (job_action job) (job_profileId job)
    (job_sketchPath job) (job_hexPath job) (job_mode job) (job_status job) m
    (job_result job) (job_error job).

Definition with_result (r : option DeploymentResult) (job : DeploymentJob) : DeploymentJob :=
  mkDeploymentJob (job_id job) (job_hostId job) (job_action job) (job_profileId job)
    (job_sketchPath job) (job_hexPath job) (job_mode job) (job_status job) (job_metrics job)
    r (job_error job).

Definition with_error (e : option string) (job : DeploymentJob) : DeploymentJob :=
  mkDeploymentJob (job_id job) (job_hostId job) (job_action job) (job_profileId job)
    (job_sketchPath job) (job_hexPath job) (job_mode job) (job_status job) (job_metrics job)
    (job_result job) e.

(** [String(error)] and [error instanceof Error ? error.message : String(error)]. *)
Definition String_of (e : Thrown) : string :=
  match e with
  | ErrorObject message => if Js.truthy message then "Error: " +:+ message else "Error"
  | NamedError name message =>
      if Js.truthy name
      then if Js.truthy message then name +:+ ": " +:+ message else name
      else message
  | OtherValue rendering => rendering
  end.

Definition message_of (e : Thrown) : string :=
  match e with
  | ErrorObject message => message
  | NamedError _ message => message
  | OtherValue rendering => rendering
  end.

(** ** The job queue ([JobQueue]) *)

Record JobQueueOptions := mkJobQueueOptions {
  maxParallel : Z;
  retryCount : Z;
  throttleMs : Z;
  metricsWindowSize : option Z
}.

Definition DEFAULT_OPTIONS : JobQueueOptions := mkJobQueueOptions 4 1 0 (Some 50).

Record EnqueueJobInput := mkEnqueueJobInput {
  input_hostId : string;
  input_action : DeploymentAction;
  input_profileId : string;
  input_sketchPath : option string;
  input_hexPath : option string;
  input_mode : option JobMode;
  input_context : DeploymentContext
}.

Record QueueSnapshot := mkQueueSnapshot {
  snapshot_jobs : list DeploymentJob;
  activeCount : Z;
  waitingCount : Z;
  completedCount : Z;
  failedCount : Z
}.

Record QueueTelemetry := mkQueueTelemetry {
  averageDurationMs : Q;
  throughputPerMinute : Z;
  successRate : Q;
  failureRate : Q
}.

Record RunningJobContext := mkRunningJobContext {
  running_job : DeploymentJob;
  running_context : DeploymentContext
}.

(** The events delivered to the listeners of the emitter. *)
Inductive QueueEvent :=
| JobEnqueued (job : DeploymentJob)
| JobStarted (job : DeploymentJob)
| JobCompleted (job : DeploymentJob)
| JobFailed (job : DeploymentJob) (error : Thrown)
| JobRetried (job : DeploymentJob) (nextAttempt : Z)
| SnapshotEvent (snapshot : QueueSnapshot).

(** The asynchronous frames of the queue that are suspended at an [await],
    with the job object each one has captured:
    - [AwaitExecutor]: [executeJob] at [await this.executor(job, context)];
    - [AwaitRetryDelay]: [handleJobFailure] at [await delay(100)];
    - [AwaitFailureHandled]: [executeJob] at [await this.handleJobFailure(...)]
      once that call has returned, the [finally] block still to run;
    - [AwaitThrottle]: [processQueue] at [await delay(waitDuration)]. *)
Inductive Continuation :=
| AwaitExecutor (job : DeploymentJob) (context : DeploymentContext)
| AwaitRetryDelay (job : DeploymentJob)
| AwaitFailureHandled (job : DeploymentJob)
| AwaitThrottle (job : DeploymentJob) (context : DeploymentContext).

(** The members of the class, followed by what the embedding adds to observe
    the queue: the events emitted so far (oldest first), the calls made to
    the executor so far (oldest first) and the suspended frames (oldest
    first). *)
Record JobQueue := mkJobQueue {
  jobSubject : list DeploymentJob;
  contextByJob : gmap string DeploymentContext;
  jobs : gmap string DeploymentJob;
  waitingQueue : list string;
  activeJobs : gmap string RunningJobContext;
  completedDurations : list Z;
  completionHistory : list Z;
  running : bool;
  processing : bool;
  lastStartTimestamp : Z;
  emitted : list QueueEvent;
  executorCalls : list (DeploymentJob * DeploymentContext);
  suspended : list Continuation
}.

Definition set_jobSubject v q :=
  mkJobQueue v (contextByJob q) (jobs q) (waitingQueue q) (activeJobs q)
    (completedDurations q) (completionHistory q) (running q) (processing q)
    (lastStartTimestamp q) (emitted q) (executorCalls q) (suspended q).
Definition set_contextByJob v q :=
  mkJobQueue (jobSubject q) v (jobs q) (waitingQueue q) (activeJobs q)
    (completedDurations q) (completionHistory q) (running q) (processing q)
    (lastStartTimestamp q) (emitted q) (executorCalls q) (suspended q).
Definition set_jobs v q :=
  mkJobQueue (jobSubject q) (contextByJob q) v (waitingQueue q) (activeJobs q)
    (completedDurations q) (completionHistory q) (running q) (processing q)
    (lastStartTimestamp q) (emitted q) (executorCalls q) (suspended q).
Definition set_waitingQueue v q :=
  mkJobQueue (jobSubject q) (contextByJob q) (jobs q) v (activeJobs q)
    (completedDurations q) (completionHistory q) (running q) (processing q)
    (lastStartTimestamp q) (emitted q) (executorCalls q) (suspended q).
Definition set_activeJobs v q :=
  mkJobQueue (jobSubject q) (contextByJob q) (jobs q) (waitingQueue q) v
    (completedDurations q) (completionHistory q) (running q) (processing q)
    (lastStartTimestamp q) (emitted q) (executorCalls q) (suspended q).
Definition set_completedDurations v q :=
  mkJobQueue (jobSubject q) (contextByJob q) (jobs q) (waitingQueue q) (activeJobs q)
    v (completionHistory q) (running q) (processing q)
    (lastStartTimestamp q) (emitted q) (executorCalls q) (suspended q).
Definition set_completionHistory v q :=
  mkJobQueue (jobSubject q) (contextByJob q) (jobs q) (waitingQueue q) (activeJobs q)
    (completedDurations q) v (running q) (processing q)
    (lastStartTimestamp q) (emitted q) (executorCalls q) (suspended q).
Definition set_running v q :=
  mkJobQueue (jobSubject q) (contextByJob q) (jobs q) (waitingQueue q) (activeJobs q)
    (completedDurations q) (completionHistory q) v (processing q)
    (lastStartTimestamp q) (emitted q) (executorCalls q) (suspended q).
Definition set_processing v q :=
  mkJobQueue (jobSubject q) (contextByJob q) (jobs q) (waitingQueue q) (activeJobs q)
    (completedDurations q) (completionHistory q) (running q) v
    (lastStartTimestamp q) (emitted q) (executorCalls q) (suspended q).
Definition set_lastStartTimestamp v q :=
  mkJobQueue (jobSubject q) (contextByJob q) (jobs q) (waitingQueue q) (activeJobs q)
    (completedDurations q) (completionHistory q) (running q) (processing q)
    v (emitted q) (executorCalls q) (suspended q).
Definition set_emitted v q :=
  mkJobQueue (jobSubject q) (contextByJob q) (jobs q) (waitingQueue q) (activeJobs q)
    (completedDurations q) (completionHistory q) (running q) (processing q)
    (lastStartTimestamp q) v (executorCalls q) (suspended q).
Definition set_executorCalls v q :=
  mkJobQueue (jobSubject q) (contextByJob q) (jobs q) (waitingQueue q) (activeJobs q)
    (completedDurations q) (completionHistory q) (running q) (processing q)
    (lastStartTimestamp q) (emitted q) v (suspended q).
Definition set_suspended v q :=
  mkJobQueue (jobSubject q) (contextByJob q) (jobs q) (waitingQueue q) (activeJobs q)
    (completedDurations q) (completionHistory q) (running q) (processing q)
    (lastStartTimestamp q) (emitted q) (executorCalls q) v.

(** [array.slice(start)] *)
Definition slice_from {A} (start : Z) (xs : list A) : list A :=
  let len := Z.of_nat (length xs) in
  drop (Z.to_nat (if start <? 0 then Z.max (len + start) 0 else Z.min start len)) xs.

(** [array.splice(array.indexOf(x), 1)] when [x] occurs, nothing otherwise. *)
Fixpoint remove_first (x : string) (xs : list string) : list string :=
  match xs with
  | [] => []
  | y :: ys => if String.eqb y x then ys else y :: remove_first x ys
  end.

(** The first element that satisfies [p], with the others in their order. *)
Fixpoint take_first {A} (p : A -> bool) (xs : list A) : option (A * list A) :=
  match xs with
  | [] => None
  | y :: ys =>
      if p y then Some (y, ys)
      else match take_first p ys with
           | Some (found, others) => Some (found, y :: others)
           | None => None
           end
  end.

Module Queue.

(** [new JobQueue(executor, options)] *)
Definition new : JobQueue :=
  mkJobQueue [] ∅ ∅ [] ∅ [] [] false false 0 [] [] [].

(** [Array.from(this.jobs.values())] *)
Definition jobValues (q : JobQueue) : list DeploymentJob :=
  (map_to_list (jobs q)).*2.

Definition countStatus (st : JobState) (js : list DeploymentJob) : Z :=
  Z.of_nat (length (filter (fun job => job_status job = st) js)).

Definition getSnapshot (q : JobQueue) : QueueSnapshot :=
  let js := jobValues q in
  mkQueueSnapshot js
    (Z.of_nat (size (activeJobs q)))
    (Z.of_nat (length (waitingQueue q)))
    (countStatus Succeeded js)
    (countStatus Failed js).

Definition sumZ (xs : list Z) : Z := foldl Z.add 0 xs.

Definition getTelemetry (o : JobQueueOptions) (now : Z) (q : JobQueue) : QueueTelemetry :=
  let window := Js.nullish (metricsWindowSize o) 50 in
  let durations := slice_from (-1 * window) (completedDurations q) in
  let average :=
    match durations with
    | [] => 0%Q
    | _ => (inject_Z (sumZ durations) / inject_Z (Z.of_nat (length durations)))%Q
    end in
  let completions := slice_from (-1 * window) (completionHistory q) in
  let perMinuteWindow := filter (fun timestamp => now - timestamp <= 60000) completions in
  let js := jobValues q in
  let settled :=
    Z.of_nat (length (filter (fun job => job_status job ∈ [Succeeded; Failed]) js)) in
  let total := if settled =? 0 then 1 else settled in
  mkQueueTelemetry average
    (Z.of_nat (length perMinuteWindow))
    (inject_Z (countStatus Succeeded js) / inject_Z total)%Q
    (inject_Z (countStatus Failed js) / inject_Z total)%Q.

(** [getTelemetry] gives the average and the two rates as the exact
    quotients of their operands.  The program holds them as doubles: it
    adds the durations up by additions of doubles, and computes each
    quotient by one division of doubles, which rounds it. *)
Definition getTelemetryDoubles (o : JobQueueOptions) (now : Z) (q : JobQueue)
  : QueueTelemetry :=
  let window := Js.nullish (metricsWindowSize o) 50 in
  let durations := slice_from (-1 * window) (completedDurations q) in
  let average :=
    match durations with
    | [] => 0%Q
    | _ =>
        Double.div
          (foldl (fun sum value => Double.add sum (inject_Z value)) 0%Q durations)
          (inject_Z (Z.of_nat (length durations)))
    end in
  let js := jobValues q in
  let settled :=
    Z.of_nat (length (filter (fun job => job_status job ∈ [Succeeded; Failed]) js)) in
  let total := if settled =? 0 then 1 else settled in
  mkQueueTelemetry average
    (throughputPerMinute (getTelemetry o now q))
    (Double.div (inject_Z (countStatus Succeeded js)) (inject_Z total))
    (Double.div (inject_Z (countStatus Failed js)) (inject_Z total)).

Definition emit (e : QueueEvent) (q : JobQueue) : JobQueue :=
  set_emitted (emitted q ++ [e]) q.

Definition publishJobs (q : JobQueue) : JobQueue :=
  let q1 := set_jobSubject (jobValues q) q in
  emit (SnapshotEvent (getSnapshot q1)) q1.

Definition createInitialJob (uuid : string) (now : Z) (input : EnqueueJobInput)
  : DeploymentJob :=
  mkDeploymentJob uuid (input_hostId input) (input_action input) (input_profileId input)
    (input_sketchPath input) (input_hexPath input)
    (Js.nullish (input_mode input) Normal) Queued
    (mkJobMetrics now None None None 0) None None.

(** The job objects built by the methods of the queue. *)
Definition runningJob (now : Z) (job : DeploymentJob) : DeploymentJob :=
  let m := job_metrics job in
  with_metrics
    (mkJobMetrics (queuedAt m) (Some now) (completedAt m) (elapsedMs m) (attempt m + 1))
    (with_status Running job).

Definition cancelledJob (now : Z) (job : DeploymentJob) : DeploymentJob :=
  let m := job_metrics job in
  with_metrics
    (mkJobMetrics (queuedAt m) (startedAt m) (Some now) (Some 0) (attempt m))
    (with_status Cancelled job).

Definition computeDuration (startIso : option Z) (endIso : Z) : Z :=
  match startIso with
  | None => 0
  | Some s => Z.max 0 (endIso - s)
  end.

Definition completedJob (now : Z) (result : DeploymentResult) (job : DeploymentJob)
  : DeploymentJob :=
  let m := job_metrics job in
  let elapsed :=
    Js.nullish (result_elapsedMs result)
      (computeDuration (Some (Js.nullish (startedAt m) (queuedAt m))) now) in
  with_error (result_error result)
    (with_result (Some result)
       (with_metrics
          (mkJobMetrics (queuedAt m) (startedAt m) (Some now) (Some elapsed) (attempt m))
          (with_status
             (match result_status result with
              | OK => Succeeded
              | TIMEOUT => Failed
              | _ => Failed
              end) job))).

Definition retriedJob (error : Thrown) (job : DeploymentJob) : DeploymentJob :=
  let m := job_metrics job in
  with_error (Some (String_of error))
    (with_metrics (mkJobMetrics (queuedAt m) None None None (attempt m))
       (with_status Queued job)).

Definition failedJob (now : Z) (error : Thrown) (job : DeploymentJob) : DeploymentJob :=
  let m := job_metrics job in
  with_error (Some (message_of error))
    (with_metrics
       (mkJobMetrics (queuedAt m) (startedAt m) (Some now)
          (Some (computeDuration (Some (Js.nullish (startedAt m) (queuedAt m))) now))
          (attempt m))
       (with_status Failed job)).

(** [void this.executeJob(runningJob, context)] up to its first [await]:
    the executor is called and the frame suspends on its promise. *)
Definition executeJob (job : DeploymentJob) (context : DeploymentContext) (q : JobQueue)
  : JobQueue :=
  set_suspended (suspended q ++ [AwaitExecutor job context])
    (set_executorCalls (executorCalls q ++ [(job, context)]) q).

Definition startJob (now : Z) (job : DeploymentJob) (context : DeploymentContext)
  (q : JobQueue) : JobQueue :=
  let started := runningJob now job in
  let q1 := set_jobs (<[job_id job := started]> (jobs q)) q in
  let q2 :=
    set_activeJobs
      (<[job_id job := mkRunningJobContext started context]> (activeJobs q1)) q1 in
  let q3 := emit (JobStarted started) (publishJobs q2) in
  executeJob started context q3.

(** The [while] loop of [processQueue], entered with the waiting list of
    the queue (no step of the body other than [shift] changes that list).
    The flag tells whether the loop has suspended on the throttle delay. *)
Fixpoint processLoop (o : JobQueueOptions) (now : Z) (waiting : list string)
  (q : JobQueue) : JobQueue * bool :=
  match waiting with
  | [] => (q, false)
  | jobId :: rest =>
      if running q && bool_decide (Z.of_nat (size (activeJobs q)) < maxParallel o)
      then
        let q1 := set_waitingQueue rest q in
        if negb (Js.truthy jobId) then (q1, false)
        else
          match jobs q1 !! jobId, contextByJob q1 !! jobId with
          | Some job, Some context =>
              if bool_decide (0 < throttleMs o)
                 && bool_decide (now - lastStartTimestamp q1 < throttleMs o)
              then (set_suspended (suspended q1 ++ [AwaitThrottle job context]) q1, true)
              else processLoop o now rest
                     (startJob now job context (set_lastStartTimestamp now q1))
          | _, _ => processLoop o now rest q1
          end
      else (q, false)
  end.

(** The [finally] of [processQueue], reached unless the frame is suspended. *)
Definition leaveLoop (r : JobQueue * bool) : JobQueue :=
  if r.2 then r.1 else set_processing false r.1.

Definition processQueue (o : JobQueueOptions) (now : Z) (q : JobQueue) : JobQueue :=
  if negb (running q) || processing q then q
  else leaveLoop (processLoop o now (waitingQueue q) (set_processing true q)).

(** [processQueue] resumed after the throttle delay. *)
Definition throttleElapsed (o : JobQueueOptions) (now : Z) (job : DeploymentJob)
  (context : DeploymentContext) (q : JobQueue) : JobQueue :=
  let q1 := startJob now job context (set_lastStartTimestamp now q) in
  leaveLoop (processLoop o now (waitingQueue q1) q1).

Definition start (o : JobQueueOptions) (now : Z) (q : JobQueue) : JobQueue :=
  if running q then q else processQueue o now (set_running true q).

Definition stop (q : JobQueue) : JobQueue := set_running false q.

Definition enqueue (o : JobQueueOptions) (now : Z) (uuid : string)
  (input : EnqueueJobInput) (q : JobQueue) : JobQueue :=
  let job := createInitialJob uuid now input in
  let q1 := set_jobs (<[job_id job := job]> (jobs q)) q in
  let q2 := set_waitingQueue (waitingQueue q1 ++ [job_id job]) q1 in
  let q3 := set_contextByJob (<[job_id job := input_context input]> (contextByJob q2)) q2 in
  processQueue o now (emit (JobEnqueued job) (publishJobs q3)).

Definition cancel (now : Z) (jobId : string) (q : JobQueue) : JobQueue :=
  match jobs q !! jobId with
  | None => q
  | Some job =>
      if bool_decide (is_Some (activeJobs q !! jobId)) then q
      else
        let q1 := set_waitingQueue (remove_first jobId (waitingQueue q)) q in
        let cancelled := cancelledJob now job in
        emit (JobCompleted cancelled)
          (publishJobs (set_jobs (<[jobId := cancelled]> (jobs q1)) q1))
  end.

Definition cancelAll (now : Z) (q : JobQueue) : JobQueue :=
  foldl (fun acc jobId => cancel now jobId acc) q (waitingQueue q).

Definition getJob (jobId : string) (q : JobQueue) : option DeploymentJob :=
  jobs q !! jobId.

Definition trackMetrics (o : JobQueueOptions) (now : Z) (job : DeploymentJob)
  (q : JobQueue) : JobQueue :=
  let q1 :=
    match elapsedMs (job_metrics job) with
    | Some e =>
        if e =? 0 then q
        else
          let ds := completedDurations q ++ [e] in
          set_completedDurations
            (if bool_decide (Js.nullish (metricsWindowSize o) 50 < Z.of_nat (length ds))
             then tail ds else ds) q
    | None => q
    end in
  let hs := completionHistory q1 ++ [now] in
  set_completionHistory
    (if bool_decide (200 < Z.of_nat (length hs)) then tail hs else hs) q1.

(** The [finally] block of [executeJob]. *)
Definition releaseSlot (o : JobQueueOptions) (now : Z) (job : DeploymentJob)
  (q : JobQueue) : JobQueue :=
  processQueue o now
    (publishJobs (set_activeJobs (delete (job_id job) (activeJobs q)) q)).

(** [executeJob] resumed with the result of the executor: the rest of the
    [try] block, then the [finally] block. *)
Definition executorResolved (o : JobQueueOptions) (now : Z) (job : DeploymentJob)
  (result : DeploymentResult) (q : JobQueue) : JobQueue :=
  let completed := completedJob now result job in
  let q1 := set_jobs (<[job_id job := completed]> (jobs q)) q in
  let q2 := emit (JobCompleted completed) (trackMetrics o now completed q1) in
  releaseSlot o now job q2.

(** [executeJob] resumed with a rejection: [handleJobFailure] up to its
    [await delay(100)] on the retry path, or up to its end otherwise; in
    both cases the [finally] block of [executeJob] runs in a later turn. *)
Definition handleJobFailure (o : JobQueueOptions) (now : Z) (job : DeploymentJob)
  (error : Thrown) (q : JobQueue) : JobQueue :=
  let attemptsRemaining := retryCount o - attempt (job_metrics job) in
  if bool_decide (0 < attemptsRemaining) then
    let retried := retriedJob error job in
    let q1 := set_jobs (<[job_id job := retried]> (jobs q)) q in
    let q2 := set_waitingQueue (waitingQueue q1 ++ [job_id job]) q1 in
    let q3 :=
      publishJobs (emit (JobRetried retried (attempt (job_metrics retried) + 1)) q2) in
    set_suspended (suspended q3 ++ [AwaitRetryDelay job]) q3
  else
    let failed := failedJob now error job in
    let q1 := set_jobs (<[job_id job := failed]> (jobs q)) q in
    let q2 := emit (JobFailed failed error) q1 in
    set_suspended (suspended q2 ++ [AwaitFailureHandled job]) q2.

(** [handleJobFailure] resumed after [delay(100)]: a scheduling pass, then
    the return to [executeJob]. *)
Definition retryDelayElapsed (o : JobQueueOptions) (now : Z) (job : DeploymentJob)
  (q : JobQueue) : JobQueue :=
  let q1 := processQueue o now q in
  set_suspended (suspended q1 ++ [AwaitFailureHandled job]) q1.

End Queue.

(** ** The event loop

    One turn of the event loop runs one piece of synchronous code of the
    queue: a call of a public method, or the resumption of a suspended
    frame.  [now] is the reading of the clock during the turn. *)

Inductive Turn :=
| CallStart
| CallStop
| CallEnqueue (uuid : string) (input : EnqueueJobInput)
| CallCancel (jobId : string)
| CallCancelAll
| ExecutorSettles (jobId : string) (outcome : Outcome)
| RetryDelayElapsed (jobId : string)
| FailureHandled (jobId : string)
| ThrottleElapsed.

Definition awaits_executor (jobId : string) (c : Continuation) : bool :=
  match c with AwaitExecutor job _ => String.eqb (job_id job) jobId | _ => false end.

Definition awaits_retry_delay (jobId : string) (c : Continuation) : bool :=
  match c with AwaitRetryDelay job => String.eqb (job_id job) jobId | _ => false end.

Definition awaits_failure_handled (jobId : string) (c : Continuation) : bool :=
  match c with AwaitFailureHandled job => String.eqb (job_id job) jobId | _ => false end.

Definition awaits_throttle (c : Continuation) : bool :=
  match c with AwaitThrottle _ _ => true | _ => false end.

(** The turn [t] taken at time [now]; [None] when it cannot happen: no frame
    is suspended where the turn resumes one, the executor cannot settle that
    way, or the identifier is not one that [uuidv4()] can return (it returns
    non-empty identifiers that were never returned before). *)
Definition turn (x : ExecutorModel) (o : JobQueueOptions) (now : Z) (t : Turn)
  (q : JobQueue) : option JobQueue :=
  match t with
  | CallStart => Some (Queue.start o now q)
  | CallStop => Some (Queue.stop q)
  | CallEnqueue uuid input =>
      if Js.truthy uuid && bool_decide (jobs q !! uuid = None)
      then Some (Queue.enqueue o now uuid input q)
      else None
  | CallCancel jobId => Some (Queue.cancel now jobId q)
  | CallCancelAll => Some (Queue.cancelAll now q)
  | ExecutorSettles jobId outcome =>
      match take_first (awaits_executor jobId) (suspended q) with
      | Some (AwaitExecutor job context, others) =>
          if x job context outcome then
            let q1 := set_suspended others q in
            Some (match outcome with
                  | Resolves result => Queue.executorResolved o now job result q1
                  | Rejects error => Queue.handleJobFailure o now job error q1
                  end)
          else None
      | _ => None
      end
  | RetryDelayElapsed jobId =>
      match take_first (awaits_retry_delay jobId) (suspended q) with
      | Some (AwaitRetryDelay job, others) =>
          Some (Queue.retryDelayElapsed o now job (set_suspended others q))
      | _ => None
      end
  | FailureHandled jobId =>
      match take_first (awaits_failure_handled jobId) (suspended q) with
      | Some (AwaitFailureHandled job, others) =>
          Some (Queue.releaseSlot o now job (set_suspended others q))
      | _ => None
      end
  | ThrottleElapsed =>
      match take_first awaits_throttle (suspended q) with
      | Some (AwaitThrottle job context, others) =>
          Some (Queue.throttleElapsed o now job context (set_suspended others q))
      | _ => None
      end
  end.

(** A run: the turns taken one after the other, each with its clock reading. *)
Fixpoint run (x : ExecutorModel) (o : JobQueueOptions) (turns : list (Z * Turn))
  (q : JobQueue) : option JobQueue :=
  match turns with
  | [] => Some q
  | (now, t) :: rest =>
      match turn x o now t q with
      | Some q' => run x o rest q'
      | None => None
      end
  end.

(** The states a queue built with options [o] over an executor that behaves
    as [x] can be in. *)
Inductive reachable (x : ExecutorModel) (o : JobQueueOptions) : JobQueue -> Prop :=
| reachable_new : reachable x o Queue.new
| reachable_turn q now t q' :
    reachable x o q -> turn x o now t q = Some q' -> reachable x o q'.

(** An executor about which nothing is known. *)
Definition anyExecutor : ExecutorModel := fun _ _ _ => true.

(** ** Strategies and the deployment manager *)

Record DeploymentStrategy := mkDeploymentStrategy {
  strategy_id : string;
  strategy_label : string;
  supports : HostRecord -> bool;
  execute : ExecutorModel
}.

Module Manager.

(** [this.strategies.set(strategy.id, strategy)] on an insertion-ordered map. *)
Fixpoint registerStrategy (s : DeploymentStrategy) (strategies : list DeploymentStrategy)
  : list DeploymentStrategy :=
  match strategies with
  | [] => [s]
  | s' :: rest =>
      if String.eqb (strategy_id s') (strategy_id s) then s :: rest
      else s' :: registerStrategy s rest
  end.

Fixpoint getStrategyForHost (strategies : list DeploymentStrategy) (host : HostRecord)
  : option DeploymentStrategy :=
  match strategies with
  | [] => None
  | s :: rest => if supports s host then Some s else getStrategyForHost rest host
  end.

Definition noStrategyError (host : HostRecord) : Thrown :=
  ErrorObject ("Aucune stratégie de déploiement disponible pour " +:+ host_os host).

(** [DeploymentManager.executeJob], the executor the manager gives to its
    queue: it rejects when no strategy supports the host and otherwise
    ends as the call of the strategy ends. *)
Definition executeJob (strategies : list DeploymentStrategy) : ExecutorModel :=
  fun job context outcome =>
    match getStrategyForHost strategies (ctx_host context) with
    | None => bool_decide (outcome = Rejects (noStrategyError (ctx_host context)))
    | Some strategy => execute strategy job context outcome
    end.

End Manager.

(** The strategy for Windows hosts ([WinRMClient]): it rejects hosts it does
    not support, answers a dry run with a fixed result, and otherwise ends as
    the remote agent makes it end. *)
Definition action_name (a : DeploymentAction) : string :=
  match a with Detect => "detect" | Upload => "upload" | Erase => "erase" end.

Definition isWindowsHost (host : HostRecord) : bool := String.eqb (host_os host) "windows".

Definition WinRMClient (dryRun : bool) : DeploymentStrategy :=
  mkDeploymentStrategy "winrm" "WinRM (PowerShell)" isWindowsHost
    (fun job context outcome =>
       let host := ctx_host context in
       if negb (isWindowsHost host) then
         bool_decide (outcome =
           Rejects (ErrorObject ("WinRMClient ne supporte pas le système " +:+ host_os host)))
       else if dryRun || bool_decide (job_mode job = DryRun) then
         bool_decide (outcome =
           Resolves (mkDeploymentResult OK None (Some 0)
             [ "Dry-run actif, aucune commande distante exécutée";
               "Action: " +:+ action_name (job_action job);
               "Hôte: " +:+ host_name host +:+ " (" +:+ host_address host +:+ ")" ]
             None None))
       else
         match outcome with
         | Resolves result =>
             bool_decide (is_Some (result_elapsedMs result))
             && bool_decide (result_checksum result = None)
         | Rejects _ => true
         end).

(** ** What the design document says about the telemetry *)

Module TelemetrySpec.

(** The jobs the document calls terminal. *)
Definition terminalCount (q : JobQueue) : Z :=
  Z.of_nat (length (filter (fun job => job_status job ∈ [Succeeded; Failed; Cancelled])
                      (Queue.jobValues q))).

(** The success rate of the document: succeeded jobs over terminal jobs,
    the denominator replaced by 1 when it is 0. *)
Definition successRateOverTerminal (q : JobQueue) : Q :=
  (inject_Z (Queue.countStatus Succeeded (Queue.jobValues q))
   / inject_Z (if terminalCount q =? 0 then 1 else terminalCount q))%Q.

End TelemetrySpec.

(** ** Concrete runs *)

Module Scenario.

Definition host (os : string) : HostRecord :=
  mkHostRecord "pc-01" "PC-01" "10.0.0.1" os [] true None None None.

Definition profile : DeploymentProfile :=
  mkDeploymentProfile "uno" "arduino:avr:uno" 4 180000 None.

Definition context (os : string) : DeploymentContext :=
  mkDeploymentContext profile (host os) None.

Definition upload (os : string) : EnqueueJobInput :=
  mkEnqueueJobInput "pc-01" Upload "uno" None (Some "build/sketch.ino.hex") None (context os).

Definition options (parallel retries : Z) : JobQueueOptions :=
  mkJobQueueOptions parallel retries 0 (Some 50).

Definition unreachableHost : Outcome := Rejects (ErrorObject "ECONNREFUSED").

Definition uploaded : Outcome :=
  Resolves (mkDeploymentResult OK (Some "COM3") (Some 1200) ["upload done"] None None).

(** One job whose first attempt is rejected, up to the moment the failure
    handler waits before the retry. *)
Definition firstAttemptRejected : list (Z * Turn) :=
  [ (0, CallStart);
    (10, CallEnqueue "A" (upload "windows"));
    (20, ExecutorSettles "A" unreachableHost) ].

(** ... then the handler wakes up, runs its scheduling pass and returns,
    and the [finally] block of the first attempt runs. *)
Definition retriedTooEarly : list (Z * Turn) :=
  firstAttemptRejected ++ [ (120, RetryDelayElapsed "A"); (120, FailureHandled "A") ].

(** ... then two more jobs are enqueued. *)
Definition threeAtOnce : list (Z * Turn) :=
  retriedTooEarly ++
  [ (130, CallEnqueue "B" (upload "windows")); (140, CallEnqueue "C" (upload "windows")) ].

(** With one slot: job A fails once and waits behind job B for its retry. *)
Definition retryBehindAnotherJob : list (Z * Turn) :=
  [ (0, CallStart);
    (10, CallEnqueue "A" (upload "windows"));
    (11, CallEnqueue "B" (upload "windows"));
    (20, ExecutorSettles "A" unreachableHost);
    (120, RetryDelayElapsed "A");
    (120, FailureHandled "A") ].

(** One job that succeeds while another one, still waiting, is cancelled. *)
Definition oneSucceededOneCancelled : list (Z * Turn) :=
  [ (0, CallStart);
    (10, CallEnqueue "A" (upload "windows"));
    (11, CallEnqueue "B" (upload "windows"));
    (12, CallCancel "B");
    (1300, ExecutorSettles "A" uploaded) ].

Definition agentFailed : Outcome :=
  Resolves (mkDeploymentResult ERROR None (Some 40) [] (Some "avrdude: no device") None).

(** Three jobs: one succeeds and the two others fail. *)
Definition oneSucceededTwoFailed : list (Z * Turn) :=
  [ (0, CallStart);
    (10, CallEnqueue "A" (upload "windows"));
    (11, CallEnqueue "B" (upload "windows"));
    (12, CallEnqueue "C" (upload "windows"));
    (1300, ExecutorSettles "A" uploaded);
    (1310, ExecutorSettles "B" agentFailed);
    (1320, ExecutorSettles "C" agentFailed) ].

(** One job that succeeds. *)
Definition oneSucceeded : list (Z * Turn) :=
  [ (0, CallStart);
    (10, CallEnqueue "A" (upload "windows"));
    (1300, ExecutorSettles "A" uploaded) ].

(** One job that fails for good on its first attempt. *)
Definition rejectedOnce : list (Z * Turn) :=
  [ (0, CallStart);
    (10, CallEnqueue "A" (upload "windows"));
    (20, ExecutorSettles "A" unreachableHost);
    (20, FailureHandled "A") ].

(** A manager with the Windows strategy only, and a Linux host. *)
Definition strategies : list DeploymentStrategy :=
  Manager.registerStrategy (WinRMClient false) [].

Definition noStrategy : Outcome := Rejects (Manager.noStrategyError (host "linux")).

Definition linuxHostRejected : list (Z * Turn) :=
  [ (0, CallStart);
    (10, CallEnqueue "A" (upload "linux"));
    (10, ExecutorSettles "A" noStrategy) ].

Definition linuxHostRetried : list (Z * Turn) :=
  linuxHostRejected ++ [ (110, RetryDelayElapsed "A") ].

(** The state a run from the new queue ends in (the new queue itself when
    the run is not possible). *)
Definition after (x : ExecutorModel) (o : JobQueueOptions) (turns : list (Z * Turn))
  : JobQueue :=
  Js.nullish (run x o turns Queue.new) Queue.new.

Definition status_of (jobId : string) (q : JobQueue) : option JobState :=
  job_status <$> jobs q !! jobId.

Definition attempt_of (jobId : string) (q : JobQueue) : option Z :=
  (fun job => attempt (job_metrics job)) <$> jobs q !! jobId.

End Scenario.

(** ** Observations on a queue *)

(** The number of calls of the executor made for a job. *)
Definition callsIn (jobId : string) (calls : list (DeploymentJob * DeploymentContext)) : Z :=
  Z.of_nat (length (filter (fun call => job_id call.1 = jobId) calls)).

Definition callsFor (jobId : string) (q : JobQueue) : Z := callsIn jobId (executorCalls q).

(** The number of calls of the executor that have not settled yet. *)
Definition executorsInFlight (q : JobQueue) : nat :=
  length (List.filter (fun c => match c with AwaitExecutor _ _ => true | _ => false end)
            (suspended q)).

(** The job a suspended frame will start or is executing, if any: the jobs
    that are neither waiting nor settled. *)
Definition frame_busy (c : Continuation) : option string :=
  match c with
  | AwaitExecutor job _ => Some (job_id job)
  | AwaitThrottle job _ => Some (job_id job)
  | AwaitRetryDelay _ => None
  | AwaitFailureHandled _ => None
  end.

Definition busy (waiting : list string) (frames : list Continuation) : list string :=
  waiting ++ omap frame_busy frames.

(** An executor that, called for job [jobId] with context [context], can only
    reject, and only with errors that satisfy [E]. *)
Definition alwaysRejects (x : ExecutorModel) (E : Thrown -> Prop) (jobId : string)
  (context : DeploymentContext) : Prop :=
  forall job outcome,
    job_id job = jobId -> x job context outcome = true ->
    exists e, outcome = Rejects e /\ E e.

(** ** The invariant of the queue

    What holds of the job table [J], the waiting list [W], the suspended
    frames [S], the calls of the executor [C] and the contexts [X] of every
    reachable queue.  [E] is a property of thrown values, used in the last
    clause. *)

Definition attemptOf (job : DeploymentJob) : Z := attempt (job_metrics job).

Record CoreInv (x : ExecutorModel) (o : JobQueueOptions) (E : Thrown -> Prop)
  (J : gmap string DeploymentJob) (W : list string) (S : list Continuation)
  (C : list (DeploymentJob * DeploymentContext)) (X : gmap string DeploymentContext)
  : Prop := mkCoreInv {
  (** a job is stored under its own identifier *)
  ci_keys : forall k job, J !! k = Some job -> job_id job = k;
  (** no job waits twice, is executed twice, or waits while it is executed *)
  ci_busy : NoDup (busy W S);
  (** a waiting job is queued and has no start time; its attempts are below
      the retry count, and it has an error when it has attempts *)
  ci_waiting : forall j, j ∈ W ->
    exists cur, J !! j = Some cur
      /\ job_status cur = Queued
      /\ startedAt (job_metrics cur) = None
      /\ (attemptOf cur = 0 \/ (attemptOf cur < retryCount o /\ is_Some (job_error cur)));
  (** the job object captured by a frame that awaits the executor has the
      attempt number of the job in the table, and its context is the one
      stored for the job *)
  ci_executing : forall job ctx, AwaitExecutor job ctx ∈ S ->
    exists cur, J !! job_id job = Some cur
      /\ attemptOf cur = attemptOf job
      /\ 1 <= attemptOf job
      /\ X !! job_id job = Some ctx;
  (** the same for the frame that waits out the throttle delay *)
  ci_throttled : forall job ctx, AwaitThrottle job ctx ∈ S ->
    exists cur, J !! job_id job = Some cur
      /\ attemptOf cur = attemptOf job
      /\ (attemptOf job = 0 \/ attemptOf job < retryCount o)
      /\ X !! job_id job = Some ctx;
  (** the attempt number of a job is the number of calls of the executor made
      for it, and it is at most the retry count, or 1 *)
  ci_attempts : forall j cur, J !! j = Some cur ->
    0 <= attemptOf cur <= Z.max (retryCount o) 1 /\ callsIn j C = attemptOf cur;
  ci_fresh : forall j, J !! j = None -> callsIn j C = 0;
  (** every job has its context *)
  ci_context : forall j cur, J !! j = Some cur -> is_Some (X !! j);
  (** a failed job whose executor can only reject has used up its attempts
      and carries the message of a rejection *)
  ci_rejected : forall j ctx cur,
    X !! j = Some ctx -> alwaysRejects x E j ctx ->
    J !! j = Some cur -> job_status cur = Failed ->
    retryCount o <= attemptOf cur
    /\ 1 <= attemptOf cur
    /\ is_Some (completedAt (job_metrics cur))
    /\ exists e, E e /\ job_error cur = Some (message_of e)
}.

Definition Inv (x : ExecutorModel) (o : JobQueueOptions) (E : Thrown -> Prop)
  (q : JobQueue) : Prop :=
  CoreInv x o E (jobs q) (waitingQueue q) (suspended q) (executorCalls q) (contextByJob q).

(** ** A job whose executor always rejects, alone in its queue *)

Module Alone.

(** The clock advances by this much between two starts, so that no start
    has to wait out the throttle delay. *)
Definition pace (o : JobQueueOptions) : Z := Z.max (throttleMs o) 0.

(** Attempt number [k] is rejected and the job is retried: the failure
    handler runs, its delay elapses, the [finally] block runs. *)
Definition retryRound (o : JobQueueOptions) (jobId : string) (e : Thrown) (k : Z)
  : list (Z * Turn) :=
  [ ((k + 1) * pace o, ExecutorSettles jobId (Rejects e));
    ((k + 1) * pace o, RetryDelayElapsed jobId);
    ((k + 1) * pace o, FailureHandled jobId) ].

(** The last attempt is rejected: the failure handler and the [finally]
    block run. *)
Definition lastRound (o : JobQueueOptions) (jobId : string) (e : Thrown) (k : Z)
  : list (Z * Turn) :=
  [ ((k + 1) * pace o, ExecutorSettles jobId (Rejects e));
    ((k + 1) * pace o, FailureHandled jobId) ].

Fixpoint rounds (o : JobQueueOptions) (jobId : string) (e : Thrown) (retries : nat) (k : Z)
  : list (Z * Turn) :=
  match retries with
  | O => lastRound o jobId e k
  | S retries' => retryRound o jobId e k ++ rounds o jobId e retries' (k + 1)
  end.

(** The queue is started, the job is enqueued, and every attempt is
    rejected with [e]. *)
Definition turns (o : JobQueueOptions) (jobId : string) (input : EnqueueJobInput)
  (e : Thrown) : list (Z * Turn) :=
  [ (0, CallStart); (pace o, CallEnqueue jobId input) ]
  ++ rounds o jobId e (Z.to_nat (Z.max (retryCount o) 1 - 1)) 1.

(** The queue while attempt number [k] of the job is in flight. *)
Record Attempting (o : JobQueueOptions) (jobId : string) (ctx : DeploymentContext)
  (k : Z) (q : JobQueue) : Prop := mkAttempting {
  at_running : running q = true;
  at_processing : processing q = false;
  at_waiting : waitingQueue q = [];
  at_frame : exists job,
    suspended q = [AwaitExecutor job ctx]
    /\ job_id job = jobId
    /\ attemptOf job = k
    /\ jobs q !! jobId = Some job
    /\ contextByJob q !! jobId = Some ctx;
  at_clock : lastStartTimestamp q = k * pace o;
  at_active : delete jobId (activeJobs q) = ∅
}.

(** The queue once the job has failed for good. *)
Record Settled (jobId : string) (k : Z) (e : Thrown) (q : JobQueue) : Prop := mkSettled {
  st_waiting : waitingQueue q = [];
  st_frames : suspended q = [];
  st_job : exists failed,
    jobs q !! jobId = Some failed
    /\ job_status failed = Failed
    /\ attemptOf failed = k
    /\ is_Some (completedAt (job_metrics failed))
    /\ job_error failed = Some (message_of e)
}.

End Alone.

(** An executor that rejects every call with the same error. *)
Definition rejectsWith (e : Thrown) : ExecutorModel :=
  fun _ _ outcome => bool_decide (outcome = Rejects e).

(** ** The active set and the parallelism bound *)

(** The number of scheduling passes suspended on the throttle delay. *)
Definition throttleFrames (frames : list Continuation) : nat :=
  length (List.filter awaits_throttle frames).

(** The active set never holds more than [maxParallel] jobs; at most one
    scheduling pass is suspended on the throttle delay, the [processing] flag
    is then set and a slot is free for the job the pass holds. *)
Definition SlotInv (o : JobQueueOptions) (q : JobQueue) : Prop :=
  Z.of_nat (size (activeJobs q)) <= maxParallel o
  /\ match throttleFrames (suspended q) with
     | O => True
     | S O => processing q = true /\ Z.of_nat (size (activeJobs q)) < maxParallel o
     | S (S _) => False
     end.

(** ** The other methods of the host registry ([HostRegistry]) *)

Module Arrays.

(** [Array.from(new Set(xs))]: the elements of [xs] in the order of their
    first occurrence. *)
Fixpoint unique_from (seen : list string) (xs : list string) : list string :=
  match xs with
  | [] => []
  | x :: rest =>
      if bool_decide (x ∈ seen) then unique_from seen rest
      else x :: unique_from (x :: seen) rest
  end.

Definition unique (xs : list string) : list string := unique_from [] xs.

(** [xs.forEach((x) => map.set(key(x), x))] *)
Definition setAll {V} (key : V -> string) (xs : list V) (m : gmap string V)
  : gmap string V :=
  foldl (fun acc x => <[key x := x]> acc) m xs.

(** [xs.find(p)] from the end of the array: the last element that
    satisfies [p]. *)
Definition findLast {V} (p : V -> bool) (xs : list V) : option V :=
  List.find p (rev xs).

End Arrays.

Definition with_enabled (enabled : bool) (h : HostRecord) : HostRecord :=
  mkHostRecord (host_id h) (host_name h) (host_address h) (host_os h) (host_tags h)
    enabled (host_groups h) (host_notes h) (host_lastSeenAt h).

Definition with_hostIds (ids : list string) (g : HostGroup) : HostGroup :=
  mkHostGroup (group_id g) (group_label g) ids.

Module Hosts.

Definition with_hosts (table : gmap string HostRecord) (r : HostRegistry) : HostRegistry :=
  mkHostRegistry table (groups r) (subject r).

Definition with_groups (table : gmap string HostGroup) (r : HostRegistry) : HostRegistry :=
  mkHostRegistry (hosts r) table (subject r).

(** [new HostRegistry(initialHosts, initialGroups)] *)
Definition create (initialHosts : list HostRecord) (initialGroups : list HostGroup)
  : HostRegistry :=
  Registry.publish
    (mkHostRegistry (Arrays.setAll host_id initialHosts ∅)
       (Arrays.setAll group_id initialGroups ∅)
       (mkHostRegistrySnapshot [] [])).

Definition setHosts (hs : list HostRecord) (r : HostRegistry) : HostRegistry :=
  Registry.publish (with_hosts (Arrays.setAll host_id hs ∅) r).

Definition setGroups (gs : list HostGroup) (r : HostRegistry) : HostRegistry :=
  Registry.publish (with_groups (Arrays.setAll group_id gs ∅) r).

Definition upsertHosts (hs : list HostRecord) (r : HostRegistry) : HostRegistry :=
  Registry.publish (with_hosts (Arrays.setAll host_id hs (hosts r)) r).

Definition removeHost (hostId : string) (r : HostRegistry) : HostRegistry :=
  if bool_decide (is_Some (hosts r !! hostId))
  then Registry.publish (with_hosts (delete hostId (hosts r)) r)
  else r.

Definition upsertGroup (g : HostGroup) (r : HostRegistry) : HostRegistry :=
  Registry.publish (with_groups (<[group_id g := g]> (groups r)) r).

Definition removeGroup (groupId : string) (r : HostRegistry) : HostRegistry :=
  if bool_decide (is_Some (groups r !! groupId))
  then Registry.publish (with_groups (delete groupId (groups r)) r)
  else r.

Definition toggleHost (hostId : string) (enabled : bool) (r : HostRegistry)
  : HostRegistry :=
  match hosts r !! hostId with
  | None => r
  | Some host =>
      Registry.publish (with_hosts (<[hostId := with_enabled enabled host]> (hosts r)) r)
  end.

Definition assignHostToGroup (hostId groupId : string) (r : HostRegistry)
  : HostRegistry :=
  match hosts r !! hostId, groups r !! groupId with
  | Some host, Some group =>
      let updatedGroup :=
        with_hostIds (Arrays.unique (group_hostIds group ++ [hostId])) group in
      Registry.publish (with_groups (<[groupId := updatedGroup]> (groups r)) r)
  | _, _ => r
  end.

Definition unassignHostFromGroup (hostId groupId : string) (r : HostRegistry)
  : HostRegistry :=
  match groups r !! groupId with
  | None => r
  | Some group =>
      let updatedGroup :=
        with_hostIds
          (List.filter (fun id => negb (String.eqb id hostId)) (group_hostIds group))
          group in
      Registry.publish (with_groups (<[groupId := updatedGroup]> (groups r)) r)
  end.

Definition filterHosts (predicate : HostRecord -> bool) (r : HostRegistry)
  : list HostRecord :=
  List.filter predicate (Registry.listHosts r).

Definition findByTag (tag : string) (r : HostRegistry) : list HostRecord :=
  filterHosts (fun host => bool_decide (tag ∈ host_tags host)) r.

(** A call of one of the methods that change the registry. *)
Inductive Call :=
| SetHosts (hs : list HostRecord)
| SetGroups (gs : list HostGroup)
| UpsertHost (h : HostRecord)
| UpsertHosts (hs : list HostRecord)
| RemoveHost (hostId : string)
| UpsertGroup (g : HostGroup)
| RemoveGroup (groupId : string)
| ToggleHost (hostId : string) (enabled : bool)
| AssignHostToGroup (hostId groupId : string)
| UnassignHostFromGroup (hostId groupId : string)
| ImportFromCsv (csvContent : string) (defaults : HostDefaults).

Definition call (c : Call) (r : HostRegistry) : HostRegistry :=
  match c with
  | SetHosts hs => setHosts hs r
  | SetGroups gs => setGroups gs r
  | UpsertHost h => Registry.upsertHost h r
  | UpsertHosts hs => upsertHosts hs r
  | RemoveHost hostId => removeHost hostId r
  | UpsertGroup g => upsertGroup g r
  | RemoveGroup groupId => removeGroup groupId r
  | ToggleHost hostId enabled => toggleHost hostId enabled r
  | AssignHostToGroup hostId groupId => assignHostToGroup hostId groupId r
  | UnassignHostFromGroup hostId groupId => unassignHostFromGroup hostId groupId r
  | ImportFromCsv csvContent defaults => (Registry.importFromCsv csvContent defaults r).2
  end.

(** The observers of the registry hold its current content. *)
Definition published (r : HostRegistry) : Prop :=
  subject r = mkHostRegistrySnapshot (Registry.listHosts r) (Registry.listGroups r).

(** Every host and every group is stored under its own identifier. *)
Definition keyed (r : HostRegistry) : Prop :=
  (forall k h, hosts r !! k = Some h -> host_id h = k)
  /\ (forall k g, groups r !! k = Some g -> group_id g = k).

(** A scenario registry. *)
Definition room : HostRegistry :=
  create
    [ mkHostRecord "pc-01" "PC-01" "10.0.0.1" "windows" ["salle-a"] true None None None;
      mkHostRecord "pc-02" "PC-02" "10.0.0.2" "windows" ["salle-a"; "prof"] true None None None ]
    [ mkHostGroup "g1" "Rangee 1" ["pc-01"] ].

End Hosts.

(** ** Relations between the states of a queue *)

(** [q'] has the history of [q] and possibly more: the calls of the
    executor made in [q] are the first calls made in [q'], and the jobs
    known in [q] are known in [q']. *)
Definition extends (q q' : JobQueue) : Prop :=
  (exists more, executorCalls q' = executorCalls q ++ more)
  /\ (forall jobId, is_Some (jobs q !! jobId) -> is_Some (jobs q' !! jobId)).

(** The queue is stopped and no scheduling pass is suspended. *)
Definition stopped (q : JobQueue) : Prop :=
  running q = false /\ throttleFrames (suspended q) = 0%nat.

(** The two windows of the telemetry are within their bounds, and no zero
    duration is recorded. *)
Definition windowsBounded (o : JobQueueOptions) (q : JobQueue) : Prop :=
  Z.of_nat (length (completedDurations q))
  <= Z.max (Js.nullish (metricsWindowSize o) 50) 0
  /\ Z.of_nat (length (completionHistory q)) <= 200
  /\ Forall (fun d => d <> 0) (completedDurations q).

(** The two lists of the telemetry are the same in both states. *)
Definition sameWindows (q q' : JobQueue) : Prop :=
  completedDurations q' = completedDurations q
  /\ completionHistory q' = completionHistory q.

(** The jobs that a call of [cancel] for each of [ids] cancels: those that
    are outside the active set. *)
Definition cancelled_in (ids : list string) (q : JobQueue) (k : string) : bool :=
  bool_decide (k ∈ ids) && bool_decide (activeJobs q !! k = None).

(** ** Where the jobs of a queue are *)

(** The job has no completion time and no duration. *)
Definition timesNone (job : DeploymentJob) : Prop :=
  completedAt (job_metrics job) = None /\ elapsedMs (job_metrics job) = None.

(** What the status of a job says about its times. *)
Definition timesAgree (job : DeploymentJob) : Prop :=
  match job_status job with
  | Queued => startedAt (job_metrics job) = None /\ timesNone job
  | Running => is_Some (startedAt (job_metrics job)) /\ timesNone job
  | Succeeded | Failed | Cancelled =>
      is_Some (completedAt (job_metrics job)) /\ is_Some (elapsedMs (job_metrics job))
  | Skipped => False
  end.

(** A scheduling pass holds the job while it waits out the throttle delay. *)
Definition throttled (jobId : string) (frames : list Continuation) : Prop :=
  exists job ctx, AwaitThrottle job ctx ∈ frames /\ job_id job = jobId.

(** A call of the executor for the job has not settled yet. *)
Definition executing (jobId : string) (frames : list Continuation) : Prop :=
  exists job ctx, AwaitExecutor job ctx ∈ frames /\ job_id job = jobId.

Record Track (J : gmap string DeploymentJob) (W : list string) (S : list Continuation)
  (X : gmap string DeploymentContext) : Prop := mkTrack {
  (** a job is stored under its identifier, which is not empty, and has its
      context *)
  tr_keys : forall k job, J !! k = Some job ->
    job_id job = k /\ Js.truthy k = true /\ is_Some (X !! k);
  tr_times : forall k job, J !! k = Some job -> timesAgree job;
  (** a waiting job is known and has not completed *)
  tr_waiting : forall k, k ∈ W -> exists job, J !! k = Some job /\ timesNone job;
  (** the job object held by a scheduling pass has not completed, and the job
      is known *)
  tr_throttled : forall job ctx, AwaitThrottle job ctx ∈ S ->
    timesNone job /\ is_Some (J !! job_id job);
  (** the job whose executor is in flight is running, unless it was
      cancelled meanwhile *)
  tr_executing : forall job ctx, AwaitExecutor job ctx ∈ S ->
    exists cur, J !! job_id job = Some cur
      /\ (job_status cur = Running \/ job_status cur = Cancelled);
  (** a queued job waits or is held by a scheduling pass *)
  tr_queued : forall k job, J !! k = Some job -> job_status job = Queued ->
    k ∈ W \/ throttled k S;
  (** the executor of a running job is in flight *)
  tr_running : forall k job, J !! k = Some job -> job_status job = Running ->
    executing k S
}.

Definition TrackInv (q : JobQueue) : Prop :=
  Track (jobs q) (waitingQueue q) (suspended q) (contextByJob q).

(** ** The deployment manager ([DeploymentManager])

    A method that can throw returns a [Completion].  The file the
    configuration is saved to, the sketch analyzer and the logger are not
    modelled. *)

Inductive Completion (A : Type) :=
| Returns (value : A)
| Throws (error : Thrown).
Arguments Returns {A} value.
Arguments Throws {A} error.

(** The members of [ClassroomConfig] the manager reads. *)
Record ClassroomConfig := mkClassroomConfig {
  config_profiles : list DeploymentProfile;
  config_hosts : list HostRecord
}.

(** The members of the class: the queue (with the options it was built
    with), the host registry, the strategies in the order of their first
    registration, the configuration and the selected profile. *)
Record DeploymentManager := mkDeploymentManager {
  mgr_jobQueue : JobQueue;
  mgr_queueOptions : JobQueueOptions;
  mgr_hostRegistry : HostRegistry;
  mgr_strategies : list DeploymentStrategy;
  mgr_config : option ClassroomConfig;
  mgr_currentProfileId : option string
}.

Definition set_mgr_jobQueue v m :=
  mkDeploymentManager v (mgr_queueOptions m) (mgr_hostRegistry m) (mgr_strategies m)
    (mgr_config m) (mgr_currentProfileId m).
Definition set_mgr_hostRegistry v m :=
  mkDeploymentManager (mgr_jobQueue m) (mgr_queueOptions m) v (mgr_strategies m)
    (mgr_config m) (mgr_currentProfileId m).
Definition set_mgr_strategies v m :=
  mkDeploymentManager (mgr_jobQueue m) (mgr_queueOptions m) (mgr_hostRegistry m) v
    (mgr_config m) (mgr_currentProfileId m).
Definition set_mgr_config v m :=
  mkDeploymentManager (mgr_jobQueue m) (mgr_queueOptions m) (mgr_hostRegistry m)
    (mgr_strategies m) v (mgr_currentProfileId m).
Definition set_mgr_currentProfileId v m :=
  mkDeploymentManager (mgr_jobQueue m) (mgr_queueOptions m) (mgr_hostRegistry m)
    (mgr_strategies m) (mgr_config m) v.

(** The parameters of [deploy]: the sketch and binary paths of the metadata
    and the [dryRun] member of the options are the ones that are read. *)
Record DeploySketchParams := mkDeploySketchParams {
  deploy_hosts : list HostRecord;
  deploy_sketchPath : string;
  deploy_binaryPath : option string;
  deploy_profileId : string;
  deploy_mode : option JobMode;
  deploy_dryRun : option bool
}.

Record DeploymentSummary := mkDeploymentSummary {
  summary_jobId : string;
  summary_hostId : string;
  summary_status : JobState;
  summary_elapsedMs : option Z;
  summary_error : option string
}.

Module Deployment.

(** [new DeploymentManager(dependencies, options)], at time [now]: the
    queue is built and started, and the WinRM client, when one is given,
    is registered. *)
Definition create (o : JobQueueOptions) (now : Z) (hostRegistry : HostRegistry)
  (winrmClient : option DeploymentStrategy) : DeploymentManager :=
  mkDeploymentManager (Queue.start o now Queue.new) o hostRegistry
    (match winrmClient with
     | Some s => Manager.registerStrategy s []
     | None => []
     end)
    None None.

(** [initialize], given the configuration that was loaded. *)
Definition initialize (config : ClassroomConfig) (m : DeploymentManager)
  : DeploymentManager :=
  let m1 := set_mgr_config (Some config) m in
  let m2 := set_mgr_currentProfileId (profile_id <$> head (config_profiles config)) m1 in
  set_mgr_hostRegistry
    (Hosts.setGroups [] (Hosts.setHosts (config_hosts config) (mgr_hostRegistry m2))) m2.

Definition getProfiles (m : DeploymentManager) : list DeploymentProfile :=
  match mgr_config m with
  | Some config => config_profiles config
  | None => []
  end.

Definition getProfile (m : DeploymentManager) (profileId : string)
  : option DeploymentProfile :=
  match mgr_config m with
  | Some config =>
      List.find (fun profile => String.eqb (profile_id profile) profileId)
        (config_profiles config)
  | None => None
  end.

Definition getActiveProfile (m : DeploymentManager) : option DeploymentProfile :=
  match mgr_currentProfileId m with
  | Some id => if Js.truthy id then getProfile m id else None
  | None => None
  end.

Definition profileNotFound (profileId : string) : Thrown :=
  ErrorObject ("Profil " +:+ profileId +:+ " introuvable").

Definition configNotLoaded : Thrown := ErrorObject "Configuration non chargée".

Definition noActiveProfile : Thrown := ErrorObject "Aucun profil actif".

Definition hostNotFound (hostId : string) : Thrown :=
  ErrorObject ("Hôte " +:+ hostId +:+ " introuvable dans le registre").

Definition selectProfile (profileId : string) (m : DeploymentManager)
  : Completion DeploymentManager :=
  match getProfile m profileId with
  | None => Throws (profileNotFound profileId)
  | Some _ => Returns (set_mgr_currentProfileId (Some profileId) m)
  end.

(** [findIndex] and [splice] when the identifier is found, [push]
    otherwise. *)
Fixpoint upsertProfile (profile : DeploymentProfile) (profiles : list DeploymentProfile)
  : list DeploymentProfile :=
  match profiles with
  | [] => [profile]
  | item :: rest =>
      if String.eqb (profile_id item) (profile_id profile) then profile :: rest
      else item :: upsertProfile profile rest
  end.

(** [saveProfile] up to its [await saveConfig(...)]. *)
Definition saveProfile (profile : DeploymentProfile) (m : DeploymentManager)
  : Completion DeploymentManager :=
  match mgr_config m with
  | None => Throws configNotLoaded
  | Some config =>
      Returns
        (set_mgr_config
           (Some (mkClassroomConfig (upsertProfile profile (config_profiles config))
                    (config_hosts config))) m)
  end.

Definition setHostEnabled (hostId : string) (enabled : bool) (m : DeploymentManager)
  : DeploymentManager :=
  match Registry.getHostById (mgr_hostRegistry m) hostId with
  | None => m
  | Some host =>
      set_mgr_hostRegistry
        (Registry.upsertHost (with_enabled enabled host) (mgr_hostRegistry m)) m
  end.

Definition resolveProfile (m : DeploymentManager) (profileId : option string)
  : Completion DeploymentProfile :=
  let effectiveId :=
    match profileId with
    | Some id => Some id
    | None => mgr_currentProfileId m
    end in
  match effectiveId with
  | None => Throws noActiveProfile
  | Some id =>
      if negb (Js.truthy id) then Throws noActiveProfile
      else match getProfile m id with
           | None => Throws (profileNotFound id)
           | Some profile => Returns profile
           end
  end.

Definition requireHost (m : DeploymentManager) (hostId : string) : Completion HostRecord :=
  match Registry.getHostById (mgr_hostRegistry m) hostId with
  | None => Throws (hostNotFound hostId)
  | Some host => Returns host
  end.

Definition createContext (m : DeploymentManager) (host : HostRecord)
  (profile : DeploymentProfile) (dryRun : option bool) : Completion DeploymentContext :=
  match mgr_config m with
  | None => Throws configNotLoaded
  | Some _ => Returns (mkDeploymentContext profile host dryRun)
  end.

(** The input [deploy] gives to [enqueue] for one host. *)
Definition uploadInput (params : DeploySketchParams) (profile : DeploymentProfile)
  (host : HostRecord) : EnqueueJobInput :=
  mkEnqueueJobInput (host_id host) Upload (profile_id profile)
    (Some (deploy_sketchPath params)) (deploy_binaryPath params)
    (Some (Js.nullish (deploy_mode params) Normal))
    (mkDeploymentContext profile host (deploy_dryRun params)).

(** [inputs.forEach((input) => jobs.push(this.jobQueue.enqueue(input)))]:
    each call of [enqueue] takes its identifier and its clock reading from
    [ticks]. *)
Fixpoint enqueueAll (o : JobQueueOptions) (inputs : list EnqueueJobInput)
  (ticks : list (string * Z)) (q : JobQueue) : list DeploymentJob * JobQueue :=
  match inputs, ticks with
  | input :: inputs', (uuid, now) :: ticks' =>
      let out := enqueueAll o inputs' ticks' (Queue.enqueue o now uuid input q) in
      (Queue.createInitialJob uuid now input :: out.1, out.2)
  | _, _ => ([], q)
  end.

Definition deploy (params : DeploySketchParams) (ticks : list (string * Z))
  (m : DeploymentManager) : Completion (list DeploymentJob) * DeploymentManager :=
  match mgr_config m with
  | None => (Throws configNotLoaded, m)
  | Some _ =>
      match resolveProfile m (Some (deploy_profileId params)) with
      | Throws e => (Throws e, m)
      | Returns profile =>
          let out :=
            enqueueAll (mgr_queueOptions m)
              (List.map (uploadInput params profile) (deploy_hosts params))
              ticks (mgr_jobQueue m) in
          (Returns out.1, set_mgr_jobQueue out.2 m)
      end
  end.

(** The input [retryFailedJobs] gives to [enqueue] for one failed job. *)
Definition retryInput (job : DeploymentJob) (context : DeploymentContext)
  : EnqueueJobInput :=
  mkEnqueueJobInput (job_hostId job) (job_action job) (job_profileId job)
    (job_sketchPath job) (job_hexPath job) (Some (job_mode job)) context.

(** The body of the [forEach] of [retryFailedJobs] up to the call of
    [enqueue]. *)
Definition retryContext (m : DeploymentManager) (job : DeploymentJob)
  : Completion DeploymentContext :=
  match requireHost m (job_hostId job) with
  | Throws e => Throws e
  | Returns host =>
      match resolveProfile m (Some (job_profileId job)) with
      | Throws e => Throws e
      | Returns profile =>
          createContext m host profile (Some (bool_decide (job_mode job = DryRun)))
      end
  end.

Fixpoint retryEach (m : DeploymentManager) (failedJobs : list DeploymentJob)
  (ticks : list (string * Z)) (q : JobQueue) (retried : list DeploymentJob)
  : Completion (list DeploymentJob) * JobQueue :=
  match failedJobs, ticks with
  | job :: failedJobs', (uuid, now) :: ticks' =>
      match retryContext m job with
      | Throws e => (Throws e, q)
      | Returns context =>
          let input := retryInput job context in
          retryEach m failedJobs' ticks'
            (Queue.enqueue (mgr_queueOptions m) now uuid input q)
            (retried ++ [Queue.createInitialJob uuid now input])
      end
  | _, _ => (Returns retried, q)
  end.

Definition failedJobs (q : JobQueue) : list DeploymentJob :=
  List.filter (fun job => bool_decide (job_status job = Failed))
    (snapshot_jobs (Queue.getSnapshot q)).

Definition retryFailedJobs (ticks : list (string * Z)) (m : DeploymentManager)
  : Completion (list DeploymentJob) * DeploymentManager :=
  let out := retryEach m (failedJobs (mgr_jobQueue m)) ticks (mgr_jobQueue m) [] in
  (out.1, set_mgr_jobQueue out.2 m).

Definition cancelPendingJobs (now : Z) (m : DeploymentManager) : DeploymentManager :=
  set_mgr_jobQueue (Queue.cancelAll now (mgr_jobQueue m)) m.

Definition summaryOf (job : DeploymentJob) : DeploymentSummary :=
  mkDeploymentSummary (job_id job) (job_hostId job) (job_status job)
    (elapsedMs (job_metrics job)) (job_error job).

Definition summarizeDeployment (m : DeploymentManager) : list DeploymentSummary :=
  List.map summaryOf
    (List.filter
       (fun job => bool_decide (job_status job ∈ [Succeeded; Failed; Cancelled]))
       (snapshot_jobs (Queue.getSnapshot (mgr_jobQueue m)))).

Definition registerStrategy (s : DeploymentStrategy) (m : DeploymentManager)
  : DeploymentManager :=
  set_mgr_strategies (Manager.registerStrategy s (mgr_strategies m)) m.

(** [\`${sketchPath}|${fqbn}\`] *)
Definition buildCacheKey (sketchPath fqbn : string) : string :=
  sketchPath +:+ "|" +:+ fqbn.

(** The identifiers [uuidv4()] can return, one after the other, in a queue
    whose jobs are [J]: non-empty, never returned before. *)
Fixpoint freshTicks (ticks : list (string * Z)) (J : gmap string DeploymentJob) : bool :=
  match ticks with
  | [] => true
  | (uuid, _) :: rest =>
      Js.truthy uuid && bool_decide (J !! uuid = None)
      && bool_decide (uuid ∉ rest.*1) && freshTicks rest J
  end.

(** The turns of the event loop that a call of [enqueueAll] amounts to. *)
Definition enqueueTurns (inputs : list EnqueueJobInput) (ticks : list (string * Z))
  : list (Z * Turn) :=
  List.map (fun it => (it.2.2, CallEnqueue it.2.1 it.1)) (combine inputs ticks).

End Deployment.

(** A manager with one profile and the two hosts of the room. *)
Module ManagerScenario.

Definition uno : DeploymentProfile :=
  mkDeploymentProfile "uno" "arduino:avr:uno" 4 180000 None.

Definition config : ClassroomConfig :=
  mkClassroomConfig [uno] (Registry.listHosts Hosts.room).

Definition manager : DeploymentManager :=
  Deployment.initialize config
    (Deployment.create (Scenario.options 2 1) 0 Registry.empty (Some (WinRMClient false))).

Definition params : DeploySketchParams :=
  mkDeploySketchParams (Registry.listHosts (mgr_hostRegistry manager))
    "blink/blink.ino" (Some "build/blink.hex") "uno" None None.

(** The sketch is deployed to the two hosts, and the upload to the first
    one is rejected. *)
Definition deployed : DeploymentManager :=
  (Deployment.deploy params [("j1", 10); ("j2", 11)] manager).2.

Definition afterFailure : DeploymentManager :=
  set_mgr_jobQueue
    (Js.nullish
       (run anyExecutor (Scenario.options 2 1)
          [ (20, ExecutorSettles "j1" Scenario.unreachableHost);
            (20, FailureHandled "j1") ]
          (mgr_jobQueue deployed))
       (mgr_jobQueue deployed))
    deployed.

(** The turns of the event loop that lead to the queue of [afterFailure]. *)
Definition failureTurns : list (Z * Turn) :=
  (0, CallStart)
  :: Deployment.enqueueTurns
       (List.map (Deployment.uploadInput params uno) (deploy_hosts params))
       [("j1", 10); ("j2", 11)]
  ++ [ (20, ExecutorSettles "j1" Scenario.unreachableHost);
       (20, FailureHandled "j1") ].

End ManagerScenario.

(** ** The WinRM client, as a function of what its child process does

    [execute] and [invokeRemoteAgent] of [WinRMClient], given the run of the
    PowerShell child: whether [spawn] returned a child, how the child ended,
    what it wrote, what [JSON.parse] makes of its output, and the time the
    call took.  The source casts the parsed value to [RemoteAgentResponse]
    without a check, so that value is whatever the agent printed: it is
    given here by the four members [execute] reads of it, or as [null], of
    which no member can be read. *)

Module WinRM.

(** The members read of a response.  A member that is absent reads as
    [undefined]: [None], and [Unlisted] for the status, as any status
    other than the three of a result; [port], [error] and [logs], when
    present, are taken to have their declared types. *)
Record RemoteAgentResponse := mkRemoteAgentResponse {
  response_status : ResultStatus;
  response_port : option string;
  response_error : option string;
  response_logs : option (list string)
}.

(** The value [JSON.parse] returns. *)
Inductive Parsed :=
| JsonNull
| JsonValue (members : RemoteAgentResponse).

(** [spawn] throws, or the child it returns ends: by the [close] event
    with its exit code ([None] for [null]: the child was killed), or by
    the [error] event. *)
Inductive ChildEnd :=
| SpawnThrows (error : Thrown)
| Closed (code : option nat)
| Errored (error : Thrown).

Record AgentRun := mkAgentRun {
  child_end : ChildEnd;
  child_stdout : string;
  child_stderr : string;
  (** [JSON.parse(stdout)], [None] when it throws *)
  child_json : option Parsed;
  run_elapsedMs : Z
}.

Definition exitCodeText (code : option nat) : string :=
  match code with
  | Some n => Js.of_nat n
  | None => "null"
  end.

(** [spawn] is called outside the [try] of the method; the [close] and
    [error] events and [JSON.parse] are inside. *)
Definition invokeRemoteAgent (run : AgentRun) : Completion Parsed :=
  match child_end run with
  | SpawnThrows error => Throws error
  | Closed code =>
      if negb (bool_decide (code = Some 0%nat)) then
        Returns (JsonValue
          (mkRemoteAgentResponse ERROR None
             (Some (if Js.truthy (child_stderr run) then child_stderr run
                    else "remoteAgent.ps1 a échoué avec le code " +:+ exitCodeText code))
             (Some (if (0 <? Z.of_nat (String.length (child_stdout run)))
                    then List.filter Js.truthy (Js.split_lines (child_stdout run))
                    else []))))
      else
        match child_json run with
        | Some parsed => Returns parsed
        | None =>
            Returns (JsonValue
              (mkRemoteAgentResponse ERROR None
                 (Some ("Réponse JSON invalide: " +:+ child_stdout run))
                 (Some (if (0 <? Z.of_nat (String.length (child_stderr run)))
                        then Js.split_lines (child_stderr run)
                        else []))))
        end
  | Errored error =>
      Returns (JsonValue
        (mkRemoteAgentResponse ERROR None (Some (message_of error)) (Some [])))
  end.

(** The [TypeError] of [response.status] when the response is [null]. *)
Definition nullResponse : Thrown :=
  NamedError "TypeError" "Cannot read properties of null (reading 'status')".

Definition dryRunResult (job : DeploymentJob) (host : HostRecord) : DeploymentResult :=
  mkDeploymentResult OK None (Some 0)
    [ "Dry-run actif, aucune commande distante exécutée";
      "Action: " +:+ action_name (job_action job);
      "Hôte: " +:+ host_name host +:+ " (" +:+ host_address host +:+ ")" ]
    None None.

Definition execute (dryRun : bool) (job : DeploymentJob) (context : DeploymentContext)
  (run : AgentRun) : Outcome :=
  let host := ctx_host context in
  if negb (isWindowsHost host) then
    Rejects (ErrorObject ("WinRMClient ne supporte pas le système " +:+ host_os host))
  else if dryRun || bool_decide (job_mode job = DryRun) then
    Resolves (dryRunResult job host)
  else
    match invokeRemoteAgent run with
    | Throws error => Rejects error
    | Returns JsonNull => Rejects nullResponse
    | Returns (JsonValue response) =>
        Resolves
          (mkDeploymentResult (response_status response)
             (response_port response) (Some (run_elapsedMs run))
             (Js.nullish (response_logs response) []) (response_error response) None)
    end.

(** The client the extension builds: [new WinRMClient({ scriptPath, dryRun: true })],
    the only strategy it gives to the manager. *)
Definition extensionStrategies : list DeploymentStrategy :=
  Manager.registerStrategy (WinRMClient true) [].

End WinRM.
(** * Properties *)

(** ** The import of the host registry *)

Section ImportFacts.
Import Registry ImportSpec.

Lemma rowHost_None cols defaults i line :
  Js.truthy (rowAddress cols line) = false -> rowHost cols defaults i line = None.
Proof. unfold rowHost. intros H. rewrite H. reflexivity. Qed.

Lemma rowHost_Some cols defaults i line :
  Js.truthy (rowAddress cols line) = true ->
  exists h, rowHost cols defaults i line = Some h
            /\ host_id h = rowId cols i line
            /\ host_address h = rowAddress cols line.
Proof.
  unfold rowHost. intros H. rewrite H. simpl.
  eexists. split; [reflexivity|]. split; reflexivity.
Qed.

Lemma importRows_spec cols defaults rows :
  forall i res table,
    let out := importRows cols defaults i rows (res, table) in
    out.1 = countRows cols i rows (dom table) res
    /\ (forall id, out.2 !! id =
                   match lastImported cols defaults i rows id with
                   | Some h => Some h
                   | None => table !! id
                   end)
    /\ Z.of_nat (size out.2) - added out.1 = Z.of_nat (size table) - added res.
Proof.
  induction rows as [|line rest IH]; intros i res table.
  - simpl. repeat split; reflexivity.
  - cbn [importRows countRows lastImported].
    destruct (Js.truthy (rowAddress cols line)) eqn:Haddr.
    + destruct (rowHost_Some cols defaults i line Haddr) as (h & Hh & Hid & _).
      unfold importRow. rewrite Hh, Hid. cbn [negb andb].
      destruct (table !! rowId cols i line) as [old|] eqn:Hold.
      * rewrite bool_decide_eq_true_2 by eauto.
        rewrite (bool_decide_eq_true_2 (rowId cols i line ∈ dom table))
          by (apply elem_of_dom; eauto).
        specialize (IH (S i)
          (mkImportResult (added res) (updated res + 1) (skipped res))
          (<[rowId cols i line := h]> table)).
        cbn zeta in IH. destruct IH as (IH1 & IH2 & IH3).
        split; [|split].
        -- rewrite IH1. f_equal. rewrite dom_insert_L.
           apply subseteq_union_1_L, singleton_subseteq_l, elem_of_dom. eauto.
        -- intros id. rewrite IH2.
           destruct (lastImported cols defaults (S i) rest id); [reflexivity|].
           destruct (String.eqb_spec (rowId cols i line) id) as [->|Hne].
           ++ apply lookup_insert_eq.
           ++ apply lookup_insert_ne. exact Hne.
        -- rewrite IH3. cbn [added].
           rewrite map_size_insert_Some by eauto. reflexivity.
      * rewrite bool_decide_eq_false_2 by (intros [? ?]; discriminate).
        rewrite (bool_decide_eq_false_2 (rowId cols i line ∈ dom table))
          by (rewrite elem_of_dom, Hold; intros [? ?]; discriminate).
        specialize (IH (S i)
          (mkImportResult (added res + 1) (updated res) (skipped res))
          (<[rowId cols i line := h]> table)).
        cbn zeta in IH. destruct IH as (IH1 & IH2 & IH3).
        split; [|split].
        -- rewrite IH1. f_equal. apply dom_insert_L.
        -- intros id. rewrite IH2.
           destruct (lastImported cols defaults (S i) rest id); [reflexivity|].
           destruct (String.eqb_spec (rowId cols i line) id) as [->|Hne].
           ++ apply lookup_insert_eq.
           ++ apply lookup_insert_ne. exact Hne.
        -- rewrite IH3. cbn [added].
           rewrite map_size_insert_None by exact Hold. lia.
    + unfold importRow. rewrite (rowHost_None _ _ _ _ Haddr). cbn [negb andb].
      specialize (IH (S i)
        (mkImportResult (added res) (updated res) (skipped res + 1)) table).
      cbn zeta in IH. destruct IH as (IH1 & IH2 & IH3).
      split; [|split].
      * exact IH1.
      * intros id. rewrite IH2.
        destruct (lastImported cols defaults (S i) rest id); reflexivity.
      * exact IH3.
Qed.

End ImportFacts.

Section ImportCounts.
Import Registry ImportSpec.

Lemma countRows_totals cols rows :
  forall i known res,
    let out := countRows cols i rows known res in
    skipped out = skipped res + Z.of_nat (length (List.filter (withoutAddress cols) rows))
    /\ added out + updated out + skipped out
       = added res + updated res + skipped res + Z.of_nat (length rows).
Proof.
  induction rows as [|line rest IH]; intros i known res; cbn zeta.
  - simpl. lia.
  - cbn [countRows List.filter].
    change (withoutAddress cols line) with (negb (Js.truthy (rowAddress cols line))).
    destruct (negb (Js.truthy (rowAddress cols line))).
    + destruct (IH (S i) known
        (mkImportResult (added res) (updated res) (skipped res + 1))) as [E1 E2].
      cbn zeta in E1, E2. cbn [added updated skipped length] in E1, E2 |- *. lia.
    + destruct (bool_decide (rowId cols i line ∈ known)).
      * destruct (IH (S i) known
          (mkImportResult (added res) (updated res + 1) (skipped res))) as [E1 E2].
        cbn zeta in E1, E2. cbn [added updated skipped length] in E1, E2 |- *. lia.
      * destruct (IH (S i) ({[rowId cols i line]} ∪ known)
          (mkImportResult (added res + 1) (updated res) (skipped res))) as [E1 E2].
        cbn zeta in E1, E2. cbn [added updated skipped length] in E1, E2 |- *. lia.
Qed.

Lemma importFromCsv_unfold csv defaults r :
  Registry.importFromCsv csv defaults r =
  let out := importRows (header csv) defaults 1 (dataRows csv)
               (mkImportResult 0 0 0, hosts r) in
  (out.1,
   match csvLines csv with
   | [] => r
   | _ => publish (mkHostRegistry out.2 (groups r) (subject r))
   end).
Proof.
  unfold Registry.importFromCsv, header, dataRows.
  destruct (csvLines csv) as [|headerLine rows]; [reflexivity|].
  cbn [hd tl].
  destruct (importRows _ _ _ _ _) as [res table]. reflexivity.
Qed.

End ImportCounts.

(** ** Reading a written table *)

Section Strings.

Lemma append_cons (c : ascii) (s t : string) : String c s +:+ t = String c (s +:+ t).
Proof. reflexivity. Qed.

Lemma append_nil_l (t : string) : "" +:+ t = t.
Proof. reflexivity. Qed.

Lemma append_nil_r (s : string) : s +:+ "" = s.
Proof.
  induction s as [|c s IH]; [reflexivity|]. rewrite append_cons, IH. reflexivity.
Qed.

Lemma append_assoc (s t u : string) : (s +:+ t) +:+ u = s +:+ (t +:+ u).
Proof.
  induction s as [|c s IH]; [reflexivity|]. rewrite !append_cons, IH. reflexivity.
Qed.

Lemma chars_append (s t : string) :
  list_ascii_of_string (s +:+ t) = list_ascii_of_string s ++ list_ascii_of_string t.
Proof.
  induction s as [|c s IH]; [reflexivity|].
  rewrite append_cons. cbn [list_ascii_of_string app]. rewrite IH. reflexivity.
Qed.

Lemma length_append (s t : string) :
  String.length (s +:+ t) = (String.length s + String.length t)%nat.
Proof.
  induction s as [|c s IH]; [reflexivity|].
  rewrite append_cons. cbn [String.length]. rewrite IH. reflexivity.
Qed.

Lemma string_snoc (s : string) :
  s = "" \/ exists t c, s = t +:+ String c "".
Proof.
  induction s as [|c s IH]; [left; reflexivity|]. right.
  destruct IH as [->|(t & d & ->)].
  - exists "", c. reflexivity.
  - exists (String c t), d. reflexivity.
Qed.

End Strings.

Section WhiteSpace.
Import Js ImportSpec.

(** The removal of white space stops at a visible ASCII character. *)
Lemma stop_range (c : ascii) :
  visible c = true -> (33 <= nat_of_ascii c <= 126)%nat.
Proof.
  unfold visible. intros H. apply andb_prop in H as [H1 H2].
  apply Nat.leb_le in H1, H2. lia.
Qed.

Lemma stop_not_space (c : ascii) :
  visible c = true ->
  is_space c = false
  /\ (forall c2, is_space2 c c2 = false)
  /\ (forall c2 c3, is_space3 c c2 c3 = false).
Proof.
  intros H. apply stop_range in H.
  unfold is_space, is_space2, is_space3.
  set (n := nat_of_ascii c) in *.
  assert (E1 : (n <=? 13)%nat = false) by (apply Nat.leb_gt; lia).
  assert (E2 : (n =? 32)%nat = false) by (apply Nat.eqb_neq; lia).
  assert (E3 : (n =? 194)%nat = false) by (apply Nat.eqb_neq; lia).
  assert (E4 : (n =? 225)%nat = false) by (apply Nat.eqb_neq; lia).
  assert (E5 : (n =? 226)%nat = false) by (apply Nat.eqb_neq; lia).
  assert (E6 : (n =? 227)%nat = false) by (apply Nat.eqb_neq; lia).
  assert (E7 : (n =? 239)%nat = false) by (apply Nat.eqb_neq; lia).
  split; [|split].
  - cbv zeta. rewrite E1, E2, andb_false_r. reflexivity.
  - intros c2. rewrite E3. reflexivity.
  - intros c2 c3. cbv zeta. rewrite E4, E5, E6, E7. reflexivity.
Qed.

Lemma trimStart_stop (c : ascii) (rest : string) :
  visible c = true -> trimStart (String c rest) = String c rest.
Proof.
  intros H. destruct (stop_not_space c H) as (H1 & H2 & H3).
  cbn [trimStart]. rewrite H1.
  destruct rest as [|c2 rest]; [reflexivity|]. rewrite H2.
  destruct rest as [|c3 rest]; [reflexivity|]. rewrite H3. reflexivity.
Qed.

(** The removal of white space at the start, step by step. *)
Lemma trimStart_cases (s : string) :
  trimStart s = s
  \/ exists w rest,
       s = w +:+ rest /\ trimStart s = trimStart rest
       /\ w <> "" /\ Forall (fun c => visible c = false) (list_ascii_of_string w).
Proof.
  destruct s as [|c1 rest1]; [left; reflexivity|].
  cbn [trimStart].
  destruct (is_space c1) eqn:E1.
  { right. exists (String c1 ""), rest1. split; [reflexivity|]. split; [reflexivity|].
    split; [discriminate|]. repeat constructor.
    destruct (visible c1) eqn:Hs; [|reflexivity].
    apply stop_not_space in Hs as [Hs _]. congruence. }
  destruct rest1 as [|c2 rest2]; [left; reflexivity|].
  destruct (is_space2 c1 c2) eqn:E2.
  { right. exists (String c1 (String c2 "")), rest2.
    split; [reflexivity|]. split; [reflexivity|]. split; [discriminate|].
    unfold is_space2 in E2. apply andb_prop in E2 as [A B].
    apply Nat.eqb_eq in A, B.
    repeat constructor.
    - destruct (visible c1) eqn:Hs; [|reflexivity]. apply stop_range in Hs. lia.
    - destruct (visible c2) eqn:Hs; [|reflexivity]. apply stop_range in Hs. lia. }
  destruct rest2 as [|c3 rest3]; [left; reflexivity|].
  destruct (is_space3 c1 c2 c3) eqn:E3; [|left; reflexivity].
  right. exists (String c1 (String c2 (String c3 ""))), rest3.
  split; [reflexivity|]. split; [reflexivity|]. split; [discriminate|].
  assert (H : (128 <= nat_of_ascii c1 /\ 128 <= nat_of_ascii c2 /\ 128 <= nat_of_ascii c3)%nat).
  { unfold is_space3 in E3. cbv zeta in E3.
    repeat match type of E3 with
           | (_ || _) = true => apply orb_prop in E3 as [E3|E3]
           end;
      repeat match goal with
             | H : (_ && _) = true |- _ => apply andb_prop in H as [? ?]
             | H : (_ || _) = true |- _ => apply orb_prop in H as [?|?]
             | H : (_ =? _)%nat = true |- _ => apply Nat.eqb_eq in H
             | H : (_ <=? _)%nat = true |- _ => apply Nat.leb_le in H
             end; lia. }
  destruct H as (A & B & C).
  repeat constructor.
  - destruct (visible c1) eqn:Hs; [|reflexivity]. apply stop_range in Hs. lia.
  - destruct (visible c2) eqn:Hs; [|reflexivity]. apply stop_range in Hs. lia.
  - destruct (visible c3) eqn:Hs; [|reflexivity]. apply stop_range in Hs. lia.
Qed.


Lemma isBlank_cases (codePoint : N) :
  isBlank codePoint = true -> In codePoint blanks.
Proof.
  unfold isBlank. intros H. apply existsb_exists in H as (x & Hin & Heq).
  apply N.eqb_eq in Heq. subst x. exact Hin.
Qed.

(** What the encoding of a blank is made of, and that it is removed. *)
Lemma blank_facts (codePoint : N) :
  isBlank codePoint = true ->
  (forall s, trimStart (utf8 codePoint +:+ s) = trimStart s)
  /\ Forall (fun c => visible c = false /\ is_comma c = false /\ c <> LF /\ c <> CR)
       (list_ascii_of_string (utf8 codePoint)).
Proof.
  intros H. apply isBlank_cases in H. unfold blanks in H. cbn [In] in H.
  repeat (destruct H as [<-|H]; [split; [intros s; reflexivity|];
    repeat constructor; discriminate|]).
  contradiction.
Qed.

Lemma trimStart_pad (codePoints : list N) (s : string) :
  forallb isBlank codePoints = true -> trimStart (pad codePoints +:+ s) = trimStart s.
Proof.
  induction codePoints as [|cp cps IH]; [reflexivity|].
  cbn [forallb pad fold_right]. intros H. apply andb_prop in H as [H1 H2].
  fold (pad cps). rewrite append_assoc.
  rewrite (proj1 (blank_facts cp H1)). apply IH. exact H2.
Qed.

Lemma pad_chars (codePoints : list N) :
  forallb isBlank codePoints = true ->
  Forall (fun c => visible c = false /\ is_comma c = false /\ c <> LF /\ c <> CR)
    (list_ascii_of_string (pad codePoints)).
Proof.
  induction codePoints as [|cp cps IH]; [constructor|].
  cbn [forallb pad fold_right]. intros H. apply andb_prop in H as [H1 H2].
  fold (pad cps). rewrite chars_append. apply Forall_app. split.
  - apply (proj2 (blank_facts cp H1)).
  - apply IH. exact H2.
Qed.

Lemma pad_app (before after : list N) : pad (before ++ after) = pad before +:+ pad after.
Proof.
  induction before as [|cp cps IH]; [reflexivity|].
  cbn [app pad fold_right]. fold (pad (cps ++ after)) (pad cps).
  rewrite IH, append_assoc. reflexivity.
Qed.

Lemma trimStart_all_space (s : string) :
  trimStart s = "" -> Forall (fun c => visible c = false) (list_ascii_of_string s).
Proof.
  remember (String.length s) as n eqn:Hn. revert s Hn.
  induction n as [n IH] using lt_wf_ind. intros s Hn Hs.
  destruct (trimStart_cases s) as [E|(w & rest & -> & E & Hw & Hall)].
  - rewrite Hs in E. subst s. constructor.
  - rewrite chars_append. apply Forall_app. split; [exact Hall|].
    apply (IH (String.length rest)); [|reflexivity|congruence].
    subst n. destruct w as [|c w]; [contradiction|].
    rewrite length_append. cbn [String.length]. lia.
Qed.

Lemma trimStart_visible (u : string) (c : ascii) (v : string) :
  visible c = true -> trimStart (u +:+ String c v) <> "".
Proof.
  intros Hc Hs. apply trimStart_all_space in Hs.
  rewrite chars_append in Hs. apply Forall_app in Hs as [_ Hs].
  cbn [list_ascii_of_string] in Hs. apply Forall_cons in Hs as [Hs _]. congruence.
Qed.

Lemma trimEnd_pad (codePoints : list N) :
  forallb isBlank codePoints = true -> trimEnd (pad codePoints) = "".
Proof.
  intros H. destruct (pad codePoints) as [|c rest] eqn:E; [reflexivity|].
  cbn [trimEnd]. rewrite <- E.
  rewrite <- (append_nil_r (pad codePoints)), (trimStart_pad _ _ H). reflexivity.
Qed.

Lemma trimEnd_visible (u : string) (c : ascii) (codePoints : list N) :
  visible c = true -> forallb isBlank codePoints = true ->
  trimEnd (u +:+ String c (pad codePoints)) = u +:+ String c "".
Proof.
  intros Hc Hp. induction u as [|d u IH].
  - rewrite !append_nil_l. cbn [trimEnd].
    rewrite (trimStart_stop c _ Hc), (trimEnd_pad _ Hp). reflexivity.
  - rewrite !append_cons. cbn [trimEnd]. rewrite IH.
    pose proof (trimStart_visible (String d u) c (pad codePoints) Hc) as Hne.
    rewrite append_cons in Hne.
    destruct (trimStart (String d (u +:+ String c (pad codePoints)))); [contradiction|].
    reflexivity.
Qed.

End WhiteSpace.

Section Cells.
Import Js ImportSpec.

Lemma plainText_chars (text : string) :
  plainText text = true ->
  Forall (fun c => is_comma c = false /\ c <> LF /\ c <> CR) (list_ascii_of_string text).
Proof.
  unfold plainText. intros H. apply andb_prop in H as [H _]. apply andb_prop in H as [H _].
  apply Forall_forall. intros c Hc.
  rewrite forallb_forall in H. specialize (H c (proj1 (list_elem_of_In _ _) Hc)).
  unfold inText in H. apply negb_true_iff in H.
  apply orb_false_elim in H as [H H3]. apply orb_false_elim in H as [H1 H2].
  split; [exact H1|]. split; intros ->.
  - rewrite Ascii.eqb_refl in H2. discriminate.
  - rewrite Ascii.eqb_refl in H3. discriminate.
Qed.

Lemma plainText_first (text : string) :
  plainText text = true ->
  text = "" \/ exists c rest, text = String c rest /\ visible c = true.
Proof.
  unfold plainText. intros H. apply andb_prop in H as [H _]. apply andb_prop in H as [_ H].
  destruct text as [|c rest]; [left; reflexivity|]. right. exists c, rest. split; [reflexivity|].
  exact H.
Qed.

Lemma plainText_last (text : string) :
  plainText text = true ->
  text = "" \/ exists front c, text = front +:+ String c "" /\ visible c = true.
Proof.
  unfold plainText. intros H. apply andb_prop in H as [_ H].
  destruct (string_snoc text) as [->|(front & c & ->)]; [left; reflexivity|].
  right. exists front, c. split; [reflexivity|].
  rewrite chars_append in H. cbn [list_ascii_of_string] in H.
  rewrite rev_app_distr in H. exact H.
Qed.

Lemma wellWrittenCell_parts (c : Cell) :
  wellWrittenCell c = true ->
  forallb isBlank (cell_before c) = true
  /\ plainText (cell_text c) = true
  /\ forallb isBlank (cell_after c) = true.
Proof.
  unfold wellWrittenCell. intros H. apply andb_prop in H as [H H3].
  apply andb_prop in H as [H1 H2]. auto.
Qed.

(** The white space is removed from the start of a line up to the text
    of its first cell, or up to its first comma. *)
Lemma trimStart_cell (c : Cell) (after : string) :
  wellWrittenCell c = true ->
  after = "" \/ (exists d rest, after = String d rest /\ visible d = true) ->
  trimStart (writeCell c +:+ after)
  = match cell_text c with
    | EmptyString => after
    | text => text +:+ pad (cell_after c) +:+ after
    end.
Proof.
  intros Hc Hafter. destruct (wellWrittenCell_parts c Hc) as (Hb & Ht & Ha).
  unfold writeCell. rewrite !append_assoc, (trimStart_pad _ _ Hb).
  destruct (plainText_first _ Ht) as [->|(d & rest & -> & Hd)].
  - rewrite append_nil_l, (trimStart_pad _ _ Ha).
    destruct Hafter as [->|(d & rest & -> & Hd)]; [reflexivity|].
    apply trimStart_stop. exact Hd.
  - rewrite append_cons. apply trimStart_stop. exact Hd.
Qed.

(** ... and from the end of a line back to the text of its last cell, or
    to its last comma. *)
Lemma trimEnd_cell (c : Cell) (before : string) :
  wellWrittenCell c = true ->
  before = "" \/ (exists front d, before = front +:+ String d "" /\ visible d = true) ->
  trimEnd (before +:+ writeCell c)
  = match cell_text c with
    | EmptyString => before
    | text => before +:+ pad (cell_before c) +:+ text
    end.
Proof.
  intros Hc Hbefore. destruct (wellWrittenCell_parts c Hc) as (Hb & Ht & Ha).
  unfold writeCell.
  destruct (plainText_last _ Ht) as [E|(front & d & E & Hd)].
  - rewrite E, append_nil_l, <- pad_app.
    assert (Hp : forallb isBlank (cell_before c ++ cell_after c) = true).
    { rewrite forallb_app, Hb, Ha. reflexivity. }
    destruct Hbefore as [->|(front & d & -> & Hd)].
    + rewrite append_nil_l. apply trimEnd_pad. exact Hp.
    + rewrite append_assoc, append_cons, append_nil_l.
      apply trimEnd_visible; assumption.
  - assert (Hne : cell_text c <> "").
    { rewrite E. destruct front; discriminate. }
    destruct (cell_text c) as [|t0 t] eqn:Et; [contradiction|].
    rewrite E.
    replace (before +:+ pad (cell_before c) +:+ (front +:+ String d "") +:+ pad (cell_after c))
      with ((before +:+ pad (cell_before c) +:+ front) +:+ String d (pad (cell_after c))).
    + rewrite (trimEnd_visible _ d _ Hd Ha). rewrite !append_assoc. reflexivity.
    + rewrite !append_assoc, append_cons, append_nil_l. reflexivity.
Qed.

Lemma trim_cell (c : Cell) : wellWrittenCell c = true -> trim (writeCell c) = cell_text c.
Proof.
  intros Hc. destruct (wellWrittenCell_parts c Hc) as (Hb & Ht & Ha).
  unfold trim. rewrite <- (append_nil_r (writeCell c)).
  rewrite (trimStart_cell c "" Hc) by (left; reflexivity).
  destruct (cell_text c) as [|t0 t] eqn:Et; [reflexivity|].
  rewrite append_nil_r.
  pose proof (trimEnd_cell (mkCell [] (String t0 t) (cell_after c)) "") as H.
  unfold writeCell in H. cbn [cell_before cell_text cell_after pad fold_right] in H.
  rewrite !append_nil_l in H. apply H; [|left; reflexivity].
  unfold wellWrittenCell. cbn [cell_before cell_text cell_after forallb].
  rewrite Ht, Ha. reflexivity.
Qed.

Lemma writeCell_chars (c : Cell) :
  wellWrittenCell c = true ->
  Forall (fun ch => is_comma ch = false /\ ch <> LF /\ ch <> CR)
    (list_ascii_of_string (writeCell c)).
Proof.
  intros Hc. destruct (wellWrittenCell_parts c Hc) as (Hb & Ht & Ha).
  unfold writeCell. rewrite !chars_append. rewrite !Forall_app. split; [|split].
  - eapply Forall_impl; [apply pad_chars; exact Hb|]. cbn. tauto.
  - apply plainText_chars. exact Ht.
  - eapply Forall_impl; [apply pad_chars; exact Ha|]. cbn. tauto.
Qed.

End Cells.

Section Lines.
Import Js ImportSpec Registry.

Lemma split_on_plain (sep : ascii -> bool) (s : string) :
  Forall (fun c => sep c = false) (list_ascii_of_string s) -> split_on sep s = [s].
Proof.
  induction s as [|c s IH]; [reflexivity|].
  cbn [list_ascii_of_string split_on]. intros H. apply Forall_cons in H as [H1 H2].
  rewrite H1, (IH H2). reflexivity.
Qed.

Lemma split_on_sep (sep : ascii -> bool) (s : string) (d : ascii) (t : string) :
  Forall (fun c => sep c = false) (list_ascii_of_string s) -> sep d = true ->
  split_on sep (s +:+ String d t) = s :: split_on sep t.
Proof.
  intros Hs Hd. induction s as [|c s IH].
  - rewrite append_nil_l. cbn [split_on]. rewrite Hd. reflexivity.
  - cbn [list_ascii_of_string] in Hs. apply Forall_cons in Hs as [H1 H2].
    rewrite append_cons. cbn [split_on]. rewrite H1, (IH H2). reflexivity.
Qed.

Lemma writeCells_cons (c c2 : Cell) (rest : list Cell) :
  writeCells (c :: c2 :: rest) = writeCell c +:+ String ","%char (writeCells (c2 :: rest)).
Proof. reflexivity. Qed.

Lemma split_writeCells (cells : list Cell) :
  cells <> [] -> forallb wellWrittenCell cells = true ->
  split_on is_comma (writeCells cells) = List.map writeCell cells.
Proof.
  induction cells as [|c rest IH]; [contradiction|]. intros _ H.
  cbn [forallb] in H. apply andb_prop in H as [Hc Hrest].
  assert (Hplain : Forall (fun ch => is_comma ch = false)
                     (list_ascii_of_string (writeCell c))).
  { eapply Forall_impl; [apply writeCell_chars; exact Hc|]. cbn. tauto. }
  destruct rest as [|c2 rest].
  - cbn [writeCells List.map]. apply split_on_plain. exact Hplain.
  - rewrite writeCells_cons. rewrite (split_on_sep is_comma _ ","%char _ Hplain eq_refl).
    rewrite IH; [reflexivity|discriminate|exact Hrest].
Qed.

Lemma columns_of_cells (cells : list Cell) :
  cells <> [] -> forallb wellWrittenCell cells = true ->
  rawColumnsOf (writeCells cells) = List.map cell_text cells.
Proof.
  intros Hne H. unfold rawColumnsOf. rewrite (split_writeCells _ Hne H).
  rewrite List.map_map. clear Hne.
  induction cells as [|c rest IH]; [reflexivity|].
  cbn [forallb] in H. apply andb_prop in H as [Hc Hrest].
  cbn [List.map]. rewrite (trim_cell c Hc), (IH Hrest). reflexivity.
Qed.

Lemma trimStart_cells (cells : list Cell) :
  cells <> [] -> forallb wellWrittenCell cells = true ->
  exists cells',
    trimStart (writeCells cells) = writeCells cells'
    /\ List.map cell_text cells' = List.map cell_text cells
    /\ forallb wellWrittenCell cells' = true.
Proof.
  destruct cells as [|c rest]; [contradiction|]. intros _ H.
  cbn [forallb] in H. apply andb_prop in H as [Hc Hrest].
  destruct (wellWrittenCell_parts c Hc) as (Hb & Ht & Ha).
  exists (mkCell [] (cell_text c)
            (match cell_text c with EmptyString => [] | _ => cell_after c end) :: rest).
  split; [|split].
  - destruct rest as [|c2 rest].
    + cbn [writeCells]. rewrite <- (append_nil_r (writeCell c)).
      rewrite (trimStart_cell c "" Hc) by (left; reflexivity).
      unfold writeCell. cbn [cell_before cell_text cell_after pad fold_right].
      destruct (cell_text c); [reflexivity|].
      rewrite append_nil_l, append_nil_r. reflexivity.
    + rewrite !writeCells_cons.
      rewrite (trimStart_cell c _ Hc) by (right; eexists _, _; split; reflexivity).
      unfold writeCell. cbn [cell_before cell_text cell_after pad fold_right].
      destruct (cell_text c); [reflexivity|].
      rewrite append_nil_l, !append_assoc. reflexivity.
  - reflexivity.
  - cbn [forallb]. rewrite Hrest, andb_true_r.
    unfold wellWrittenCell. cbn [cell_before cell_text cell_after forallb].
    rewrite Ht. destruct (cell_text c); [reflexivity|exact Ha].
Qed.

Lemma trimEnd_cells (cells : list Cell) :
  forall before,
    cells <> [] -> forallb wellWrittenCell cells = true ->
    before = "" \/ (exists front d, before = front +:+ String d "" /\ visible d = true) ->
    exists cells',
      trimEnd (before +:+ writeCells cells) = before +:+ writeCells cells'
      /\ List.map cell_text cells' = List.map cell_text cells
      /\ forallb wellWrittenCell cells' = true.
Proof.
  induction cells as [|c rest IH]; [contradiction|]. intros before _ H Hbefore.
  cbn [forallb] in H. apply andb_prop in H as [Hc Hrest].
  destruct (wellWrittenCell_parts c Hc) as (Hb & Ht & Ha).
  destruct rest as [|c2 rest].
  - exists [mkCell (match cell_text c with EmptyString => [] | _ => cell_before c end)
              (cell_text c) []].
    split; [|split].
    + cbn [writeCells]. rewrite (trimEnd_cell c before Hc Hbefore).
      unfold writeCell. cbn [cell_before cell_text cell_after pad fold_right].
      destruct (cell_text c); [rewrite append_nil_r; reflexivity|].
      rewrite append_nil_r. reflexivity.
    + reflexivity.
    + cbn [forallb]. rewrite andb_true_r.
      unfold wellWrittenCell. cbn [cell_before cell_text cell_after forallb].
      rewrite Ht, !andb_true_r. destruct (cell_text c); [reflexivity|exact Hb].
  - destruct (IH (before +:+ writeCell c +:+ String ","%char "")) as (cells' & E & Ht' & Hw');
      [discriminate|exact Hrest| |].
    { right. exists (before +:+ writeCell c), ","%char.
      split; [rewrite append_assoc; reflexivity|reflexivity]. }
    destruct cells' as [|c2' rest']; [discriminate|].
    exists (c :: c2' :: rest'). split; [|split].
    + rewrite !writeCells_cons.
      replace (before +:+ writeCell c +:+ String ","%char (writeCells (c2 :: rest)))
        with ((before +:+ writeCell c +:+ String ","%char "") +:+ writeCells (c2 :: rest)).
      * rewrite E. rewrite !append_assoc, append_cons, append_nil_l. reflexivity.
      * rewrite !append_assoc, append_cons, append_nil_l. reflexivity.
    + cbn [List.map] in Ht' |- *. rewrite Ht'. reflexivity.
    + cbn [forallb] in Hw' |- *. rewrite Hc, Hw'. reflexivity.
Qed.

(** A line that is not empty is read cell by cell; an empty one is
    dropped. *)
Lemma line_read (cells : list Cell) :
  forallb wellWrittenCell cells = true ->
  let line := trim (writeCells cells) in
  if emptyLine (List.map cell_text cells)
  then line = ""
  else line <> "" /\ rawColumnsOf line = List.map cell_text cells.
Proof.
  intros H line. subst line.
  destruct (emptyLine (List.map cell_text cells)) eqn:Hempty.
  - destruct cells as [|c [|c2 rest]]; [reflexivity| |discriminate].
    cbn [forallb] in H. apply andb_prop in H as [Hc _].
    cbn [writeCells]. rewrite (trim_cell c Hc).
    cbn [List.map emptyLine] in Hempty. destruct (cell_text c); [reflexivity|discriminate].
  - assert (Hne : cells <> []) by (intros ->; discriminate).
    destruct (trimStart_cells cells Hne H) as (cells1 & E1 & T1 & W1).
    assert (Hne1 : cells1 <> []).
    { intros ->. destruct cells; [contradiction|discriminate]. }
    destruct (trimEnd_cells cells1 "" Hne1 W1) as (cells2 & E2 & T2 & W2);
      [left; reflexivity|].
    rewrite !append_nil_l in E2.
    assert (Hne2 : cells2 <> []).
    { intros ->. destruct cells1; [contradiction|discriminate]. }
    unfold trim. rewrite E1, E2.
    rewrite (columns_of_cells cells2 Hne2 W2), T2, T1. split; [|reflexivity].
    rewrite <- T1, <- T2 in Hempty.
    destruct cells2 as [|c [|c2 rest]]; [contradiction| |].
    + cbn [writeCells]. unfold writeCell. intros E.
      apply (f_equal String.length) in E. rewrite !length_append in E.
      cbn [List.map emptyLine] in Hempty.
      destruct (cell_text c); [discriminate|]. cbn [String.length] in E. lia.
    + rewrite writeCells_cons. intros E.
      apply (f_equal String.length) in E. rewrite length_append in E.
      cbn [String.length] in E. lia.
Qed.

Lemma writeCells_chars (cells : list Cell) :
  forallb wellWrittenCell cells = true ->
  Forall (fun ch => ch <> LF /\ ch <> CR) (list_ascii_of_string (writeCells cells)).
Proof.
  induction cells as [|c rest IH]; [constructor|]. intros H.
  cbn [forallb] in H. apply andb_prop in H as [Hc Hrest].
  assert (Hcell : Forall (fun ch => ch <> LF /\ ch <> CR)
                    (list_ascii_of_string (writeCell c))).
  { eapply Forall_impl; [apply writeCell_chars; exact Hc|]. cbn. tauto. }
  destruct rest as [|c2 rest]; [exact Hcell|].
  rewrite writeCells_cons, chars_append. apply Forall_app. split; [exact Hcell|].
  cbn [list_ascii_of_string]. constructor; [split; discriminate|].
  apply IH. exact Hrest.
Qed.

Lemma split_lines_plain (line : string) :
  Forall (fun ch => ch <> LF /\ ch <> CR) (list_ascii_of_string line) ->
  split_lines line = [line].
Proof.
  induction line as [|c line IH]; [reflexivity|].
  cbn [list_ascii_of_string]. intros H. apply Forall_cons in H as [[H1 H2] H3].
  cbn [split_lines]. rewrite (IH H3).
  rewrite (proj2 (Ascii.eqb_neq c LF) H1), (proj2 (Ascii.eqb_neq c CR) H2). reflexivity.
Qed.

Lemma split_lines_line (line : string) (crlf : bool) (rest : string) :
  Forall (fun ch => ch <> LF /\ ch <> CR) (list_ascii_of_string line) ->
  split_lines (line +:+ lineEnd crlf +:+ rest) = line :: split_lines rest.
Proof.
  induction line as [|c line IH].
  - intros _. rewrite append_nil_l. destruct crlf; reflexivity.
  - cbn [list_ascii_of_string]. intros H. apply Forall_cons in H as [[H1 H2] H3].
    rewrite append_cons. cbn [split_lines]. rewrite (IH H3).
    rewrite (proj2 (Ascii.eqb_neq c LF) H1), (proj2 (Ascii.eqb_neq c CR) H2). reflexivity.
Qed.

Lemma split_lines_write (lines : list Line) :
  lines <> [] -> wellWritten lines = true ->
  split_lines (write lines) = List.map (fun l => writeCells (line_cells l)) lines.
Proof.
  unfold wellWritten.
  induction lines as [|l rest IH]; [contradiction|]. intros _ H.
  cbn [forallb] in H. apply andb_prop in H as [Hl Hrest].
  pose proof (writeCells_chars _ Hl) as Hchars.
  destruct rest as [|l2 rest].
  - cbn [write List.map]. apply split_lines_plain. exact Hchars.
  - change (write (l :: l2 :: rest))
      with (writeCells (line_cells l) +:+ lineEnd (line_crlf l) +:+ write (l2 :: rest)).
    rewrite (split_lines_line _ _ _ Hchars). cbn [List.map].
    rewrite IH; [reflexivity|discriminate|exact Hrest].
Qed.

(** The lines the import keeps are the rows of the table, in their
    order. *)
Lemma csvLines_write (lines : list Line) :
  wellWritten lines = true ->
  Forall2 readAs (csvLines (write lines)) (rowsOf lines).
Proof.
  intros H. unfold csvLines, rowsOf.
  destruct lines as [|l0 rest0]; [constructor|].
  rewrite split_lines_write by (discriminate || exact H).
  rewrite List.map_map.
  unfold wellWritten in H. revert H. generalize (l0 :: rest0). clear.
  intros lines. induction lines as [|l rest IH]; [constructor|]. intros H.
  cbn [forallb] in H. apply andb_prop in H as [Hl Hrest].
  cbn [List.map List.filter]. pose proof (line_read _ Hl) as Hread. cbn zeta in Hread.
  unfold textsOf at 1.
  destruct (emptyLine (List.map cell_text (line_cells l))).
  - rewrite Hread. cbn [String.length Z.of_nat negb]. apply IH. exact Hrest.
  - destruct Hread as [Hne Hcols]. cbn [negb].
    destruct (trim (writeCells (line_cells l))) as [|c line] eqn:E; [contradiction|].
    cbn [String.length]. 
    replace (0 <? Z.of_nat (S (String.length line))) with true
      by (symmetry; apply Z.ltb_lt; lia).
    constructor; [split; [discriminate|exact Hcols]|]. apply IH. exact Hrest.
Qed.

End Lines.

Section Columns.
Import Js ImportSpec Registry.

Lemma sameLetter_spec (n h : ascii) : sameLetter n h = Ascii.eqb (lower_ascii h) n.
Proof.
  unfold sameLetter, lower_ascii.
  destruct ((65 <=? nat_of_ascii h)%nat && (nat_of_ascii h <=? 90)%nat) eqn:E.
  - apply andb_prop in E as [E1 E2]. apply Nat.leb_le in E1, E2.
    destruct (Ascii.eqb (ascii_of_nat (nat_of_ascii h + 32)) n) eqn:Q.
    + apply Ascii.eqb_eq in Q. subst n.
      rewrite nat_ascii_embedding by lia. apply Nat.eqb_refl.
    + apply Nat.eqb_neq. intros Hn. apply Ascii.eqb_neq in Q. apply Q.
      rewrite <- Hn. apply ascii_nat_embedding.
  - rewrite Ascii.eqb_sym. reflexivity.
Qed.

Lemma reads_spec (name header : string) :
  reads name header = String.eqb (toLowerCase header) name.
Proof.
  revert header. induction name as [|n name IH]; intros [|h header]; try reflexivity.
  cbn [reads toLowerCase String.eqb]. rewrite sameLetter_spec, IH. 
  destruct (Ascii.eqb (lower_ascii h) n); reflexivity.
Qed.

Lemma indexOf_from_field (name : string) (headers : list string) :
  forall (i : nat) (cells : list string),
    at_index cells (indexOf_from (List.map toLowerCase headers) name (Z.of_nat i))
    = field name headers (drop i cells).
Proof.
  induction headers as [|h headers IH]; intros i cells.
  - reflexivity.
  - cbn [List.map indexOf_from field]. rewrite reads_spec.
    destruct (String.eqb (toLowerCase h) name).
    + unfold at_index. replace (Z.of_nat i <? 0) with false by (symmetry; apply Z.ltb_ge; lia).
      rewrite Nat2Z.id. revert cells. clear. induction i as [|i IHi]; intros [|c cells];
        try reflexivity. cbn [nth_error drop]. apply IHi.
    + replace (Z.of_nat i + 1) with (Z.of_nat (S i)) by lia. rewrite IH.
      f_equal. clear. revert cells. induction i as [|i IHi]; intros [|c cells];
        try reflexivity. cbn [drop]. rewrite <- IHi. reflexivity.
Qed.

Lemma indexOf_field (name : string) (headers cells : list string) :
  at_index cells (indexOf (List.map toLowerCase headers) name) = field name headers cells.
Proof. apply (indexOf_from_field name headers 0%nat cells). Qed.

Lemma indexOf_from_found (name : string) (headers : list string) :
  forall i, 0 <= i ->
    (0 <=? indexOf_from (List.map toLowerCase headers) name i) = hasColumn name headers.
Proof.
  unfold hasColumn.
  induction headers as [|h headers IH]; intros i Hi; [reflexivity|].
  cbn [List.map indexOf_from existsb]. rewrite reads_spec.
  destruct (String.eqb (toLowerCase h) name).
  - apply Z.leb_le. exact Hi.
  - apply IH. lia.
Qed.

(** The address and the id the import reads in a row are those of the
    columns the headers name. *)
Lemma row_read (headers : list string) (line : string) (i : nat) :
  let cols := columnsFor headers in
  let cells := rawColumnsOf line in
  rowAddress cols line = nullish (addressOf headers cells) ""
  /\ rowId cols i line = idOf headers i cells.
Proof.
  cbn zeta. unfold rowAddress, rowId, columnsFor, columnsOf, addressOf, idOf.
  cbn [addressIndex idIndex]. split.
  - unfold indexOf at 1. rewrite (indexOf_from_found "ip" headers 0) by lia.
    destruct (hasColumn "ip" headers); rewrite indexOf_field; reflexivity.
  - rewrite indexOf_field. reflexivity.
Qed.

Lemma csvHeaders_rawColumns (line : string) :
  csvHeaders line = List.map toLowerCase (rawColumnsOf line).
Proof. unfold csvHeaders, rawColumnsOf. rewrite List.map_map. reflexivity. Qed.

End Columns.

Section Rows.
Import Js ImportSpec Registry.
Variable headers : list string.
Variable defaults : HostDefaults.

Lemma row_address (line : string) (cells : list string) :
  readAs line cells ->
  Js.truthy (rowAddress (columnsFor headers) line) = negb (missingAddress headers cells).
Proof.
  intros [_ <-]. rewrite (proj1 (row_read headers line 0%nat)).
  unfold missingAddress. destruct (addressOf headers (rawColumnsOf line)) as [a|];
    [|reflexivity].
  cbn [nullish]. rewrite negb_involutive. reflexivity.
Qed.

Lemma countRows_count (lines : list string) (rows : list (list string)) :
  Forall2 readAs lines rows ->
  forall i known res,
    countRows (columnsFor headers) i lines known res = count headers i rows known res.
Proof.
  induction 1 as [|line cells lines rows Hread Hrest IH]; intros i known res;
    [reflexivity|].
  cbn [countRows count]. rewrite (row_address line cells Hread), negb_involutive.
  assert (Hid : rowId (columnsFor headers) i line = idOf headers i cells).
  { destruct Hread as [_ <-]. apply (proj2 (row_read headers line i)). }
  rewrite Hid, !IH. reflexivity.
Qed.

Lemma lastImported_latest (lines : list string) (rows : list (list string)) (id : string) :
  Forall2 readAs lines rows ->
  forall i,
    host_address <$> lastImported (columnsFor headers) defaults i lines id
    = latestAddress headers i rows id.
Proof.
  induction 1 as [|line cells lines rows Hread Hrest IH]; intros i; [reflexivity|].
  cbn [lastImported latestAddress]. rewrite <- IH.
  destruct (lastImported (columnsFor headers) defaults (S i) lines id) as [h|]; [reflexivity|].
  cbn [fmap option_fmap option_map].
  rewrite (row_address line cells Hread).
  assert (Hid : rowId (columnsFor headers) i line = idOf headers i cells).
  { destruct Hread as [_ <-]. apply (proj2 (row_read headers line i)). }
  rewrite Hid.
  destruct (negb (missingAddress headers cells) && String.eqb (idOf headers i cells) id)
    eqn:E; [|reflexivity].
  apply andb_prop in E as [E _].
  assert (Haddr : Js.truthy (rowAddress (columnsFor headers) line) = true).
  { rewrite (row_address line cells Hread). exact E. }
  destruct (rowHost_Some (columnsFor headers) defaults i line Haddr) as (h & -> & _ & Hh).
  cbn [fmap option_fmap option_map]. rewrite Hh.
  destruct Hread as [_ <-]. rewrite (proj1 (row_read headers line 0%nat)).
  unfold missingAddress in E.
  destruct (addressOf headers (rawColumnsOf line)); [reflexivity|discriminate].
Qed.

Lemma count_totals (rows : list (list string)) :
  forall i known res,
    let out := count headers i rows known res in
    skipped out
    = skipped res + Z.of_nat (length (List.filter (missingAddress headers) rows))
    /\ added out + updated out + skipped out
       = added res + updated res + skipped res + Z.of_nat (length rows).
Proof.
  induction rows as [|cells rest IH]; intros i known res; cbn zeta.
  - simpl. lia.
  - cbn [count List.filter].
    destruct (missingAddress headers cells).
    + destruct (IH (S i) known
        (mkImportResult (added res) (updated res) (skipped res + 1))) as [E1 E2].
      cbn zeta in E1, E2. cbn [added updated skipped length] in E1, E2 |- *. lia.
    + destruct (bool_decide (idOf headers i cells ∈ known)).
      * destruct (IH (S i) known
          (mkImportResult (added res) (updated res + 1) (skipped res))) as [E1 E2].
        cbn zeta in E1, E2. cbn [added updated skipped length] in E1, E2 |- *. lia.
      * destruct (IH (S i) ({[idOf headers i cells]} ∪ known)
          (mkImportResult (added res + 1) (updated res) (skipped res))) as [E1 E2].
        cbn zeta in E1, E2. cbn [added updated skipped length] in E1, E2 |- *. lia.
Qed.

End Rows.
Section WrittenImport.
Import Js ImportSpec Registry.

Lemma importFromCsv_written (lines : list Line) (defaults : HostDefaults) (r : HostRegistry) :
  wellWritten lines = true ->
  let out := importFromCsv (write lines) defaults r in
  out.1 = count (headersOf lines) 1 (dataOf lines) (dom (hosts r)) (mkImportResult 0 0 0)
  /\ (forall id,
        host_address <$> hosts out.2 !! id =
        match latestAddress (headersOf lines) 1 (dataOf lines) id with
        | Some address => Some address
        | None => host_address <$> hosts r !! id
        end)
  /\ groups out.2 = groups r.
Proof.
  intros Hw out. subst out. pose proof (csvLines_write lines Hw) as Hread.
  rewrite importFromCsv_unfold. cbn zeta. cbn [fst snd].
  unfold header, dataRows, headersOf, dataOf.
  destruct Hread as [|headerLine headers rows data [_ Hheader] Hrows].
  - cbn [hd tl importRows count latestAddress fst snd]. repeat split; reflexivity.
  - cbn [hd tl]. rewrite csvHeaders_rawColumns, Hheader. fold (columnsFor headers).
    destruct (importRows_spec (columnsFor headers) defaults rows 1%nat
                (mkImportResult 0 0 0) (hosts r)) as (E1 & E2 & _).
    cbn zeta in E1, E2. cbn [publish hosts groups].
    split; [|split; [|reflexivity]].
    + rewrite E1. apply countRows_count. exact Hrows.
    + intros id. rewrite E2, <- (lastImported_latest headers defaults rows data id Hrows).
      destruct (lastImported (columnsFor headers) defaults 1 rows id); reflexivity.
Qed.

End WrittenImport.

(** C8. The import reads a table as it is written (comma-delimited cells
    with any white space around their texts, lines ended by a line feed
    with or without a carriage return, empty lines anywhere, headers in any
    letter case) and it skips and counts every data row whose cell in the ip
    column, or in the address column of a table without ip column, is
    missing or empty; it counts as an update every other row whose id is
    known (one of the registry, or of an earlier row) and as an addition
    every row with a new id; afterwards the registry holds, under every id
    imported, the address of the last row with it, and the hosts of the
    other ids as before.  For an arbitrary text the same is true of the rows
    and columns as the import cuts them out, and the host table grows by
    exactly the additions.  The two scenarios of the document evaluate as
    stated. *)
Theorem importFromCsv_counts_rows :
  (forall lines defaults r,
     ImportSpec.wellWritten lines = true ->
     let out := Registry.importFromCsv (ImportSpec.write lines) defaults r in
     let headers := ImportSpec.headersOf lines in
     let rows := ImportSpec.dataOf lines in
     out.1 = ImportSpec.count headers 1 rows (dom (hosts r)) (mkImportResult 0 0 0)
     /\ skipped out.1
        = Z.of_nat (length (List.filter (ImportSpec.missingAddress headers) rows))
     /\ added out.1 + updated out.1 + skipped out.1 = Z.of_nat (length rows)
     /\ (forall id,
           host_address <$> hosts out.2 !! id =
           match ImportSpec.latestAddress headers 1 rows id with
           | Some address => Some address
           | None => host_address <$> hosts r !! id
           end)
     /\ groups out.2 = groups r)
  /\ (forall csv defaults r,
     let out := Registry.importFromCsv csv defaults r in
     let cols := ImportSpec.header csv in
     let rows := ImportSpec.dataRows csv in
     out.1 = ImportSpec.countRows cols 1 rows (dom (hosts r)) (mkImportResult 0 0 0)
     /\ skipped out.1
        = Z.of_nat (length (List.filter (ImportSpec.withoutAddress cols) rows))
     /\ added out.1 + updated out.1 + skipped out.1 = Z.of_nat (length rows)
     /\ Z.of_nat (size (hosts out.2)) = Z.of_nat (size (hosts r)) + added out.1
     /\ (forall id,
           hosts out.2 !! id =
           match ImportSpec.lastImported cols defaults 1 rows id with
           | Some h => Some h
           | None => hosts r !! id
           end))
  /\ (Registry.importFromCsv ImportSpec.twoRowsOneWithoutAddress noDefaults
        Registry.empty).1 = mkImportResult 1 0 1
  /\ (let first := Registry.importFromCsv ImportSpec.firstImport noDefaults
                     Registry.empty in
      let second := Registry.importFromCsv ImportSpec.secondImport noDefaults
                      first.2 in
      first.1 = mkImportResult 1 0 0
      /\ second.1 = mkImportResult 0 1 0
      /\ host_address <$> hosts first.2 !! "h1" = Some "10.0.0.1"
      /\ host_address <$> hosts second.2 !! "h1" = Some "10.0.0.2"
      /\ size (hosts second.2) = 1%nat).
Proof.
  split.
  { intros lines defaults r Hw out headers rows.
    destruct (importFromCsv_written lines defaults r Hw) as (E1 & E2 & E3).
    fold out headers rows in E1, E2, E3.
    destruct (count_totals headers rows 1%nat (dom (hosts r)) (mkImportResult 0 0 0))
      as [T1 T2].
    cbn zeta in T1, T2. cbn [added updated skipped] in T1, T2.
    rewrite E1. split; [reflexivity|]. split; [lia|]. split; [lia|].
    split; [exact E2|exact E3]. }
  split; [|split].
  - intros csv defaults r out cols rows. subst out.
    rewrite importFromCsv_unfold. cbn zeta. cbn [fst snd].
    destruct (importRows_spec (ImportSpec.header csv) defaults
                (ImportSpec.dataRows csv) 1%nat (mkImportResult 0 0 0) (hosts r))
      as (E1 & E2 & E3).
    destruct (countRows_totals (ImportSpec.header csv) (ImportSpec.dataRows csv)
                1%nat (dom (hosts r)) (mkImportResult 0 0 0)) as [T1 T2].
    fold cols rows in E1, E2, E3, T1, T2 |- *.
    cbn [added updated skipped] in T1, T2, E3.
    assert (Hhosts :
      hosts (match Registry.csvLines csv with
             | [] => r
             | _ :: _ =>
                 Registry.publish
                   (mkHostRegistry
                      (Registry.importRows cols defaults 1 rows
                         (mkImportResult 0 0 0, hosts r)).2 (groups r) (subject r))
             end)
      = (Registry.importRows cols defaults 1 rows (mkImportResult 0 0 0, hosts r)).2).
    { subst rows. unfold ImportSpec.dataRows.
      destruct (Registry.csvLines csv); reflexivity. }
    rewrite Hhosts, E1.
    split; [reflexivity|]. split; [lia|]. split; [lia|].
    split; [rewrite <- E1; lia | exact E2].
  - vm_compute. reflexivity.
  - vm_compute. repeat split.
Qed.

(** A table saved with a byte order mark, with padded cells, headers in
    upper case and both kinds of line ends: the row without address cell and
    the row with an empty one are skipped, the first row is added under the
    id of its id column, and the last one, which carries the same id,
    updates it. *)
Lemma padded_table_is_read :
  ImportSpec.wellWritten ImportSpec.paddedTable = true
  /\ (Registry.importFromCsv (ImportSpec.write ImportSpec.paddedTable) noDefaults
        Registry.empty).1 = mkImportResult 1 1 2
  /\ host_address <$>
       hosts (Registry.importFromCsv (ImportSpec.write ImportSpec.paddedTable) noDefaults
                Registry.empty).2 !! "h1" = Some "10.0.0.9"
  /\ hosts (Registry.importFromCsv (ImportSpec.write ImportSpec.paddedTable) noDefaults
              Registry.empty).2 !! "host-1" = None
  /\ (let out := Registry.importFromCsv (ImportSpec.write ImportSpec.paddedTable)
                   noDefaults Registry.empty in
      let headers := ImportSpec.headersOf ImportSpec.paddedTable in
      let rows := ImportSpec.dataOf ImportSpec.paddedTable in
      out.1 = ImportSpec.count headers 1 rows (dom (hosts Registry.empty))
                (mkImportResult 0 0 0)
      /\ skipped out.1
         = Z.of_nat (length (List.filter (ImportSpec.missingAddress headers) rows))
      /\ added out.1 + updated out.1 + skipped out.1 = Z.of_nat (length rows)
      /\ (forall id,
            host_address <$> hosts out.2 !! id =
            match ImportSpec.latestAddress headers 1 rows id with
            | Some address => Some address
            | None => host_address <$> hosts Registry.empty !! id
            end)
      /\ groups out.2 = groups Registry.empty).
Proof.
  split; [reflexivity|]. split; [vm_compute; reflexivity|].
  split; [vm_compute; reflexivity|]. split; [vm_compute; reflexivity|].
  exact (proj1 importFromCsv_counts_rows ImportSpec.paddedTable noDefaults Registry.empty
           eq_refl).
Defined.

(** ** Runs and reachable states *)

Lemma run_reachable x o turns :
  forall q q', reachable x o q -> run x o turns q = Some q' -> reachable x o q'.
Proof.
  induction turns as [|[now t] rest IH]; intros q q' Hq Hrun; simpl in Hrun.
  - injection Hrun as <-. exact Hq.
  - destruct (turn x o now t q) as [q1|] eqn:Ht; [|discriminate].
    apply (IH q1 q'); [|exact Hrun].
    eapply reachable_turn; eassumption.
Qed.

Lemma run_app x o turns1 turns2 q :
  run x o (turns1 ++ turns2) q =
  match run x o turns1 q with
  | Some q1 => run x o turns2 q1
  | None => None
  end.
Proof.
  revert q. induction turns1 as [|[now t] rest IH]; intros q; simpl; [reflexivity|].
  destruct (turn x o now t q); [apply IH|reflexivity].
Qed.

(** ** Doubles *)

Section DoubleFacts.
Import Double.
Local Open Scope Q_scope.

(** *** The binary logarithm *)

Lemma pow2_pos (k : Z) : 0 < 2 ^ k.
Proof. apply Qpower_0_lt. reflexivity. Qed.

Lemma pow2_succ (k : Z) : 2 ^ (k + 1) == 2 * 2 ^ k.
Proof. rewrite Qpower_plus by discriminate. rewrite Qpower_1_r. ring. Qed.

Lemma pow2_Z (k : Z) : (0 <= k)%Z -> inject_Z (2 ^ k) == 2 ^ k.
Proof. intros H. rewrite Zpower_Qpower by exact H. reflexivity. Qed.

Lemma ilog2_spec (x : Q) : 0 < x -> 2 ^ ilog2 x <= x /\ x < 2 ^ (ilog2 x + 1).
Proof.
  intros Hx. destruct x as [p q]. unfold ilog2. cbn [Qnum Qden].
  assert (Hp : (0 < p)%Z).
  { unfold Qlt in Hx. cbn in Hx. lia. }
  set (lp := Z.log2 p). set (lq := Z.log2 (Z.pos q)).
  destruct (Z.log2_spec p Hp) as [Hp1 Hp2]. fold lp in Hp1, Hp2.
  destruct (Z.log2_spec (Z.pos q) eq_refl) as [Hq1 Hq2]. fold lq in Hq1, Hq2.
  assert (Hlp : (0 <= lp)%Z) by apply Z.log2_nonneg.
  assert (Hlq : (0 <= lq)%Z) by apply Z.log2_nonneg.
  assert (Ex : p # q == inject_Z p / inject_Z (Z.pos q)) by apply Qmake_Qdiv.
  assert (Qq : 0 < inject_Z (Z.pos q)) by reflexivity.
  assert (Exq : (p # q) * inject_Z (Z.pos q) == inject_Z p).
  { rewrite Ex. field. intros H. rewrite H in Qq. discriminate. }
  (* the bounds of the two logarithms, in Q *)
  assert (B1 : 2 ^ lp <= inject_Z p).
  { rewrite <- pow2_Z by exact Hlp. rewrite <- Zle_Qle. exact Hp1. }
  assert (B2 : inject_Z p < 2 ^ (lp + 1)).
  { rewrite <- pow2_Z by lia. rewrite <- Zlt_Qlt. rewrite Z.add_1_r. exact Hp2. }
  assert (B3 : 2 ^ lq <= inject_Z (Z.pos q)).
  { rewrite <- pow2_Z by exact Hlq. rewrite <- Zle_Qle. exact Hq1. }
  assert (B4 : inject_Z (Z.pos q) < 2 ^ (lq + 1)).
  { rewrite <- pow2_Z by lia. rewrite <- Zlt_Qlt. rewrite Z.add_1_r. exact Hq2. }
  rewrite pow2_succ in B2, B4.
  pose proof (pow2_pos lp) as Plp. pose proof (pow2_pos lq) as Plq.
  pose proof (pow2_pos (lp - lq)) as Pk.
  assert (Ek : 2 ^ (lp - lq) * 2 ^ lq == 2 ^ lp).
  { rewrite Qpower_minus by discriminate. field. intros H. rewrite H in Plq. discriminate. }
  set (X := p # q) in *. set (P := inject_Z p) in *. set (D := inject_Z (Z.pos q)) in *.
  set (K := 2 ^ (lp - lq)) in *. set (A := 2 ^ lp) in *. set (C := 2 ^ lq) in *.
  assert (Up : X < 2 * K).
  { apply Qnot_le_lt. intros H.
    assert (2 * K * C <= X * D).
    { apply Qle_trans with (X * C).
      - apply Qmult_le_compat_r; [exact H|lra].
      - apply Qmult_le_l; [lra|exact B3]. }
    lra. }
  assert (Lo : K < 2 * X).
  { apply Qnot_le_lt. intros H.
    assert (2 * X * D < K * (2 * C)).
    { apply Qle_lt_trans with (K * D).
      - apply Qmult_le_compat_r; [exact H|lra].
      - apply Qmult_lt_l; [lra|lra]. }
    lra. }
  destruct (Qle_bool K X) eqn:Hb.
  - apply Qle_bool_iff in Hb. split; [exact Hb|].
    rewrite pow2_succ. exact Up.
  - assert (Hlt : X < K).
    { apply Qnot_le_lt. intros H. apply Qle_bool_iff in H. congruence. }
    replace (lp - lq - 1 + 1)%Z with (lp - lq)%Z by lia.
    split; [|exact Hlt].
    assert (E : 2 ^ (lp - lq) == 2 * 2 ^ (lp - lq - 1)).
    { rewrite <- pow2_succ. replace (lp - lq - 1 + 1)%Z with (lp - lq)%Z by lia. reflexivity. }
    fold K in E. lra.
Qed.

Lemma ilog2_unique (x : Q) (k : Z) : 2 ^ k <= x -> x < 2 ^ (k + 1) -> ilog2 x = k.
Proof.
  intros H1 H2.
  assert (Hx : 0 < x) by (pose proof (pow2_pos k); lra).
  destruct (ilog2_spec x Hx) as [S1 S2].
  assert (ilog2 x < k + 1)%Z.
  { apply (Qpower_lt_compat_l_inv 2); [lra|reflexivity]. }
  assert (k < ilog2 x + 1)%Z.
  { apply (Qpower_lt_compat_l_inv 2); [lra|reflexivity]. }
  lia.
Qed.


(** *** The nearest integer *)

Lemma floor_bounds (x : Q) : inject_Z (Qfloor x) <= x /\ x < inject_Z (Qfloor x) + 1.
Proof.
  split; [apply Qfloor_le|].
  pose proof (Qlt_floor x) as H. rewrite inject_Z_plus in H. exact H.
Qed.

Lemma floor_unique (x : Q) (n : Z) : inject_Z n <= x -> x < inject_Z n + 1 -> Qfloor x = n.
Proof.
  intros H1 H2. destruct (floor_bounds x) as [F1 F2].
  assert (n < Qfloor x + 1)%Z.
  { rewrite Zlt_Qlt, inject_Z_plus. change (inject_Z 1) with 1. lra. }
  assert (Qfloor x < n + 1)%Z.
  { rewrite Zlt_Qlt, inject_Z_plus. change (inject_Z 1) with 1. lra. }
  lia.
Qed.

Lemma inject_Z_pred (n : Z) : inject_Z (n - 1) == inject_Z n - 1.
Proof. unfold Z.sub. rewrite inject_Z_plus. reflexivity. Qed.

Lemma nearestEven_near (x : Q) : inject_Z (nearestEven x) - (1 # 2) <= x <= inject_Z (nearestEven x) + (1 # 2).
Proof.
  unfold nearestEven. destruct (floor_bounds x) as [F1 F2].
  destruct (Qcompare_spec (x - inject_Z (Qfloor x)) (1 # 2)) as [E|L|G].
  - destruct (Z.even (Qfloor x)).
    + lra.
    + rewrite inject_Z_plus. change (inject_Z 1) with 1. lra.
  - lra.
  - rewrite inject_Z_plus. change (inject_Z 1) with 1. lra.
Qed.

Lemma nearestEven_between (x : Q) (lo hi : Z) :
  inject_Z lo <= x -> x <= inject_Z hi -> (lo <= nearestEven x <= hi)%Z.
Proof.
  intros H1 H2. destruct (floor_bounds x) as [F1 F2].
  assert (Hlo : (lo <= Qfloor x)%Z).
  { rewrite <- (Qfloor_Z lo). apply Qfloor_resp_le. exact H1. }
  assert (Hhi : (Qfloor x <= hi)%Z).
  { rewrite Zle_Qle. lra. }
  unfold nearestEven.
  assert (Hup : inject_Z (Qfloor x) < x -> (Qfloor x + 1 <= hi)%Z).
  { intros H. assert (Qfloor x < hi)%Z; [|lia]. rewrite Zlt_Qlt. lra. }
  destruct (Qcompare_spec (x - inject_Z (Qfloor x)) (1 # 2)) as [E|L|G].
  - destruct (Z.even (Qfloor x)); [lia|]. split; [lia|]. apply Hup. lra.
  - lia.
  - split; [lia|]. apply Hup. lra.
Qed.

Lemma nearestEven_unique (x : Q) (n : Z) :
  inject_Z n - (1 # 2) < x -> x < inject_Z n + (1 # 2) -> nearestEven x = n.
Proof.
  intros H1 H2. unfold nearestEven.
  destruct (Qlt_le_dec x (inject_Z n)) as [Hlt|Hge].
  - assert (F : Qfloor x = (n - 1)%Z).
    { apply floor_unique; rewrite inject_Z_pred; lra. }
    rewrite F. pose proof (inject_Z_pred n) as P.
    destruct (Qcompare_spec (x - inject_Z (n - 1)) (1 # 2)) as [E|L|G]; [lra|lra|lia].
  - assert (F : Qfloor x = n) by (apply floor_unique; lra).
    rewrite F.
    destruct (Qcompare_spec (x - inject_Z n) (1 # 2)) as [E|L|G]; [lra|reflexivity|lra].
Qed.

Lemma nearestEven_tie (x : Q) (n : Z) :
  x == inject_Z n - (1 # 2) -> Z.even n = true -> nearestEven x = n.
Proof.
  intros H1 H2. unfold nearestEven.
  assert (F : Qfloor x = (n - 1)%Z).
  { apply floor_unique; rewrite inject_Z_pred; lra. }
  rewrite F.
  assert (Hodd : Z.even (n - 1) = false).
  { rewrite Z.even_sub, H2. reflexivity. }
  rewrite Hodd. pose proof (inject_Z_pred n) as P.
  destruct (Qcompare_spec (x - inject_Z (n - 1)) (1 # 2)) as [E|L|G]; [lia|lra|lra].
Qed.


(** *** Rounding *)

Lemma Qabs_of_pos (x : Q) : 0 < x -> Qabs x = x.
Proof.
  destruct x as [p q]. unfold Qlt. cbn. intros H.
  rewrite Z.abs_eq by lia. reflexivity.
Qed.

Lemma round_pos (x : Q) :
  0 < x -> round x = inject_Z (nearestEven (x / 2 ^ ulpExponent x)) * 2 ^ ulpExponent x.
Proof.
  intros H. unfold round.
  destruct (Qeq_bool x 0) eqn:E; [|reflexivity].
  apply Qeq_bool_eq in E. lra.
Qed.

Lemma round_zero (x : Q) : x == 0 -> round x = 0.
Proof. intros H. unfold round. rewrite (Qeq_eq_bool _ _ H). reflexivity. Qed.

Lemma ulpExponent_of (x : Q) (k : Z) :
  2 ^ k <= x -> x < 2 ^ (k + 1) -> ulpExponent x = Z.max (k - 52) (-1074).
Proof.
  intros H1 H2. unfold ulpExponent.
  rewrite Qabs_of_pos by (pose proof (pow2_pos k); lra).
  rewrite (ilog2_unique x k H1 H2). reflexivity.
Qed.

Lemma ulpExponent_small (x : Q) : 0 < x -> x < 1 # 2 -> (ulpExponent x <= -54)%Z.
Proof.
  intros H1 H2. unfold ulpExponent. rewrite Qabs_of_pos by exact H1.
  destruct (ilog2_spec x H1) as [S1 _].
  assert (ilog2 x < -1)%Z; [|lia].
  apply (Qpower_lt_compat_l_inv 2); [|reflexivity].
  change (2 ^ (-1)) with (1 # 2). lra.
Qed.

(** A number within [2 ^ -54] of 1 rounds to 1. *)
Lemma round_near_one (s : Q) :
  1 - halfUlpBelowOne <= s -> s <= 1 + halfUlpBelowOne -> round s == 1.
Proof.
  unfold halfUlpBelowOne. intros H1 H2.
  rewrite round_pos by lra.
  destruct (Qlt_le_dec s 1) as [Hlt|Hge].
  - rewrite (ulpExponent_of s (-1)); [|change (2 ^ (-1)) with (1 # 2); lra|change (2 ^ (-1 + 1)) with 1; lra].
    change (Z.max (-1 - 52) (-1074)) with (-53)%Z.
    assert (P : 2 ^ (-53) == 1 # 9007199254740992) by reflexivity.
    assert (Y : s / 2 ^ (-53) == s * 9007199254740992).
    { rewrite P. field. }
    set (y := s / 2 ^ (-53)) in *.
    assert (N : nearestEven y = 9007199254740992%Z).
    { destruct (Qlt_le_dec (1 - (1 # 18014398509481984)) s) as [Hin|Hout].
      - apply nearestEven_unique; change (inject_Z 9007199254740992) with 9007199254740992; lra.
      - apply nearestEven_tie; [|reflexivity].
        change (inject_Z 9007199254740992) with 9007199254740992. lra. }
    rewrite N, P. reflexivity.
  - rewrite (ulpExponent_of s 0); [|change (2 ^ 0) with 1; lra|change (2 ^ (0 + 1)) with 2; lra].
    change (Z.max (0 - 52) (-1074)) with (-52)%Z.
    assert (P : 2 ^ (-52) == 1 # 4503599627370496) by reflexivity.
    assert (Y : s / 2 ^ (-52) == s * 4503599627370496).
    { rewrite P. field. }
    set (y := s / 2 ^ (-52)) in *.
    assert (N : nearestEven y = 4503599627370496%Z).
    { apply nearestEven_unique; change (inject_Z 4503599627370496) with 4503599627370496; lra. }
    rewrite N, P. reflexivity.
Qed.

Lemma round_half (x : Q) : x == 1 # 2 -> round x == 1 # 2.
Proof.
  intros H. rewrite round_pos by lra.
  rewrite (ulpExponent_of x (-1)); [|change (2 ^ (-1)) with (1 # 2); lra|change (2 ^ (-1 + 1)) with 1; lra].
  change (Z.max (-1 - 52) (-1074)) with (-53)%Z.
  assert (P : 2 ^ (-53) == 1 # 9007199254740992) by reflexivity.
  assert (Y : x / 2 ^ (-53) == x * 9007199254740992).
  { rewrite P. field. }
  set (y := x / 2 ^ (-53)) in *.
  assert (N : nearestEven y = 4503599627370496%Z).
  { apply nearestEven_unique; change (inject_Z 4503599627370496) with 4503599627370496; lra. }
  rewrite N, P. reflexivity.
Qed.

(** The doubles nearest to two numbers that add up to 1 add up to 1 within
    [2 ^ -54]: the error of the larger one, measured on the grid of the
    doubles below 1, bounds the error of the smaller one, whose grid is
    finer. *)
Lemma round_complements (a b : Q) :
  0 < a -> a < 1 # 2 -> a + b == 1 ->
  1 - halfUlpBelowOne <= round a + round b /\ round a + round b <= 1 + halfUlpBelowOne.
Proof.
  unfold halfUlpBelowOne. intros Ha1 Ha2 Hab.
  pose proof (ulpExponent_small a Ha1 Ha2) as He.
  rewrite (round_pos a Ha1), (round_pos b) by lra.
  rewrite (ulpExponent_of b (-1)); [|change (2 ^ (-1)) with (1 # 2); lra|change (2 ^ (-1 + 1)) with 1; lra].
  change (Z.max (-1 - 52) (-1074)) with (-53)%Z.
  assert (P : 2 ^ (-53) == 1 # 9007199254740992) by reflexivity.
  assert (Yb : b / 2 ^ (-53) == b * 9007199254740992).
  { rewrite P. field. }
  set (yb := b / 2 ^ (-53)) in *.
  pose proof (nearestEven_near yb) as Nb.
  set (nb := nearestEven yb) in *.
  set (e := ulpExponent a) in *.
  pose proof (pow2_pos e) as PE.
  set (h := (2 ^ (-54 - e))%Z).
  assert (HE : inject_Z h * 2 ^ e == 1 # 18014398509481984).
  { unfold h. rewrite pow2_Z by lia. rewrite <- Qpower_plus by discriminate.
    replace (-54 - e + e)%Z with (-54)%Z by lia. reflexivity. }
  assert (Ya : (a / 2 ^ e) * 2 ^ e == a).
  { field. intros H. rewrite H in PE. discriminate. }
  set (ya := a / 2 ^ e) in *.
  set (g := (9007199254740992 - nb)%Z).
  assert (G : inject_Z g == 9007199254740992 - inject_Z nb).
  { unfold g, Z.sub. rewrite inject_Z_plus, inject_Z_opp. reflexivity. }
  assert (Hbetween : (2 * g * h - h <= nearestEven ya <= 2 * g * h + h)%Z).
  { apply nearestEven_between.
    - apply (Qmult_le_r _ _ (2 ^ e) PE). rewrite Ya.
      unfold Z.sub. rewrite inject_Z_plus, inject_Z_opp, !inject_Z_mult.
      change (inject_Z 2) with 2.
      setoid_replace ((2 * inject_Z g * inject_Z h + - inject_Z h) * 2 ^ e)
        with ((2 * inject_Z g - 1) * (inject_Z h * 2 ^ e)) using relation Qeq by ring.
      rewrite HE. lra.
    - apply (Qmult_le_r _ _ (2 ^ e) PE). rewrite Ya.
      rewrite inject_Z_plus, !inject_Z_mult.
      change (inject_Z 2) with 2.
      setoid_replace ((2 * inject_Z g * inject_Z h + inject_Z h) * 2 ^ e)
        with ((2 * inject_Z g + 1) * (inject_Z h * 2 ^ e)) using relation Qeq by ring.
      rewrite HE. lra. }
  set (na := nearestEven ya) in *.
  destruct Hbetween as [L U].
  rewrite Zle_Qle in L, U.
  unfold Z.sub in L. rewrite inject_Z_plus, inject_Z_opp, !inject_Z_mult in L.
  rewrite inject_Z_plus, !inject_Z_mult in U.
  change (inject_Z 2) with 2 in L, U.
  apply (Qmult_le_compat_r _ _ (2 ^ e)) in L; [|lra].
  apply (Qmult_le_compat_r _ _ (2 ^ e)) in U; [|lra].
  setoid_replace ((2 * inject_Z g * inject_Z h + - inject_Z h) * 2 ^ e)
    with ((2 * inject_Z g - 1) * (inject_Z h * 2 ^ e)) using relation Qeq in L by ring.
  setoid_replace ((2 * inject_Z g * inject_Z h + inject_Z h) * 2 ^ e)
    with ((2 * inject_Z g + 1) * (inject_Z h * 2 ^ e)) using relation Qeq in U by ring.
  rewrite HE in L, U. rewrite P.
  set (A := inject_Z na * 2 ^ e) in *.
  lra.
Qed.

(** The two rates: the doubles nearest to two quotients that add up to 1
    add up to 1, rounded as the addition of doubles rounds. *)
Lemma add_round_complements (a b : Q) :
  0 <= a -> 0 <= b -> a + b == 1 -> add (round a) (round b) == 1.
Proof.
  intros Ha Hb Hab. unfold add.
  assert (Hone : forall x, x == 1 -> round x == 1).
  { intros x Hx. apply round_near_one; unfold halfUlpBelowOne; lra. }
  apply round_near_one.
  - destruct (Qlt_le_dec a (1 # 2)) as [Hlt|Hge].
    + destruct (Qlt_le_dec 0 a) as [Hpos|Hzero].
      * apply (round_complements a b); assumption.
      * rewrite (round_zero a) by lra. rewrite (Hone b) by lra.
        unfold halfUlpBelowOne. lra.
    + destruct (Qlt_le_dec (1 # 2) a) as [Hgt|Hle].
      * destruct (Qlt_le_dec 0 b) as [Hpos|Hzero].
        -- destruct (round_complements b a) as [H _]; [assumption|lra|lra|]. lra.
        -- rewrite (round_zero b) by lra. rewrite (Hone a) by lra.
           unfold halfUlpBelowOne. lra.
      * rewrite (round_half a), (round_half b) by lra. unfold halfUlpBelowOne. lra.
  - destruct (Qlt_le_dec a (1 # 2)) as [Hlt|Hge].
    + destruct (Qlt_le_dec 0 a) as [Hpos|Hzero].
      * apply (round_complements a b); assumption.
      * rewrite (round_zero a) by lra. rewrite (Hone b) by lra.
        unfold halfUlpBelowOne. lra.
    + destruct (Qlt_le_dec (1 # 2) a) as [Hgt|Hle].
      * destruct (Qlt_le_dec 0 b) as [Hpos|Hzero].
        -- destruct (round_complements b a) as [_ H]; [assumption|lra|lra|]. lra.
        -- rewrite (round_zero b) by lra. rewrite (Hone a) by lra.
           unfold halfUlpBelowOne. lra.
      * rewrite (round_half a), (round_half b) by lra. unfold halfUlpBelowOne. lra.
Qed.

(** On the quotients of all counters up to 64 and on their sums, [div]
    and [add] are the division and the addition of binary64. *)
Lemma double_operations_are_binary64 : agreesUpTo 64 = true.
Proof. vm_compute. reflexivity. Qed.

End DoubleFacts.

(** ** Telemetry *)

Section Telemetry.

Lemma settled_status (st : JobState) :
  st ∈ [Succeeded; Failed] <-> st = Succeeded \/ st = Failed.
Proof. rewrite !elem_of_cons, elem_of_nil. tauto. Qed.

Lemma settled_split (js : list DeploymentJob) :
  Z.of_nat (length (filter (fun job => job_status job ∈ [Succeeded; Failed]) js))
  = Queue.countStatus Succeeded js + Queue.countStatus Failed js.
Proof.
  unfold Queue.countStatus.
  induction js as [|job js IH]; [reflexivity|].
  rewrite !filter_cons.
  destruct (decide (job_status job ∈ [Succeeded; Failed])) as [Hin|Hout].
  - apply settled_status in Hin. destruct Hin as [Hst|Hst]; rewrite Hst.
    + rewrite decide_True by reflexivity. rewrite decide_False by discriminate.
      cbn [length]. lia.
    + rewrite decide_False by discriminate. rewrite decide_True by reflexivity.
      cbn [length]. lia.
  - rewrite settled_status in Hout.
    rewrite decide_False by tauto. rewrite decide_False by tauto. exact IH.
Qed.

Lemma countStatus_nonneg st js : 0 <= Queue.countStatus st js.
Proof. unfold Queue.countStatus. lia. Qed.

End Telemetry.

Section Rates.

Lemma settled_job_counted (q : JobQueue) (jobId : string) (job : DeploymentJob) :
  Queue.getJob jobId q = Some job ->
  job_status job ∈ [Succeeded; Failed] ->
  0 < Queue.countStatus Succeeded (Queue.jobValues q)
      + Queue.countStatus Failed (Queue.jobValues q).
Proof.
  intros Hjob Hst. rewrite <- settled_split.
  assert (Hin : job ∈ filter (fun job => job_status job ∈ [Succeeded; Failed])
                        (Queue.jobValues q)).
  { apply list_elem_of_filter. split; [exact Hst|].
    unfold Queue.jobValues. apply list_elem_of_fmap.
    exists (jobId, job). split; [reflexivity|].
    apply elem_of_map_to_list. exact Hjob. }
  destruct (filter _ (Queue.jobValues q)) as [|j js]; [inversion Hin|].
  cbn [length]. lia.
Qed.

Lemma no_settled_job_counted (q : JobQueue) :
  (forall jobId job, Queue.getJob jobId q = Some job ->
                     job_status job ∉ [Succeeded; Failed]) ->
  Queue.countStatus Succeeded (Queue.jobValues q) = 0
  /\ Queue.countStatus Failed (Queue.jobValues q) = 0.
Proof.
  intros Hnone.
  pose proof (countStatus_nonneg Succeeded (Queue.jobValues q)) as Hs.
  pose proof (countStatus_nonneg Failed (Queue.jobValues q)) as Hf.
  pose proof (settled_split (Queue.jobValues q)) as Hsplit.
  assert (Hempty : filter (fun job => job_status job ∈ [Succeeded; Failed])
                     (Queue.jobValues q) = []).
  { destruct (filter _ (Queue.jobValues q)) as [|j js] eqn:E; [reflexivity|].
    assert (Hin : j ∈ filter (fun job => job_status job ∈ [Succeeded; Failed])
                        (Queue.jobValues q)) by (rewrite E; left).
    apply list_elem_of_filter in Hin as [Hst Hj].
    unfold Queue.jobValues in Hj. apply list_elem_of_fmap in Hj as ([k j'] & -> & Hj).
    apply elem_of_map_to_list in Hj. exfalso. exact (Hnone k j' Hj Hst). }
  rewrite Hempty in Hsplit. cbn [length] in Hsplit. lia.
Qed.

(** The rates the program holds are the doubles nearest to the quotients of
    [getTelemetry]. *)
Lemma rates_are_rounded_quotients (o : JobQueueOptions) (now : Z) (q : JobQueue) :
  successRate (Queue.getTelemetryDoubles o now q)
  = Double.round (successRate (Queue.getTelemetry o now q))
  /\ failureRate (Queue.getTelemetryDoubles o now q)
     = Double.round (failureRate (Queue.getTelemetry o now q))
  /\ throughputPerMinute (Queue.getTelemetryDoubles o now q)
     = throughputPerMinute (Queue.getTelemetry o now q).
Proof. repeat split; reflexivity. Qed.

End Rates.

(** C10. The two rates of the telemetry, as the doubles the program
    computes, add up to 1, by the addition of doubles, as soon as one job
    of the queue has succeeded or failed; both are 0 when no job has. *)
Theorem telemetry_rates_sum_to_one (o : JobQueueOptions) (now : Z) (q : JobQueue) :
  let t := Queue.getTelemetryDoubles o now q in
  ((exists jobId job,
       Queue.getJob jobId q = Some job /\ job_status job ∈ [Succeeded; Failed]) ->
   (Double.add (successRate t) (failureRate t) == 1)%Q)
  /\ ((forall jobId job,
         Queue.getJob jobId q = Some job -> job_status job ∉ [Succeeded; Failed]) ->
      (successRate t == 0 /\ failureRate t == 0)%Q).
Proof.
  cbn zeta. unfold Queue.getTelemetryDoubles. cbn [successRate failureRate].
  rewrite settled_split.
  pose proof (countStatus_nonneg Succeeded (Queue.jobValues q)) as Hs.
  pose proof (countStatus_nonneg Failed (Queue.jobValues q)) as Hf.
  split.
  - intros (jobId & job & Hjob & Hst).
    pose proof (settled_job_counted q jobId job Hjob Hst) as Hpos.
    set (s := Queue.countStatus Succeeded (Queue.jobValues q)) in *.
    set (f := Queue.countStatus Failed (Queue.jobValues q)) in *.
    destruct (s + f =? 0) eqn:Hz; [apply Z.eqb_eq in Hz; lia|].
    assert (Hn : (0 < inject_Z (s + f))%Q).
    { change 0%Q with (inject_Z 0). rewrite <- Zlt_Qlt. exact Hpos. }
    assert (Hs' : (0 <= inject_Z s)%Q).
    { change 0%Q with (inject_Z 0). rewrite <- Zle_Qle. exact Hs. }
    assert (Hf' : (0 <= inject_Z f)%Q).
    { change 0%Q with (inject_Z 0). rewrite <- Zle_Qle. exact Hf. }
    unfold Double.div. apply add_round_complements.
    + apply Qle_shift_div_l; [exact Hn|]. lra.
    + apply Qle_shift_div_l; [exact Hn|]. lra.
    + rewrite inject_Z_plus in Hn |- *. field. lra.
  - intros Hnone. destruct (no_settled_job_counted q Hnone) as [-> ->].
    unfold Double.div. rewrite round_zero by reflexivity.
    split; reflexivity.
Qed.

(** One job has succeeded and two have failed: the rates are the doubles
    nearest to one third and to two thirds, which add up to 1 as doubles,
    and to less than 1 as rational numbers. *)
Lemma rates_of_one_success_and_two_failures :
  let q := Scenario.after anyExecutor (Scenario.options 4 1)
             Scenario.oneSucceededTwoFailed in
  let t := Queue.getTelemetryDoubles DEFAULT_OPTIONS 2000 q in
  (exists jobId job,
      Queue.getJob jobId q = Some job /\ job_status job ∈ [Succeeded; Failed])
  /\ (successRate t == 6004799503160661 # 18014398509481984)%Q
  /\ (failureRate t == 6004799503160661 # 9007199254740992)%Q
  /\ (successRate t + failureRate t == 18014398509481983 # 18014398509481984)%Q
  /\ (Double.add (successRate t) (failureRate t) == 1)%Q.
Proof.
  assert (Hjob : exists jobId job,
             Queue.getJob jobId
               (Scenario.after anyExecutor (Scenario.options 4 1)
                  Scenario.oneSucceededTwoFailed) = Some job
             /\ job_status job ∈ [Succeeded; Failed]).
  { exists "A". eexists. split; [vm_compute; reflexivity|]. cbn. left. }
  split; [exact Hjob|].
  split; [vm_compute; reflexivity|].
  split; [vm_compute; reflexivity|].
  split; [vm_compute; reflexivity|].
  exact (proj1 (telemetry_rates_sum_to_one DEFAULT_OPTIONS 2000
                  (Scenario.after anyExecutor (Scenario.options 4 1)
                     Scenario.oneSucceededTwoFailed)) Hjob).
Defined.

(** C7, as the code has it. The denominator of both rates is the number of
    succeeded and failed jobs (the two counters of the snapshot), replaced by
    1 when it is 0; cancelled jobs are not part of it. *)
Theorem telemetry_rates_over_settled_jobs (o : JobQueueOptions) (now : Z) (q : JobQueue) :
  let t := Queue.getTelemetry o now q in
  let s := Queue.getSnapshot q in
  let total := Z.max 1 (completedCount s + failedCount s) in
  successRate t = (inject_Z (completedCount s) / inject_Z total)%Q
  /\ failureRate t = (inject_Z (failedCount s) / inject_Z total)%Q.
Proof.
  cbn zeta. unfold Queue.getTelemetry, Queue.getSnapshot.
  cbn [successRate failureRate completedCount failedCount].
  rewrite settled_split.
  pose proof (countStatus_nonneg Succeeded (Queue.jobValues q)) as Hs.
  pose proof (countStatus_nonneg Failed (Queue.jobValues q)) as Hf.
  set (s := Queue.countStatus Succeeded (Queue.jobValues q)) in *.
  set (f := Queue.countStatus Failed (Queue.jobValues q)) in *.
  assert ((if s + f =? 0 then 1 else s + f) = Z.max 1 (s + f)) as ->.
  { destruct (s + f =? 0) eqn:Hz; [apply Z.eqb_eq in Hz|apply Z.eqb_neq in Hz]; lia. }
  split; reflexivity.
Qed.

(** C7, as the document has it, fails: in a queue with one slot, after one
    job has succeeded and another one was cancelled while it waited, the
    success rate is 1, not one half. *)
Lemma telemetry_rate_ignores_cancelled_jobs :
  let q := Scenario.after anyExecutor (Scenario.options 1 1)
             Scenario.oneSucceededOneCancelled in
  Scenario.status_of "A" q = Some Succeeded
  /\ Scenario.status_of "B" q = Some Cancelled
  /\ TelemetrySpec.terminalCount q = 2
  /\ (successRate (Queue.getTelemetry DEFAULT_OPTIONS 2000 q) == 1)%Q
  /\ (TelemetrySpec.successRateOverTerminal q == 1 # 2)%Q
  /\ ~ (successRate (Queue.getTelemetry DEFAULT_OPTIONS 2000 q)
        == TelemetrySpec.successRateOverTerminal q)%Q.
Proof.
  vm_compute. repeat split; try reflexivity. discriminate.
Qed.

(** ** The queue on concrete runs *)

Lemma remove_first_absent (x : string) (xs : list string) :
  x ∉ xs -> remove_first x xs = xs.
Proof.
  induction xs as [|y ys IH]; intros Hx; [reflexivity|].
  apply not_elem_of_cons in Hx as [Hne Hys]. simpl.
  destruct (String.eqb_spec y x) as [->|_]; [contradiction|].
  rewrite IH by exact Hys. reflexivity.
Qed.

(** C9. Cancelling a job that is neither active nor waiting, such as one that
    has already succeeded or failed, still rewrites it: the status becomes
    [Cancelled], the elapsed time 0, the completion time the time of the
    call, and [jobCompleted] is emitted for it once more; nothing checks that
    the job is not settled already. *)
Theorem cancel_overwrites_settled_job (now : Z) (jobId : string) (q : JobQueue)
  (job : DeploymentJob) :
  jobs q !! jobId = Some job ->
  activeJobs q !! jobId = None ->
  jobId ∉ waitingQueue q ->
  let q' := Queue.cancel now jobId q in
  exists cancelledJob,
    jobs q' !! jobId = Some cancelledJob
    /\ job_status cancelledJob = Cancelled
    /\ elapsedMs (job_metrics cancelledJob) = Some 0
    /\ completedAt (job_metrics cancelledJob) = Some now
    /\ startedAt (job_metrics cancelledJob) = startedAt (job_metrics job)
    /\ attempt (job_metrics cancelledJob) = attempt (job_metrics job)
    /\ job_result cancelledJob = job_result job
    /\ last (emitted q') = Some (JobCompleted cancelledJob)
    /\ length (emitted q') = (length (emitted q) + 2)%nat
    /\ waitingQueue q' = waitingQueue q
    /\ activeJobs q' = activeJobs q.
Proof.
  intros Hjob Hactive Hwaiting. cbn zeta. unfold Queue.cancel.
  rewrite Hjob, Hactive.
  rewrite bool_decide_eq_false_2 by (intros [? ?]; discriminate).
  rewrite remove_first_absent by exact Hwaiting.
  eexists. split; [apply lookup_insert_eq|].
  cbn. rewrite last_snoc, !length_app. cbn. repeat split. lia.
Qed.

Lemma cancel_overwrites_succeeded_job :
  let q := Scenario.after anyExecutor DEFAULT_OPTIONS Scenario.oneSucceeded in
  Scenario.status_of "A" q = Some Succeeded
  /\ exists cancelledJob,
       jobs (Queue.cancel 2000 "A" q) !! "A" = Some cancelledJob
       /\ job_status cancelledJob = Cancelled
       /\ elapsedMs (job_metrics cancelledJob) = Some 0
       /\ completedAt (job_metrics cancelledJob) = Some 2000
       /\ startedAt (job_metrics cancelledJob) = Some 10
       /\ attempt (job_metrics cancelledJob) = 1
       /\ is_Some (job_result cancelledJob)
       /\ last (emitted (Queue.cancel 2000 "A" q)) = Some (JobCompleted cancelledJob).
Proof.
  cbn zeta. split; [vm_compute; reflexivity|].
  set (q := Scenario.after anyExecutor DEFAULT_OPTIONS Scenario.oneSucceeded).
  assert (Hjob : is_Some (jobs q !! "A")) by (vm_compute; eauto).
  destruct Hjob as [job Hjob].
  destruct (cancel_overwrites_settled_job 2000 "A" q job Hjob)
    as (cancelledJob & H1 & H2 & H3 & H4 & H5 & H6 & H7 & H8 & _).
  - vm_compute. reflexivity.
  - apply (proj1 (bool_decide_eq_false _)). vm_compute. reflexivity.
  - exists cancelledJob.
    assert (Hjob' : jobs q !! "A" = Some job) by exact Hjob.
    vm_compute in Hjob'. injection Hjob' as <-.
    repeat split; try assumption.
    + rewrite H7. eauto.
Defined.

(** C3. A retried job is put back in the waiting list, and the failure
    handler runs a scheduling pass, before the [finally] block of the failed
    attempt removes the job from the active set.  With a free slot the pass
    restarts the job at once, and the [finally] block then removes the entry
    of the restarted job: the job runs outside the active set.  Here
    [maxParallel] is 2 and three jobs are running, three calls of the
    executor are in flight, and the snapshot counts two active jobs. *)
Theorem retried_job_escapes_parallelism_bound :
  let o := Scenario.options 2 2 in
  let q := Scenario.after anyExecutor o Scenario.threeAtOnce in
  run anyExecutor o Scenario.threeAtOnce Queue.new = Some q
  /\ reachable anyExecutor o q
  /\ maxParallel o = 2
  /\ Queue.countStatus Running (Queue.jobValues q) = 3
  /\ executorsInFlight q = 3%nat
  /\ activeCount (Queue.getSnapshot q) = 2
  /\ activeJobs q !! "A" = None
  /\ Scenario.status_of "A" q = Some Running.
Proof.
  cbn zeta.
  assert (Hrun : run anyExecutor (Scenario.options 2 2) Scenario.threeAtOnce Queue.new
                 = Some (Scenario.after anyExecutor (Scenario.options 2 2)
                           Scenario.threeAtOnce))
    by (vm_compute; reflexivity).
  split; [exact Hrun|].
  split; [exact (run_reachable _ _ _ _ _ (reachable_new _ _) Hrun)|].
  vm_compute. repeat split.
Qed.

(** C5. While the failure handler of a retried job waits, the job is in the
    waiting list and still in the active set: [cancel] is refused although
    the job waits, and the job runs again afterwards.  Once the [finally]
    block of the failed attempt has removed the restarted job from the
    active set, [cancel] is accepted although the job is running: the status
    becomes [Cancelled] while the call of the executor is in flight.  Both
    come from the ordering described at C3. *)
Theorem cancel_during_retry_window :
  let o := Scenario.options 2 2 in
  let waiting := Scenario.after anyExecutor o Scenario.firstAttemptRejected in
  let restarted := Scenario.after anyExecutor o Scenario.retriedTooEarly in
  (reachable anyExecutor o waiting
   /\ waitingQueue waiting = ["A"]
   /\ Scenario.status_of "A" waiting = Some Queued
   /\ Queue.cancel 50 "A" waiting = waiting
   /\ run anyExecutor o [(50, CallCancel "A"); (120, RetryDelayElapsed "A")] waiting
      = run anyExecutor o [(120, RetryDelayElapsed "A")] waiting
   /\ (Scenario.status_of "A" <$>
         run anyExecutor o [(50, CallCancel "A"); (120, RetryDelayElapsed "A")] waiting)
      = Some (Some Running))
  /\ (reachable anyExecutor o restarted
      /\ Scenario.status_of "A" restarted = Some Running
      /\ executorsInFlight restarted = 1%nat
      /\ Scenario.status_of "A" (Queue.cancel 125 "A" restarted) = Some Cancelled
      /\ executorsInFlight (Queue.cancel 125 "A" restarted) = 1%nat).
Proof.
  cbn zeta.
  assert (H1 : run anyExecutor (Scenario.options 2 2) Scenario.firstAttemptRejected Queue.new
               = Some (Scenario.after anyExecutor (Scenario.options 2 2)
                         Scenario.firstAttemptRejected))
    by (vm_compute; reflexivity).
  assert (H2 : run anyExecutor (Scenario.options 2 2) Scenario.retriedTooEarly Queue.new
               = Some (Scenario.after anyExecutor (Scenario.options 2 2)
                         Scenario.retriedTooEarly))
    by (vm_compute; reflexivity).
  split.
  - split; [exact (run_reachable _ _ _ _ _ (reachable_new _ _) H1)|].
    vm_compute. repeat split.
  - split; [exact (run_reachable _ _ _ _ _ (reachable_new _ _) H2)|].
    vm_compute. repeat split.
Qed.

(** C6. In the state the failure handler publishes on the retry path, the one
    job of the queue is counted as waiting and as active: the four counters
    of the snapshot add up to 2, for one job enqueued and none cancelled.
    The cause is the ordering described at C3. *)
Theorem snapshot_counts_retried_job_twice :
  let o := Scenario.options 2 2 in
  let q := Scenario.after anyExecutor o Scenario.firstAttemptRejected in
  let s := Queue.getSnapshot q in
  reachable anyExecutor o q
  /\ length (Queue.jobValues q) = 1%nat
  /\ Queue.countStatus Cancelled (Queue.jobValues q) = 0
  /\ waitingCount s = 1 /\ activeCount s = 1 /\ completedCount s = 0 /\ failedCount s = 0
  /\ waitingCount s + activeCount s + completedCount s + failedCount s = 2
  /\ last (emitted q) = Some (SnapshotEvent s).
Proof.
  cbn zeta.
  assert (H1 : run anyExecutor (Scenario.options 2 2) Scenario.firstAttemptRejected Queue.new
               = Some (Scenario.after anyExecutor (Scenario.options 2 2)
                         Scenario.firstAttemptRejected))
    by (vm_compute; reflexivity).
  split; [exact (run_reachable _ _ _ _ _ (reachable_new _ _) H1)|].
  vm_compute. repeat split.
Qed.

(** C1, as the document has it, fails: with [retryCount] 1 a job whose
    executor throws is attempted once, not twice. *)
Lemma one_retry_configured_none_made :
  let o := Scenario.options 4 1 in
  let q := Scenario.after anyExecutor o Scenario.rejectedOnce in
  reachable anyExecutor o q
  /\ retryCount o = 1
  /\ Scenario.status_of "A" q = Some Failed
  /\ Scenario.attempt_of "A" q = Some 1
  /\ callsFor "A" q = 1
  /\ suspended q = [] /\ waitingQueue q = [].
Proof.
  cbn zeta.
  assert (H1 : run anyExecutor (Scenario.options 4 1) Scenario.rejectedOnce Queue.new
               = Some (Scenario.after anyExecutor (Scenario.options 4 1)
                         Scenario.rejectedOnce))
    by (vm_compute; reflexivity).
  split; [exact (run_reachable _ _ _ _ _ (reachable_new _ _) H1)|].
  vm_compute. repeat split.
Qed.

(** C2, as the document has it, fails: with [retryCount] 2 the job of a host
    that no strategy supports is put back in the queue after its first
    attempt and the executor is called a second time. *)
Lemma unsupported_host_is_retried :
  let x := Manager.executeJob Scenario.strategies in
  let o := Scenario.options 4 2 in
  let rejected := Scenario.after x o Scenario.linuxHostRejected in
  let retried := Scenario.after x o Scenario.linuxHostRetried in
  Manager.getStrategyForHost Scenario.strategies (Scenario.host "linux") = None
  /\ reachable x o rejected
  /\ Scenario.status_of "A" rejected = Some Queued
  /\ waitingQueue rejected = ["A"]
  /\ reachable x o retried
  /\ Scenario.status_of "A" retried = Some Running
  /\ Scenario.attempt_of "A" retried = Some 2
  /\ callsFor "A" retried = 2.
Proof.
  cbn zeta.
  assert (H1 : run (Manager.executeJob Scenario.strategies) (Scenario.options 4 2)
                 Scenario.linuxHostRejected Queue.new
               = Some (Scenario.after (Manager.executeJob Scenario.strategies)
                         (Scenario.options 4 2) Scenario.linuxHostRejected))
    by (vm_compute; reflexivity).
  assert (H2 : run (Manager.executeJob Scenario.strategies) (Scenario.options 4 2)
                 Scenario.linuxHostRetried Queue.new
               = Some (Scenario.after (Manager.executeJob Scenario.strategies)
                         (Scenario.options 4 2) Scenario.linuxHostRetried))
    by (vm_compute; reflexivity).
  split; [vm_compute; reflexivity|].
  split; [exact (run_reachable _ _ _ _ _ (reachable_new _ _) H1)|].
  split; [vm_compute; reflexivity|].
  split; [vm_compute; reflexivity|].
  split; [exact (run_reachable _ _ _ _ _ (reachable_new _ _) H2)|].
  vm_compute. repeat split.
Qed.

(** C4, as the document has it, fails: a job that failed once and waits for
    its retry can be cancelled; it is then cancelled with one attempt made
    and one call of its executor. *)
Lemma cancelled_job_was_started :
  let o := Scenario.options 1 2 in
  let q := Scenario.after anyExecutor o
             (Scenario.retryBehindAnotherJob ++ [(130, CallCancel "A")]) in
  reachable anyExecutor o q
  /\ Scenario.status_of "A" q = Some Cancelled
  /\ Scenario.attempt_of "A" q = Some 1
  /\ callsFor "A" q = 1.
Proof.
  cbn zeta.
  assert (H1 : run anyExecutor (Scenario.options 1 2)
                 (Scenario.retryBehindAnotherJob ++ [(130, CallCancel "A")]) Queue.new
               = Some (Scenario.after anyExecutor (Scenario.options 1 2)
                         (Scenario.retryBehindAnotherJob ++ [(130, CallCancel "A")])))
    by (vm_compute; reflexivity).
  split; [exact (run_reachable _ _ _ _ _ (reachable_new _ _) H1)|].
  vm_compute. repeat split.
Qed.

(** ** The invariant holds in every reachable state *)

Section ListFacts.

Lemma take_first_perm {A} (p : A -> bool) (xs : list A) (c : A) (others : list A) :
  take_first p xs = Some (c, others) -> xs ≡ₚ c :: others /\ p c = true.
Proof.
  revert c others. induction xs as [|y ys IH]; intros c others H; simpl in H.
  - discriminate.
  - destruct (p y) eqn:Hp.
    + injection H as <- <-. split; [reflexivity|exact Hp].
    + destruct (take_first p ys) as [[found rest]|] eqn:Hys; [|discriminate].
      injection H as <- <-.
      destruct (IH found rest eq_refl) as [Hperm Hfound].
      split; [|exact Hfound].
      rewrite Hperm. apply Permutation_swap.
Qed.

Lemma remove_first_elem (x y : string) (xs : list string) :
  NoDup xs -> (y ∈ remove_first x xs <-> y ∈ xs /\ y <> x).
Proof.
  induction xs as [|z zs IH]; intros Hnd; simpl.
  - rewrite elem_of_nil. tauto.
  - apply NoDup_cons in Hnd as [Hz Hzs].
    destruct (String.eqb_spec z x) as [->|Hne].
    + rewrite elem_of_cons. split.
      * intros Hy. split; [right; exact Hy|]. intros ->. contradiction.
      * intros [[->|Hy] Hyx]; [contradiction|exact Hy].
    + rewrite !elem_of_cons, (IH Hzs). split.
      * intros [->|[Hy Hyx]]; [split; [left; reflexivity|exact Hne]|].
        split; [right; exact Hy|exact Hyx].
      * intros [[->|Hy] Hyx]; [left; reflexivity|right; split; assumption].
Qed.

Lemma remove_first_NoDup (x : string) (xs : list string) :
  NoDup xs -> NoDup (remove_first x xs).
Proof.
  induction xs as [|z zs IH]; intros Hnd; simpl; [constructor|].
  pose proof Hnd as Hnd'. apply NoDup_cons in Hnd as [Hz Hzs].
  destruct (String.eqb_spec z x) as [->|Hne]; [exact Hzs|].
  apply NoDup_cons. split; [|apply IH; exact Hzs].
  rewrite (remove_first_elem x z zs Hzs). tauto.
Qed.

Lemma callsIn_snoc (j : string) (C : list (DeploymentJob * DeploymentContext))
  (job : DeploymentJob) (ctx : DeploymentContext) :
  callsIn j (C ++ [(job, ctx)])
  = callsIn j C + (if decide (job_id job = j) then 1 else 0).
Proof.
  unfold callsIn. rewrite filter_app, length_app, filter_cons, filter_nil.
  cbn [fst]. destruct (decide (job_id job = j)); cbn [length]; lia.
Qed.

Lemma busy_perm (W : list string) (S S' : list Continuation) :
  S ≡ₚ S' -> busy W S ≡ₚ busy W S'.
Proof. intros H. unfold busy. rewrite H. reflexivity. Qed.

Lemma busy_cons_frame (W : list string) (c : Continuation) (S : list Continuation) :
  busy W (c :: S)
  = W ++ match frame_busy c with Some j => j :: omap frame_busy S | None => omap frame_busy S end.
Proof. unfold busy. cbn [omap list_omap]. destruct (frame_busy c); reflexivity. Qed.

End ListFacts.

Section CoreInvariant.
Variables (x : ExecutorModel) (o : JobQueueOptions) (E : Thrown -> Prop).

Lemma core_perm J W S S' C X :
  S ≡ₚ S' -> CoreInv x o E J W S C X -> CoreInv x o E J W S' C X.
Proof.
  intros HP [K B Wt Ex Th At Fr Cx Rj]. constructor; auto.
  - rewrite <- (busy_perm W S S' HP). exact B.
  - intros job ctx Hin. apply Ex. rewrite HP. exact Hin.
  - intros job ctx Hin. apply Th. rewrite HP. exact Hin.
Qed.

Lemma core_new : CoreInv x o E ∅ [] [] [] ∅.
Proof.
  constructor.
  - intros k job H. rewrite lookup_empty in H. discriminate.
  - constructor.
  - intros j H. apply elem_of_nil in H. contradiction.
  - intros job ctx H. apply elem_of_nil in H. contradiction.
  - intros job ctx H. apply elem_of_nil in H. contradiction.
  - intros j cur H. rewrite lookup_empty in H. discriminate.
  - intros j _. reflexivity.
  - intros j cur H. rewrite lookup_empty in H. discriminate.
  - intros j ctx cur H. rewrite lookup_empty in H. discriminate.
Qed.

Lemma busy_head j W S : busy (j :: W) S = j :: busy W S.
Proof. reflexivity. Qed.

Lemma busy_snoc_idle W S c : frame_busy c = None -> busy W (S ++ [c]) = busy W S.
Proof.
  intros H. unfold busy. rewrite omap_app. cbn [omap list_omap]. rewrite H.
  rewrite app_nil_r. reflexivity.
Qed.

Lemma busy_snoc_busy W S c j :
  frame_busy c = Some j -> busy W (S ++ [c]) ≡ₚ j :: busy W S.
Proof.
  intros H. unfold busy. rewrite omap_app. cbn [omap list_omap]. rewrite H.
  rewrite app_assoc. rewrite <- Permutation_cons_append. reflexivity.
Qed.

Lemma busy_waiting_snoc W S j : busy (W ++ [j]) S ≡ₚ j :: busy W S.
Proof.
  unfold busy. rewrite <- app_assoc. cbn [app].
  rewrite <- Permutation_middle. reflexivity.
Qed.

Lemma in_busy_waiting j W S : j ∈ W -> j ∈ busy W S.
Proof. intros H. unfold busy. apply elem_of_app. left. exact H. Qed.

Lemma in_busy_frame c j W S : c ∈ S -> frame_busy c = Some j -> j ∈ busy W S.
Proof.
  intros Hc Hj. unfold busy. apply elem_of_app. right.
  apply list_elem_of_omap. exists c. split; assumption.
Qed.

(** [shift], the job is not started *)
Lemma core_shift J j W S C X :
  CoreInv x o E J (j :: W) S C X -> CoreInv x o E J W S C X.
Proof.
  intros [K B Wt Ex Th At Fr Cx Rj]. constructor; auto.
  - rewrite busy_head in B. apply NoDup_cons in B as [_ B]. exact B.
  - intros j' Hj'. apply Wt. apply elem_of_cons. right. exact Hj'.
Qed.


Lemma callsIn_snoc_same j C job ctx :
  job_id job = j -> callsIn j (C ++ [(job, ctx)]) = callsIn j C + 1.
Proof. intros H. rewrite callsIn_snoc, decide_True by exact H. reflexivity. Qed.

Lemma callsIn_snoc_other j C job ctx :
  job_id job <> j -> callsIn j (C ++ [(job, ctx)]) = callsIn j C.
Proof. intros H. rewrite callsIn_snoc, decide_False by exact H. lia. Qed.


(** a frame goes away *)
Lemma core_drop_frame J W c S C X :
  CoreInv x o E J W (c :: S) C X -> CoreInv x o E J W S C X.
Proof.
  intros [K B Wt Ex Th At Fr Cx Rj]. constructor; auto.
  - rewrite busy_cons_frame in B.
    destruct (frame_busy c); [|exact B].
    apply NoDup_app in B as (B1 & B2 & B3).
    apply NoDup_app. split; [exact B1|]. split.
    + intros y Hy Hy'. apply (B2 y Hy). apply elem_of_cons. right. exact Hy'.
    + apply NoDup_cons in B3 as [_ B3]. exact B3.
  - intros job ctx Hin. apply Ex. apply elem_of_cons. right. exact Hin.
  - intros job ctx Hin. apply Th. apply elem_of_cons. right. exact Hin.
Qed.

(** a frame that holds no job is suspended *)
Lemma core_add_idle J W S c C X :
  frame_busy c = None ->
  CoreInv x o E J W S C X -> CoreInv x o E J W (S ++ [c]) C X.
Proof.
  intros Hc [K B Wt Ex Th At Fr Cx Rj]. constructor; auto.
  - rewrite busy_snoc_idle by exact Hc. exact B.
  - intros job ctx Hin. apply elem_of_app in Hin as [Hin|Hin]; [apply Ex; exact Hin|].
    apply list_elem_of_singleton in Hin. subst c. discriminate.
  - intros job ctx Hin. apply elem_of_app in Hin as [Hin|Hin]; [apply Th; exact Hin|].
    apply list_elem_of_singleton in Hin. subst c. discriminate.
Qed.

(** the job stored under [j] is replaced by one with the same attempts *)
Lemma core_update J W S C X j nj cur :
  CoreInv x o E J W S C X ->
  J !! j = Some cur ->
  job_id nj = j ->
  attemptOf nj = attemptOf cur ->
  j ∉ W ->
  (job_status nj = Failed ->
   forall ctx, X !! j = Some ctx -> alwaysRejects x E j ctx ->
     retryCount o <= attemptOf nj
     /\ 1 <= attemptOf nj
     /\ is_Some (completedAt (job_metrics nj))
     /\ exists e, E e /\ job_error nj = Some (message_of e)) ->
  CoreInv x o E (<[j := nj]> J) W S C X.
Proof.
  intros [K B Wt Ex Th At Fr Cx Rj] Hcur Hid Hatt HnW Hfailed. constructor.
  - intros k job Hk. destruct (decide (j = k)) as [<-|Hne].
    + rewrite lookup_insert_eq in Hk. injection Hk as <-. exact Hid.
    + rewrite lookup_insert_ne in Hk by exact Hne. apply (K k job Hk).
  - exact B.
  - intros j' Hj'. assert (j <> j') by (intros ->; contradiction).
    rewrite lookup_insert_ne by assumption. apply Wt. exact Hj'.
  - intros job ctx Hin. destruct (Ex job ctx Hin) as (c0 & H1 & H2 & H3 & H4).
    destruct (decide (j = job_id job)) as [Heq|Hne].
    + exists nj. rewrite <- Heq, lookup_insert_eq.
      rewrite <- Heq in H1, H4. rewrite Hcur in H1. injection H1 as <-.
      repeat split; [congruence|exact H3|exact H4].
    + exists c0. rewrite lookup_insert_ne by exact Hne. repeat split; assumption.
  - intros job ctx Hin. destruct (Th job ctx Hin) as (c0 & H1 & H2 & H3 & H4).
    destruct (decide (j = job_id job)) as [Heq|Hne].
    + exists nj. rewrite <- Heq, lookup_insert_eq.
      rewrite <- Heq in H1, H4. rewrite Hcur in H1. injection H1 as <-.
      repeat split; [congruence|exact H3|exact H4].
    + exists c0. rewrite lookup_insert_ne by exact Hne. repeat split; assumption.
  - intros j' c' Hj'. destruct (decide (j = j')) as [<-|Hne].
    + rewrite lookup_insert_eq in Hj'. injection Hj' as <-.
      rewrite Hatt. apply At. exact Hcur.
    + rewrite lookup_insert_ne in Hj' by exact Hne. apply At. exact Hj'.
  - intros j' Hj'. destruct (decide (j = j')) as [<-|Hne].
    + rewrite lookup_insert_eq in Hj'. discriminate.
    + rewrite lookup_insert_ne in Hj' by exact Hne. apply Fr. exact Hj'.
  - intros j' c' Hj'. destruct (decide (j = j')) as [<-|Hne].
    + apply (Cx j cur Hcur).
    + rewrite lookup_insert_ne in Hj' by exact Hne. apply (Cx j' c' Hj').
  - intros j' ctx c' HX HR Hj' Hst. destruct (decide (j = j')) as [<-|Hne].
    + rewrite lookup_insert_eq in Hj'. injection Hj' as <-.
      apply (Hfailed Hst ctx HX HR).
    + rewrite lookup_insert_ne in Hj' by exact Hne. apply (Rj j' ctx c' HX HR Hj' Hst).
Qed.

(** [splice]: a job leaves the waiting list *)
Lemma core_unwait J W S C X j :
  CoreInv x o E J W S C X -> CoreInv x o E J (remove_first j W) S C X.
Proof.
  intros [K B Wt Ex Th At Fr Cx Rj].
  assert (HW : NoDup W) by (apply NoDup_app in B as [B _]; exact B).
  constructor; auto.
  - unfold busy in *. apply NoDup_app in B as (B1 & B2 & B3).
    apply NoDup_app. split; [apply remove_first_NoDup; exact B1|]. split; [|exact B3].
    intros y Hy. apply B2. apply (remove_first_elem j y W HW) in Hy. tauto.
  - intros j' Hj'. apply Wt. apply (remove_first_elem j j' W HW) in Hj'. tauto.
Qed.

(** [push]: a queued job enters the waiting list *)
Lemma core_wait J W S C X j cur :
  CoreInv x o E J W S C X ->
  j ∉ busy W S ->
  J !! j = Some cur ->
  job_status cur = Queued ->
  startedAt (job_metrics cur) = None ->
  (attemptOf cur = 0 \/ (attemptOf cur < retryCount o /\ is_Some (job_error cur))) ->
  CoreInv x o E J (W ++ [j]) S C X.
Proof.
  intros [K B Wt Ex Th At Fr Cx Rj] Hj Hcur Hst Hstart Hatt. constructor; auto.
  - rewrite busy_waiting_snoc. apply NoDup_cons. split; assumption.
  - intros j' Hj'. apply elem_of_app in Hj' as [Hj'|Hj']; [apply Wt; exact Hj'|].
    apply list_elem_of_singleton in Hj'. subst j'.
    exists cur. repeat split; assumption.
Qed.

(** a job that nothing mentions yet enters the table *)
Lemma core_insert_fresh J W S C X uuid nj ctx :
  CoreInv x o E J W S C X ->
  J !! uuid = None ->
  job_id nj = uuid ->
  attemptOf nj = 0 ->
  job_status nj = Queued ->
  CoreInv x o E (<[uuid := nj]> J) W S C (<[uuid := ctx]> X).
Proof.
  intros [K B Wt Ex Th At Fr Cx Rj] Hfresh Hid Hatt Hst. constructor.
  - intros k job Hk. destruct (decide (uuid = k)) as [<-|Hne].
    + rewrite lookup_insert_eq in Hk. injection Hk as <-. exact Hid.
    + rewrite lookup_insert_ne in Hk by exact Hne. apply (K k job Hk).
  - exact B.
  - intros j' Hj'. destruct (Wt j' Hj') as (c0 & H1 & H2).
    assert (uuid <> j') by (intros ->; congruence).
    exists c0. rewrite lookup_insert_ne by assumption. split; assumption.
  - intros job c Hin. destruct (Ex job c Hin) as (c0 & H1 & H2 & H3 & H4).
    assert (uuid <> job_id job) by (intros Heq; rewrite <- Heq in H1; congruence).
    exists c0. rewrite !lookup_insert_ne by assumption. repeat split; assumption.
  - intros job c Hin. destruct (Th job c Hin) as (c0 & H1 & H2 & H3 & H4).
    assert (uuid <> job_id job) by (intros Heq; rewrite <- Heq in H1; congruence).
    exists c0. rewrite !lookup_insert_ne by assumption. repeat split; assumption.
  - intros j' c' Hj'. destruct (decide (uuid = j')) as [<-|Hne].
    + rewrite lookup_insert_eq in Hj'. injection Hj' as <-.
      rewrite Hatt, (Fr uuid Hfresh). split; [lia|reflexivity].
    + rewrite lookup_insert_ne in Hj' by exact Hne. apply At. exact Hj'.
  - intros j' Hj'. destruct (decide (uuid = j')) as [<-|Hne].
    + rewrite lookup_insert_eq in Hj'. discriminate.
    + rewrite lookup_insert_ne in Hj' by exact Hne. apply Fr. exact Hj'.
  - intros j' c' Hj'. destruct (decide (uuid = j')) as [<-|Hne].
    + rewrite lookup_insert_eq. eauto.
    + rewrite lookup_insert_ne in Hj' by exact Hne.
      rewrite lookup_insert_ne by exact Hne. apply (Cx j' c' Hj').
  - intros j' c c' HX HR Hj' Hfailed. destruct (decide (uuid = j')) as [<-|Hne].
    + rewrite lookup_insert_eq in Hj'. injection Hj' as <-. congruence.
    + rewrite lookup_insert_ne in Hj' by exact Hne.
      rewrite lookup_insert_ne in HX by exact Hne.
      apply (Rj j' c c' HX HR Hj' Hfailed).
Qed.


(** the executor is called for a job that was held by the waiting list or
    by the throttle frame *)
Lemma core_begin J W0 S0 W' S' C X now job ctx cur :
  CoreInv x o E J W0 S0 C X ->
  busy W0 S0 ≡ₚ job_id job :: busy W' S' ->
  (forall j, j ∈ W' -> j ∈ W0) ->
  (forall c, c ∈ S' -> c ∈ S0) ->
  J !! job_id job = Some cur ->
  attemptOf cur = attemptOf job ->
  (attemptOf job = 0 \/ attemptOf job < retryCount o) ->
  X !! job_id job = Some ctx ->
  CoreInv x o E (<[job_id job := Queue.runningJob now job]> J) W'
    (S' ++ [AwaitExecutor (Queue.runningJob now job) ctx])
    (C ++ [(Queue.runningJob now job, ctx)]) X.
Proof.
  intros [K B Wt Ex Th At Fr Cx Rj] HP HW HS Hcur Hatt Hbound HX.
  rewrite HP in B. apply NoDup_cons in B as [Hj B].
  set (j := job_id job) in *.
  assert (Hid : job_id (Queue.runningJob now job) = j) by reflexivity.
  assert (Hrun : attemptOf (Queue.runningJob now job) = attemptOf job + 1) by reflexivity.
  destruct (At j cur Hcur) as [Hrange Hcalls].
  constructor.
  - intros k job' Hk. destruct (decide (j = k)) as [<-|Hne].
    + rewrite lookup_insert_eq in Hk. injection Hk as <-. exact Hid.
    + rewrite lookup_insert_ne in Hk by exact Hne. apply (K k job' Hk).
  - rewrite busy_snoc_busy with (j := j) by reflexivity.
    apply NoDup_cons. split; assumption.
  - intros j' Hj'.
    assert (j <> j') by (intros <-; apply Hj, in_busy_waiting; exact Hj').
    rewrite lookup_insert_ne by assumption. apply Wt, HW. exact Hj'.
  - intros job' ctx' Hin. apply elem_of_app in Hin as [Hin|Hin].
    + assert (j <> job_id job').
      { intros Heq. apply Hj. rewrite Heq.
        apply (in_busy_frame (AwaitExecutor job' ctx')); [exact Hin|reflexivity]. }
      rewrite lookup_insert_ne by assumption. apply Ex, HS. exact Hin.
    + apply list_elem_of_singleton in Hin. injection Hin as -> ->.
      exists (Queue.runningJob now job). rewrite Hid, lookup_insert_eq.
      repeat split; [rewrite Hrun; lia|exact HX].
  - intros job' ctx' Hin. apply elem_of_app in Hin as [Hin|Hin].
    + assert (j <> job_id job').
      { intros Heq. apply Hj. rewrite Heq.
        apply (in_busy_frame (AwaitThrottle job' ctx')); [exact Hin|reflexivity]. }
      rewrite lookup_insert_ne by assumption. apply Th, HS. exact Hin.
    + apply list_elem_of_singleton in Hin. discriminate.
  - intros j' c' Hj'. destruct (decide (j = j')) as [<-|Hne].
    + rewrite lookup_insert_eq in Hj'. injection Hj' as <-.
      rewrite callsIn_snoc_same by exact Hid. rewrite Hrun. split; lia.
    + rewrite lookup_insert_ne in Hj' by exact Hne.
      rewrite callsIn_snoc_other by (rewrite Hid; exact Hne). apply At. exact Hj'.
  - intros j' Hj'. destruct (decide (j = j')) as [<-|Hne].
    + rewrite lookup_insert_eq in Hj'. discriminate.
    + rewrite lookup_insert_ne in Hj' by exact Hne.
      rewrite callsIn_snoc_other by (rewrite Hid; exact Hne). apply Fr. exact Hj'.
  - intros j' c' Hj'. destruct (decide (j = j')) as [<-|Hne].
    + eauto.
    + rewrite lookup_insert_ne in Hj' by exact Hne. apply (Cx j' c' Hj').
  - intros j' c c' HX' HR Hj' Hfailed. destruct (decide (j = j')) as [<-|Hne].
    + rewrite lookup_insert_eq in Hj'. injection Hj' as <-. discriminate.
    + rewrite lookup_insert_ne in Hj' by exact Hne.
      apply (Rj j' c c' HX' HR Hj' Hfailed).
Qed.

(** [shift], then the frame suspends on the throttle delay *)
Lemma core_throttle J j W S C X job ctx :
  CoreInv x o E J (j :: W) S C X ->
  J !! j = Some job ->
  X !! j = Some ctx ->
  CoreInv x o E J W (S ++ [AwaitThrottle job ctx]) C X.
Proof.
  intros HI Hjob HX. pose proof HI as [K B Wt Ex Th At Fr Cx Rj].
  assert (Hid : job_id job = j) by (apply K; exact Hjob).
  destruct (Wt j) as (cur & H1 & H2 & H3 & H4); [apply elem_of_cons; left; reflexivity|].
  rewrite Hjob in H1. injection H1 as <-.
  constructor; auto.
  - rewrite busy_snoc_busy with (j := j) by (cbn; rewrite Hid; reflexivity).
    exact B.
  - intros j' Hj'. apply Wt. apply elem_of_cons. right. exact Hj'.
  - intros job' ctx' Hin. apply elem_of_app in Hin as [Hin|Hin]; [apply Ex; exact Hin|].
    apply list_elem_of_singleton in Hin. discriminate.
  - intros job' ctx' Hin. apply elem_of_app in Hin as [Hin|Hin]; [apply Th; exact Hin|].
    apply list_elem_of_singleton in Hin. injection Hin as -> ->.
    exists job. rewrite Hid. repeat split; [exact Hjob| |exact HX].
    destruct H4 as [H4|[H4 _]]; [left|right]; exact H4.
Qed.

End CoreInvariant.

Ltac queue_simpl :=
  cbn [jobs waitingQueue suspended executorCalls contextByJob activeJobs running
       processing lastStartTimestamp emitted jobSubject completedDurations
       completionHistory
       set_jobs set_waitingQueue set_suspended set_executorCalls set_contextByJob
       set_activeJobs set_running set_processing set_lastStartTimestamp set_emitted
       set_jobSubject set_completedDurations set_completionHistory
       Queue.emit Queue.publishJobs Queue.executeJob Queue.startJob fst snd] in *.

Section QueueInvariant.
Variables (x : ExecutorModel) (o : JobQueueOptions) (E : Thrown -> Prop).

Lemma Inv_new : Inv x o E Queue.new.
Proof. apply core_new. Qed.

Lemma Inv_processLoop now W :
  forall q, waitingQueue q = W -> Inv x o E q -> Inv x o E (Queue.processLoop o now W q).1.
Proof.
  induction W as [|j rest IH]; intros q HW HI; cbn [Queue.processLoop].
  - exact HI.
  - destruct (running q && bool_decide (Z.of_nat (size (activeJobs q)) < maxParallel o));
      [|exact HI].
    unfold Inv in HI. rewrite HW in HI.
    destruct (negb (Js.truthy j)).
    { unfold Inv. queue_simpl. eapply core_shift. exact HI. }
    queue_simpl.
    destruct (jobs q !! j) as [job|] eqn:Hjob;
      [destruct (contextByJob q !! j) as [ctx|] eqn:Hctx|].
    + destruct (bool_decide (0 < throttleMs o)
                && bool_decide (now - lastStartTimestamp q < throttleMs o)).
      * unfold Inv. queue_simpl. apply core_throttle with (j := j); assumption.
      * apply IH; [reflexivity|].
        unfold Inv. queue_simpl.
        pose proof (ci_keys _ _ _ _ _ _ _ _ HI j job Hjob) as Hid.
        destruct (ci_waiting _ _ _ _ _ _ _ _ HI j) as (cur & H1 & H2 & H3 & H4);
          [apply elem_of_cons; left; reflexivity|].
        rewrite Hjob in H1. injection H1 as <-.
        apply core_begin with (W0 := j :: rest) (S0 := suspended q) (cur := job).
        -- exact HI.
        -- rewrite Hid. reflexivity.
        -- intros j' Hj'. apply elem_of_cons. right. exact Hj'.
        -- intros c Hc. exact Hc.
        -- rewrite Hid. exact Hjob.
        -- reflexivity.
        -- destruct H4 as [H4|[H4 _]]; [left|right]; exact H4.
        -- rewrite Hid. exact Hctx.
    + apply IH; [reflexivity|]. unfold Inv. queue_simpl. eapply core_shift. exact HI.
    + apply IH; [reflexivity|]. unfold Inv. queue_simpl. eapply core_shift. exact HI.
Qed.

Lemma Inv_leaveLoop r : Inv x o E r.1 -> Inv x o E (Queue.leaveLoop r).
Proof. unfold Queue.leaveLoop. destruct r as [q []]; intros H; exact H. Qed.

Lemma Inv_processQueue now q : Inv x o E q -> Inv x o E (Queue.processQueue o now q).
Proof.
  intros HI. unfold Queue.processQueue.
  destruct (negb (running q) || processing q); [exact HI|].
  apply Inv_leaveLoop, Inv_processLoop; [reflexivity|exact HI].
Qed.


Lemma busy_in_table J W S C X j :
  CoreInv x o E J W S C X -> j ∈ busy W S -> is_Some (J !! j).
Proof.
  intros [K B Wt Ex Th At Fr Cx Rj] Hj. unfold busy in Hj.
  apply elem_of_app in Hj as [Hj|Hj].
  - destruct (Wt j Hj) as (cur & H1 & _). eauto.
  - apply list_elem_of_omap in Hj as (c & Hc & Hb).
    destruct c as [job ctx|job|job|job ctx]; try discriminate;
      injection Hb as <-.
    + destruct (Ex job ctx Hc) as (cur & H1 & _). eauto.
    + destruct (Th job ctx Hc) as (cur & H1 & _). eauto.
Qed.

Lemma frame_not_waiting J W S C X c j :
  CoreInv x o E J W S C X -> c ∈ S -> frame_busy c = Some j -> j ∉ W.
Proof.
  intros [K B Wt Ex Th At Fr Cx Rj] Hc Hb Hj. unfold busy in B.
  apply NoDup_app in B as (_ & B & _). apply (B j Hj).
  apply list_elem_of_omap. exists c. split; assumption.
Qed.

Lemma Inv_start now q : Inv x o E q -> Inv x o E (Queue.start o now q).
Proof.
  intros HI. unfold Queue.start. destruct (running q); [exact HI|].
  apply Inv_processQueue. exact HI.
Qed.

Lemma Inv_enqueue now uuid input q :
  jobs q !! uuid = None -> Inv x o E q -> Inv x o E (Queue.enqueue o now uuid input q).
Proof.
  intros Hfresh HI. unfold Queue.enqueue. apply Inv_processQueue.
  unfold Inv in *. queue_simpl. cbn [Queue.createInitialJob job_id].
  eapply core_wait.
  - apply core_insert_fresh; [exact HI|exact Hfresh|reflexivity|reflexivity|reflexivity].
  - intros Hin. destruct (busy_in_table _ _ _ _ _ _ HI Hin) as [cur Hcur]. congruence.
  - apply lookup_insert_eq.
  - reflexivity.
  - reflexivity.
  - left. reflexivity.
Qed.

Lemma Inv_cancel now jobId q : Inv x o E q -> Inv x o E (Queue.cancel now jobId q).
Proof.
  intros HI. unfold Queue.cancel.
  destruct (jobs q !! jobId) as [job|] eqn:Hjob; [|exact HI].
  destruct (bool_decide (is_Some (activeJobs q !! jobId))); [exact HI|].
  unfold Inv in *. queue_simpl.
  pose proof (ci_keys _ _ _ _ _ _ _ _ HI jobId job Hjob) as Hid.
  assert (HW : NoDup (waitingQueue q)).
  { pose proof (ci_busy _ _ _ _ _ _ _ _ HI) as B. unfold busy in B.
    apply NoDup_app in B as [B _]. exact B. }
  apply core_update with (cur := job).
  - apply core_unwait. exact HI.
  - exact Hjob.
  - exact Hid.
  - reflexivity.
  - intros Hin. apply (remove_first_elem jobId jobId _ HW) in Hin. tauto.
  - discriminate.
Qed.

Lemma Inv_cancelAll_from now ids :
  forall q, Inv x o E q ->
    Inv x o E (foldl (fun acc jobId => Queue.cancel now jobId acc) q ids).
Proof.
  induction ids as [|jobId rest IH]; intros q HI; cbn [foldl]; [exact HI|].
  apply IH, Inv_cancel. exact HI.
Qed.

Lemma Inv_trackMetrics now job q :
  Inv x o E q -> Inv x o E (Queue.trackMetrics o now job q).
Proof.
  intros HI. unfold Queue.trackMetrics.
  destruct (elapsedMs (job_metrics job)) as [e|]; [destruct (e =? 0)|]; exact HI.
Qed.

Lemma Inv_releaseSlot now job q :
  Inv x o E q -> Inv x o E (Queue.releaseSlot o now job q).
Proof. intros HI. unfold Queue.releaseSlot. apply Inv_processQueue. exact HI. Qed.

Lemma Inv_executorResolved now job ctx result others q :
  Inv x o E q ->
  suspended q ≡ₚ AwaitExecutor job ctx :: others ->
  x job ctx (Resolves result) = true ->
  Inv x o E (Queue.executorResolved o now job result (set_suspended others q)).
Proof.
  intros HI HP Hx. unfold Queue.executorResolved.
  apply Inv_releaseSlot.
  apply (Inv_trackMetrics now (Queue.completedJob now result job)
           (set_jobs (<[job_id job := Queue.completedJob now result job]> (jobs q))
              (set_suspended others q))).
  unfold Inv in *. queue_simpl.
  apply (core_perm _ _ _ _ _ _ _ _ _ HP) in HI.
  destruct (ci_executing _ _ _ _ _ _ _ _ HI job ctx) as (cur & H1 & H2 & H3 & H4);
    [apply elem_of_cons; left; reflexivity|].
  apply core_update with (cur := cur).
  - eapply core_drop_frame. exact HI.
  - exact H1.
  - reflexivity.
  - symmetry. exact H2.
  - apply (frame_not_waiting _ _ _ _ _ (AwaitExecutor job ctx) _ HI);
      [apply elem_of_cons; left; reflexivity|reflexivity].
  - intros _ ctx' HX HR. rewrite H4 in HX. injection HX as <-.
    destruct (HR job (Resolves result) eq_refl Hx) as (e & He & _). discriminate.
Qed.

Lemma Inv_handleJobFailure now job ctx error others q :
  Inv x o E q ->
  suspended q ≡ₚ AwaitExecutor job ctx :: others ->
  x job ctx (Rejects error) = true ->
  Inv x o E (Queue.handleJobFailure o now job error (set_suspended others q)).
Proof.
  intros HI HP Hx. unfold Queue.handleJobFailure.
  unfold Inv in HI. apply (core_perm _ _ _ _ _ _ _ _ _ HP) in HI.
  destruct (ci_executing _ _ _ _ _ _ _ _ HI job ctx) as (cur & H1 & H2 & H3 & H4);
    [apply elem_of_cons; left; reflexivity|].
  pose proof (frame_not_waiting _ _ _ _ _ (AwaitExecutor job ctx) (job_id job) HI) as HnW.
  assert (Hnb : job_id job ∉ busy (waitingQueue q) others).
  { pose proof (ci_busy _ _ _ _ _ _ _ _ HI) as B.
    rewrite busy_cons_frame in B. cbn [frame_busy] in B.
    rewrite <- Permutation_middle in B. apply NoDup_cons in B as [B _]. exact B. }
  destruct (bool_decide (0 < retryCount o - attempt (job_metrics job))) eqn:Hretry.
  - apply bool_decide_eq_true in Hretry.
    unfold Inv. queue_simpl.
    apply core_add_idle; [reflexivity|].
    apply core_wait with (cur := Queue.retriedJob error job).
    + apply core_update with (cur := cur).
      * eapply core_drop_frame. exact HI.
      * exact H1.
      * reflexivity.
      * symmetry. exact H2.
      * apply HnW; [apply elem_of_cons; left; reflexivity|reflexivity].
      * discriminate.
    + exact Hnb.
    + apply lookup_insert_eq.
    + reflexivity.
    + reflexivity.
    + right. split; [unfold attemptOf; cbn; lia|].
      cbn. eauto.
  - apply bool_decide_eq_false in Hretry.
    unfold Inv. queue_simpl.
    apply core_add_idle; [reflexivity|].
    apply core_update with (cur := cur).
    + eapply core_drop_frame. exact HI.
    + exact H1.
    + reflexivity.
    + symmetry. exact H2.
    + apply HnW; [apply elem_of_cons; left; reflexivity|reflexivity].
    + intros _ ctx' HX HR. rewrite H4 in HX. injection HX as <-.
      destruct (HR job (Rejects error) eq_refl Hx) as (e & He & HE).
      injection He as <-.
      change (attemptOf (Queue.failedJob now error job)) with (attemptOf job).
      split; [unfold attemptOf; lia|]. split; [exact H3|]. split; [cbn; eauto|].
      exists error. split; [exact HE|reflexivity].
Qed.

Lemma Inv_retryDelayElapsed now job others q :
  Inv x o E q ->
  suspended q ≡ₚ AwaitRetryDelay job :: others ->
  Inv x o E (Queue.retryDelayElapsed o now job (set_suspended others q)).
Proof.
  intros HI HP. unfold Queue.retryDelayElapsed.
  assert (H1 : Inv x o E (Queue.processQueue o now (set_suspended others q))).
  { apply Inv_processQueue. unfold Inv in *. queue_simpl.
    apply (core_perm _ _ _ _ _ _ _ _ _ HP) in HI. eapply core_drop_frame. exact HI. }
  unfold Inv in *. queue_simpl. apply core_add_idle; [reflexivity|exact H1].
Qed.

Lemma Inv_failureHandled now job others q :
  Inv x o E q ->
  suspended q ≡ₚ AwaitFailureHandled job :: others ->
  Inv x o E (Queue.releaseSlot o now job (set_suspended others q)).
Proof.
  intros HI HP. apply Inv_releaseSlot. unfold Inv in *. queue_simpl.
  apply (core_perm _ _ _ _ _ _ _ _ _ HP) in HI. eapply core_drop_frame. exact HI.
Qed.

Lemma Inv_throttleElapsed now job ctx others q :
  Inv x o E q ->
  suspended q ≡ₚ AwaitThrottle job ctx :: others ->
  Inv x o E (Queue.throttleElapsed o now job ctx (set_suspended others q)).
Proof.
  intros HI HP. unfold Queue.throttleElapsed.
  apply Inv_leaveLoop, Inv_processLoop; [reflexivity|].
  unfold Inv in *. queue_simpl.
  apply (core_perm _ _ _ _ _ _ _ _ _ HP) in HI.
  destruct (ci_throttled _ _ _ _ _ _ _ _ HI job ctx) as (cur & H1 & H2 & H3 & H4);
    [apply elem_of_cons; left; reflexivity|].
  apply core_begin with (W0 := waitingQueue q) (S0 := AwaitThrottle job ctx :: others)
                        (cur := cur).
  - exact HI.
  - rewrite busy_cons_frame. cbn [frame_busy]. unfold busy.
    rewrite <- Permutation_middle. reflexivity.
  - intros j Hj. exact Hj.
  - intros c Hc. apply elem_of_cons. right. exact Hc.
  - exact H1.
  - exact H2.
  - exact H3.
  - exact H4.
Qed.

(** Every turn of the event loop preserves the invariant. *)
Lemma Inv_turn now t q q' :
  Inv x o E q -> turn x o now t q = Some q' -> Inv x o E q'.
Proof.
  intros HI Ht. destruct t as [| |uuid input|jobId| |jobId outcome|jobId|jobId|];
    cbn [turn] in Ht.
  - injection Ht as <-. apply Inv_start. exact HI.
  - injection Ht as <-. exact HI.
  - destruct (Js.truthy uuid); [|discriminate].
    destruct (bool_decide (jobs q !! uuid = None)) eqn:Hfresh; [|discriminate].
    apply bool_decide_eq_true in Hfresh.
    injection Ht as <-. apply Inv_enqueue; assumption.
  - injection Ht as <-. apply Inv_cancel. exact HI.
  - injection Ht as <-. apply Inv_cancelAll_from. exact HI.
  - destruct (take_first (awaits_executor jobId) (suspended q)) as [[c others]|] eqn:Htake;
      [|discriminate].
    destruct c as [job ctx| | |]; try discriminate.
    apply take_first_perm in Htake as [HP _].
    destruct (x job ctx outcome) eqn:Hx; [|discriminate].
    injection Ht as <-. destruct outcome as [result|error].
    + apply Inv_executorResolved with (ctx := ctx); assumption.
    + apply Inv_handleJobFailure with (ctx := ctx); assumption.
  - destruct (take_first (awaits_retry_delay jobId) (suspended q)) as [[c others]|] eqn:Htake;
      [|discriminate].
    destruct c as [|job| |]; try discriminate.
    apply take_first_perm in Htake as [HP _].
    injection Ht as <-. apply Inv_retryDelayElapsed; assumption.
  - destruct (take_first (awaits_failure_handled jobId) (suspended q)) as [[c others]|] eqn:Htake;
      [|discriminate].
    destruct c as [| |job|]; try discriminate.
    apply take_first_perm in Htake as [HP _].
    injection Ht as <-. apply Inv_failureHandled; assumption.
  - destruct (take_first awaits_throttle (suspended q)) as [[c others]|] eqn:Htake;
      [|discriminate].
    destruct c as [| | |job ctx]; try discriminate.
    apply take_first_perm in Htake as [HP _].
    injection Ht as <-. apply Inv_throttleElapsed; assumption.
Qed.

Theorem reachable_Inv q : reachable x o q -> Inv x o E q.
Proof.
  induction 1 as [|q now t q' _ IH Ht]; [apply Inv_new|].
  eapply Inv_turn; eassumption.
Qed.

End QueueInvariant.

(** ** Cancellation *)

(** C4, as the code has it. The attempt number of a cancelled job is the
    number of calls of its executor.  A job cancelled while it waits outside
    the active set has no start time and no call of its executor in flight;
    it has no attempt and no call of its executor at all unless it had failed
    before and was waiting for its retry (it then carries the error of the
    failed attempt). *)
Theorem cancelled_job_is_not_executing (x : ExecutorModel) (o : JobQueueOptions)
  (q : JobQueue) :
  reachable x o q ->
  (forall jobId cur,
     jobs q !! jobId = Some cur -> job_status cur = Cancelled ->
     attemptOf cur = callsFor jobId q)
  /\ (forall now jobId,
        jobId ∈ waitingQueue q -> activeJobs q !! jobId = None ->
        let q' := Queue.cancel now jobId q in
        exists cancelled,
          jobs q' !! jobId = Some cancelled
          /\ job_status cancelled = Cancelled
          /\ startedAt (job_metrics cancelled) = None
          /\ elapsedMs (job_metrics cancelled) = Some 0
          /\ attemptOf cancelled = callsFor jobId q'
          /\ (job_error cancelled = None ->
              attemptOf cancelled = 0 /\ callsFor jobId q' = 0)
          /\ (forall job ctx, AwaitExecutor job ctx ∈ suspended q' -> job_id job <> jobId)
          /\ jobId ∉ waitingQueue q').
Proof.
  intros Hreach.
  pose proof (reachable_Inv x o (fun _ => True) q Hreach) as HI. unfold Inv in HI.
  split.
  - intros jobId cur Hcur _.
    destruct (ci_attempts _ _ _ _ _ _ _ _ HI jobId cur Hcur) as [_ Hcalls].
    symmetry. exact Hcalls.
  - intros now jobId Hw Hactive. cbn zeta.
    destruct (ci_waiting _ _ _ _ _ _ _ _ HI jobId Hw) as (cur & H1 & H2 & H3 & H4).
    destruct (ci_attempts _ _ _ _ _ _ _ _ HI jobId cur H1) as [_ Hcalls].
    assert (HW : NoDup (waitingQueue q)).
    { pose proof (ci_busy _ _ _ _ _ _ _ _ HI) as B. unfold busy in B.
      apply NoDup_app in B as [B _]. exact B. }
    unfold Queue.cancel. rewrite H1, Hactive.
    rewrite bool_decide_eq_false_2 by (intros [? ?]; discriminate).
    unfold callsFor. queue_simpl.
    exists (Queue.cancelledJob now cur).
    split; [apply lookup_insert_eq|].
    split; [reflexivity|].
    split; [exact H3|].
    split; [reflexivity|].
    split; [symmetry; exact Hcalls|].
    split.
    + intros Herr. change (job_error cur = None) in Herr.
      change (attemptOf (Queue.cancelledJob now cur)) with (attemptOf cur).
      destruct H4 as [H4|[_ [e He]]]; [|congruence].
      split; [exact H4|]. rewrite Hcalls. exact H4.
    + split.
      * intros job ctx Hin Hid.
        apply (frame_not_waiting x o (fun _ => True) _ _ _ _ _ (AwaitExecutor job ctx) jobId HI);
          [exact Hin|cbn; rewrite Hid; reflexivity|exact Hw].
      * intros Hin. apply (remove_first_elem jobId jobId _ HW) in Hin. tauto.
Qed.

Lemma cancelled_behind_another_job :
  let o := Scenario.options 1 2 in
  let q := Scenario.after anyExecutor o Scenario.retryBehindAnotherJob in
  let q' := Queue.cancel 130 "A" q in
  exists cancelled,
    jobs q' !! "A" = Some cancelled
    /\ job_status cancelled = Cancelled
    /\ startedAt (job_metrics cancelled) = None
    /\ elapsedMs (job_metrics cancelled) = Some 0
    /\ attemptOf cancelled = callsFor "A" q'
    /\ (job_error cancelled = None -> attemptOf cancelled = 0 /\ callsFor "A" q' = 0)
    /\ (forall job ctx, AwaitExecutor job ctx ∈ suspended q' -> job_id job <> "A")
    /\ "A" ∉ waitingQueue q'.
Proof.
  cbn zeta.
  assert (Hrun : run anyExecutor (Scenario.options 1 2) Scenario.retryBehindAnotherJob
                   Queue.new
                 = Some (Scenario.after anyExecutor (Scenario.options 1 2)
                           Scenario.retryBehindAnotherJob))
    by (vm_compute; reflexivity).
  pose proof (run_reachable _ _ _ _ _ (reachable_new _ _) Hrun) as Hreach.
  destruct (cancelled_job_is_not_executing _ _ _ Hreach) as [_ H].
  apply (H 130 "A").
  - apply (bool_decide_unpack _). vm_compute. exact I.
  - vm_compute. reflexivity.
Defined.

(** ** A rejected job, alone in its queue, fails after its last attempt *)

Section Progress.
Variables (x : ExecutorModel) (o : JobQueueOptions).

Lemma processQueue_nothing_waiting now q :
  waitingQueue q = [] -> processing q = false -> Queue.processQueue o now q = q.
Proof.
  destruct q as [js cx J W A cd ch r p last em calls S]; cbn. intros -> ->. unfold Queue.processQueue. cbn.
  destruct r; reflexivity.
Qed.

Lemma processQueue_no_slot now q :
  processing q = false ->
  ~ Z.of_nat (size (activeJobs q)) < maxParallel o ->
  Queue.processQueue o now q = q.
Proof.
  destruct q as [js cx J W A cd ch r p last em calls S]; cbn. intros -> Hfull. unfold Queue.processQueue. cbn.
  destruct r; [|reflexivity]. cbn.
  destruct W as [|j rest]; cbn; [reflexivity|].
  rewrite bool_decide_eq_false_2 by exact Hfull. reflexivity.
Qed.

Lemma processQueue_starts_one now q j job ctx :
  running q = true -> processing q = false -> waitingQueue q = [j] ->
  Js.truthy j = true ->
  Z.of_nat (size (activeJobs q)) < maxParallel o ->
  jobs q !! j = Some job -> contextByJob q !! j = Some ctx ->
  throttleMs o <= 0 \/ throttleMs o <= now - lastStartTimestamp q ->
  Queue.processQueue o now q
  = Queue.startJob now job ctx (set_lastStartTimestamp now (set_waitingQueue [] q)).
Proof.
  destruct q as [js cx J W A cd ch r p last em calls S]; cbn. intros -> -> -> Hj Hslot Hjob Hctx Hthrottle.
  unfold Queue.processQueue. cbn [running processing negb orb waitingQueue set_processing].
  cbn [Queue.processLoop running activeJobs set_processing andb].
  rewrite bool_decide_eq_true_2 by exact Hslot.
  rewrite Hj. cbn [negb set_waitingQueue jobs contextByJob set_processing
                   lastStartTimestamp].
  rewrite Hjob, Hctx.
  assert (Hno : bool_decide (0 < throttleMs o)
                && bool_decide (now - last < throttleMs o) = false).
  { destruct Hthrottle as [H|H].
    - rewrite (bool_decide_eq_false_2 (0 < throttleMs o)) by lia. reflexivity.
    - rewrite (bool_decide_eq_false_2 (now - last < throttleMs o)) by lia.
      apply andb_false_r. }
  rewrite Hno. reflexivity.
Qed.


Variables (jobId : string) (e : Thrown) (input : EnqueueJobInput).
Hypothesis jobId_truthy : Js.truthy jobId = true.
Hypothesis slots : 0 < maxParallel o.
Hypothesis rejects :
  forall job, job_id job = jobId -> x job (input_context input) (Rejects e) = true.

Let ctx : DeploymentContext := input_context input.

Lemma pace_beats_throttle k :
  throttleMs o <= 0 \/ throttleMs o <= (k + 1) * Alone.pace o - k * Alone.pace o.
Proof. unfold Alone.pace. lia. Qed.

Lemma first_start :
  exists q,
    run x o [ (0, CallStart); (Alone.pace o, CallEnqueue jobId input) ] Queue.new = Some q
    /\ Alone.Attempting o jobId ctx 1 q.
Proof.
  cbn [run turn]. unfold Queue.start. cbn [running Queue.new].
  rewrite processQueue_nothing_waiting by reflexivity.
  cbn [jobs set_running]. rewrite jobId_truthy.
  rewrite bool_decide_eq_true_2 by apply lookup_empty. cbn [andb].
  eexists. split; [reflexivity|].
  unfold Queue.enqueue.
  erewrite processQueue_starts_one with (j := jobId); cycle 1.
  - reflexivity.
  - reflexivity.
  - reflexivity.
  - exact jobId_truthy.
  - cbn. exact slots.
  - cbn. apply lookup_insert_eq.
  - cbn. apply lookup_insert_eq.
  - cbn. unfold Alone.pace. lia.
  - constructor; cbn.
    + reflexivity.
    + reflexivity.
    + reflexivity.
    + eexists. split; [reflexivity|]. split; [reflexivity|]. split; [reflexivity|].
      split; [apply lookup_insert_eq|apply lookup_insert_eq].
    + lia.
    + rewrite delete_insert_eq. apply delete_empty.
Qed.


Lemma size_after_release (A : gmap string RunningJobContext) :
  delete jobId A = ∅ -> Z.of_nat (size (delete jobId A)) < maxParallel o.
Proof. intros ->. rewrite map_size_empty. exact slots. Qed.

Lemma retry_round k q :
  Alone.Attempting o jobId ctx k q -> k < retryCount o ->
  exists q',
    run x o (Alone.retryRound o jobId e k) q = Some q'
    /\ Alone.Attempting o jobId ctx (k + 1) q'.
Proof.
  intros [Hr Hp Hw (job & Hs & Hid & Hk & Hjob & Hctx) Hclock Hact] Hretry.
  unfold attemptOf in Hk.
  set (now := (k + 1) * Alone.pace o).
  unfold Alone.retryRound. fold now. cbn [run].
  (* the executor rejects; the failure handler queues the retry *)
  unfold turn at 1. rewrite Hs. cbn [take_first awaits_executor].
  rewrite Hid, String.eqb_refl. unfold ctx at 1. rewrite (rejects job Hid).
  unfold Queue.handleJobFailure.
  rewrite bool_decide_eq_true_2 by lia.
  (* the delay elapses *)
  unfold turn at 1. queue_simpl. cbn [app take_first awaits_retry_delay].
  rewrite Hid, String.eqb_refl. unfold Queue.retryDelayElapsed.
  destruct (decide (Z.of_nat (size (activeJobs q)) < maxParallel o)) as [Hslot|Hfull].
  - (* a slot is free: the job is restarted at once *)
    erewrite processQueue_starts_one with (j := jobId) (ctx := ctx); cycle 1.
    + exact Hr.
    + exact Hp.
    + cbn. rewrite Hw. reflexivity.
    + exact jobId_truthy.
    + exact Hslot.
    + cbn. apply lookup_insert_eq.
    + exact Hctx.
    + cbn. rewrite Hclock. apply pace_beats_throttle.
    + unfold turn. queue_simpl. cbn [app take_first awaits_failure_handled].
      rewrite Hid, String.eqb_refl. unfold Queue.releaseSlot.
      rewrite processQueue_nothing_waiting by (cbn; first [reflexivity|assumption]).
      eexists. split; [reflexivity|].
      constructor; cbn.
      * exact Hr.
      * exact Hp.
      * reflexivity.
      * eexists. split; [reflexivity|]. split; [exact Hid|].
        split; [unfold attemptOf; cbn; lia|].
        split; [rewrite Hid; apply lookup_insert_eq|exact Hctx].
      * reflexivity.
      * rewrite Hid, delete_insert_eq, delete_delete_eq. exact Hact.
  - (* no slot is free: the job is restarted when its slot is released *)
    rewrite processQueue_no_slot by assumption.
    unfold turn. queue_simpl. cbn [app take_first awaits_failure_handled].
    rewrite Hid, String.eqb_refl. unfold Queue.releaseSlot.
    erewrite processQueue_starts_one with (j := jobId) (ctx := ctx); cycle 1.
    + exact Hr.
    + exact Hp.
    + cbn. rewrite Hw. reflexivity.
    + exact jobId_truthy.
    + cbn. rewrite Hid. apply size_after_release. exact Hact.
    + cbn. apply lookup_insert_eq.
    + exact Hctx.
    + cbn. rewrite Hclock. apply pace_beats_throttle.
    + eexists. split; [reflexivity|].
      constructor; cbn.
      * exact Hr.
      * exact Hp.
      * reflexivity.
      * eexists. split; [reflexivity|]. split; [exact Hid|].
        split; [unfold attemptOf; cbn; lia|].
        split; [rewrite Hid; apply lookup_insert_eq|exact Hctx].
      * reflexivity.
      * rewrite Hid, delete_insert_eq, delete_delete_eq. exact Hact.
Qed.

Lemma last_round k q :
  Alone.Attempting o jobId ctx k q -> retryCount o <= k ->
  exists q',
    run x o (Alone.lastRound o jobId e k) q = Some q'
    /\ Alone.Settled jobId k e q'.
Proof.
  intros [Hr Hp Hw (job & Hs & Hid & Hk & Hjob & Hctx) Hclock Hact] Hlast.
  unfold attemptOf in Hk.
  set (now := (k + 1) * Alone.pace o).
  unfold Alone.lastRound. fold now. cbn [run].
  unfold turn at 1. rewrite Hs. cbn [take_first awaits_executor].
  rewrite Hid, String.eqb_refl. unfold ctx at 1. rewrite (rejects job Hid).
  unfold Queue.handleJobFailure.
  rewrite bool_decide_eq_false_2 by lia.
  unfold turn. queue_simpl. cbn [app take_first awaits_failure_handled].
  rewrite Hid, String.eqb_refl. unfold Queue.releaseSlot.
  rewrite processQueue_nothing_waiting by (cbn; first [reflexivity|assumption]).
  eexists. split; [reflexivity|].
  constructor; cbn.
  - exact Hw.
  - reflexivity.
  - eexists. split; [apply lookup_insert_eq|]. split; [reflexivity|].
    split; [exact Hk|]. split; [eauto|reflexivity].
Qed.

Lemma rounds_settle retries :
  forall k q,
    Alone.Attempting o jobId ctx k q -> 1 <= k ->
    Z.of_nat retries = Z.max (retryCount o) 1 - k ->
    exists q',
      run x o (Alone.rounds o jobId e retries k) q = Some q'
      /\ Alone.Settled jobId (Z.max (retryCount o) 1) e q'.
Proof.
  induction retries as [|retries IH]; intros k q Hq Hk Hleft; cbn [Alone.rounds].
  - assert (k = Z.max (retryCount o) 1) as <- by lia.
    apply last_round; [exact Hq|lia].
  - destruct (retry_round k q Hq) as (q1 & Hrun1 & Hq1); [lia|].
    destruct (IH (k + 1) q1 Hq1) as (q' & Hrun & Hq'); [lia|lia|].
    exists q'. split; [|exact Hq'].
    rewrite run_app, Hrun1. exact Hrun.
Qed.

(** The run of [Alone.turns] is possible and ends with the job failed
    after [max retryCount 1] attempts. *)
Lemma alone_settles :
  exists q,
    run x o (Alone.turns o jobId input e) Queue.new = Some q
    /\ Alone.Settled jobId (Z.max (retryCount o) 1) e q.
Proof.
  destruct first_start as (q1 & Hrun1 & Hq1).
  destruct (rounds_settle (Z.to_nat (Z.max (retryCount o) 1 - 1)) 1 q1 Hq1)
    as (q' & Hrun & Hq'); [lia|lia|].
  exists q'. split; [|exact Hq'].
  unfold Alone.turns. rewrite run_app, Hrun1. exact Hrun.
Qed.

End Progress.

(** ** The active set stays within the parallelism bound *)

Section Slots.
Variables (x : ExecutorModel) (o : JobQueueOptions).

Lemma throttleFrames_snoc S c :
  throttleFrames (S ++ [c])
  = (throttleFrames S + if awaits_throttle c then 1 else 0)%nat.
Proof.
  unfold throttleFrames. rewrite List.filter_app, length_app. cbn [List.filter].
  destruct (awaits_throttle c); reflexivity.
Qed.

Lemma throttleFrames_take p S c others :
  take_first p S = Some (c, others) ->
  throttleFrames S
  = (throttleFrames others + if awaits_throttle c then 1 else 0)%nat.
Proof.
  revert c others. induction S as [|y ys IH]; intros c others H; simpl in H.
  - discriminate.
  - destruct (p y).
    + injection H as <- <-. unfold throttleFrames. cbn [List.filter].
      destruct (awaits_throttle y); cbn [length]; lia.
    + destruct (take_first p ys) as [[found rest]|]; [|discriminate].
      injection H as <- <-. specialize (IH found rest eq_refl).
      unfold throttleFrames in *. cbn [List.filter].
      destruct (awaits_throttle y); cbn [length]; lia.
Qed.

Lemma size_insert_le (A : gmap string RunningJobContext) k v :
  (size (<[k := v]> A) <= S (size A))%nat.
Proof.
  destruct (A !! k) eqn:Hk.
  - rewrite map_size_insert_Some by eauto. lia.
  - rewrite map_size_insert_None by exact Hk. lia.
Qed.

Lemma size_delete_le (A : gmap string RunningJobContext) k :
  (size (delete k A) <= size A)%nat.
Proof.
  destruct (A !! k) eqn:Hk.
  - rewrite map_size_delete_Some by eauto. lia.
  - rewrite map_size_delete_None by exact Hk. lia.
Qed.

Lemma SlotInv_processLoop now W :
  forall q,
    processing q = true ->
    throttleFrames (suspended q) = O ->
    Z.of_nat (size (activeJobs q)) <= maxParallel o ->
    SlotInv o (Queue.leaveLoop (Queue.processLoop o now W q)).
Proof.
  induction W as [|j rest IH]; intros q Hp Hf Hsize; cbn [Queue.processLoop].
  - unfold SlotInv, Queue.leaveLoop. cbn [fst snd]. queue_simpl. rewrite Hf.
    split; [exact Hsize|exact I].
  - destruct (running q); cbn [andb];
      [|unfold SlotInv, Queue.leaveLoop; cbn [fst snd]; queue_simpl; rewrite Hf;
       split; [exact Hsize|exact I]].
    destruct (bool_decide (Z.of_nat (size (activeJobs q)) < maxParallel o)) eqn:Hslot;
      [|unfold SlotInv, Queue.leaveLoop; cbn [fst snd]; queue_simpl; rewrite Hf;
       split; [exact Hsize|exact I]].
    apply bool_decide_eq_true in Hslot.
    destruct (negb (Js.truthy j)).
    { unfold SlotInv, Queue.leaveLoop. cbn [fst snd]. queue_simpl. rewrite Hf.
    split; [exact Hsize|exact I]. }
    queue_simpl.
    destruct (jobs q !! j) as [job|];
      [destruct (contextByJob q !! j) as [ctx|]|].
    + destruct (bool_decide (0 < throttleMs o)
                && bool_decide (now - lastStartTimestamp q < throttleMs o)).
      * unfold SlotInv, Queue.leaveLoop. cbn [fst snd]. queue_simpl.
        rewrite throttleFrames_snoc, Hf. cbn.
        split; [exact Hsize|]. split; [exact Hp|exact Hslot].
      * apply IH.
        -- queue_simpl. exact Hp.
        -- queue_simpl. rewrite throttleFrames_snoc, Hf. reflexivity.
        -- queue_simpl.
           pose proof (size_insert_le (activeJobs q) (job_id job)
                         (mkRunningJobContext (Queue.runningJob now job) ctx)).
           lia.
    + apply IH; queue_simpl; assumption.
    + apply IH; queue_simpl; assumption.
Qed.

Lemma SlotInv_processQueue now q :
  SlotInv o q -> SlotInv o (Queue.processQueue o now q).
Proof.
  intros HI. unfold Queue.processQueue.
  destruct (running q); cbn [negb orb]; [|exact HI].
  destruct (processing q) eqn:Hp; [exact HI|].
  destruct HI as [Hsize Hf]. rewrite Hp in Hf.
  apply SlotInv_processLoop.
  - reflexivity.
  - queue_simpl. destruct (throttleFrames (suspended q)) as [|[|n]];
      [reflexivity| |contradiction].
    destruct Hf as [Hf _]. discriminate.
  - exact Hsize.
Qed.

(** A change of the queue that leaves the [processing] flag alone, adds no
    throttle frame and no active job. *)
Lemma SlotInv_shrink q q' :
  SlotInv o q ->
  processing q' = processing q ->
  (throttleFrames (suspended q') <= throttleFrames (suspended q))%nat ->
  (size (activeJobs q') <= size (activeJobs q))%nat ->
  SlotInv o q'.
Proof.
  intros [Hsize Hf] Hp Hframes Hactive. unfold SlotInv. rewrite Hp.
  split; [lia|].
  destruct (throttleFrames (suspended q)) as [|[|n]]; [| |contradiction].
  - assert (throttleFrames (suspended q') = O) as -> by lia. exact I.
  - destruct (throttleFrames (suspended q')) as [|[|n]]; [exact I| |lia].
    destruct Hf as [Hf1 Hf2]. split; [exact Hf1|lia].
Qed.

Lemma SlotInv_cancel now jobId q : SlotInv o q -> SlotInv o (Queue.cancel now jobId q).
Proof.
  intros HI. unfold Queue.cancel.
  destruct (jobs q !! jobId); [|exact HI].
  destruct (bool_decide (is_Some (activeJobs q !! jobId))); [exact HI|].
  apply (SlotInv_shrink q); [exact HI|reflexivity|queue_simpl; lia|queue_simpl; lia].
Qed.

Lemma SlotInv_cancelAll_from now ids :
  forall q, SlotInv o q ->
    SlotInv o (foldl (fun acc jobId => Queue.cancel now jobId acc) q ids).
Proof.
  induction ids as [|jobId rest IH]; intros q HI; cbn [foldl]; [exact HI|].
  apply IH, SlotInv_cancel. exact HI.
Qed.

Lemma SlotInv_releaseSlot now job q q0 :
  SlotInv o q0 ->
  processing q = processing q0 ->
  (throttleFrames (suspended q) <= throttleFrames (suspended q0))%nat ->
  (size (activeJobs q) <= size (activeJobs q0))%nat ->
  SlotInv o (Queue.releaseSlot o now job q).
Proof.
  intros HI Hp Hf Hs. unfold Queue.releaseSlot. apply SlotInv_processQueue.
  apply (SlotInv_shrink q0); [exact HI|exact Hp|queue_simpl; exact Hf|].
  queue_simpl. pose proof (size_delete_le (activeJobs q) (job_id job)). lia.
Qed.

Lemma trackMetrics_slots now job q :
  processing (Queue.trackMetrics o now job q) = processing q
  /\ suspended (Queue.trackMetrics o now job q) = suspended q
  /\ activeJobs (Queue.trackMetrics o now job q) = activeJobs q.
Proof.
  unfold Queue.trackMetrics.
  destruct (elapsedMs (job_metrics job)) as [e|]; [destruct (e =? 0)|];
    repeat split.
Qed.

Lemma SlotInv_turn now t q q' :
  SlotInv o q -> turn x o now t q = Some q' -> SlotInv o q'.
Proof.
  intros HI Ht. destruct t as [| |uuid input|jobId| |jobId outcome|jobId|jobId|];
    cbn [turn] in Ht.
  - injection Ht as <-. unfold Queue.start. destruct (running q); [exact HI|].
    apply SlotInv_processQueue. exact HI.
  - injection Ht as <-. exact HI.
  - destruct (Js.truthy uuid && bool_decide (jobs q !! uuid = None)); [|discriminate].
    injection Ht as <-. unfold Queue.enqueue. apply SlotInv_processQueue. exact HI.
  - injection Ht as <-. apply SlotInv_cancel. exact HI.
  - injection Ht as <-. apply SlotInv_cancelAll_from. exact HI.
  - destruct (take_first (awaits_executor jobId) (suspended q)) as [[c others]|] eqn:Htake;
      [|discriminate].
    destruct c as [job ctx| | |]; try discriminate.
    apply throttleFrames_take in Htake. cbn [awaits_throttle] in Htake.
    destruct (x job ctx outcome); [|discriminate].
    injection Ht as <-. destruct outcome as [result|error].
    + unfold Queue.executorResolved.
      destruct (trackMetrics_slots now (Queue.completedJob now result job)
                  (set_jobs (<[job_id job := Queue.completedJob now result job]> (jobs q))
                     (set_suspended others q))) as (T1 & T2 & T3).
      apply (SlotInv_releaseSlot now job _ q HI); queue_simpl.
      * rewrite T1. reflexivity.
      * rewrite T2. queue_simpl. lia.
      * rewrite T3. queue_simpl. lia.
    + unfold Queue.handleJobFailure.
      destruct (bool_decide (0 < retryCount o - attempt (job_metrics job)));
        apply (SlotInv_shrink q); try exact HI; queue_simpl;
        rewrite ?throttleFrames_snoc; cbn [awaits_throttle]; try reflexivity; lia.
  - destruct (take_first (awaits_retry_delay jobId) (suspended q)) as [[c others]|] eqn:Htake;
      [|discriminate].
    destruct c as [|job| |]; try discriminate.
    apply throttleFrames_take in Htake. cbn [awaits_throttle] in Htake.
    injection Ht as <-. unfold Queue.retryDelayElapsed.
    assert (H1 : SlotInv o (Queue.processQueue o now (set_suspended others q))).
    { apply SlotInv_processQueue.
      apply (SlotInv_shrink q); [exact HI|reflexivity|queue_simpl; lia|queue_simpl; lia]. }
    apply (SlotInv_shrink _ _ H1); queue_simpl;
      rewrite ?throttleFrames_snoc; cbn [awaits_throttle]; try reflexivity; lia.
  - destruct (take_first (awaits_failure_handled jobId) (suspended q)) as [[c others]|] eqn:Htake;
      [|discriminate].
    destruct c as [| |job|]; try discriminate.
    apply throttleFrames_take in Htake. cbn [awaits_throttle] in Htake.
    injection Ht as <-.
    apply (SlotInv_releaseSlot now job _ q HI); queue_simpl; [reflexivity|lia|lia].
  - destruct (take_first awaits_throttle (suspended q)) as [[c others]|] eqn:Htake;
      [|discriminate].
    destruct c as [| | |job ctx]; try discriminate.
    apply throttleFrames_take in Htake. cbn [awaits_throttle] in Htake.
    injection Ht as <-. unfold Queue.throttleElapsed.
    destruct HI as [Hsize Hf]. rewrite Htake, Nat.add_1_r in Hf.
    destruct (throttleFrames others) as [|n] eqn:Hothers; [|cbn in Hf; contradiction].
    cbn in Hf. destruct Hf as [Hp Hslot].
    apply SlotInv_processLoop.
    + queue_simpl. exact Hp.
    + queue_simpl. rewrite throttleFrames_snoc, Hothers. reflexivity.
    + queue_simpl.
      pose proof (size_insert_le (activeJobs q) (job_id job)
                    (mkRunningJobContext (Queue.runningJob now job) ctx)).
      lia.
Qed.

(** X18. In every reachable state the active set, and so the
    [activeCount] of every snapshot, holds at most [maxParallel] jobs (the
    part of C3 that holds: a job that runs outside the active set is not
    counted). *)
Theorem active_set_within_bound q :
  0 <= maxParallel o -> reachable x o q ->
  activeCount (Queue.getSnapshot q) <= maxParallel o.
Proof.
  intros Hbound Hreach. cbn [Queue.getSnapshot activeCount].
  assert (HI : SlotInv o q).
  { induction Hreach as [|q now t q' _ IH Ht].
    - split; [cbn; rewrite map_size_empty; lia|exact I].
    - eapply SlotInv_turn; eassumption. }
  destruct HI as [Hsize _]. exact Hsize.
Qed.

(** The part of C5 that holds by the text of [cancel]: the call is refused
    for every job of the active set. *)
Lemma cancel_active_is_refused now jobId q :
  is_Some (activeJobs q !! jobId) -> Queue.cancel now jobId q = q.
Proof.
  intros Hactive. unfold Queue.cancel.
  destruct (jobs q !! jobId); [|reflexivity].
  rewrite bool_decide_eq_true_2 by exact Hactive. reflexivity.
Qed.

End Slots.

(** ** The number of attempts of a job whose executor throws *)

Section Attempts.
Variables (x : ExecutorModel) (o : JobQueueOptions) (E : Thrown -> Prop).

(** What the invariant says of a job whose executor can only reject. *)
Lemma rejected_job_attempts q jobId ctx cur :
  reachable x o q ->
  contextByJob q !! jobId = Some ctx ->
  alwaysRejects x E jobId ctx ->
  jobs q !! jobId = Some cur ->
  callsFor jobId q = attemptOf cur
  /\ attemptOf cur <= Z.max (retryCount o) 1
  /\ (job_status cur = Failed ->
      attemptOf cur = Z.max (retryCount o) 1
      /\ callsFor jobId q = Z.max (retryCount o) 1
      /\ is_Some (completedAt (job_metrics cur))
      /\ exists e, E e /\ job_error cur = Some (message_of e)).
Proof.
  intros Hreach Hctx Hrej Hcur.
  pose proof (reachable_Inv x o E q Hreach) as HI. unfold Inv in HI.
  destruct (ci_attempts _ _ _ _ _ _ _ _ HI jobId cur Hcur) as [Hrange Hcalls].
  split; [exact Hcalls|]. split; [lia|].
  intros Hfailed.
  destruct (ci_rejected _ _ _ _ _ _ _ _ HI jobId ctx cur Hctx Hrej Hcur Hfailed)
    as (H1 & H2 & H3 & H4).
  assert (attemptOf cur = Z.max (retryCount o) 1) as Heq by lia.
  split; [exact Heq|]. split; [unfold callsFor in *; lia|]. split; assumption.
Qed.

(** The same for the end of the run of the job alone in its queue. *)
Lemma alone_fails jobId e input :
  Js.truthy jobId = true -> 0 < maxParallel o ->
  (forall job, job_id job = jobId -> x job (input_context input) (Rejects e) = true) ->
  exists q failed,
    run x o (Alone.turns o jobId input e) Queue.new = Some q
    /\ jobs q !! jobId = Some failed
    /\ job_status failed = Failed
    /\ attemptOf failed = Z.max (retryCount o) 1
    /\ callsFor jobId q = Z.max (retryCount o) 1
    /\ is_Some (completedAt (job_metrics failed))
    /\ job_error failed = Some (message_of e)
    /\ waitingQueue q = [] /\ suspended q = [].
Proof.
  intros Htruthy Hslots Hrejects.
  destruct (alone_settles x o jobId e input Htruthy Hslots Hrejects)
    as (q & Hrun & [Hw Hs (failed & H1 & H2 & H3 & H4 & H5)]).
  exists q, failed.
  pose proof (run_reachable _ _ _ _ _ (reachable_new x o) Hrun) as Hreach.
  pose proof (reachable_Inv x o E q Hreach) as HI. unfold Inv in HI.
  destruct (ci_attempts _ _ _ _ _ _ _ _ HI jobId failed H1) as [_ Hcalls].
  repeat split; try assumption.
  unfold callsFor. rewrite Hcalls. exact H3.
Qed.

End Attempts.

(** C1, as the code has it. A job whose executor rejects every call is
    attempted [max retryCount 1] times: in every reachable state its attempt
    number is the number of calls of its executor and is at most that bound;
    once the job has failed both are equal to the bound and the completion
    time is set; and the job, alone in a started queue with a free slot, does
    end failed. *)
Theorem rejected_job_is_attempted_retryCount_times
  (x : ExecutorModel) (o : JobQueueOptions) (jobId : string) (e : Thrown)
  (input : EnqueueJobInput) :
  (forall job ctx outcome,
     job_id job = jobId -> x job ctx outcome = true -> exists e', outcome = Rejects e') ->
  (forall job ctx, job_id job = jobId -> x job ctx (Rejects e) = true) ->
  Js.truthy jobId = true ->
  0 < maxParallel o ->
  let attempts := Z.max (retryCount o) 1 in
  (forall q cur,
     reachable x o q -> jobs q !! jobId = Some cur ->
     callsFor jobId q = attemptOf cur
     /\ attemptOf cur <= attempts
     /\ (job_status cur = Failed ->
         attemptOf cur = attempts
         /\ callsFor jobId q = attempts
         /\ is_Some (completedAt (job_metrics cur))))
  /\ (exists q failed,
        run x o (Alone.turns o jobId input e) Queue.new = Some q
        /\ jobs q !! jobId = Some failed
        /\ job_status failed = Failed
        /\ attemptOf failed = attempts
        /\ callsFor jobId q = attempts
        /\ is_Some (completedAt (job_metrics failed))
        /\ waitingQueue q = [] /\ suspended q = []).
Proof.
  intros Honly Hrejects Htruthy Hslots attempts. split.
  - intros q cur Hreach Hcur.
    pose proof (reachable_Inv x o (fun _ => True) q Hreach) as HI.
    destruct (ci_context _ _ _ _ _ _ _ _ HI jobId cur Hcur) as [ctx Hctx].
    destruct (rejected_job_attempts x o (fun _ => True) q jobId ctx cur Hreach Hctx)
      as (H1 & H2 & H3); [|exact Hcur|].
    + intros job outcome Hid Hx. destruct (Honly job ctx outcome Hid Hx) as [e' ->]. eauto.
    + split; [exact H1|]. split; [exact H2|].
      intros Hfailed. destruct (H3 Hfailed) as (H4 & H5 & H6 & _). auto.
  - destruct (alone_fails x o (fun _ => True) jobId e input Htruthy Hslots)
      as (q & failed & H1 & H2 & H3 & H4 & H5 & H6 & _ & H7 & H8).
    + intros job Hid. apply Hrejects. exact Hid.
    + exists q, failed. auto 10.
Qed.

Lemma rejected_three_times :
  let x := rejectsWith (ErrorObject "ECONNREFUSED") in
  let o := Scenario.options 4 3 in
  exists q failed,
    run x o (Alone.turns o "A" (Scenario.upload "windows") (ErrorObject "ECONNREFUSED"))
      Queue.new = Some q
    /\ jobs q !! "A" = Some failed
    /\ job_status failed = Failed
    /\ attemptOf failed = 3
    /\ callsFor "A" q = 3
    /\ is_Some (completedAt (job_metrics failed))
    /\ waitingQueue q = [] /\ suspended q = [].
Proof.
  cbn zeta.
  apply (rejected_job_is_attempted_retryCount_times
           (rejectsWith (ErrorObject "ECONNREFUSED")) (Scenario.options 4 3) "A"
           (ErrorObject "ECONNREFUSED") (Scenario.upload "windows")).
  - intros job ctx outcome _ Hx. apply bool_decide_eq_true in Hx. eauto.
  - intros job ctx _. apply bool_decide_eq_true. reflexivity.
  - reflexivity.
  - reflexivity.
Defined.

(** C2, as the code has it. The job of a host that no registered strategy
    supports is handled as any job whose executor throws: every call of the
    executor is rejected with the no-strategy error, the job is put back in
    the queue while its attempts are below [retryCount], and it fails after
    [max retryCount 1] attempts with the message of that error as its error;
    it fails on its first attempt only when [retryCount] is at most 1. *)
Theorem unsupported_host_job_fails_after_its_retries
  (strategies : list DeploymentStrategy) (o : JobQueueOptions) (jobId : string)
  (input : EnqueueJobInput) :
  Manager.getStrategyForHost strategies (ctx_host (input_context input)) = None ->
  Js.truthy jobId = true ->
  0 < maxParallel o ->
  let x := Manager.executeJob strategies in
  let attempts := Z.max (retryCount o) 1 in
  (forall q ctx cur,
     reachable x o q ->
     contextByJob q !! jobId = Some ctx ->
     Manager.getStrategyForHost strategies (ctx_host ctx) = None ->
     jobs q !! jobId = Some cur ->
     callsFor jobId q = attemptOf cur
     /\ attemptOf cur <= attempts
     /\ (job_status cur = Failed ->
         attemptOf cur = attempts
         /\ callsFor jobId q = attempts
         /\ is_Some (completedAt (job_metrics cur))
         /\ job_error cur = Some (message_of (Manager.noStrategyError (ctx_host ctx)))))
  /\ (exists q failed,
        run x o (Alone.turns o jobId input
                   (Manager.noStrategyError (ctx_host (input_context input))))
          Queue.new = Some q
        /\ jobs q !! jobId = Some failed
        /\ job_status failed = Failed
        /\ attemptOf failed = attempts
        /\ callsFor jobId q = attempts
        /\ job_error failed
           = Some (message_of (Manager.noStrategyError (ctx_host (input_context input))))
        /\ waitingQueue q = [] /\ suspended q = []).
Proof.
  intros Hnone Htruthy Hslots x attempts. split.
  - intros q ctx cur Hreach Hctx Hnone' Hcur.
    destruct (rejected_job_attempts x o
                (fun e => e = Manager.noStrategyError (ctx_host ctx))
                q jobId ctx cur Hreach Hctx) as (H1 & H2 & H3); [|exact Hcur|].
    + intros job outcome _ Hx. subst x. unfold Manager.executeJob in Hx.
      rewrite Hnone' in Hx. apply bool_decide_eq_true in Hx. eauto.
    + split; [exact H1|]. split; [exact H2|].
      intros Hfailed. destruct (H3 Hfailed) as (H4 & H5 & H6 & e & -> & H7). auto.
  - destruct (alone_fails x o (fun _ => True) jobId
                (Manager.noStrategyError (ctx_host (input_context input))) input
                Htruthy Hslots)
      as (q & failed & H1 & H2 & H3 & H4 & H5 & H6 & H7 & H8 & H9).
    + intros job _. subst x. unfold Manager.executeJob. rewrite Hnone.
      apply bool_decide_eq_true. reflexivity.
    + exists q, failed. auto 10.
Qed.

Lemma linux_host_fails_after_two_attempts :
  let x := Manager.executeJob Scenario.strategies in
  let o := Scenario.options 4 2 in
  exists q failed,
    run x o (Alone.turns o "A" (Scenario.upload "linux")
               (Manager.noStrategyError (Scenario.host "linux")))
      Queue.new = Some q
    /\ jobs q !! "A" = Some failed
    /\ job_status failed = Failed
    /\ attemptOf failed = 2
    /\ callsFor "A" q = 2
    /\ job_error failed = Some "Aucune stratégie de déploiement disponible pour linux"
    /\ waitingQueue q = [] /\ suspended q = [].
Proof.
  cbn zeta.
  apply (unsupported_host_job_fails_after_its_retries Scenario.strategies
           (Scenario.options 4 2) "A" (Scenario.upload "linux")).
  - reflexivity.
  - reflexivity.
  - reflexivity.
Defined.

(** ** The other methods of the host registry *)

Section ArrayFacts.

Lemma unique_from_spec xs :
  forall seen,
    (forall x, x ∈ Arrays.unique_from seen xs <-> x ∈ xs /\ x ∉ seen)
    /\ NoDup (Arrays.unique_from seen xs).
Proof.
  induction xs as [|y xs IH]; intros seen; cbn [Arrays.unique_from].
  - split; [|constructor]. intros x. split.
    + intros H. inversion H.
    + intros [H _]. inversion H.
  - destruct (bool_decide_reflect (y ∈ seen)) as [Hy|Hy].
    + destruct (IH seen) as [IH1 IH2]. split; [|exact IH2].
      intros x. rewrite IH1, elem_of_cons. split.
      * intros [H1 H2]. split; [right; exact H1|exact H2].
      * intros [[H1|H1] H2]; [subst; contradiction|]. split; assumption.
    + destruct (IH (y :: seen)) as [IH1 IH2]. split.
      * intros x. rewrite elem_of_cons, IH1, !elem_of_cons.
        destruct (decide (x = y)) as [->|Hne].
        -- split; [intros _; split; [left; reflexivity|exact Hy]|intros _; left; reflexivity].
        -- split.
           ++ intros [H|[H1 H2]]; [contradiction|]. split; [right; exact H1|].
              intros H. apply H2. right. exact H.
           ++ intros [[H|H] H2]; [contradiction|]. right. split; [exact H|].
              intros [H3|H3]; contradiction.
      * constructor; [|exact IH2]. rewrite IH1. intros [_ H]. apply H. left.
Qed.

Lemma unique_from_snoc xs x :
  forall seen,
    Arrays.unique_from seen (xs ++ [x]) =
    if bool_decide (x ∈ seen \/ x ∈ xs) then Arrays.unique_from seen xs
    else Arrays.unique_from seen xs ++ [x].
Proof.
  induction xs as [|y xs IH]; intros seen.
  - cbn [app Arrays.unique_from].
    destruct (bool_decide_reflect (x ∈ seen)) as [H|H].
    + rewrite bool_decide_eq_true_2 by (left; exact H). reflexivity.
    + rewrite bool_decide_eq_false_2; [reflexivity|].
      intros [H1|H1]; [contradiction|inversion H1].
  - cbn [app Arrays.unique_from].
    destruct (bool_decide_reflect (y ∈ seen)) as [Hy|Hy].
    + rewrite IH.
      rewrite (bool_decide_ext (x ∈ seen \/ x ∈ xs) (x ∈ seen \/ x ∈ y :: xs)).
      * reflexivity.
      * rewrite elem_of_cons. split.
        -- intros [H|H]; [left; exact H|right; right; exact H].
        -- intros [H|[H|H]]; [left; exact H|subst; left; exact Hy|right; exact H].
    + rewrite IH.
      rewrite (bool_decide_ext (x ∈ y :: seen \/ x ∈ xs) (x ∈ seen \/ x ∈ y :: xs)).
      * destruct (bool_decide (x ∈ seen \/ x ∈ y :: xs)); reflexivity.
      * rewrite !elem_of_cons. tauto.
Qed.

Lemma unique_from_NoDup xs :
  forall seen,
    NoDup xs -> (forall x, x ∈ xs -> x ∉ seen) -> Arrays.unique_from seen xs = xs.
Proof.
  induction xs as [|y xs IH]; intros seen Hnd Hseen; [reflexivity|].
  cbn [Arrays.unique_from]. apply NoDup_cons in Hnd as [Hy Hnd].
  rewrite bool_decide_eq_false_2 by (apply Hseen; left).
  f_equal. apply IH; [exact Hnd|].
  intros x Hx. rewrite elem_of_cons. intros [->|H]; [contradiction|].
  revert H. apply Hseen. right. exact Hx.
Qed.

Lemma setAll_snoc {V} (key : V -> string) xs x m :
  Arrays.setAll key (xs ++ [x]) m = <[key x := x]> (Arrays.setAll key xs m).
Proof. unfold Arrays.setAll. rewrite foldl_app. reflexivity. Qed.

Lemma findLast_snoc {V} (p : V -> bool) xs x :
  Arrays.findLast p (xs ++ [x]) = if p x then Some x else Arrays.findLast p xs.
Proof. unfold Arrays.findLast. rewrite rev_unit. reflexivity. Qed.

Lemma setAll_lookup {V} (key : V -> string) xs m id :
  Arrays.setAll key xs m !! id =
  match Arrays.findLast (fun x => String.eqb (key x) id) xs with
  | Some x => Some x
  | None => m !! id
  end.
Proof.
  induction xs as [|x xs IH] using rev_ind; [reflexivity|].
  rewrite setAll_snoc, findLast_snoc.
  destruct (String.eqb_spec (key x) id) as [->|Hne].
  - apply lookup_insert_eq.
  - rewrite lookup_insert_ne by exact Hne. exact IH.
Qed.

Lemma setAll_size {V} (key : V -> string) xs m :
  (size (Arrays.setAll key xs m) <= size m + length xs)%nat.
Proof.
  induction xs as [|x xs IH] using rev_ind; [cbn; lia|].
  rewrite setAll_snoc, length_app. cbn [length].
  destruct (Arrays.setAll key xs m !! key x) eqn:E.
  - rewrite map_size_insert_Some by eauto. lia.
  - rewrite map_size_insert_None by exact E. lia.
Qed.

End ArrayFacts.

Section RegistryFacts.
Import Registry Hosts.

Lemma published_publish r : published (publish r).
Proof. reflexivity. Qed.

Lemma published_call c r : published r -> published (call c r).
Proof.
  intros Hr. destruct c; cbn [call]; try apply published_publish.
  - unfold removeHost. destruct (bool_decide _); [apply published_publish|exact Hr].
  - unfold removeGroup. destruct (bool_decide _); [apply published_publish|exact Hr].
  - unfold toggleHost. destruct (hosts r !! hostId); [apply published_publish|exact Hr].
  - unfold assignHostToGroup.
    destruct (hosts r !! hostId); [|exact Hr].
    destruct (groups r !! groupId); [apply published_publish|exact Hr].
  - unfold unassignHostFromGroup.
    destruct (groups r !! groupId); [apply published_publish|exact Hr].
  - unfold importFromCsv. destruct (csvLines csvContent); [exact Hr|].
    destruct (importRows _ _ _ _ _). apply published_publish.
Qed.

Lemma with_hostIds_same g ids : with_hostIds (group_hostIds g) (with_hostIds ids g) = g.
Proof. destruct g. reflexivity. Qed.

Lemma assignHostToGroup_eq r hostId groupId host group :
  hosts r !! hostId = Some host ->
  groups r !! groupId = Some group ->
  assignHostToGroup hostId groupId r =
  publish (with_groups
             (<[groupId := with_hostIds (Arrays.unique (group_hostIds group ++ [hostId]))
                             group]> (groups r)) r).
Proof. intros Hh Hg. unfold assignHostToGroup. rewrite Hh, Hg. reflexivity. Qed.

Lemma unique_snoc_elem ids (x id : string) :
  id ∈ Arrays.unique (ids ++ [x]) <-> id ∈ ids \/ id = x.
Proof.
  destruct (unique_from_spec (ids ++ [x]) []) as [E1 _].
  unfold Arrays.unique. rewrite E1, elem_of_app, list_elem_of_singleton. split.
  - intros [H _]. exact H.
  - intros H. split; [exact H|]. apply not_elem_of_nil.
Qed.

Lemma unique_NoDup ids : NoDup (Arrays.unique ids).
Proof. apply unique_from_spec. Qed.

Lemma unique_of_NoDup ids : NoDup ids -> Arrays.unique ids = ids.
Proof.
  intros H. apply unique_from_NoDup; [exact H|]. intros x _. apply not_elem_of_nil.
Qed.

Lemma filter_not_member (hostId : string) ids :
  hostId ∉ ids ->
  List.filter (fun id => negb (String.eqb id hostId)) ids = ids.
Proof.
  induction ids as [|y ids IH]; [reflexivity|].
  rewrite not_elem_of_cons. intros [Hne Hn]. cbn [List.filter].
  destruct (String.eqb_spec y hostId) as [->|_]; [contradiction|].
  cbn [negb]. f_equal. apply IH. exact Hn.
Qed.

Lemma filter_snoc_member (hostId : string) ids :
  List.filter (fun id => negb (String.eqb id hostId)) (ids ++ [hostId])
  = List.filter (fun id => negb (String.eqb id hostId)) ids.
Proof.
  rewrite List.filter_app. cbn [List.filter]. rewrite String.eqb_refl.
  cbn [negb]. apply app_nil_r.
Qed.

End RegistryFacts.

Section KeyedRegistry.
Import Registry Hosts.

Lemma setAll_keyed {V} (key : V -> string) xs (m : gmap string V) :
  (forall k v, m !! k = Some v -> key v = k) ->
  forall k v, Arrays.setAll key xs m !! k = Some v -> key v = k.
Proof.
  intros Hm. induction xs as [|a xs IH] using rev_ind; [exact Hm|].
  intros k v. rewrite setAll_snoc. destruct (decide (key a = k)) as [<-|Hne].
  - rewrite lookup_insert_eq. intros H. injection H as <-. reflexivity.
  - rewrite lookup_insert_ne by exact Hne. apply IH.
Qed.

Lemma insert_keyed {V} (key : V -> string) (m : gmap string V) k0 a :
  key a = k0 ->
  (forall k v, m !! k = Some v -> key v = k) ->
  forall k v, <[k0 := a]> m !! k = Some v -> key v = k.
Proof.
  intros <- Hm k v. destruct (decide (key a = k)) as [<-|Hne].
  - rewrite lookup_insert_eq. intros H. injection H as <-. reflexivity.
  - rewrite lookup_insert_ne by exact Hne. apply Hm.
Qed.

Lemma delete_keyed {V} (key : V -> string) (m : gmap string V) k0 :
  (forall k v, m !! k = Some v -> key v = k) ->
  forall k v, delete k0 m !! k = Some v -> key v = k.
Proof.
  intros Hm k v H. apply lookup_delete_Some in H as [_ H]. exact (Hm k v H).
Qed.

Lemma empty_keyed {V} (key : V -> string) :
  forall k v, (∅ : gmap string V) !! k = Some v -> key v = k.
Proof. intros k v H. rewrite lookup_empty in H. discriminate. Qed.

Lemma importRows_keyed cols defaults rows :
  forall i res table,
    (forall k h, table !! k = Some h -> host_id h = k) ->
    forall k h, (importRows cols defaults i rows (res, table)).2 !! k = Some h ->
                host_id h = k.
Proof.
  induction rows as [|line rows IH]; intros i res table Ht; [exact Ht|].
  cbn [importRows]. unfold importRow.
  destruct (rowHost cols defaults i line) as [host|].
  - apply IH. apply (insert_keyed host_id); [reflexivity|exact Ht].
  - apply IH. exact Ht.
Qed.

Lemma keyed_create hs gs : keyed (create hs gs).
Proof.
  split; cbn [create publish hosts groups].
  - apply setAll_keyed, empty_keyed.
  - apply setAll_keyed, empty_keyed.
Qed.

Lemma keyed_empty : keyed Registry.empty.
Proof. split; [apply (empty_keyed host_id)|apply (empty_keyed group_id)]. Qed.

Lemma keyed_call c r : keyed r -> keyed (call c r).
Proof.
  intros [Hh Hg]. destruct c; cbn [call].
  - split; [apply setAll_keyed, empty_keyed|exact Hg].
  - split; [exact Hh|apply setAll_keyed, empty_keyed].
  - split; [apply (insert_keyed host_id); [reflexivity|exact Hh]|exact Hg].
  - split; [apply setAll_keyed; exact Hh|exact Hg].
  - unfold removeHost. destruct (bool_decide _); [|split; assumption].
    split; [apply (delete_keyed host_id); exact Hh|exact Hg].
  - split; [exact Hh|apply (insert_keyed group_id); [reflexivity|exact Hg]].
  - unfold removeGroup. destruct (bool_decide _); [|split; assumption].
    split; [exact Hh|apply (delete_keyed group_id); exact Hg].
  - unfold toggleHost. destruct (hosts r !! hostId) as [host|] eqn:Hhost;
      [|split; assumption].
    split; [|exact Hg]. cbn [publish with_hosts hosts].
    apply (insert_keyed host_id); [exact (Hh hostId host Hhost)|exact Hh].
  - unfold assignHostToGroup. destruct (hosts r !! hostId); [|split; assumption].
    destruct (groups r !! groupId) as [group|] eqn:Hgroup; [|split; assumption].
    split; [exact Hh|]. cbn [publish with_groups groups].
    apply (insert_keyed group_id); [exact (Hg groupId group Hgroup)|exact Hg].
  - unfold unassignHostFromGroup.
    destruct (groups r !! groupId) as [group|] eqn:Hgroup; [|split; assumption].
    split; [exact Hh|]. cbn [publish with_groups groups].
    apply (insert_keyed group_id); [exact (Hg groupId group Hgroup)|exact Hg].
  - unfold importFromCsv. destruct (csvLines csvContent); [split; assumption|].
    destruct (importRows _ _ _ _ _) as [res table] eqn:E.
    split; [|exact Hg]. cbn [publish hosts snd].
    pose proof (importRows_keyed (columnsOf (csvHeaders s)) defaults l 1%nat
                  (mkImportResult 0 0 0) (hosts r) Hh) as H.
    rewrite E in H. exact H.
Qed.

End KeyedRegistry.

(** X1. Whatever methods are called on a registry, and in whatever order,
    the snapshot held by its subject is the current content of its two
    tables, and every host and every group is stored under its own
    identifier. *)
Theorem registry_subject_is_current initialHosts initialGroups calls :
  let r := foldl (fun r c => Hosts.call c r) (Hosts.create initialHosts initialGroups)
             calls in
  Hosts.published r /\ Hosts.keyed r.
Proof.
  cbn zeta. induction calls as [|c calls IH] using rev_ind.
  - split; [reflexivity|apply keyed_create].
  - rewrite foldl_app. cbn [foldl]. destruct IH as [IH1 IH2].
    split; [apply published_call; exact IH1|apply keyed_call; exact IH2].
Qed.

(** X2. Assigning a registered host to a registered group makes it a member
    of the group exactly once and keeps the members the group had; nothing
    else changes, and a second assignment changes nothing at all. *)
Theorem assignHostToGroup_adds_member_once r hostId groupId host group :
  hosts r !! hostId = Some host ->
  groups r !! groupId = Some group ->
  let r' := Hosts.assignHostToGroup hostId groupId r in
  (exists group',
      groups r' !! groupId = Some group'
      /\ group_id group' = group_id group
      /\ group_label group' = group_label group
      /\ NoDup (group_hostIds group')
      /\ (forall id, id ∈ group_hostIds group' <-> id ∈ group_hostIds group \/ id = hostId))
  /\ (forall other, other <> groupId -> groups r' !! other = groups r !! other)
  /\ hosts r' = hosts r
  /\ Hosts.assignHostToGroup hostId groupId r' = r'.
Proof.
  intros Hh Hg r'.
  assert (Er : r' = Registry.publish
                      (Hosts.with_groups
                         (<[groupId := with_hostIds
                                         (Arrays.unique (group_hostIds group ++ [hostId]))
                                         group]> (groups r)) r))
    by exact (assignHostToGroup_eq r hostId groupId host group Hh Hg).
  clearbody r'. subst r'.
  cbn [Registry.publish Hosts.with_groups groups hosts].
  split; [|split; [|split]].
  - eexists. split; [apply lookup_insert_eq|].
    cbn [with_hostIds group_id group_label group_hostIds].
    split; [reflexivity|]. split; [reflexivity|].
    split; [apply unique_NoDup|]. intros id. apply unique_snoc_elem.
  - intros other Hne. apply lookup_insert_ne. congruence.
  - reflexivity.
  - unfold Hosts.assignHostToGroup.
    cbn [Registry.publish Hosts.with_groups groups hosts].
    rewrite Hh, lookup_insert_eq.
    cbn [with_hostIds group_id group_label group_hostIds].
    unfold Registry.publish.
    cbn [Hosts.with_groups groups hosts subject].
    rewrite insert_insert_eq.
    assert (E : Arrays.unique (Arrays.unique (group_hostIds group ++ [hostId]) ++ [hostId])
                = Arrays.unique (group_hostIds group ++ [hostId])).
    { unfold Arrays.unique at 1. rewrite unique_from_snoc.
      rewrite bool_decide_eq_true_2.
      - apply (unique_of_NoDup (Arrays.unique (group_hostIds group ++ [hostId]))).
        apply unique_NoDup.
      - right. apply unique_snoc_elem. right. reflexivity. }
    rewrite E. reflexivity.
Qed.

Lemma assignHostToGroup_in_room :
  let r' := Hosts.assignHostToGroup "pc-02" "g1" Hosts.room in
  (exists group',
      groups r' !! "g1" = Some group'
      /\ group_id group' = "g1"
      /\ group_label group' = "Rangee 1"
      /\ NoDup (group_hostIds group')
      /\ (forall id, id ∈ group_hostIds group' <-> id ∈ ["pc-01"] \/ id = "pc-02"))
  /\ (forall other, other <> "g1" -> groups r' !! other = groups Hosts.room !! other)
  /\ hosts r' = hosts Hosts.room
  /\ Hosts.assignHostToGroup "pc-02" "g1" r' = r'.
Proof.
  exact (assignHostToGroup_adds_member_once Hosts.room "pc-02" "g1"
           (mkHostRecord "pc-02" "PC-02" "10.0.0.2" "windows" ["salle-a"; "prof"] true
              None None None)
           (mkHostGroup "g1" "Rangee 1" ["pc-01"]) eq_refl eq_refl).
Defined.

(** X3. Removing a host from a group removes every occurrence of its id
    from the members of the group and keeps the other members in their
    order, whether or not the host is registered; and it undoes an
    assignment: a host that was not a member is, after being assigned and
    unassigned, not a member, and the group is as it was. *)
Theorem unassignHostFromGroup_undoes_assignment r hostId groupId group :
  groups r !! groupId = Some group ->
  (exists group',
      groups (Hosts.unassignHostFromGroup hostId groupId r) !! groupId = Some group'
      /\ (hostId ∉ group_hostIds group')
      /\ sublist (group_hostIds group') (group_hostIds group)
      /\ (forall id, id <> hostId ->
                     (id ∈ group_hostIds group' <-> id ∈ group_hostIds group)))
  /\ ((hostId ∉ group_hostIds group) ->
      NoDup (group_hostIds group) ->
      groups (Hosts.unassignHostFromGroup hostId groupId
                (Hosts.assignHostToGroup hostId groupId r)) = groups r).
Proof.
  intros Hg. split.
  - unfold Hosts.unassignHostFromGroup. rewrite Hg.
    cbn [Registry.publish Hosts.with_groups groups].
    eexists. split; [apply lookup_insert_eq|].
    cbn [with_hostIds group_hostIds].
    split; [|split].
    + intros H. apply list_elem_of_In, List.filter_In in H as [_ H].
      rewrite String.eqb_refl in H. discriminate.
    + induction (group_hostIds group) as [|y ids IH]; [constructor|].
      cbn [List.filter]. destruct (negb (String.eqb y hostId)).
      * apply sublist_skip. exact IH.
      * apply sublist_cons. exact IH.
    + intros id Hne. rewrite !list_elem_of_In, List.filter_In.
      destruct (String.eqb_spec id hostId) as [->|_]; [contradiction|].
      cbn [negb]. tauto.
  - intros Hn Hnd.
    assert (Hnd' : NoDup (group_hostIds group ++ [hostId])).
    { apply NoDup_app. split; [exact Hnd|]. split; [|apply NoDup_singleton].
      intros x Hx. rewrite list_elem_of_singleton. intros ->. contradiction. }
    destruct (hosts r !! hostId) as [host|] eqn:Hh.
    + rewrite (assignHostToGroup_eq r hostId groupId host group Hh Hg).
      unfold Hosts.unassignHostFromGroup.
      cbn [Registry.publish Hosts.with_groups groups hosts].
      rewrite lookup_insert_eq.
      cbn [Registry.publish Hosts.with_groups groups hosts].
      rewrite insert_insert_eq.
      cbn [with_hostIds group_hostIds].
      rewrite unique_of_NoDup by exact Hnd'.
      rewrite filter_snoc_member, filter_not_member by exact Hn.
      rewrite (with_hostIds_same group (group_hostIds group ++ [hostId])).
      apply insert_id. exact Hg.
    + unfold Hosts.assignHostToGroup. rewrite Hh.
      unfold Hosts.unassignHostFromGroup. rewrite Hg.
      cbn [Registry.publish Hosts.with_groups groups hosts].
      rewrite filter_not_member by exact Hn.
      replace (with_hostIds (group_hostIds group) group) with group
        by (destruct group; reflexivity).
      apply insert_id. exact Hg.
Qed.

Lemma unassignHostFromGroup_in_room :
  (exists group',
      groups (Hosts.unassignHostFromGroup "pc-02" "g1" Hosts.room) !! "g1" = Some group'
      /\ ("pc-02" ∉ group_hostIds group')
      /\ sublist (group_hostIds group') ["pc-01"]
      /\ (forall id, id <> "pc-02" -> (id ∈ group_hostIds group' <-> id ∈ ["pc-01"])))
  /\ (("pc-02" ∉ ["pc-01"]) ->
      NoDup ["pc-01"] ->
      groups (Hosts.unassignHostFromGroup "pc-02" "g1"
                (Hosts.assignHostToGroup "pc-02" "g1" Hosts.room)) = groups Hosts.room).
Proof.
  exact (unassignHostFromGroup_undoes_assignment Hosts.room "pc-02" "g1"
           (mkHostGroup "g1" "Rangee 1" ["pc-01"]) eq_refl).
Defined.

(** X4. Removing a host takes it out of the host table and out of nothing
    else: the groups keep its id among their members.  A host that was
    assigned to a group and then removed is unknown to [getHostById] and
    still listed by the group; the other hosts are untouched, and removing
    it a second time changes nothing. *)
Theorem removeHost_leaves_group_membership r hostId groupId host group :
  hosts r !! hostId = Some host ->
  groups r !! groupId = Some group ->
  let r' := Hosts.removeHost hostId (Hosts.assignHostToGroup hostId groupId r) in
  Registry.getHostById r' hostId = None
  /\ (forall other, other <> hostId -> hosts r' !! other = hosts r !! other)
  /\ (exists group', groups r' !! groupId = Some group' /\ hostId ∈ group_hostIds group')
  /\ Hosts.removeHost hostId r' = r'.
Proof.
  intros Hh Hg r'.
  assert (Er : r' = Registry.publish
                      (Hosts.with_hosts (delete hostId (hosts r))
                         (Hosts.assignHostToGroup hostId groupId r))).
  { subst r'. unfold Hosts.removeHost.
    rewrite (assignHostToGroup_eq r hostId groupId host group Hh Hg).
    cbn [Registry.publish Hosts.with_groups groups hosts].
    rewrite bool_decide_eq_true_2 by eauto. reflexivity. }
  clearbody r'. subst r'.
  rewrite (assignHostToGroup_eq r hostId groupId host group Hh Hg).
  unfold Registry.getHostById.
  cbn [Registry.publish Hosts.with_groups Hosts.with_hosts groups hosts].
  split; [apply lookup_delete_eq|]. split; [|split].
  - intros other Hne. apply lookup_delete_ne. congruence.
  - eexists. split; [apply lookup_insert_eq|].
    cbn [with_hostIds group_hostIds]. apply unique_snoc_elem. right. reflexivity.
  - unfold Hosts.removeHost.
    cbn [Registry.publish Hosts.with_groups Hosts.with_hosts groups hosts].
    rewrite bool_decide_eq_false_2; [reflexivity|].
    rewrite lookup_delete_eq. intros [? ?]. discriminate.
Qed.

Lemma removeHost_in_room :
  let r' := Hosts.removeHost "pc-02" (Hosts.assignHostToGroup "pc-02" "g1" Hosts.room) in
  Registry.getHostById r' "pc-02" = None
  /\ (forall other, other <> "pc-02" -> hosts r' !! other = hosts Hosts.room !! other)
  /\ (exists group', groups r' !! "g1" = Some group' /\ "pc-02" ∈ group_hostIds group')
  /\ Hosts.removeHost "pc-02" r' = r'.
Proof.
  exact (removeHost_leaves_group_membership Hosts.room "pc-02" "g1"
           (mkHostRecord "pc-02" "PC-02" "10.0.0.2" "windows" ["salle-a"; "prof"] true
              None None None)
           (mkHostGroup "g1" "Rangee 1" ["pc-01"]) eq_refl eq_refl).
Defined.

(** X5. The two bulk updates keep, for every identifier, the last record
    of the array that carries it.  [setHosts] replaces the table: an
    identifier the array does not carry is bound to nothing, whatever the
    table held, and the table has at most as many hosts as the array.
    [upsertHosts] merges: it is the repeated [upsertHost], and an identifier
    the array does not carry keeps its host.  Neither touches the groups. *)
Theorem bulk_updates_keep_the_last_record hs r :
  let lastOf := fun id => Arrays.findLast (fun h => String.eqb (host_id h) id) hs in
  let replaced := Hosts.setHosts hs r in
  let merged := Hosts.upsertHosts hs r in
  let repeated := foldl (fun acc h => Registry.upsertHost h acc) r hs in
  (forall id, Registry.getHostById replaced id = lastOf id)
  /\ (size (hosts replaced) <= length hs)%nat
  /\ groups replaced = groups r
  /\ (forall id,
        Registry.getHostById merged id =
        match lastOf id with
        | Some h => Some h
        | None => Registry.getHostById r id
        end)
  /\ hosts merged = hosts repeated
  /\ groups merged = groups repeated
  /\ groups merged = groups r.
Proof.
  cbn zeta. unfold Hosts.setHosts, Hosts.upsertHosts, Registry.getHostById.
  cbn [Registry.publish Hosts.with_hosts groups hosts].
  assert (E : forall hs r,
             hosts (foldl (fun acc h => Registry.upsertHost h acc) r hs)
             = Arrays.setAll host_id hs (hosts r)
             /\ groups (foldl (fun acc h => Registry.upsertHost h acc) r hs) = groups r).
  { clear. induction hs as [|h hs IH] using rev_ind; intros r; [split; reflexivity|].
    rewrite foldl_app, setAll_snoc. cbn [foldl].
    unfold Registry.upsertHost at 1 3. cbn [Registry.publish groups hosts].
    destruct (IH r) as [IH1 IH2]. rewrite IH1, IH2. split; reflexivity. }
  destruct (E hs r) as [E1 E2]. rewrite E1, E2.
  split; [|split; [|split; [reflexivity|split; [|split; [reflexivity|split; reflexivity]]]]].
  - intros id. rewrite setAll_lookup.
    destruct (Arrays.findLast _ hs); [reflexivity|apply lookup_empty].
  - pose proof (setAll_size host_id hs ∅) as H. rewrite map_size_empty in H. exact H.
  - intros id. apply setAll_lookup.
Qed.

Section ReimportFacts.
Import Registry ImportSpec.

Lemma lastImported_row cols defaults rows :
  forall i k line,
    rows !! k = Some line ->
    Js.truthy (rowAddress cols line) = true ->
    is_Some (lastImported cols defaults i rows (rowId cols (i + k) line)).
Proof.
  induction rows as [|first rest IH]; intros i k line Hk Haddr; [discriminate|].
  cbn [lastImported]. destruct k as [|k].
  - injection Hk as ->. rewrite Nat.add_0_r.
    destruct (lastImported cols defaults (S i) rest (rowId cols i line)); [eauto|].
    rewrite Haddr, String.eqb_refl. cbn [andb].
    destruct (rowHost_Some cols defaults i line Haddr) as (h & Hh & _). eauto.
  - cbn in Hk. specialize (IH (S i) k line Hk Haddr).
    replace (i + S k)%nat with (S i + k)%nat by lia.
    destruct IH as [h Hh]. rewrite Hh. eauto.
Qed.

Lemma countRows_known cols rows :
  forall i known res,
    (forall k line,
        rows !! k = Some line ->
        Js.truthy (rowAddress cols line) = true ->
        rowId cols (i + k) line ∈ known) ->
    let out := countRows cols i rows known res in
    added out = added res
    /\ updated out
       = updated res + Z.of_nat (length rows)
         - Z.of_nat (length (List.filter (withoutAddress cols) rows)).
Proof.
  induction rows as [|line rest IH]; intros i known res Hknown; cbn zeta.
  - cbn. split; [reflexivity|lia].
  - cbn [countRows List.filter].
    change (withoutAddress cols line) with (negb (Js.truthy (rowAddress cols line))).
    assert (Hrest : forall k l,
               rest !! k = Some l ->
               Js.truthy (rowAddress cols l) = true ->
               rowId cols (S i + k) l ∈ known).
    { intros k l Hk Hl. replace (S i + k)%nat with (i + S k)%nat by lia.
      apply Hknown; [exact Hk|exact Hl]. }
    destruct (Js.truthy (rowAddress cols line)) eqn:Haddr; cbn [negb].
    + rewrite bool_decide_eq_true_2
        by (rewrite <- (Nat.add_0_r i); apply Hknown; [reflexivity|exact Haddr]).
      destruct (IH (S i) known
                  (mkImportResult (added res) (updated res + 1) (skipped res)) Hrest)
        as [E1 E2].
      cbn [added updated length] in E1, E2 |- *. split; [exact E1|lia].
    + destruct (IH (S i) known
                  (mkImportResult (added res) (updated res) (skipped res + 1)) Hrest)
        as [E1 E2].
      cbn [added updated length] in E1, E2 |- *. split; [exact E1|lia].
Qed.

Lemma indexOf_from_absent xs (x : string) :
  forall i, x ∉ xs -> Js.indexOf_from xs x i = -1.
Proof.
  induction xs as [|y xs IH]; intros i Hx; [reflexivity|].
  apply not_elem_of_cons in Hx as [Hne Hx]. cbn [Js.indexOf_from].
  destruct (String.eqb_spec y x) as [->|_]; [contradiction|].
  apply IH. exact Hx.
Qed.

Lemma importRows_without_address cols defaults rows :
  (forall line, Js.truthy (rowAddress cols line) = false) ->
  forall i res table,
    importRows cols defaults i rows (res, table)
    = (mkImportResult (added res) (updated res)
         (skipped res + Z.of_nat (length rows)), table).
Proof.
  intros Hno. induction rows as [|line rest IH]; intros i res table.
  - cbn. rewrite Z.add_0_r. destruct res. reflexivity.
  - cbn [importRows]. unfold importRow.
    rewrite (rowHost_None _ _ _ _ (Hno line)), IH.
    cbn [added updated skipped length]. f_equal. f_equal. lia.
Qed.

End ReimportFacts.

(** X6. Importing the same text a second time adds nothing: every row that
    was added or updated by the first import is an update of the second, the
    rows skipped are the same, and the registry is left exactly as the first
    import left it. *)
Theorem importFromCsv_twice_adds_nothing csv defaults r :
  let first := Registry.importFromCsv csv defaults r in
  let second := Registry.importFromCsv csv defaults first.2 in
  second.1 = mkImportResult 0 (added first.1 + updated first.1) (skipped first.1)
  /\ second.2 = first.2.
Proof.
  cbn zeta.
  rewrite (importFromCsv_unfold csv defaults
             (Registry.importFromCsv csv defaults r).2).
  rewrite (importFromCsv_unfold csv defaults r). cbn zeta. cbn [fst snd].
  set (cols := ImportSpec.header csv). set (rows := ImportSpec.dataRows csv).
  destruct (importRows_spec cols defaults rows 1%nat (mkImportResult 0 0 0) (hosts r))
    as (E1 & E2 & _). cbn zeta in E1, E2.
  set (out1 := Registry.importRows cols defaults 1 rows (mkImportResult 0 0 0, hosts r))
    in *.
  assert (Hh : hosts (match Registry.csvLines csv with
                      | [] => r
                      | _ :: _ => Registry.publish
                                    (mkHostRegistry out1.2 (groups r) (subject r))
                      end) = out1.2 /\
               groups (match Registry.csvLines csv with
                       | [] => r
                       | _ :: _ => Registry.publish
                                     (mkHostRegistry out1.2 (groups r) (subject r))
                       end) = groups r).
  { subst out1 rows. unfold ImportSpec.dataRows.
    destruct (Registry.csvLines csv); split; reflexivity. }
  destruct Hh as [Hh Hg]. rewrite Hh, Hg.
  destruct (importRows_spec cols defaults rows 1%nat (mkImportResult 0 0 0) out1.2)
    as (F1 & F2 & _). cbn zeta in F1, F2.
  set (out2 := Registry.importRows cols defaults 1 rows (mkImportResult 0 0 0, out1.2))
    in *.
  assert (Htable : out2.2 = out1.2).
  { apply map_eq. intros id. rewrite F2, E2.
    destruct (ImportSpec.lastImported cols defaults 1 rows id); reflexivity. }
  split.
  - destruct (countRows_known cols rows 1%nat (dom out1.2) (mkImportResult 0 0 0))
      as [K1 K2].
    { intros k line Hk Haddr. apply elem_of_dom. rewrite E2.
      destruct (lastImported_row cols defaults rows 1%nat k line Hk Haddr) as [h Hh'].
      rewrite Hh'. eauto. }
    destruct (countRows_totals cols rows 1%nat (dom out1.2) (mkImportResult 0 0 0))
      as [T1 T2].
    destruct (countRows_totals cols rows 1%nat (dom (hosts r)) (mkImportResult 0 0 0))
      as [U1 U2].
    cbn zeta in K1, K2, T1, T2, U1, U2. rewrite <- F1 in K1, K2, T1, T2.
    rewrite <- E1 in U1, U2. cbn [added updated skipped] in K1, K2, T1, T2, U1, U2.
    destruct out2.1 as [a2 u2 s2]. cbn [added updated skipped] in K1, K2, T1, T2.
    f_equal; lia.
  - rewrite Htable. destruct (Registry.csvLines csv); reflexivity.
Qed.

(** X7. A text without an address column imports nothing: when its header
    line names neither [ip] nor [address] (an empty text included), every
    data row is skipped and counted, and the host table is left as it
    was. *)
Theorem importFromCsv_without_address_column csv defaults r :
  "ip" ∉ Registry.csvHeaders (hd "" (Registry.csvLines csv)) ->
  "address" ∉ Registry.csvHeaders (hd "" (Registry.csvLines csv)) ->
  let out := Registry.importFromCsv csv defaults r in
  out.1 = mkImportResult 0 0 (Z.of_nat (length (ImportSpec.dataRows csv)))
  /\ hosts out.2 = hosts r
  /\ groups out.2 = groups r.
Proof.
  intros Hip Haddress. cbn zeta. rewrite importFromCsv_unfold. cbn zeta. cbn [fst snd].
  rewrite importRows_without_address.
  - cbn [fst snd added updated skipped].
    split; [reflexivity|]. destruct (Registry.csvLines csv); split; reflexivity.
  - intros line. unfold Registry.rowAddress, ImportSpec.header, Registry.columnsOf.
    cbn [Registry.addressIndex]. unfold Js.indexOf.
    rewrite (indexOf_from_absent _ "ip" 0 Hip).
    rewrite (indexOf_from_absent _ "address" 0 Haddress).
    reflexivity.
Qed.

Lemma importFromCsv_names_only :
  let csv := "id,nom" +:+ Js.newline +:+ "h1,PC-01" +:+ Js.newline +:+ "h2,PC-02" in
  let out := Registry.importFromCsv csv noDefaults Hosts.room in
  out.1 = mkImportResult 0 0 2
  /\ hosts out.2 = hosts Hosts.room
  /\ groups out.2 = groups Hosts.room.
Proof.
  apply (importFromCsv_without_address_column
           ("id,nom" +:+ Js.newline +:+ "h1,PC-01" +:+ Js.newline +:+ "h2,PC-02")
           noDefaults Hosts.room).
  - vm_compute. intros H. repeat (apply elem_of_cons in H as [H|H]; [discriminate|]).
    inversion H.
  - vm_compute. intros H. repeat (apply elem_of_cons in H as [H|H]; [discriminate|]).
    inversion H.
Defined.

(** ** More on the reachable states of the queue *)

Lemma after_reachable x o turns :
  is_Some (run x o turns Queue.new) -> reachable x o (Scenario.after x o turns).
Proof.
  intros [q Hq]. unfold Scenario.after. rewrite Hq. cbn [Js.nullish].
  exact (run_reachable x o turns Queue.new q (reachable_new x o) Hq).
Qed.

Lemma active_set_after_three_jobs :
  let o := Scenario.options 2 2 in
  let q := Scenario.after anyExecutor o Scenario.threeAtOnce in
  executorsInFlight q = 3%nat
  /\ activeCount (Queue.getSnapshot q) <= maxParallel o.
Proof.
  split; [vm_compute; reflexivity|].
  apply (active_set_within_bound anyExecutor (Scenario.options 2 2)).
  - vm_compute. discriminate.
  - apply after_reachable. vm_compute. eauto.
Defined.

Lemma waiting_NoDup x o q : reachable x o q -> NoDup (waitingQueue q).
Proof.
  intros Hreach.
  pose proof (reachable_Inv x o (fun _ => True) q Hreach) as HI.
  pose proof (ci_busy _ _ _ _ _ _ _ _ HI) as B. unfold busy in B.
  apply NoDup_app in B as [B _]. exact B.
Qed.

(** X8. In every reachable state the attempt number of a job is the number
    of calls of the executor made for it so far, whatever its status: none
    for an identifier the queue does not know, and at most [retryCount]
    calls (one when [retryCount] is below 1) for a job.  [getJob] returns
    the job stored under the identifier asked for. *)
Theorem attempt_counts_executor_calls x o q jobId :
  reachable x o q ->
  callsFor jobId q
  = match Queue.getJob jobId q with Some job => attemptOf job | None => 0 end
  /\ (forall job,
        Queue.getJob jobId q = Some job ->
        job_id job = jobId /\ 0 <= attemptOf job <= Z.max (retryCount o) 1).
Proof.
  intros Hreach.
  pose proof (reachable_Inv x o (fun _ => True) q Hreach) as HI. unfold Inv in HI.
  unfold Queue.getJob, callsFor. split.
  - destruct (jobs q !! jobId) as [job|] eqn:Hjob.
    + apply (ci_attempts _ _ _ _ _ _ _ _ HI jobId job Hjob).
    + apply (ci_fresh _ _ _ _ _ _ _ _ HI jobId Hjob).
  - intros job Hjob. split.
    + apply (ci_keys _ _ _ _ _ _ _ _ HI jobId job Hjob).
    + apply (ci_attempts _ _ _ _ _ _ _ _ HI jobId job Hjob).
Qed.

Lemma attempt_counts_after_retry :
  let o := Scenario.options 2 2 in
  let q := Scenario.after anyExecutor o Scenario.threeAtOnce in
  callsFor "A" q
  = match Queue.getJob "A" q with Some job => attemptOf job | None => 0 end
  /\ (forall job,
        Queue.getJob "A" q = Some job ->
        job_id job = "A" /\ 0 <= attemptOf job <= Z.max (retryCount o) 1).
Proof.
  apply (attempt_counts_executor_calls anyExecutor (Scenario.options 2 2)).
  apply after_reachable. vm_compute. eauto.
Defined.

(** X9. In every reachable state the waiting list holds no identifier
    twice, and each of its jobs is known to the queue, has the status
    [queued], no start time, and no call of its executor in flight. *)
Theorem waiting_jobs_are_queued x o q :
  reachable x o q ->
  NoDup (waitingQueue q)
  /\ (forall jobId,
        jobId ∈ waitingQueue q ->
        (exists job,
            Queue.getJob jobId q = Some job
            /\ job_status job = Queued
            /\ startedAt (job_metrics job) = None)
        /\ (forall job ctx, AwaitExecutor job ctx ∈ suspended q -> job_id job <> jobId)).
Proof.
  intros Hreach.
  pose proof (reachable_Inv x o (fun _ => True) q Hreach) as HI. unfold Inv in HI.
  split; [exact (waiting_NoDup x o q Hreach)|].
  intros jobId Hw. split.
  - destruct (ci_waiting _ _ _ _ _ _ _ _ HI jobId Hw) as (cur & H1 & H2 & H3 & _).
    exists cur. split; [exact H1|]. split; [exact H2|exact H3].
  - intros job ctx Hin Hid.
    apply (frame_not_waiting x o (fun _ => True) _ _ _ _ _ (AwaitExecutor job ctx) jobId HI);
      [exact Hin|cbn; rewrite Hid; reflexivity|exact Hw].
Qed.

Lemma waiting_behind_another_job :
  let q := Scenario.after anyExecutor (Scenario.options 1 2) Scenario.retryBehindAnotherJob in
  NoDup (waitingQueue q)
  /\ (forall jobId,
        jobId ∈ waitingQueue q ->
        (exists job,
            Queue.getJob jobId q = Some job
            /\ job_status job = Queued
            /\ startedAt (job_metrics job) = None)
        /\ (forall job ctx, AwaitExecutor job ctx ∈ suspended q -> job_id job <> jobId)).
Proof.
  apply (waiting_jobs_are_queued anyExecutor (Scenario.options 1 2)).
  apply after_reachable. vm_compute. eauto.
Defined.

Section CancelAll.

Lemma remove_first_filter (j : string) W :
  NoDup W -> remove_first j W = List.filter (fun k => negb (String.eqb k j)) W.
Proof.
  induction W as [|z zs IH]; intros Hnd; [reflexivity|].
  apply NoDup_cons in Hnd as [Hz Hzs]. cbn [remove_first List.filter].
  destruct (String.eqb_spec z j) as [->|Hne]; cbn [negb].
  - symmetry. clear IH Hzs. induction zs as [|y ys IH]; [reflexivity|].
    apply not_elem_of_cons in Hz as [Hne Hz]. cbn [List.filter].
    destruct (String.eqb_spec y j) as [->|_]; [contradiction|].
    cbn [negb]. f_equal. apply IH. exact Hz.
  - f_equal. apply IH. exact Hzs.
Qed.

Lemma filter_filter_and {A} (f g : A -> bool) xs :
  List.filter f (List.filter g xs) = List.filter (fun a => g a && f a) xs.
Proof.
  induction xs as [|a xs IH]; [reflexivity|]. cbn [List.filter].
  destruct (g a); cbn [andb List.filter]; [destruct (f a)|]; rewrite IH; reflexivity.
Qed.

Lemma cancel_fold now ids :
  forall q,
    NoDup ids -> NoDup (waitingQueue q) ->
    (forall j, j ∈ ids -> is_Some (jobs q !! j)) ->
    let q' := foldl (fun acc jobId => Queue.cancel now jobId acc) q ids in
    activeJobs q' = activeJobs q
    /\ suspended q' = suspended q
    /\ executorCalls q' = executorCalls q
    /\ waitingQueue q'
       = List.filter (fun k => negb (cancelled_in ids q k)) (waitingQueue q)
    /\ (forall k,
          jobs q' !! k =
          if cancelled_in ids q k then Queue.cancelledJob now <$> jobs q !! k
          else jobs q !! k).
Proof.
  induction ids as [|j rest IH]; intros q Hids HW Hjobs; cbn zeta; cbn [foldl].
  - repeat split.
    symmetry. unfold cancelled_in. clear HW.
    induction (waitingQueue q) as [|a l IHl]; [reflexivity|].
    cbn [List.filter]. rewrite bool_decide_eq_false_2 by apply not_elem_of_nil.
    cbn [andb negb]. f_equal. exact IHl.
  - apply NoDup_cons in Hids as [Hj Hrest].
    destruct (Hjobs j) as [job Hjob]; [left|].
    unfold Queue.cancel at 2 4 6 8 10. rewrite Hjob.
    destruct (activeJobs q !! j) as [a|] eqn:Hact.
    + rewrite bool_decide_eq_true_2 by eauto.
      destruct (IH q Hrest HW) as (E1 & E2 & E3 & E4 & E5).
      { intros k Hk. apply Hjobs. right. exact Hk. }
      cbn zeta in E1, E2, E3, E4, E5.
      split; [exact E1|]. split; [exact E2|]. split; [exact E3|].
      assert (Hsame : forall k, cancelled_in (j :: rest) q k = cancelled_in rest q k).
      { intros k. unfold cancelled_in.
        destruct (decide (k = j)) as [->|Hne].
        - rewrite Hact. rewrite !(bool_decide_eq_false_2 (Some a = None)) by discriminate.
          rewrite !andb_false_r. reflexivity.
        - f_equal. apply bool_decide_ext. rewrite elem_of_cons. tauto. }
      split.
      * rewrite E4. apply List.filter_ext. intros k. rewrite Hsame. reflexivity.
      * intros k. rewrite E5, Hsame. reflexivity.
    + rewrite bool_decide_eq_false_2 by (intros [? ?]; discriminate).
      set (q1 := Queue.emit _ _).
      destruct (IH q1 Hrest) as (E1 & E2 & E3 & E4 & E5).
      { subst q1. queue_simpl. apply remove_first_NoDup. exact HW. }
      { intros k Hk. subst q1. queue_simpl.
        destruct (decide (k = j)) as [->|Hne].
        - rewrite lookup_insert_eq. eauto.
        - rewrite lookup_insert_ne by congruence. apply Hjobs. right. exact Hk. }
      cbn zeta in E1, E2, E3, E4, E5.
      assert (Hact1 : activeJobs q1 = activeJobs q) by reflexivity.
      assert (Hother : forall k, k <> j ->
                 cancelled_in (j :: rest) q k = cancelled_in rest q1 k).
      { intros k Hne. unfold cancelled_in. rewrite Hact1. f_equal.
        apply bool_decide_ext. rewrite elem_of_cons. tauto. }
      assert (Hthis : cancelled_in (j :: rest) q j = true
                      /\ cancelled_in rest q1 j = false).
      { unfold cancelled_in. rewrite Hact1, Hact. split.
        - rewrite bool_decide_eq_true_2 by left.
          rewrite bool_decide_eq_true_2 by reflexivity. reflexivity.
        - rewrite bool_decide_eq_false_2 by exact Hj. reflexivity. }
      destruct Hthis as [Hthis Hthis1].
      split; [rewrite E1; reflexivity|]. split; [rewrite E2; reflexivity|].
      split; [rewrite E3; reflexivity|]. split.
      * rewrite E4. subst q1. queue_simpl.
        rewrite (remove_first_filter j _ HW), filter_filter_and.
        apply List.filter_ext. intros k.
        destruct (String.eqb_spec k j) as [->|Hne]; cbn [negb andb].
        -- rewrite Hthis. reflexivity.
        -- rewrite (Hother k Hne). reflexivity.
      * intros k. rewrite E5. destruct (decide (k = j)) as [->|Hne].
        -- rewrite Hthis, Hthis1. subst q1. queue_simpl.
           rewrite lookup_insert_eq, Hjob. reflexivity.
        -- rewrite (Hother k Hne). subst q1. queue_simpl.
           rewrite lookup_insert_ne by congruence. reflexivity.
Qed.

End CancelAll.

(** X10. [cancelAll], called in a reachable state, cancels the waiting jobs
    that are outside the active set and no other job: each of them gets the
    status [cancelled] and leaves the waiting list, a waiting job that is
    still in the active set stays in the list as it is, and the active set,
    the suspended frames and the calls of the executor are untouched. *)
Theorem cancelAll_cancels_idle_waiting_jobs x o q now :
  reachable x o q ->
  let q' := Queue.cancelAll now q in
  (forall jobId,
      jobId ∈ waitingQueue q -> activeJobs q !! jobId = None ->
      exists job,
        Queue.getJob jobId q = Some job
        /\ Queue.getJob jobId q' = Some (Queue.cancelledJob now job)
        /\ job_status (Queue.cancelledJob now job) = Cancelled)
  /\ (forall jobId,
        jobId ∉ waitingQueue q \/ is_Some (activeJobs q !! jobId) ->
        Queue.getJob jobId q' = Queue.getJob jobId q)
  /\ waitingQueue q'
     = List.filter (fun k => bool_decide (is_Some (activeJobs q !! k))) (waitingQueue q)
  /\ activeJobs q' = activeJobs q
  /\ suspended q' = suspended q
  /\ executorCalls q' = executorCalls q.
Proof.
  intros Hreach q'.
  pose proof (reachable_Inv x o (fun _ => True) q Hreach) as HI. unfold Inv in HI.
  pose proof (waiting_NoDup x o q Hreach) as HW.
  destruct (cancel_fold now (waitingQueue q) q HW HW) as (E1 & E2 & E3 & E4 & E5).
  { intros j Hj. destruct (ci_waiting _ _ _ _ _ _ _ _ HI j Hj) as (cur & H1 & _). eauto. }
  cbn zeta in E1, E2, E3, E4, E5. fold (Queue.cancelAll now q) in E1, E2, E3, E4, E5.
  fold q' in E1, E2, E3, E4, E5. unfold Queue.getJob.
  split; [|split; [|split; [|split; [|split]]]]; try assumption.
  - intros jobId Hw Hact.
    destruct (ci_waiting _ _ _ _ _ _ _ _ HI jobId Hw) as (cur & H1 & _).
    exists cur. split; [exact H1|]. split; [|reflexivity].
    rewrite E5. unfold cancelled_in.
    rewrite bool_decide_eq_true_2 by exact Hw.
    rewrite bool_decide_eq_true_2 by exact Hact.
    cbn [andb]. rewrite H1. reflexivity.
  - intros jobId Hcase. rewrite E5. unfold cancelled_in.
    destruct Hcase as [Hn|[a Ha]].
    + rewrite bool_decide_eq_false_2 by exact Hn. reflexivity.
    + rewrite Ha, (bool_decide_eq_false_2 (Some a = None)) by discriminate.
      rewrite andb_false_r. reflexivity.
  - rewrite E4. apply List.filter_ext_in. intros k Hk. unfold cancelled_in.
    rewrite bool_decide_eq_true_2 by (apply list_elem_of_In; exact Hk).
    cbn [andb]. destruct (activeJobs q !! k) as [a|].
    + rewrite bool_decide_eq_false_2 by discriminate.
      rewrite bool_decide_eq_true_2 by eauto. reflexivity.
    + rewrite bool_decide_eq_true_2 by reflexivity.
      rewrite bool_decide_eq_false_2 by (intros [? ?]; discriminate). reflexivity.
Qed.

Lemma cancelAll_behind_another_job :
  let q := Scenario.after anyExecutor (Scenario.options 1 2) Scenario.retryBehindAnotherJob in
  let q' := Queue.cancelAll 130 q in
  (forall jobId,
      jobId ∈ waitingQueue q -> activeJobs q !! jobId = None ->
      exists job,
        Queue.getJob jobId q = Some job
        /\ Queue.getJob jobId q' = Some (Queue.cancelledJob 130 job)
        /\ job_status (Queue.cancelledJob 130 job) = Cancelled)
  /\ (forall jobId,
        jobId ∉ waitingQueue q \/ is_Some (activeJobs q !! jobId) ->
        Queue.getJob jobId q' = Queue.getJob jobId q)
  /\ waitingQueue q'
     = List.filter (fun k => bool_decide (is_Some (activeJobs q !! k))) (waitingQueue q)
  /\ activeJobs q' = activeJobs q
  /\ suspended q' = suspended q
  /\ executorCalls q' = executorCalls q.
Proof.
  apply (cancelAll_cancels_idle_waiting_jobs anyExecutor (Scenario.options 1 2)).
  apply after_reachable. vm_compute. eauto.
Defined.

(** ** What a turn keeps of the history of the queue *)

Section History.
Variables (x : ExecutorModel) (o : JobQueueOptions).

Lemma extends_refl q : extends q q.
Proof. split; [exists []; symmetry; apply app_nil_r|tauto]. Qed.

Lemma extends_trans q1 q2 q3 : extends q1 q2 -> extends q2 q3 -> extends q1 q3.
Proof.
  intros [[m1 E1] J1] [[m2 E2] J2]. split.
  - exists (m1 ++ m2). rewrite E2, E1, app_assoc. reflexivity.
  - intros j Hj. apply J2, J1, Hj.
Qed.

(** A change of the queue that makes no call and only inserts jobs. *)
Lemma extends_quiet q q' :
  executorCalls q' = executorCalls q ->
  (forall j, is_Some (jobs q !! j) -> is_Some (jobs q' !! j)) ->
  extends q q'.
Proof.
  intros Hc Hj. split; [exists []; rewrite Hc, app_nil_r; reflexivity|exact Hj].
Qed.

Lemma is_Some_insert (J : gmap string DeploymentJob) k v j :
  is_Some (J !! j) -> is_Some (<[k := v]> J !! j).
Proof.
  intros H. destruct (decide (k = j)) as [->|Hne].
  - rewrite lookup_insert_eq. eauto.
  - rewrite lookup_insert_ne by exact Hne. exact H.
Qed.

Lemma extends_startJob now job ctx q :
  extends q (Queue.startJob now job ctx q).
Proof.
  split; queue_simpl.
  - eexists. reflexivity.
  - intros j. apply is_Some_insert.
Qed.

Lemma extends_processLoop now W :
  forall q, extends q (Queue.processLoop o now W q).1.
Proof.
  induction W as [|j rest IH]; intros q; cbn [Queue.processLoop].
  - apply extends_refl.
  - destruct (running q && bool_decide (Z.of_nat (size (activeJobs q)) < maxParallel o));
      [|apply extends_refl].
    destruct (negb (Js.truthy j)); [apply extends_quiet; [reflexivity|tauto]|].
    queue_simpl.
    destruct (jobs q !! j) as [job|];
      [destruct (contextByJob q !! j) as [ctx|]|].
    + destruct (bool_decide (0 < throttleMs o)
                && bool_decide (now - lastStartTimestamp q < throttleMs o)).
      * apply extends_quiet; [reflexivity|tauto].
      * eapply extends_trans; [|apply IH].
        apply (extends_trans _ (set_lastStartTimestamp now (set_waitingQueue rest q)));
          [apply extends_quiet; [reflexivity|tauto]|apply extends_startJob].
    + eapply extends_trans; [|apply IH]. apply extends_quiet; [reflexivity|tauto].
    + eapply extends_trans; [|apply IH]. apply extends_quiet; [reflexivity|tauto].
Qed.

Lemma extends_leaveLoop q r : extends q r.1 -> extends q (Queue.leaveLoop r).
Proof. unfold Queue.leaveLoop. destruct r as [q' []]; intros H; exact H. Qed.

Lemma extends_processQueue now q : extends q (Queue.processQueue o now q).
Proof.
  unfold Queue.processQueue.
  destruct (negb (running q) || processing q); [apply extends_refl|].
  apply extends_leaveLoop.
  apply (extends_trans _ (set_processing true q));
    [apply extends_quiet; [reflexivity|tauto]|apply extends_processLoop].
Qed.

Lemma extends_cancel now jobId q : extends q (Queue.cancel now jobId q).
Proof.
  unfold Queue.cancel. destruct (jobs q !! jobId); [|apply extends_refl].
  destruct (bool_decide _); [apply extends_refl|].
  apply extends_quiet; queue_simpl; [reflexivity|]. intros j. apply is_Some_insert.
Qed.

Lemma extends_cancelAll_from now ids :
  forall q, extends q (foldl (fun acc jobId => Queue.cancel now jobId acc) q ids).
Proof.
  induction ids as [|j rest IH]; intros q; cbn [foldl]; [apply extends_refl|].
  eapply extends_trans; [apply extends_cancel|apply IH].
Qed.

Lemma trackMetrics_history now job q :
  executorCalls (Queue.trackMetrics o now job q) = executorCalls q
  /\ jobs (Queue.trackMetrics o now job q) = jobs q
  /\ running (Queue.trackMetrics o now job q) = running q.
Proof.
  unfold Queue.trackMetrics.
  destruct (elapsedMs (job_metrics job)) as [e|]; [destruct (e =? 0)|];
    repeat split.
Qed.

Lemma extends_turn now t q q' : turn x o now t q = Some q' -> extends q q'.
Proof.
  intros Ht. destruct t as [| |uuid input|jobId| |jobId outcome|jobId|jobId|];
    cbn [turn] in Ht.
  - injection Ht as <-. unfold Queue.start. destruct (running q); [apply extends_refl|].
    eapply extends_trans; [|apply extends_processQueue].
    apply extends_quiet; [reflexivity|tauto].
  - injection Ht as <-. apply extends_quiet; [reflexivity|tauto].
  - destruct (Js.truthy uuid && bool_decide (jobs q !! uuid = None)); [|discriminate].
    injection Ht as <-. unfold Queue.enqueue.
    eapply extends_trans; [|apply extends_processQueue].
    apply extends_quiet; queue_simpl; [reflexivity|]. intros j. apply is_Some_insert.
  - injection Ht as <-. apply extends_cancel.
  - injection Ht as <-. apply extends_cancelAll_from.
  - destruct (take_first (awaits_executor jobId) (suspended q)) as [[c others]|];
      [|discriminate].
    destruct c as [job ctx| | |]; try discriminate.
    destruct (x job ctx outcome); [|discriminate].
    injection Ht as <-. destruct outcome as [result|error].
    + unfold Queue.executorResolved, Queue.releaseSlot.
      eapply extends_trans; [|apply extends_processQueue].
      destruct (trackMetrics_history now (Queue.completedJob now result job)
                  (set_jobs (<[job_id job := Queue.completedJob now result job]> (jobs q))
                     (set_suspended others q))) as (T1 & T2 & _).
      apply extends_quiet; queue_simpl.
      * rewrite T1. reflexivity.
      * rewrite T2. queue_simpl. intros j. apply is_Some_insert.
    + unfold Queue.handleJobFailure.
      destruct (bool_decide (0 < retryCount o - attempt (job_metrics job)));
        apply extends_quiet; queue_simpl; try reflexivity;
        intros j; apply is_Some_insert.
  - destruct (take_first (awaits_retry_delay jobId) (suspended q)) as [[c others]|];
      [|discriminate].
    destruct c as [|job| |]; try discriminate.
    injection Ht as <-. unfold Queue.retryDelayElapsed.
    apply (extends_trans _ (Queue.processQueue o now (set_suspended others q)));
      [|apply extends_quiet; [reflexivity|tauto]].
    apply (extends_trans _ (set_suspended others q));
      [apply extends_quiet; [reflexivity|tauto]|apply extends_processQueue].
  - destruct (take_first (awaits_failure_handled jobId) (suspended q)) as [[c others]|];
      [|discriminate].
    destruct c as [| |job|]; try discriminate.
    injection Ht as <-. unfold Queue.releaseSlot.
    eapply extends_trans; [|apply extends_processQueue].
    apply extends_quiet; [reflexivity|tauto].
  - destruct (take_first awaits_throttle (suspended q)) as [[c others]|];
      [|discriminate].
    destruct c as [| | |job ctx]; try discriminate.
    injection Ht as <-. unfold Queue.throttleElapsed.
    apply extends_leaveLoop.
    eapply extends_trans; [|apply extends_processLoop].
    apply (extends_trans _ (set_lastStartTimestamp now (set_suspended others q)));
      [apply extends_quiet; [reflexivity|tauto]|apply extends_startJob].
Qed.

Lemma extends_run turns :
  forall q q', run x o turns q = Some q' -> extends q q'.
Proof.
  induction turns as [|[now t] rest IH]; intros q q' Hrun; cbn [run] in Hrun.
  - injection Hrun as <-. apply extends_refl.
  - destruct (turn x o now t q) as [q1|] eqn:Ht; [|discriminate].
    eapply extends_trans; [eapply extends_turn; exact Ht|apply IH; exact Hrun].
Qed.

Lemma callsIn_app j C more : callsIn j C <= callsIn j (C ++ more).
Proof. unfold callsIn. rewrite filter_app, length_app. lia. Qed.

End History.

(** X11. The history of a queue only grows.  Along any run that starts in a
    reachable state, the calls of the executor made so far remain the first
    calls made, no job is ever removed from the queue, and the attempt
    number of a job never decreases. *)
Theorem queue_history_only_grows x o turns q q' :
  reachable x o q ->
  run x o turns q = Some q' ->
  executorCalls q `prefix_of` executorCalls q'
  /\ (forall jobId job,
        Queue.getJob jobId q = Some job ->
        exists job',
          Queue.getJob jobId q' = Some job' /\ attemptOf job <= attemptOf job').
Proof.
  intros Hreach Hrun.
  destruct (extends_run x o turns q q' Hrun) as [[more Hmore] Hjobs].
  split; [exists more; exact Hmore|].
  intros jobId job Hjob. unfold Queue.getJob in *.
  destruct (Hjobs jobId) as [job' Hjob']; [eauto|].
  exists job'. split; [exact Hjob'|].
  pose proof (reachable_Inv x o (fun _ => True) q Hreach) as HI.
  pose proof (reachable_Inv x o (fun _ => True) q'
                (run_reachable x o turns q q' Hreach Hrun)) as HI'.
  destruct (ci_attempts _ _ _ _ _ _ _ _ HI jobId job Hjob) as [_ H1].
  destruct (ci_attempts _ _ _ _ _ _ _ _ HI' jobId job' Hjob') as [_ H2].
  rewrite <- H1, <- H2, Hmore. apply callsIn_app.
Qed.

Lemma history_grows_after_retry :
  let o := Scenario.options 2 2 in
  let q := Scenario.after anyExecutor o Scenario.firstAttemptRejected in
  let q' := Scenario.after anyExecutor o Scenario.threeAtOnce in
  executorCalls q `prefix_of` executorCalls q'
  /\ (forall jobId job,
        Queue.getJob jobId q = Some job ->
        exists job',
          Queue.getJob jobId q' = Some job' /\ attemptOf job <= attemptOf job').
Proof.
  apply (queue_history_only_grows anyExecutor (Scenario.options 2 2)
           [ (120, RetryDelayElapsed "A"); (120, FailureHandled "A");
             (130, CallEnqueue "B" (Scenario.upload "windows"));
             (140, CallEnqueue "C" (Scenario.upload "windows")) ]).
  - apply after_reachable. vm_compute. eauto.
  - vm_compute. reflexivity.
Defined.

(** ** A stopped queue *)

Section Stopped.
Variables (x : ExecutorModel) (o : JobQueueOptions).

Lemma processQueue_stopped now q :
  running q = false -> Queue.processQueue o now q = q.
Proof. intros H. unfold Queue.processQueue. rewrite H. reflexivity. Qed.

Lemma cancel_frames now jobId q :
  running (Queue.cancel now jobId q) = running q
  /\ suspended (Queue.cancel now jobId q) = suspended q
  /\ executorCalls (Queue.cancel now jobId q) = executorCalls q.
Proof.
  unfold Queue.cancel. destruct (jobs q !! jobId); [|repeat split].
  destruct (bool_decide _); repeat split.
Qed.

Lemma cancelAll_frames now ids :
  forall q,
    let q' := foldl (fun acc jobId => Queue.cancel now jobId acc) q ids in
    running q' = running q
    /\ suspended q' = suspended q
    /\ executorCalls q' = executorCalls q.
Proof.
  induction ids as [|j rest IH]; intros q; cbn zeta; cbn [foldl]; [repeat split|].
  destruct (IH (Queue.cancel now j q)) as (E1 & E2 & E3).
  destruct (cancel_frames now j q) as (F1 & F2 & F3).
  cbn zeta in E1, E2, E3. rewrite E1, E2, E3. repeat split; assumption.
Qed.

Lemma no_throttle_frame S :
  throttleFrames S = 0%nat -> take_first awaits_throttle S = None.
Proof.
  intros H. destruct (take_first awaits_throttle S) as [[c others]|] eqn:Htake;
    [|reflexivity].
  pose proof (throttleFrames_take _ _ _ _ Htake) as H1.
  apply take_first_perm in Htake as [_ Hc]. rewrite Hc in H1. lia.
Qed.

Lemma stopped_turn now t q q' :
  stopped q -> t <> CallStart -> turn x o now t q = Some q' ->
  stopped q' /\ executorCalls q' = executorCalls q.
Proof.
  intros [Hr Hf] Hstart Ht. unfold stopped.
  destruct t as [| |uuid input|jobId| |jobId outcome|jobId|jobId|];
    cbn [turn] in Ht.
  - contradiction.
  - injection Ht as <-. repeat split; assumption.
  - destruct (Js.truthy uuid && bool_decide (jobs q !! uuid = None)); [|discriminate].
    injection Ht as <-. unfold Queue.enqueue.
    rewrite processQueue_stopped by exact Hr. repeat split; assumption.
  - injection Ht as <-. destruct (cancel_frames now jobId q) as (E1 & E2 & E3).
    rewrite E1, E2, E3. repeat split; assumption.
  - injection Ht as <-. unfold Queue.cancelAll.
    destruct (cancelAll_frames now (waitingQueue q) q) as (E1 & E2 & E3).
    cbn zeta in E1, E2, E3. rewrite E1, E2, E3. repeat split; assumption.
  - destruct (take_first (awaits_executor jobId) (suspended q)) as [[c others]|] eqn:Htake;
      [|discriminate].
    destruct c as [job ctx| | |]; try discriminate.
    apply throttleFrames_take in Htake. cbn [awaits_throttle] in Htake.
    destruct (x job ctx outcome); [|discriminate].
    injection Ht as <-. destruct outcome as [result|error].
    + unfold Queue.executorResolved, Queue.releaseSlot.
      destruct (trackMetrics_slots o now (Queue.completedJob now result job)
                  (set_jobs (<[job_id job := Queue.completedJob now result job]> (jobs q))
                     (set_suspended others q))) as (_ & T2 & _).
      destruct (trackMetrics_history o now (Queue.completedJob now result job)
                  (set_jobs (<[job_id job := Queue.completedJob now result job]> (jobs q))
                     (set_suspended others q))) as (T1 & _ & T3).
      rewrite processQueue_stopped; queue_simpl.
      * rewrite T3, T2, T1. queue_simpl. repeat split; [exact Hr|lia].
      * rewrite T3. exact Hr.
    + unfold Queue.handleJobFailure.
      destruct (bool_decide (0 < retryCount o - attempt (job_metrics job)));
        queue_simpl; rewrite throttleFrames_snoc; cbn [awaits_throttle];
        repeat split; try assumption; lia.
  - destruct (take_first (awaits_retry_delay jobId) (suspended q)) as [[c others]|] eqn:Htake;
      [|discriminate].
    destruct c as [|job| |]; try discriminate.
    apply throttleFrames_take in Htake. cbn [awaits_throttle] in Htake.
    injection Ht as <-. unfold Queue.retryDelayElapsed.
    rewrite processQueue_stopped by exact Hr. queue_simpl.
    rewrite throttleFrames_snoc. cbn [awaits_throttle].
    repeat split; try assumption; lia.
  - destruct (take_first (awaits_failure_handled jobId) (suspended q)) as [[c others]|] eqn:Htake;
      [|discriminate].
    destruct c as [| |job|]; try discriminate.
    apply throttleFrames_take in Htake. cbn [awaits_throttle] in Htake.
    injection Ht as <-. unfold Queue.releaseSlot.
    rewrite processQueue_stopped by exact Hr. queue_simpl.
    repeat split; try assumption; lia.
  - rewrite (no_throttle_frame _ Hf) in Ht. discriminate.
Qed.

End Stopped.

(** X12. A stopped queue starts nothing.  When the queue is stopped and no
    scheduling pass is suspended on the throttle delay, no turn other than a
    call of [start] calls the executor, whatever is enqueued, cancelled or
    settled meanwhile; at the end the queue is still stopped. *)
Theorem stopped_queue_calls_no_executor x o turns q q' :
  stopped q ->
  Forall (fun nt => nt.2 <> CallStart) turns ->
  run x o turns q = Some q' ->
  executorCalls q' = executorCalls q /\ stopped q'.
Proof.
  revert q. induction turns as [|[now t] rest IH]; intros q Hs Hturns Hrun;
    cbn [run] in Hrun.
  - injection Hrun as <-. split; [reflexivity|exact Hs].
  - apply Forall_cons in Hturns as [Ht Hrest]. cbn [snd] in Ht.
    destruct (turn x o now t q) as [q1|] eqn:Hturn; [|discriminate].
    destruct (stopped_turn x o now t q q1 Hs Ht Hturn) as [Hs1 Hc1].
    destruct (IH q1 Hs1 Hrest Hrun) as [Hc Hs'].
    split; [rewrite Hc; exact Hc1|exact Hs'].
Qed.

Lemma stopped_with_a_free_slot :
  let o := Scenario.options 2 1 in
  let q := Queue.stop (Scenario.after anyExecutor o
                         [ (0, CallStart); (10, CallEnqueue "A" (Scenario.upload "windows")) ]) in
  let turns := [ (20, CallEnqueue "B" (Scenario.upload "windows"));
                 (1300, ExecutorSettles "A" Scenario.uploaded);
                 (1400, CallEnqueue "C" (Scenario.upload "windows")) ] in
  exists q',
    run anyExecutor o turns q = Some q'
    /\ executorCalls q' = executorCalls q /\ stopped q'.
Proof.
  cbn zeta. eexists. split; [vm_compute; reflexivity|].
  apply (stopped_queue_calls_no_executor anyExecutor (Scenario.options 2 1)
           [ (20, CallEnqueue "B" (Scenario.upload "windows"));
             (1300, ExecutorSettles "A" Scenario.uploaded);
             (1400, CallEnqueue "C" (Scenario.upload "windows")) ]
           (Queue.stop (Scenario.after anyExecutor (Scenario.options 2 1)
                          [ (0, CallStart);
                            (10, CallEnqueue "A" (Scenario.upload "windows")) ]))).
  - split; vm_compute; reflexivity.
  - repeat constructor; discriminate.
  - vm_compute. reflexivity.
Defined.

(** X13. Neither [cancel] nor [stop] holds back the job that a scheduling
    pass has taken from the waiting list and holds while it waits out the
    throttle delay.  The job is cancelled (it is not in the active set) and
    the queue is stopped; when the delay has elapsed the pass starts the job
    all the same: the executor is called for it and the job is [running]
    again, with one more attempt. *)
Theorem throttled_start_ignores_cancel_and_stop x o now now' q job ctx others :
  take_first awaits_throttle (suspended q) = Some (AwaitThrottle job ctx, others) ->
  is_Some (Queue.getJob (job_id job) q) ->
  activeJobs q !! job_id job = None ->
  let q1 := Queue.stop (Queue.cancel now (job_id job) q) in
  job_status <$> Queue.getJob (job_id job) q1 = Some Cancelled
  /\ running q1 = false
  /\ exists q',
       turn x o now' ThrottleElapsed q1 = Some q'
       /\ executorCalls q' = executorCalls q ++ [(Queue.runningJob now' job, ctx)]
       /\ Queue.getJob (job_id job) q' = Some (Queue.runningJob now' job)
       /\ job_status (Queue.runningJob now' job) = Running
       /\ attemptOf (Queue.runningJob now' job) = attemptOf job + 1.
Proof.
  intros Htake [cur Hcur] Hact q1. unfold Queue.getJob in *.
  assert (E : q1 = set_running false
                     (Queue.emit (JobCompleted (Queue.cancelledJob now cur))
                        (Queue.publishJobs
                           (set_jobs (<[job_id job := Queue.cancelledJob now cur]> (jobs q))
                              (set_waitingQueue
                                 (remove_first (job_id job) (waitingQueue q)) q))))).
  { subst q1. unfold Queue.stop, Queue.cancel. rewrite Hcur, Hact.
    rewrite bool_decide_eq_false_2 by (intros [? ?]; discriminate). reflexivity. }
  clearbody q1. subst q1. queue_simpl.
  split; [rewrite lookup_insert_eq; reflexivity|]. split; [reflexivity|].
  cbn [turn]. queue_simpl. rewrite Htake.
  eexists. split; [reflexivity|].
  unfold Queue.throttleElapsed.
  set (q2 := Queue.startJob _ _ _ _).
  assert (Hq2 : running q2 = false) by reflexivity.
  assert (Hloop : Queue.processLoop o now' (waitingQueue q2) q2 = (q2, false)).
  { destruct (waitingQueue q2) as [|j rest]; cbn [Queue.processLoop]; [reflexivity|].
    rewrite Hq2. reflexivity. }
  rewrite Hloop. unfold Queue.leaveLoop. cbn [fst snd]. subst q2. queue_simpl.
  split; [reflexivity|]. split; [apply lookup_insert_eq|].
  split; [reflexivity|]. unfold attemptOf. reflexivity.
Qed.

Lemma throttled_start_after_cancel :
  let o := mkJobQueueOptions 1 1 1000 (Some 50) in
  let q := Scenario.after anyExecutor o
             [ (0, CallStart); (10, CallEnqueue "A" (Scenario.upload "windows")) ] in
  let job := Queue.createInitialJob "A" 10 (Scenario.upload "windows") in
  let q1 := Queue.stop (Queue.cancel 20 "A" q) in
  job_status <$> Queue.getJob "A" q1 = Some Cancelled
  /\ running q1 = false
  /\ exists q',
       turn anyExecutor o 1000 ThrottleElapsed q1 = Some q'
       /\ executorCalls q'
          = executorCalls q ++ [(Queue.runningJob 1000 job, Scenario.context "windows")]
       /\ Queue.getJob "A" q' = Some (Queue.runningJob 1000 job)
       /\ job_status (Queue.runningJob 1000 job) = Running
       /\ attemptOf (Queue.runningJob 1000 job) = attemptOf job + 1.
Proof.
  exact (throttled_start_ignores_cancel_and_stop anyExecutor
           (mkJobQueueOptions 1 1 1000 (Some 50)) 20 1000
           (Scenario.after anyExecutor (mkJobQueueOptions 1 1 1000 (Some 50))
              [ (0, CallStart); (10, CallEnqueue "A" (Scenario.upload "windows")) ])
           (Queue.createInitialJob "A" 10 (Scenario.upload "windows"))
           (Scenario.context "windows") [] eq_refl
           (ex_intro _ (Queue.createInitialJob "A" 10 (Scenario.upload "windows")) eq_refl)
           eq_refl).
Defined.

(** ** The windows of the telemetry *)

Section Windows.
Variables (x : ExecutorModel) (o : JobQueueOptions).

Lemma windows_processLoop now W :
  forall q, sameWindows q (Queue.processLoop o now W q).1.
Proof.
  induction W as [|j rest IH]; intros q; cbn [Queue.processLoop].
  - split; reflexivity.
  - destruct (running q && bool_decide (Z.of_nat (size (activeJobs q)) < maxParallel o));
      [|split; reflexivity].
    destruct (negb (Js.truthy j)); [split; reflexivity|].
    queue_simpl.
    destruct (jobs q !! j) as [job|];
      [destruct (contextByJob q !! j) as [ctx|]|].
    + destruct (bool_decide (0 < throttleMs o)
                && bool_decide (now - lastStartTimestamp q < throttleMs o)).
      * split; reflexivity.
      * destruct (IH (Queue.startJob now job ctx
                        (set_lastStartTimestamp now (set_waitingQueue rest q))))
          as [E1 E2].
        split; [rewrite E1|rewrite E2]; reflexivity.
    + destruct (IH (set_waitingQueue rest q)) as [E1 E2].
      split; [rewrite E1|rewrite E2]; reflexivity.
    + destruct (IH (set_waitingQueue rest q)) as [E1 E2].
      split; [rewrite E1|rewrite E2]; reflexivity.
Qed.

Lemma windows_leaveLoop q r : sameWindows q r.1 -> sameWindows q (Queue.leaveLoop r).
Proof. unfold Queue.leaveLoop. destruct r as [q' []]; intros H; exact H. Qed.

Lemma windows_processQueue now q : sameWindows q (Queue.processQueue o now q).
Proof.
  unfold Queue.processQueue.
  destruct (negb (running q) || processing q); [split; reflexivity|].
  apply windows_leaveLoop.
  exact (windows_processLoop now (waitingQueue q) (set_processing true q)).
Qed.

Lemma windows_cancel now jobId q : sameWindows q (Queue.cancel now jobId q).
Proof.
  unfold Queue.cancel. destruct (jobs q !! jobId); [|split; reflexivity].
  destruct (bool_decide _); split; reflexivity.
Qed.

Lemma windows_cancelAll_from now ids :
  forall q, sameWindows q (foldl (fun acc jobId => Queue.cancel now jobId acc) q ids).
Proof.
  induction ids as [|j rest IH]; intros q; cbn [foldl]; [split; reflexivity|].
  destruct (IH (Queue.cancel now j q)) as [E1 E2].
  destruct (windows_cancel now j q) as [F1 F2].
  split; [rewrite E1; exact F1|rewrite E2; exact F2].
Qed.

Lemma last_tail {A} (xs : list A) (a : A) :
  (2 <= length (xs ++ [a]))%nat -> last (tail (xs ++ [a])) = Some a.
Proof.
  destruct xs as [|y ys]; cbn [app length tail]; [lia|].
  intros _. apply last_snoc.
Qed.

Lemma windowsBounded_trackMetrics now job q :
  windowsBounded o q ->
  windowsBounded o (Queue.trackMetrics o now job q)
  /\ last (completionHistory (Queue.trackMetrics o now job q)) = Some now.
Proof.
  intros (HD & HH & HZ). unfold Queue.trackMetrics.
  set (q1 := match elapsedMs (job_metrics job) with Some e => _ | None => q end).
  assert (H1 : windowsBounded o q1 /\ completionHistory q1 = completionHistory q).
  { subst q1. destruct (elapsedMs (job_metrics job)) as [e|];
      [|split; [repeat split; assumption|reflexivity]].
    destruct (Z.eqb_spec e 0) as [He|He];
      [split; [repeat split; assumption|reflexivity]|].
    split; [|reflexivity]. unfold windowsBounded. queue_simpl.
    split; [|split; [exact HH|]].
    - destruct (bool_decide_reflect
                  (Js.nullish (metricsWindowSize o) 50
                   < Z.of_nat (length (completedDurations q ++ [e])))) as [Hw|Hw].
      + rewrite length_tl, length_app. cbn [length]. lia.
      + lia.
    - assert (HF : Forall (fun d => d <> 0) (completedDurations q ++ [e])).
      { apply Forall_app. split; [exact HZ|]. constructor; [exact He|constructor]. }
      destruct (bool_decide _); [|exact HF].
      destruct (completedDurations q ++ [e]) as [|d ds]; [constructor|].
      apply Forall_cons in HF as [_ HF]. exact HF. }
  destruct H1 as [(HD1 & HH1 & HZ1) Hsame]. unfold windowsBounded. queue_simpl.
  split; [split; [exact HD1|split; [|exact HZ1]]|].
  - destruct (bool_decide_reflect
                (200 < Z.of_nat (length (completionHistory q1 ++ [now])))) as [Hw|Hw].
    + rewrite length_tl, length_app. cbn [length]. lia.
    + lia.
  - destruct (bool_decide_reflect
                (200 < Z.of_nat (length (completionHistory q1 ++ [now])))) as [Hw|Hw].
    + apply last_tail. lia.
    + apply last_snoc.
Qed.

Lemma windows_turn now t q q' :
  turn x o now t q = Some q' ->
  match t with
  | ExecutorSettles _ (Resolves _) =>
      (windowsBounded o q -> windowsBounded o q')
      /\ (windowsBounded o q -> last (completionHistory q') = Some now)
  | _ => sameWindows q q'
  end.
Proof.
  intros Ht. destruct t as [| |uuid input|jobId| |jobId outcome|jobId|jobId|];
    cbn [turn] in Ht.
  - injection Ht as <-. unfold Queue.start. destruct (running q); [split; reflexivity|].
    exact (windows_processQueue now (set_running true q)).
  - injection Ht as <-. split; reflexivity.
  - destruct (Js.truthy uuid && bool_decide (jobs q !! uuid = None)); [|discriminate].
    injection Ht as <-. unfold Queue.enqueue.
    match goal with |- sameWindows _ (Queue.processQueue _ _ ?q0) =>
      exact (windows_processQueue now q0) end.
  - injection Ht as <-. apply windows_cancel.
  - injection Ht as <-. apply windows_cancelAll_from.
  - destruct (take_first (awaits_executor jobId) (suspended q)) as [[c others]|];
      [|destruct outcome; discriminate].
    destruct c as [job ctx| | |]; try (destruct outcome; discriminate).
    destruct (x job ctx outcome); [|destruct outcome; discriminate].
    destruct outcome as [result|error]; injection Ht as <-.
    + unfold Queue.executorResolved, Queue.releaseSlot.
      set (q1 := Queue.trackMetrics o now _ _).
      match goal with |- context [Queue.processQueue o now ?q0] =>
        destruct (windows_processQueue now q0) as [E1 E2] end.
      unfold windowsBounded. rewrite E1, E2. queue_simpl.
      assert (H : windowsBounded o q ->
                  windowsBounded o q1 /\ last (completionHistory q1) = Some now).
      { intros HB. subst q1. apply windowsBounded_trackMetrics. exact HB. }
      split; intros HB; apply H in HB as [HB1 HB2]; assumption.
    + unfold Queue.handleJobFailure.
      destruct (bool_decide (0 < retryCount o - attempt (job_metrics job)));
        split; reflexivity.
  - destruct (take_first (awaits_retry_delay jobId) (suspended q)) as [[c others]|];
      [|discriminate].
    destruct c as [|job| |]; try discriminate.
    injection Ht as <-. unfold Queue.retryDelayElapsed.
    exact (windows_processQueue now (set_suspended others q)).
  - destruct (take_first (awaits_failure_handled jobId) (suspended q)) as [[c others]|];
      [|discriminate].
    destruct c as [| |job|]; try discriminate.
    injection Ht as <-. unfold Queue.releaseSlot.
    match goal with |- sameWindows _ (Queue.processQueue _ _ ?q0) =>
      exact (windows_processQueue now q0) end.
  - destruct (take_first awaits_throttle (suspended q)) as [[c others]|];
      [|discriminate].
    destruct c as [| | |job ctx]; try discriminate.
    injection Ht as <-. unfold Queue.throttleElapsed.
    apply windows_leaveLoop.
    match goal with |- sameWindows _ (Queue.processLoop _ _ _ ?q0).1 =>
      exact (windows_processLoop now (waitingQueue q0) q0) end.
Qed.

Lemma reachable_windowsBounded q : reachable x o q -> windowsBounded o q.
Proof.
  induction 1 as [|q now t q' _ IH Ht].
  - unfold windowsBounded. cbn. split; [lia|]. split; [lia|constructor].
  - pose proof (windows_turn now t q q' Ht) as H.
    destruct t as [| |uuid input|jobId| |jobId [result|error]|jobId|jobId|];
      try (destruct H as [E1 E2]; unfold windowsBounded; rewrite E1, E2; exact IH).
    destruct H as [H _]. apply H. exact IH.
Qed.

End Windows.

(** X14. In every reachable state the list of recorded durations is no
    longer than the metrics window (and empty when the window is not
    positive), it holds no zero, and the completion history has at most 200
    entries.  The telemetry therefore averages all the recorded durations,
    and its throughput is at most 200. *)
Theorem telemetry_windows_are_bounded x o now q :
  reachable x o q ->
  let t := Queue.getTelemetry o now q in
  windowsBounded o q
  /\ averageDurationMs t
     = match completedDurations q with
       | [] => 0%Q
       | _ => (inject_Z (Queue.sumZ (completedDurations q))
               / inject_Z (Z.of_nat (length (completedDurations q))))%Q
       end
  /\ 0 <= throughputPerMinute t <= 200.
Proof.
  intros Hreach. cbn zeta.
  pose proof (reachable_windowsBounded x o q Hreach) as HB.
  split; [exact HB|]. destruct HB as (HD & HH & _).
  unfold Queue.getTelemetry. cbn [averageDurationMs throughputPerMinute].
  set (w := Js.nullish (metricsWindowSize o) 50) in *.
  split.
  - assert (E : slice_from (-1 * w) (completedDurations q) = completedDurations q).
    { unfold slice_from.
      destruct (Z.ltb_spec (-1 * w) 0) as [Hneg|Hpos]; cbv iota.
      - replace (Z.to_nat _) with 0%nat by lia. reflexivity.
      - destruct (completedDurations q) as [|d ds]; [apply drop_nil|].
        cbn [length] in HD |- *. replace (Z.to_nat _) with 0%nat by lia. reflexivity. }
    rewrite E. reflexivity.
  - split; [lia|].
    pose proof (List.filter_length_le
                  (fun timestamp => bool_decide (now - timestamp <= 60000))
                  (slice_from (-1 * w) (completionHistory q))) as H1.
    assert (H2 : (length (slice_from (-1 * w) (completionHistory q))
                  <= length (completionHistory q))%nat).
    { unfold slice_from. rewrite length_drop. lia. }
    assert (H3 : length (filter (fun timestamp => now - timestamp <= 60000)
                           (slice_from (-1 * w) (completionHistory q)))
                 = length (List.filter
                             (fun timestamp => bool_decide (now - timestamp <= 60000))
                             (slice_from (-1 * w) (completionHistory q)))).
    { clear H1 H2.
      induction (slice_from (-1 * w) (completionHistory q)) as [|a l IH]; [reflexivity|].
      rewrite filter_cons. cbn [List.filter].
      destruct (decide (now - a <= 60000)) as [Ha|Ha].
      - rewrite bool_decide_eq_true_2 by exact Ha. cbn [length]. rewrite IH. reflexivity.
      - rewrite bool_decide_eq_false_2 by exact Ha. exact IH. }
    lia.
Qed.

Lemma telemetry_after_one_upload :
  let o := Scenario.options 1 1 in
  let q := Scenario.after anyExecutor o Scenario.oneSucceeded in
  let t := Queue.getTelemetry o 2000 q in
  windowsBounded o q
  /\ averageDurationMs t
     = match completedDurations q with
       | [] => 0%Q
       | _ => (inject_Z (Queue.sumZ (completedDurations q))
               / inject_Z (Z.of_nat (length (completedDurations q))))%Q
       end
  /\ 0 <= throughputPerMinute t <= 200.
Proof.
  apply (telemetry_windows_are_bounded anyExecutor (Scenario.options 1 1) 2000).
  apply after_reachable. vm_compute. eauto.
Defined.

(** X15. Only a call of the executor that resolves is measured.  The turn
    in which a call resolves records its time as the last entry of the
    completion history; no other turn (a rejection, a retry, a cancellation
    among them) changes the recorded durations or the completion history,
    so that a job that fails by a rejection is missing from the throughput
    and from the average duration. *)
Theorem only_resolved_calls_are_measured x o now t q q' :
  reachable x o q ->
  turn x o now t q = Some q' ->
  match t with
  | ExecutorSettles _ (Resolves _) => last (completionHistory q') = Some now
  | _ =>
      completedDurations q' = completedDurations q
      /\ completionHistory q' = completionHistory q
  end.
Proof.
  intros Hreach Ht.
  pose proof (reachable_windowsBounded x o q Hreach) as HB.
  pose proof (windows_turn x o now t q q' Ht) as H.
  destruct t as [| |uuid input|jobId| |jobId [result|error]|jobId|jobId|];
    try exact H.
  destruct H as [_ H]. apply H. exact HB.
Qed.

Lemma rejection_is_not_measured :
  let o := Scenario.options 1 1 in
  let q := Scenario.after anyExecutor o
             [ (0, CallStart); (10, CallEnqueue "A" (Scenario.upload "windows")) ] in
  let q' := Scenario.after anyExecutor o
              [ (0, CallStart); (10, CallEnqueue "A" (Scenario.upload "windows"));
                (20, ExecutorSettles "A" Scenario.unreachableHost) ] in
  completedDurations q' = completedDurations q
  /\ completionHistory q' = completionHistory q.
Proof.
  apply (only_resolved_calls_are_measured anyExecutor (Scenario.options 1 1) 20
           (ExecutorSettles "A" Scenario.unreachableHost)).
  - apply after_reachable. vm_compute. eauto.
  - vm_compute. reflexivity.
Defined.

(** ** No job is lost *)

Section Tracking.
Variables (x : ExecutorModel) (o : JobQueueOptions).

(** The job [k0] is replaced by [nj] while the waiting list and the frames
    change as far as [k0] is concerned. *)
Lemma track_step J W S X k0 nj W' S' :
  Track J W S X ->
  is_Some (J !! k0) -> job_id nj = k0 -> timesAgree nj ->
  (forall k, k ∈ W' -> k = k0 \/ k ∈ W) ->
  (forall k, k <> k0 -> k ∈ W -> k ∈ W') ->
  (k0 ∈ W' -> timesNone nj) ->
  (forall job ctx, AwaitThrottle job ctx ∈ S' ->
                   AwaitThrottle job ctx ∈ S \/ (timesNone job /\ job_id job = k0)) ->
  (forall job ctx, AwaitExecutor job ctx ∈ S' ->
                   AwaitExecutor job ctx ∈ S \/ job_id job = k0) ->
  (forall c k, k <> k0 -> c ∈ S -> frame_busy c = Some k -> c ∈ S') ->
  (job_status nj = Queued -> k0 ∈ W' \/ throttled k0 S') ->
  (job_status nj = Running -> executing k0 S') ->
  (executing k0 S' -> job_status nj = Running \/ job_status nj = Cancelled) ->
  Track (<[k0 := nj]> J) W' S' X.
Proof.
  intros HT [cur Hcur] Hid Htimes HW1 HW2 HW3 HS1 HS2 HS3 HQ HR HE.
  destruct (tr_keys _ _ _ _ HT k0 cur Hcur) as (_ & Htruthy & Hctx).
  constructor.
  - intros k job Hk. destruct (decide (k0 = k)) as [<-|Hne].
    + rewrite lookup_insert_eq in Hk. injection Hk as <-. repeat split; assumption.
    + rewrite lookup_insert_ne in Hk by exact Hne.
      exact (tr_keys _ _ _ _ HT k job Hk).
  - intros k job Hk. destruct (decide (k0 = k)) as [<-|Hne].
    + rewrite lookup_insert_eq in Hk. injection Hk as <-. exact Htimes.
    + rewrite lookup_insert_ne in Hk by exact Hne.
      exact (tr_times _ _ _ _ HT k job Hk).
  - intros k Hk. destruct (decide (k0 = k)) as [<-|Hne].
    + exists nj. split; [apply lookup_insert_eq|apply HW3; exact Hk].
    + rewrite lookup_insert_ne by exact Hne.
      destruct (HW1 k Hk) as [->|HkW]; [contradiction|].
      exact (tr_waiting _ _ _ _ HT k HkW).
  - intros job ctx Hin. destruct (HS1 job ctx Hin) as [Hold|[Hn Hk]].
    + destruct (tr_throttled _ _ _ _ HT job ctx Hold) as [H1 H2].
      split; [exact H1|]. destruct (decide (k0 = job_id job)) as [<-|Hne].
      * rewrite lookup_insert_eq. eauto.
      * rewrite lookup_insert_ne by exact Hne. exact H2.
    + split; [exact Hn|]. rewrite Hk, lookup_insert_eq. eauto.
  - intros job ctx Hin. destruct (decide (k0 = job_id job)) as [E|Hne].
    + rewrite <- E, lookup_insert_eq. exists nj. split; [reflexivity|].
      apply HE. exists job, ctx. split; [exact Hin|symmetry; exact E].
    + rewrite lookup_insert_ne by exact Hne.
      destruct (HS2 job ctx Hin) as [Hold|Hk]; [|congruence].
      exact (tr_executing _ _ _ _ HT job ctx Hold).
  - intros k job Hk Hst. destruct (decide (k0 = k)) as [<-|Hne].
    + rewrite lookup_insert_eq in Hk. injection Hk as <-. apply HQ. exact Hst.
    + rewrite lookup_insert_ne in Hk by exact Hne.
      destruct (tr_queued _ _ _ _ HT k job Hk Hst) as [HkW|(job' & ctx' & Hin & Hk')].
      * left. apply HW2; [congruence|exact HkW].
      * right. exists job', ctx'. split; [|exact Hk'].
        apply (HS3 _ k); [congruence|exact Hin|cbn; rewrite Hk'; reflexivity].
  - intros k job Hk Hst. destruct (decide (k0 = k)) as [<-|Hne].
    + rewrite lookup_insert_eq in Hk. injection Hk as <-. apply HR. exact Hst.
    + rewrite lookup_insert_ne in Hk by exact Hne.
      destruct (tr_running _ _ _ _ HT k job Hk Hst) as (job' & ctx' & Hin & Hk').
      exists job', ctx'. split; [|exact Hk'].
      apply (HS3 _ k); [congruence|exact Hin|cbn; rewrite Hk'; reflexivity].
Qed.

(** The frames change, those that hold or execute a job apart. *)
Lemma track_frames J W S X S' :
  Track J W S X ->
  (forall c, frame_busy c <> None -> (c ∈ S' <-> c ∈ S)) ->
  Track J W S' X.
Proof.
  intros HT HS. constructor.
  - exact (tr_keys _ _ _ _ HT).
  - exact (tr_times _ _ _ _ HT).
  - exact (tr_waiting _ _ _ _ HT).
  - intros job ctx Hin. apply (tr_throttled _ _ _ _ HT job ctx).
    apply HS; [discriminate|exact Hin].
  - intros job ctx Hin. apply (tr_executing _ _ _ _ HT job ctx).
    apply HS; [discriminate|exact Hin].
  - intros k job Hk Hst.
    destruct (tr_queued _ _ _ _ HT k job Hk Hst) as [HkW|(job' & ctx' & Hin & Hk')];
      [left; exact HkW|right].
    exists job', ctx'. split; [|exact Hk']. apply HS; [discriminate|exact Hin].
  - intros k job Hk Hst.
    destruct (tr_running _ _ _ _ HT k job Hk Hst) as (job' & ctx' & Hin & Hk').
    exists job', ctx'. split; [|exact Hk']. apply HS; [discriminate|exact Hin].
Qed.

Lemma track_new : Track ∅ [] [] ∅.
Proof.
  constructor.
  - intros k job H. rewrite lookup_empty in H. discriminate.
  - intros k job H. rewrite lookup_empty in H. discriminate.
  - intros k H. inversion H.
  - intros job ctx H. inversion H.
  - intros job ctx H. inversion H.
  - intros k job H. rewrite lookup_empty in H. discriminate.
  - intros k job H. rewrite lookup_empty in H. discriminate.
Qed.

Lemma track_insert_fresh J W S X uuid nj ctx :
  Track J W S X ->
  J !! uuid = None -> Js.truthy uuid = true -> job_id nj = uuid ->
  job_status nj = Queued -> startedAt (job_metrics nj) = None -> timesNone nj ->
  Track (<[uuid := nj]> J) (W ++ [uuid]) S (<[uuid := ctx]> X).
Proof.
  intros HT Hfresh Htruthy Hid Hst Hstart Hnone. constructor.
  - intros k job Hk. destruct (decide (uuid = k)) as [<-|Hne].
    + rewrite lookup_insert_eq in Hk. injection Hk as <-.
      rewrite lookup_insert_eq. repeat split; eauto.
    + rewrite lookup_insert_ne in Hk by exact Hne.
      rewrite lookup_insert_ne by exact Hne.
      exact (tr_keys _ _ _ _ HT k job Hk).
  - intros k job Hk. destruct (decide (uuid = k)) as [<-|Hne].
    + rewrite lookup_insert_eq in Hk. injection Hk as <-.
      unfold timesAgree. rewrite Hst. split; assumption.
    + rewrite lookup_insert_ne in Hk by exact Hne.
      exact (tr_times _ _ _ _ HT k job Hk).
  - intros k Hk. destruct (decide (uuid = k)) as [<-|Hne].
    + exists nj. split; [apply lookup_insert_eq|exact Hnone].
    + rewrite lookup_insert_ne by exact Hne.
      apply elem_of_app in Hk as [Hk|Hk].
      * exact (tr_waiting _ _ _ _ HT k Hk).
      * apply list_elem_of_singleton in Hk. congruence.
  - intros job c Hin. destruct (tr_throttled _ _ _ _ HT job c Hin) as [H1 H2].
    split; [exact H1|]. destruct (decide (uuid = job_id job)) as [<-|Hne].
    + rewrite lookup_insert_eq. eauto.
    + rewrite lookup_insert_ne by exact Hne. exact H2.
  - intros job c Hin.
    destruct (tr_executing _ _ _ _ HT job c Hin) as (cur & H2 & H3).
    destruct (decide (uuid = job_id job)) as [E|Hne]; [congruence|].
    rewrite lookup_insert_ne by exact Hne. eauto.
  - intros k job Hk Hq. destruct (decide (uuid = k)) as [<-|Hne].
    + left. apply elem_of_app. right. apply list_elem_of_singleton. reflexivity.
    + rewrite lookup_insert_ne in Hk by exact Hne.
      destruct (tr_queued _ _ _ _ HT k job Hk Hq) as [HkW|H]; [left|right; exact H].
      apply elem_of_app. left. exact HkW.
  - intros k job Hk Hr. destruct (decide (uuid = k)) as [<-|Hne].
    + rewrite lookup_insert_eq in Hk. injection Hk as <-. congruence.
    + rewrite lookup_insert_ne in Hk by exact Hne.
      exact (tr_running _ _ _ _ HT k job Hk Hr).
Qed.

Lemma timesAgree_runningJob now job :
  timesNone job -> timesAgree (Queue.runningJob now job).
Proof. intros H. split; [cbn; eauto|exact H]. Qed.

(** The scheduling pass takes job [j] from the head of the waiting list and
    starts it. *)
Lemma track_begin J j rest S X now job ctx :
  Track J (j :: rest) S X ->
  J !! j = Some job ->
  Track (<[job_id job := Queue.runningJob now job]> J) rest
    (S ++ [AwaitExecutor (Queue.runningJob now job) ctx]) X.
Proof.
  intros HT Hjob.
  destruct (tr_keys _ _ _ _ HT j job Hjob) as (Hid & _).
  destruct (tr_waiting _ _ _ _ HT j) as (job' & Hjob' & Hnone); [left|].
  rewrite Hjob in Hjob'. injection Hjob' as <-.
  rewrite Hid. apply (track_step J (j :: rest) S X).
  - exact HT.
  - eauto.
  - exact Hid.
  - apply timesAgree_runningJob. exact Hnone.
  - intros k Hk. right. right. exact Hk.
  - intros k Hne Hk. apply elem_of_cons in Hk as [->|Hk]; [contradiction|exact Hk].
  - intros _. exact Hnone.
  - intros job' ctx' Hin. apply elem_of_app in Hin as [Hin|Hin]; [left; exact Hin|].
    apply list_elem_of_singleton in Hin. discriminate.
  - intros job' ctx' Hin. apply elem_of_app in Hin as [Hin|Hin]; [left; exact Hin|].
    apply list_elem_of_singleton in Hin. injection Hin as -> _. right. exact Hid.
  - intros c k _ Hc _. apply elem_of_app. left. exact Hc.
  - discriminate.
  - intros _. exists (Queue.runningJob now job), ctx. split; [|exact Hid].
    apply elem_of_app. right. apply list_elem_of_singleton. reflexivity.
  - intros _. left. reflexivity.
Qed.

(** The scheduling pass takes job [j] from the head of the waiting list and
    holds it while it waits out the throttle delay. *)
Lemma track_hold J j rest S X job ctx :
  Track J (j :: rest) S X ->
  J !! j = Some job ->
  Track J rest (S ++ [AwaitThrottle job ctx]) X.
Proof.
  intros HT Hjob.
  destruct (tr_keys _ _ _ _ HT j job Hjob) as (Hid & _).
  destruct (tr_waiting _ _ _ _ HT j) as (job' & Hjob' & Hnone); [left|].
  rewrite Hjob in Hjob'. injection Hjob' as <-.
  rewrite <- (insert_id J j job Hjob). apply (track_step J (j :: rest) S X).
  - exact HT.
  - eauto.
  - exact Hid.
  - exact (tr_times _ _ _ _ HT j job Hjob).
  - intros k Hk. right. right. exact Hk.
  - intros k Hne Hk. apply elem_of_cons in Hk as [->|Hk]; [contradiction|exact Hk].
  - intros _. exact Hnone.
  - intros job' ctx' Hin. apply elem_of_app in Hin as [Hin|Hin]; [left; exact Hin|].
    apply list_elem_of_singleton in Hin. injection Hin as -> _. right.
    split; [exact Hnone|exact Hid].
  - intros job' ctx' Hin. apply elem_of_app in Hin as [Hin|Hin]; [left; exact Hin|].
    apply list_elem_of_singleton in Hin. discriminate.
  - intros c k _ Hc _. apply elem_of_app. left. exact Hc.
  - intros _. right. exists job, ctx. split; [|exact Hid].
    apply elem_of_app. right. apply list_elem_of_singleton. reflexivity.
  - intros Hr. destruct (tr_running _ _ _ _ HT j job Hjob Hr) as (job' & ctx' & Hin & Hk).
    exists job', ctx'. split; [|exact Hk]. apply elem_of_app. left. exact Hin.
  - intros (job' & ctx' & Hin & Hk). apply elem_of_app in Hin as [Hin|Hin].
    + destruct (tr_executing _ _ _ _ HT job' ctx' Hin) as (cur & H1 & H2).
      rewrite Hk, Hjob in H1. injection H1 as <-. exact H2.
    + apply list_elem_of_singleton in Hin. discriminate.
Qed.

Lemma TrackInv_processLoop now W :
  forall q, waitingQueue q = W -> TrackInv q -> TrackInv (Queue.processLoop o now W q).1.
Proof.
  induction W as [|j rest IH]; intros q HW HT; cbn [Queue.processLoop].
  - exact HT.
  - destruct (running q && bool_decide (Z.of_nat (size (activeJobs q)) < maxParallel o));
      [|exact HT].
    unfold TrackInv in HT. rewrite HW in HT.
    destruct (tr_waiting _ _ _ _ HT j) as (job & Hjob & Hnone); [left|].
    destruct (tr_keys _ _ _ _ HT j job Hjob) as (Hid & Htruthy & [ctx Hctx]).
    rewrite Htruthy. cbn [negb]. queue_simpl. rewrite Hjob, Hctx.
    destruct (bool_decide (0 < throttleMs o)
              && bool_decide (now - lastStartTimestamp q < throttleMs o)).
    + unfold TrackInv. queue_simpl. apply (track_hold _ j); assumption.
    + apply IH; [reflexivity|]. unfold TrackInv. queue_simpl.
      apply (track_begin _ j); assumption.
Qed.

Lemma TrackInv_leaveLoop r : TrackInv r.1 -> TrackInv (Queue.leaveLoop r).
Proof. unfold Queue.leaveLoop. destruct r as [q []]; intros H; exact H. Qed.

Lemma TrackInv_processQueue now q : TrackInv q -> TrackInv (Queue.processQueue o now q).
Proof.
  intros HT. unfold Queue.processQueue.
  destruct (negb (running q) || processing q); [exact HT|].
  apply TrackInv_leaveLoop, TrackInv_processLoop; [reflexivity|exact HT].
Qed.


Lemma TrackInv_cancel E now jobId q :
  Inv x o E q -> TrackInv q -> TrackInv (Queue.cancel now jobId q).
Proof.
  intros HI HT. unfold Queue.cancel.
  destruct (jobs q !! jobId) as [job|] eqn:Hjob; [|exact HT].
  destruct (bool_decide (is_Some (activeJobs q !! jobId))); [exact HT|].
  unfold TrackInv in *. queue_simpl.
  assert (HW : NoDup (waitingQueue q)).
  { pose proof (ci_busy _ _ _ _ _ _ _ _ HI) as B. unfold busy in B.
    apply NoDup_app in B as [B _]. exact B. }
  destruct (tr_keys _ _ _ _ HT jobId job Hjob) as (Hid & _).
  apply (track_step _ (waitingQueue q) (suspended q)).
  - exact HT.
  - eauto.
  - exact Hid.
  - split; cbn; eauto.
  - intros k Hk. right. apply (remove_first_elem jobId k _ HW) in Hk. tauto.
  - intros k Hne Hk. apply (remove_first_elem jobId k _ HW). tauto.
  - intros Hk. apply (remove_first_elem jobId jobId _ HW) in Hk. tauto.
  - intros job' ctx' Hin. left. exact Hin.
  - intros job' ctx' Hin. left. exact Hin.
  - intros c k _ Hc _. exact Hc.
  - discriminate.
  - discriminate.
  - intros _. right. reflexivity.
Qed.

Lemma TrackInv_cancelAll_from E now ids :
  forall q, Inv x o E q -> TrackInv q ->
    TrackInv (foldl (fun acc jobId => Queue.cancel now jobId acc) q ids).
Proof.
  induction ids as [|jobId rest IH]; intros q HI HT; cbn [foldl]; [exact HT|].
  apply IH; [apply Inv_cancel; exact HI|apply (TrackInv_cancel E); assumption].
Qed.

Lemma TrackInv_trackMetrics now job q :
  TrackInv q -> TrackInv (Queue.trackMetrics o now job q).
Proof.
  intros HT. unfold Queue.trackMetrics.
  destruct (elapsedMs (job_metrics job)) as [e|]; [destruct (e =? 0)|]; exact HT.
Qed.

Lemma TrackInv_releaseSlot now job q :
  TrackInv q -> TrackInv (Queue.releaseSlot o now job q).
Proof. intros HT. unfold Queue.releaseSlot. apply TrackInv_processQueue. exact HT. Qed.

(** The frame [c] has been resumed: it is no longer suspended. *)
Lemma taken_frame {A} (S others : list A) (c c' : A) :
  S ≡ₚ c :: others -> c' ∈ S -> c' <> c -> c' ∈ others.
Proof.
  intros HP Hin Hne. rewrite HP in Hin.
  apply elem_of_cons in Hin as [->|Hin]; [contradiction|exact Hin].
Qed.

(** No other call of the executor is in flight for the job of a frame. *)
Lemma no_other_frame E J W S C X job ctx others :
  CoreInv x o E J W S C X ->
  S ≡ₚ AwaitExecutor job ctx :: others ->
  ~ executing (job_id job) others.
Proof.
  intros HI HP (job' & ctx' & Hin & Hk).
  pose proof (ci_busy _ _ _ _ _ _ _ _ HI) as B. unfold busy in B.
  apply NoDup_app in B as (_ & _ & B). rewrite HP in B.
  cbn [omap list_omap frame_busy] in B. apply NoDup_cons in B as [B _].
  apply B. apply list_elem_of_omap. exists (AwaitExecutor job' ctx').
  split; [exact Hin|]. cbn. rewrite Hk. reflexivity.
Qed.

(** The call of the executor for [job] has resolved: the job is settled
    and its frame is gone. *)
Lemma TrackInv_resolved E now job ctx result others q :
  Inv x o E q -> TrackInv q ->
  suspended q ≡ₚ AwaitExecutor job ctx :: others ->
  TrackInv (set_jobs (<[job_id job := Queue.completedJob now result job]> (jobs q))
              (set_suspended others q)).
Proof.
  intros HI HT HP.
  assert (Hin : AwaitExecutor job ctx ∈ suspended q) by (rewrite HP; left).
  assert (HnW : job_id job ∉ waitingQueue q).
  { intros Hw.
    apply (frame_not_waiting x o E _ _ _ _ _ (AwaitExecutor job ctx) (job_id job) HI);
      [exact Hin|reflexivity|exact Hw]. }
  destruct (tr_executing _ _ _ _ HT job ctx Hin) as (cur & Hcur & _).
  unfold TrackInv in *. queue_simpl.
  apply (track_step _ (waitingQueue q) (suspended q)); try assumption.
  - eauto.
  - reflexivity.
  - unfold timesAgree. cbn. destruct (result_status result); split; eauto.
  - tauto.
  - tauto.
  - intros HW. contradiction.
  - intros job' ctx' H. left. rewrite HP. right. exact H.
  - intros job' ctx' H. left. rewrite HP. right. exact H.
  - intros c k Hne Hc Hb. apply (taken_frame _ _ _ _ HP Hc).
    intros ->. cbn in Hb. congruence.
  - cbn. destruct (result_status result); discriminate.
  - cbn. destruct (result_status result); discriminate.
  - intros H. exfalso. exact (no_other_frame E _ _ _ _ _ job ctx others HI HP H).
Qed.

Lemma TrackInv_turn E now t q q' :
  Inv x o E q -> TrackInv q -> turn x o now t q = Some q' -> TrackInv q'.
Proof.
  intros HI HT Ht. destruct t as [| |uuid input|jobId| |jobId outcome|jobId|jobId|];
    cbn [turn] in Ht.
  - injection Ht as <-. unfold Queue.start. destruct (running q); [exact HT|].
    apply TrackInv_processQueue. exact HT.
  - injection Ht as <-. exact HT.
  - destruct (Js.truthy uuid) eqn:Htruthy; [|discriminate].
    destruct (bool_decide (jobs q !! uuid = None)) eqn:Hfresh; [|discriminate].
    apply bool_decide_eq_true in Hfresh.
    injection Ht as <-. unfold Queue.enqueue. apply TrackInv_processQueue.
    unfold TrackInv in *. queue_simpl.
    apply track_insert_fresh; try assumption; try reflexivity. split; reflexivity.
  - injection Ht as <-. apply (TrackInv_cancel E); assumption.
  - injection Ht as <-. apply (TrackInv_cancelAll_from E); assumption.
  - destruct (take_first (awaits_executor jobId) (suspended q)) as [[c others]|] eqn:Htake;
      [|discriminate].
    destruct c as [job ctx| | |]; try discriminate.
    apply take_first_perm in Htake as [HP _].
    destruct (x job ctx outcome) eqn:Hx; [|discriminate].
    assert (Hin : AwaitExecutor job ctx ∈ suspended q)
      by (rewrite HP; left).
    assert (HnW : job_id job ∉ waitingQueue q).
    { intros Hw.
      apply (frame_not_waiting x o E _ _ _ _ _ (AwaitExecutor job ctx) (job_id job) HI);
        [exact Hin|reflexivity|exact Hw]. }
    assert (Hknown : is_Some (jobs q !! job_id job)).
    { destruct (tr_executing _ _ _ _ HT job ctx Hin) as (cur & Hcur & _). eauto. }
    pose proof (no_other_frame E _ _ _ _ _ job ctx others HI HP) as Hsingle.
    assert (Hsingle' : forall c,
               ~ executing (job_id job) (others ++ [c]) \/ awaits_executor (job_id job) c = true).
    { intros c. destruct (awaits_executor (job_id job) c) eqn:Hc; [right; reflexivity|left].
      intros (job' & ctx' & Hin' & Hk). apply elem_of_app in Hin' as [Hin'|Hin'].
      - apply Hsingle. exists job', ctx'. split; assumption.
      - apply list_elem_of_singleton in Hin'. subst c. cbn in Hc.
        rewrite Hk, String.eqb_refl in Hc. discriminate. }
    assert (Hothers : forall c k, k <> job_id job -> c ∈ suspended q ->
                                  frame_busy c = Some k -> c ∈ others).
    { intros c k Hne Hc Hb. apply (taken_frame _ _ _ _ HP Hc).
      intros ->. cbn in Hb. congruence. }
    injection Ht as <-. destruct outcome as [result|error].
    + unfold Queue.executorResolved. apply TrackInv_releaseSlot.
      unfold TrackInv. queue_simpl.
      match goal with |- Track (jobs (Queue.trackMetrics o now ?j ?q0)) _ _ _ =>
        pose proof (TrackInv_trackMetrics now j q0) as Hm end.
      apply Hm. exact (TrackInv_resolved E now job ctx result others q HI HT HP).
    + unfold Queue.handleJobFailure.
      destruct (bool_decide (0 < retryCount o - attempt (job_metrics job))).
      * unfold TrackInv. queue_simpl.
        apply (track_step _ (waitingQueue q) (suspended q)); try assumption.
        -- reflexivity.
        -- split; [reflexivity|split; reflexivity].
        -- intros k Hk. apply elem_of_app in Hk as [Hk|Hk]; [right; exact Hk|left].
           apply list_elem_of_singleton in Hk. exact Hk.
        -- intros k _ Hk. apply elem_of_app. left. exact Hk.
        -- intros _. split; reflexivity.
        -- intros job' ctx' H. left. apply elem_of_app in H as [H|H].
           ++ rewrite HP. right. exact H.
           ++ apply list_elem_of_singleton in H. discriminate.
        -- intros job' ctx' H. left. apply elem_of_app in H as [H|H].
           ++ rewrite HP. right. exact H.
           ++ apply list_elem_of_singleton in H. discriminate.
        -- intros c k Hne Hc Hb. apply elem_of_app. left.
           apply (Hothers c k); assumption.
        -- intros _. left. apply elem_of_app. right.
           apply list_elem_of_singleton. reflexivity.
        -- discriminate.
        -- intros H. exfalso.
           destruct (Hsingle' (AwaitRetryDelay job)) as [Hs|Hs]; [exact (Hs H)|discriminate].
      * unfold TrackInv. queue_simpl.
        apply (track_step _ (waitingQueue q) (suspended q)); try assumption.
        -- reflexivity.
        -- split; cbn; eauto.
        -- tauto.
        -- tauto.
        -- intros HW. contradiction.
        -- intros job' ctx' H. left. apply elem_of_app in H as [H|H].
           ++ rewrite HP. right. exact H.
           ++ apply list_elem_of_singleton in H. discriminate.
        -- intros job' ctx' H. left. apply elem_of_app in H as [H|H].
           ++ rewrite HP. right. exact H.
           ++ apply list_elem_of_singleton in H. discriminate.
        -- intros c k Hne Hc Hb. apply elem_of_app. left.
           apply (Hothers c k); assumption.
        -- discriminate.
        -- discriminate.
        -- intros H. exfalso.
           destruct (Hsingle' (AwaitFailureHandled job)) as [Hs|Hs];
             [exact (Hs H)|discriminate].
  - destruct (take_first (awaits_retry_delay jobId) (suspended q)) as [[c others]|] eqn:Htake;
      [|discriminate].
    destruct c as [|job| |]; try discriminate.
    apply take_first_perm in Htake as [HP _].
    injection Ht as <-. unfold Queue.retryDelayElapsed.
    assert (H1 : TrackInv (Queue.processQueue o now (set_suspended others q))).
    { apply TrackInv_processQueue. unfold TrackInv in *. queue_simpl.
      apply (track_frames _ _ (suspended q)); [exact HT|].
      intros c Hb. rewrite HP, elem_of_cons. split; [tauto|].
      intros [->|H]; [cbn in Hb; contradiction|exact H]. }
    unfold TrackInv in *. queue_simpl.
    apply (track_frames _ _ _ _ _ H1).
    intros c Hb. rewrite elem_of_app, list_elem_of_singleton. split; [|tauto].
    intros [H| ->]; [exact H|cbn in Hb; contradiction].
  - destruct (take_first (awaits_failure_handled jobId) (suspended q)) as [[c others]|] eqn:Htake;
      [|discriminate].
    destruct c as [| |job|]; try discriminate.
    apply take_first_perm in Htake as [HP _].
    injection Ht as <-. apply TrackInv_releaseSlot.
    unfold TrackInv in *. queue_simpl.
    apply (track_frames _ _ (suspended q)); [exact HT|].
    intros c Hb. rewrite HP, elem_of_cons. split; [tauto|].
    intros [->|H]; [cbn in Hb; contradiction|exact H].
  - destruct (take_first awaits_throttle (suspended q)) as [[c others]|] eqn:Htake;
      [|discriminate].
    destruct c as [| | |job ctx]; try discriminate.
    apply take_first_perm in Htake as [HP _].
    injection Ht as <-. unfold Queue.throttleElapsed.
    apply TrackInv_leaveLoop, TrackInv_processLoop; [reflexivity|].
    assert (Hin : AwaitThrottle job ctx ∈ suspended q) by (rewrite HP; left).
    destruct (tr_throttled _ _ _ _ HT job ctx Hin) as [Hnone Hknown].
    unfold TrackInv in *. queue_simpl.
    apply (track_step _ (waitingQueue q) (suspended q)); try assumption.
    + reflexivity.
    + apply timesAgree_runningJob. exact Hnone.
    + tauto.
    + tauto.
    + intros _. exact Hnone.
    + intros job' ctx' H. left. apply elem_of_app in H as [H|H].
      * rewrite HP. right. exact H.
      * apply list_elem_of_singleton in H. discriminate.
    + intros job' ctx' H. apply elem_of_app in H as [H|H].
      * left. rewrite HP. right. exact H.
      * apply list_elem_of_singleton in H. injection H as -> _. right. reflexivity.
    + intros c k Hne Hc Hb. apply elem_of_app. left.
      apply (taken_frame _ _ _ _ HP Hc). intros ->. cbn in Hb. congruence.
    + discriminate.
    + intros _. exists (Queue.runningJob now job), ctx. split; [|reflexivity].
      apply elem_of_app. right. apply list_elem_of_singleton. reflexivity.
    + intros _. left. reflexivity.
Qed.

Lemma reachable_TrackInv q : reachable x o q -> TrackInv q.
Proof.
  induction 1 as [|q now t q' Hq IH Ht]; [apply track_new|].
  apply (TrackInv_turn (fun _ => True) now t q q'); [|exact IH|exact Ht].
  apply reachable_Inv. exact Hq.
Qed.

End Tracking.

(** X16. In every reachable state the times of a job agree with its
    status: the job has a completion time and a duration exactly when it has
    succeeded, has failed or was cancelled; a running job has a start time
    and a queued job has none.  No job ever has the status [skipped]. *)
Theorem job_times_agree_with_status x o q jobId job :
  reachable x o q ->
  Queue.getJob jobId q = Some job ->
  job_status job <> Skipped
  /\ (is_Some (completedAt (job_metrics job))
      <-> job_status job ∈ [Succeeded; Failed; Cancelled])
  /\ (is_Some (elapsedMs (job_metrics job))
      <-> job_status job ∈ [Succeeded; Failed; Cancelled])
  /\ (job_status job = Running -> is_Some (startedAt (job_metrics job)))
  /\ (job_status job = Queued -> startedAt (job_metrics job) = None).
Proof.
  intros Hreach Hjob.
  pose proof (tr_times _ _ _ _ (reachable_TrackInv x o q Hreach) jobId job Hjob) as H.
  unfold timesAgree, timesNone in H. rewrite !elem_of_cons, elem_of_nil.
  destruct (job_status job); try contradiction;
    repeat match goal with H : _ /\ _ |- _ => destruct H end;
    (split; [discriminate|]);
    (split; [split; [intros [? ?]; try congruence; tauto
                    |intros ?; try assumption;
                     repeat match goal with H : _ \/ _ |- _ => destruct H end;
                     try discriminate; try contradiction]|]);
    (split; [split; [intros [? ?]; try congruence; tauto
                    |intros ?; try assumption;
                     repeat match goal with H : _ \/ _ |- _ => destruct H end;
                     try discriminate; try contradiction]|]);
    (split; [intros ?; try assumption; discriminate
            |intros ?; try assumption; discriminate]).
Qed.

Lemma job_times_after_retry :
  let o := Scenario.options 1 2 in
  let q := Scenario.after anyExecutor o Scenario.retryBehindAnotherJob in
  exists job,
    Queue.getJob "A" q = Some job
    /\ job_status job <> Skipped
    /\ (is_Some (completedAt (job_metrics job))
        <-> job_status job ∈ [Succeeded; Failed; Cancelled])
    /\ (is_Some (elapsedMs (job_metrics job))
        <-> job_status job ∈ [Succeeded; Failed; Cancelled])
    /\ (job_status job = Running -> is_Some (startedAt (job_metrics job)))
    /\ (job_status job = Queued -> startedAt (job_metrics job) = None).
Proof.
  cbn zeta. eexists. split; [vm_compute; reflexivity|].
  apply (job_times_agree_with_status anyExecutor (Scenario.options 1 2)
           (Scenario.after anyExecutor (Scenario.options 1 2)
              Scenario.retryBehindAnotherJob) "A").
  - apply after_reachable. vm_compute. eauto.
  - vm_compute. reflexivity.
Defined.

(** X17. The queue loses no job.  In every reachable state a queued job is
    in the waiting list or held by the scheduling pass that waits out the
    throttle delay, and a running job has a call of the executor in flight;
    conversely the job of a call in flight is running, unless it was
    cancelled meanwhile.  Hence, once the waiting list is empty and no frame
    is suspended, every job has succeeded, has failed or was cancelled. *)
Theorem no_job_is_lost x o q :
  reachable x o q ->
  (forall jobId job,
      Queue.getJob jobId q = Some job -> job_status job = Queued ->
      jobId ∈ waitingQueue q \/ throttled jobId (suspended q))
  /\ (forall jobId job,
        Queue.getJob jobId q = Some job -> job_status job = Running ->
        executing jobId (suspended q))
  /\ (forall jobId,
        executing jobId (suspended q) ->
        exists job,
          Queue.getJob jobId q = Some job
          /\ (job_status job = Running \/ job_status job = Cancelled))
  /\ (waitingQueue q = [] -> suspended q = [] ->
      forall jobId job,
        Queue.getJob jobId q = Some job ->
        job_status job ∈ [Succeeded; Failed; Cancelled]).
Proof.
  intros Hreach. pose proof (reachable_TrackInv x o q Hreach) as HT.
  unfold TrackInv in HT. unfold Queue.getJob.
  split; [exact (tr_queued _ _ _ _ HT)|]. split; [exact (tr_running _ _ _ _ HT)|].
  split.
  { intros jobId (job & ctx & Hin & <-). exact (tr_executing _ _ _ _ HT job ctx Hin). }
  intros HW HS jobId job Hjob.
  pose proof (tr_times _ _ _ _ HT jobId job Hjob) as Htimes.
  pose proof (tr_queued _ _ _ _ HT jobId job Hjob) as HQ.
  pose proof (tr_running _ _ _ _ HT jobId job Hjob) as HR.
  rewrite HW, HS in *. unfold timesAgree in Htimes.
  rewrite !elem_of_cons, elem_of_nil.
  destruct (job_status job); try tauto.
  - destruct (HQ eq_refl) as [H|(j & c & H & _)]; inversion H.
  - destruct (HR eq_refl) as (j & c & H & _). inversion H.
Qed.

Lemma no_job_lost_behind_another_job :
  let q := Scenario.after anyExecutor (Scenario.options 1 2) Scenario.retryBehindAnotherJob in
  (forall jobId job,
      Queue.getJob jobId q = Some job -> job_status job = Queued ->
      jobId ∈ waitingQueue q \/ throttled jobId (suspended q))
  /\ (forall jobId job,
        Queue.getJob jobId q = Some job -> job_status job = Running ->
        executing jobId (suspended q))
  /\ (forall jobId,
        executing jobId (suspended q) ->
        exists job,
          Queue.getJob jobId q = Some job
          /\ (job_status job = Running \/ job_status job = Cancelled))
  /\ (waitingQueue q = [] -> suspended q = [] ->
      forall jobId job,
        Queue.getJob jobId q = Some job ->
        job_status job ∈ [Succeeded; Failed; Cancelled]).
Proof.
  apply (no_job_is_lost anyExecutor (Scenario.options 1 2)).
  apply after_reachable. vm_compute. eauto.
Defined.

(** ** What a scheduling pass leaves alone *)

Section Untouched.
Variables (x : ExecutorModel) (o : JobQueueOptions).

(** A scheduling pass changes no job outside the waiting list and adds no
    identifier to the job table. *)
Lemma processLoop_jobs now W :
  forall q,
    waitingQueue q = W -> TrackInv q ->
    let q' := (Queue.processLoop o now W q).1 in
    dom (jobs q') = dom (jobs q)
    /\ (forall k, k ∉ W -> jobs q' !! k = jobs q !! k)
    /\ (forall k, k ∈ waitingQueue q' -> k ∈ W).
Proof.
  induction W as [|j rest IH]; intros q HW HT; cbn zeta; cbn [Queue.processLoop].
  - repeat split. intros k H. rewrite <- HW. exact H.
  - destruct (running q && bool_decide (Z.of_nat (size (activeJobs q)) < maxParallel o));
      [|repeat split; intros k H; rewrite <- HW; exact H].
    unfold TrackInv in HT. rewrite HW in HT.
    destruct (tr_waiting _ _ _ _ HT j) as (job & Hjob & Hnone); [left|].
    destruct (tr_keys _ _ _ _ HT j job Hjob) as (Hid & Htruthy & [ctx Hctx]).
    rewrite Htruthy. cbn [negb]. queue_simpl. rewrite Hjob, Hctx.
    destruct (bool_decide (0 < throttleMs o)
              && bool_decide (now - lastStartTimestamp q < throttleMs o)).
    + queue_simpl. repeat split. intros k H. right. exact H.
    + set (q1 := Queue.startJob now job ctx
                   (set_lastStartTimestamp now (set_waitingQueue rest q))).
      destruct (IH q1) as (E1 & E2 & E3).
      * reflexivity.
      * unfold TrackInv. subst q1. queue_simpl. apply (track_begin _ j); assumption.
      * cbn zeta in E1, E2, E3. split; [|split].
        -- rewrite E1. subst q1. queue_simpl. rewrite dom_insert_L, Hid.
           apply subseteq_union_1_L, singleton_subseteq_l, elem_of_dom. eauto.
        -- intros k Hk. apply not_elem_of_cons in Hk as [Hne Hk].
           rewrite (E2 k Hk). subst q1. queue_simpl.
           apply lookup_insert_ne. congruence.
        -- intros k Hk. right. apply E3. exact Hk.
Qed.

Lemma processQueue_jobs now q :
  TrackInv q ->
  let q' := Queue.processQueue o now q in
  dom (jobs q') = dom (jobs q)
  /\ (forall k, k ∉ waitingQueue q -> jobs q' !! k = jobs q !! k)
  /\ (forall k, k ∈ waitingQueue q' -> k ∈ waitingQueue q).
Proof.
  intros HT. cbn zeta. unfold Queue.processQueue.
  destruct (negb (running q) || processing q);
    [repeat split; intros k H; exact H|].
  destruct (processLoop_jobs now (waitingQueue q) (set_processing true q) eq_refl HT)
    as (E1 & E2 & E3).
  cbn zeta in E1, E2, E3. unfold Queue.leaveLoop.
  destruct (Queue.processLoop o now (waitingQueue q) (set_processing true q)) as [q' []];
    cbn [fst snd] in *; queue_simpl; repeat split; assumption.
Qed.

(** What a call of [enqueue] does to the job table: the new job is added,
    and the jobs that were not waiting are as they were. *)
Lemma enqueue_jobs now uuid input q q' :
  reachable x o q ->
  turn x o now (CallEnqueue uuid input) q = Some q' ->
  q' = Queue.enqueue o now uuid input q
  /\ jobs q !! uuid = None
  /\ dom (jobs q') = {[uuid]} ∪ dom (jobs q)
  /\ (forall k job, jobs q !! k = Some job -> k ∉ waitingQueue q ->
                    jobs q' !! k = Some job)
  /\ (forall k, k ∈ waitingQueue q' -> k = uuid \/ k ∈ waitingQueue q).
Proof.
  intros Hreach Ht. cbn [turn] in Ht.
  destruct (Js.truthy uuid) eqn:Htruthy; [|discriminate].
  destruct (bool_decide (jobs q !! uuid = None)) eqn:Hfresh; [|discriminate].
  apply bool_decide_eq_true in Hfresh. injection Ht as <-.
  split; [reflexivity|]. split; [exact Hfresh|].
  unfold Queue.enqueue. set (q1 := Queue.emit _ _).
  assert (HT1 : TrackInv q1).
  { pose proof (reachable_TrackInv x o q Hreach) as HT. unfold TrackInv in *.
    subst q1. queue_simpl.
    apply track_insert_fresh; try assumption; try reflexivity. split; reflexivity. }
  destruct (processQueue_jobs now q1 HT1) as (E1 & E2 & E3). cbn zeta in E1, E2, E3.
  assert (Hnw : uuid ∉ waitingQueue q).
  { intros Hw.
    destruct (tr_waiting _ _ _ _ (reachable_TrackInv x o q Hreach) uuid Hw)
      as (job & Hjob & _). congruence. }
  split; [|split].
  - rewrite E1. subst q1. queue_simpl. apply dom_insert_L.
  - intros k job Hk Hw.
    assert (Hne : uuid <> k) by congruence.
    rewrite E2.
    + subst q1. queue_simpl. rewrite lookup_insert_ne by exact Hne. exact Hk.
    + subst q1. queue_simpl. rewrite elem_of_app, list_elem_of_singleton.
      intros [H|H]; [contradiction|apply Hne; symmetry; exact H].
  - intros k Hk. apply E3 in Hk. subst q1. queue_simpl.
    apply elem_of_app in Hk as [Hk|Hk]; [right; exact Hk|left].
    apply list_elem_of_singleton in Hk. exact Hk.
Qed.

Lemma freshTicks_cons uuid now rest (J : gmap string DeploymentJob) :
  Deployment.freshTicks ((uuid, now) :: rest) J = true ->
  Js.truthy uuid = true /\ J !! uuid = None /\ (uuid ∉ rest.*1)
  /\ Deployment.freshTicks rest J = true.
Proof.
  cbn [Deployment.freshTicks]. rewrite !andb_true_iff, !bool_decide_eq_true. tauto.
Qed.

Lemma freshTicks_grow ticks :
  forall (J J' : gmap string DeploymentJob) uuid,
    Deployment.freshTicks ticks J = true ->
    dom J' = {[uuid]} ∪ dom J -> uuid ∉ ticks.*1 ->
    Deployment.freshTicks ticks J' = true.
Proof.
  induction ticks as [|[u now] rest IH]; intros J J' uuid Hf Hdom Hu; [reflexivity|].
  apply freshTicks_cons in Hf as (H1 & H2 & H3 & H4).
  cbn [fmap list_fmap fst] in Hu. apply not_elem_of_cons in Hu as [Hne Hu].
  cbn [Deployment.freshTicks]. rewrite !andb_true_iff, !bool_decide_eq_true.
  repeat split; try assumption.
  - apply not_elem_of_dom. rewrite Hdom, elem_of_union, elem_of_singleton.
    intros [H|H]; [congruence|]. apply elem_of_dom in H as [? H]. congruence.
  - apply (IH J J' uuid); assumption.
Qed.

Lemma enqueueAll_spec inputs :
  forall ticks q,
    reachable x o q ->
    length ticks = length inputs ->
    Deployment.freshTicks ticks (jobs q) = true ->
    let out := Deployment.enqueueAll o inputs ticks q in
    reachable x o out.2
    /\ run x o (Deployment.enqueueTurns inputs ticks) q = Some out.2
    /\ Forall2 (fun input job =>
                  exists uuid now,
                    job = Queue.createInitialJob uuid now input
                    /\ is_Some (jobs out.2 !! uuid)
                    /\ jobs q !! uuid = None) inputs out.1
    /\ job_id <$> out.1 = ticks.*1
    /\ dom (jobs out.2) = list_to_set ticks.*1 ∪ dom (jobs q)
    /\ (forall k job, jobs q !! k = Some job -> k ∉ waitingQueue q ->
                      jobs out.2 !! k = Some job).
Proof.
  induction inputs as [|input inputs IH]; intros ticks q Hreach Hlen Hfresh; cbn zeta.
  - destruct ticks; [|discriminate]. cbn.
    split; [exact Hreach|]. split; [reflexivity|]. split; [constructor|].
    split; [reflexivity|]. split; [symmetry; apply union_empty_l_L|]. intros k job H _. exact H.
  - destruct ticks as [|[uuid now] ticks]; [discriminate|].
    cbn [length] in Hlen. injection Hlen as Hlen.
    apply freshTicks_cons in Hfresh as (H1 & H2 & H3 & H4).
    cbn [Deployment.enqueueAll Deployment.enqueueTurns combine List.map fst snd run].
    assert (Ht : turn x o now (CallEnqueue uuid input) q
                 = Some (Queue.enqueue o now uuid input q)).
    { cbn [turn]. rewrite H1, bool_decide_eq_true_2 by exact H2. reflexivity. }
    rewrite Ht.
    destruct (enqueue_jobs now uuid input q _ Hreach Ht) as (_ & _ & D1 & D2 & D3).
    set (q1 := Queue.enqueue o now uuid input q) in *.
    assert (Hreach1 : reachable x o q1) by (eapply reachable_turn; eassumption).
    destruct (IH ticks q1 Hreach1 Hlen) as (E1 & E2 & E3 & E4 & E5 & E6).
    { apply (freshTicks_grow ticks (jobs q) (jobs q1) uuid); assumption. }
    cbn zeta in E1, E2, E3, E4, E5, E6.
    split; [exact E1|]. split; [exact E2|]. split; [|split; [|split]].
    + constructor.
      * exists uuid, now. split; [reflexivity|]. split; [|exact H2].
        apply elem_of_dom. rewrite E5, D1, !elem_of_union, elem_of_singleton. tauto.
      * eapply Forall2_impl; [exact E3|].
        intros i job (u & n & F1 & F2 & F3). exists u, n.
        split; [exact F1|]. split; [exact F2|].
        apply not_elem_of_dom. intros Hin. apply not_elem_of_dom in F3. apply F3.
        rewrite D1, elem_of_union. right. exact Hin.
    + cbn [fmap list_fmap fst]. f_equal. exact E4.
    + rewrite E5, D1. cbn [fmap list_fmap fst list_to_set]. apply set_eq. intros z.
      rewrite !elem_of_union, elem_of_singleton. tauto.
    + intros k job Hk Hw. apply E6.
      * apply (D2 k job Hk Hw).
      * intros Hw1. destruct (D3 k Hw1) as [->|Hw']; [congruence|contradiction].
Qed.

End Untouched.

Section ManagerFacts.
Variables (x : ExecutorModel).

Lemma freshTicks_NoDup ticks (J : gmap string DeploymentJob) :
  Deployment.freshTicks ticks J = true ->
  NoDup ticks.*1 /\ (forall u, u ∈ ticks.*1 -> u ∉ dom J).
Proof.
  induction ticks as [|[u now] rest IH]; intros Hf.
  - split; [constructor|]. intros u H. inversion H.
  - apply freshTicks_cons in Hf as (H1 & H2 & H3 & H4).
    destruct (IH H4) as [IH1 IH2]. cbn [fmap list_fmap fst]. split.
    + constructor; assumption.
    + intros u' Hu'. apply elem_of_cons in Hu' as [->|Hu'].
      * apply not_elem_of_dom. exact H2.
      * apply IH2. exact Hu'.
Qed.

Lemma getProfile_id m profileId profile :
  Deployment.getProfile m profileId = Some profile -> profile_id profile = profileId.
Proof.
  unfold Deployment.getProfile. destruct (mgr_config m) as [config|]; [|discriminate].
  intros H. apply List.find_some in H as [_ H]. apply String.eqb_eq. exact H.
Qed.

Lemma resolveProfile_Returns m profileId profile :
  Deployment.resolveProfile m (Some profileId) = Returns profile ->
  Js.truthy profileId = true
  /\ Deployment.getProfile m profileId = Some profile
  /\ profile_id profile = profileId.
Proof.
  unfold Deployment.resolveProfile.
  destruct (Js.truthy profileId); cbn [negb]; [|discriminate].
  destruct (Deployment.getProfile m profileId) as [p|] eqn:Hp; [|discriminate].
  intros H. injection H as <-. split; [reflexivity|]. split; [reflexivity|].
  exact (getProfile_id m profileId p Hp).
Qed.

End ManagerFacts.

(** X21. [deploy], called on a manager whose configuration is loaded, with
    a profile that resolves, enqueues one upload job per host, in the order
    of the hosts: the jobs it returns are queued, have no attempt, carry the
    host and the profile asked for, and are new jobs of the queue, which
    grows by exactly that many jobs. *)
Theorem deploy_enqueues_one_job_per_host x params ticks m profile :
  reachable x (mgr_queueOptions m) (mgr_jobQueue m) ->
  is_Some (mgr_config m) ->
  Deployment.resolveProfile m (Some (deploy_profileId params)) = Returns profile ->
  length ticks = length (deploy_hosts params) ->
  Deployment.freshTicks ticks (jobs (mgr_jobQueue m)) = true ->
  let out := Deployment.deploy params ticks m in
  exists enqueued,
    out.1 = Returns enqueued
    /\ Forall2 (fun host job =>
                  job_hostId job = host_id host
                  /\ job_action job = Upload
                  /\ job_profileId job = deploy_profileId params
                  /\ job_status job = Queued
                  /\ attemptOf job = 0
                  /\ Queue.getJob (job_id job) (mgr_jobQueue m) = None
                  /\ is_Some (Queue.getJob (job_id job) (mgr_jobQueue out.2)))
         (deploy_hosts params) enqueued
    /\ job_id <$> enqueued = ticks.*1
    /\ reachable x (mgr_queueOptions m) (mgr_jobQueue out.2)
    /\ size (jobs (mgr_jobQueue out.2))
       = (size (jobs (mgr_jobQueue m)) + length (deploy_hosts params))%nat.
Proof.
  intros Hreach [config Hconfig] Hprofile Hlen Hfresh. cbn zeta.
  unfold Deployment.deploy. rewrite Hconfig, Hprofile. cbn [fst snd].
  destruct (resolveProfile_Returns m _ _ Hprofile) as (_ & _ & Hid).
  set (inputs := List.map (Deployment.uploadInput params profile) (deploy_hosts params)).
  destruct (enqueueAll_spec x (mgr_queueOptions m) inputs ticks (mgr_jobQueue m) Hreach)
    as (E1 & _ & E3 & E4 & E5 & _).
  { subst inputs. rewrite length_map. exact Hlen. }
  { exact Hfresh. }
  cbn zeta in E1, E3, E4, E5.
  eexists. split; [reflexivity|]. cbn [mgr_jobQueue set_mgr_jobQueue].
  split; [|split; [exact E4|split; [exact E1|]]].
  - subst inputs. apply Forall2_fmap_l in E3.
    eapply Forall2_impl; [exact E3|].
    intros host job (u & n & -> & F2 & F3). unfold Queue.getJob.
    repeat split; assumption.
  - destruct (freshTicks_NoDup ticks _ Hfresh) as [Hnd Hnew].
    rewrite <- !size_dom, E5, size_union.
    + rewrite size_list_to_set by exact Hnd. rewrite length_fmap, Hlen. lia.
    + intros u Hu Hd. apply elem_of_list_to_set in Hu. exact (Hnew u Hu Hd).
Qed.

Lemma deploy_to_the_room :
  let m := ManagerScenario.manager in
  let out := Deployment.deploy ManagerScenario.params [("j1", 10); ("j2", 11)] m in
  exists enqueued,
    out.1 = Returns enqueued
    /\ Forall2 (fun host job =>
                  job_hostId job = host_id host
                  /\ job_action job = Upload
                  /\ job_profileId job = "uno"
                  /\ job_status job = Queued
                  /\ attemptOf job = 0
                  /\ Queue.getJob (job_id job) (mgr_jobQueue m) = None
                  /\ is_Some (Queue.getJob (job_id job) (mgr_jobQueue out.2)))
         (deploy_hosts ManagerScenario.params) enqueued
    /\ job_id <$> enqueued = ["j1"; "j2"]
    /\ reachable anyExecutor (mgr_queueOptions m) (mgr_jobQueue out.2)
    /\ size (jobs (mgr_jobQueue out.2))
       = (size (jobs (mgr_jobQueue m)) + length (deploy_hosts ManagerScenario.params))%nat.
Proof.
  apply (deploy_enqueues_one_job_per_host anyExecutor ManagerScenario.params
           [("j1", 10); ("j2", 11)] ManagerScenario.manager ManagerScenario.uno).
  - apply (reachable_turn _ _ Queue.new 0 CallStart); [apply reachable_new|reflexivity].
  - vm_compute. eauto.
  - vm_compute. reflexivity.
  - vm_compute. reflexivity.
  - vm_compute. reflexivity.
Defined.

(** X22. [deploy] is all or nothing: it throws exactly when the
    configuration is not loaded, the profile identifier is empty or no
    profile has it, and it then leaves the manager, its queue included, as
    it was. *)
Theorem deploy_throws_before_enqueuing params ticks m :
  let out := Deployment.deploy params ticks m in
  ((exists e, out.1 = Throws e)
   <-> mgr_config m = None
       \/ Js.truthy (deploy_profileId params) = false
       \/ Deployment.getProfile m (deploy_profileId params) = None)
  /\ (forall e, out.1 = Throws e -> out.2 = m).
Proof.
  cbn zeta. unfold Deployment.deploy, Deployment.resolveProfile.
  destruct (mgr_config m) as [config|] eqn:Hconfig.
  - destruct (Js.truthy (deploy_profileId params)); cbn [negb fst snd].
    + destruct (Deployment.getProfile m (deploy_profileId params)) as [p|];
        cbn [fst snd].
      * split; [|intros e H; discriminate]. split.
        -- intros [e H]. discriminate.
        -- intros [H|[H|H]]; discriminate.
      * split; [|reflexivity]. split; [tauto|]. intros _. eauto.
    + split; [|reflexivity]. split; [tauto|]. intros _. eauto.
  - cbn [fst snd]. split; [|reflexivity]. split; [tauto|]. intros _. eauto.
Qed.

Section RetryFacts.
Variables (x : ExecutorModel).

Lemma retryEach_enqueueAll m failed :
  forall contexts ticks q retried,
    Forall2 (fun job context => Deployment.retryContext m job = Returns context)
      failed contexts ->
    let out :=
      Deployment.enqueueAll (mgr_queueOptions m)
        (zip_with Deployment.retryInput failed contexts) ticks q in
    Deployment.retryEach m failed ticks q retried = (Returns (retried ++ out.1), out.2).
Proof.
  induction failed as [|job failed IH]; intros contexts ticks q retried HF; cbn zeta.
  - apply Forall2_nil_inv_l in HF as ->. cbn. rewrite app_nil_r. reflexivity.
  - apply Forall2_cons_inv_l in HF as (context & contexts' & Hc & HF & ->).
    destruct ticks as [|[uuid now] ticks].
    + cbn. rewrite app_nil_r. reflexivity.
    + cbn [Deployment.retryEach zip_with Deployment.enqueueAll fst snd].
      rewrite Hc. rewrite (IH contexts' ticks _ _ HF). cbn zeta.
      rewrite <- app_assoc. reflexivity.
Qed.

Lemma retryContext_Returns m job host profile :
  is_Some (mgr_config m) ->
  Registry.getHostById (mgr_hostRegistry m) (job_hostId job) = Some host ->
  Js.truthy (job_profileId job) = true ->
  Deployment.getProfile m (job_profileId job) = Some profile ->
  Deployment.retryContext m job
  = Returns (mkDeploymentContext profile host (Some (bool_decide (job_mode job = DryRun)))).
Proof.
  intros [config Hconfig] Hhost Htruthy Hprofile.
  unfold Deployment.retryContext, Deployment.requireHost, Deployment.resolveProfile,
    Deployment.createContext.
  rewrite Hhost, Htruthy, Hprofile, Hconfig. reflexivity.
Qed.

End RetryFacts.

(** X23. [retryFailedJobs] enqueues, for every failed job of the queue, a
    new job for the same host, action, profile, paths and mode, queued and
    without attempt, under a new identifier; the failed jobs stay in the
    queue as they are, still failed.  (The configuration is loaded, and the
    host and the profile of every failed job are known.) *)
Theorem retryFailedJobs_enqueues_copies x ticks m :
  let q := mgr_jobQueue m in
  reachable x (mgr_queueOptions m) q ->
  is_Some (mgr_config m) ->
  (forall job,
      job ∈ Deployment.failedJobs q ->
      is_Some (Registry.getHostById (mgr_hostRegistry m) (job_hostId job))
      /\ Js.truthy (job_profileId job) = true
      /\ is_Some (Deployment.getProfile m (job_profileId job))) ->
  length ticks = length (Deployment.failedJobs q) ->
  Deployment.freshTicks ticks (jobs q) = true ->
  let out := Deployment.retryFailedJobs ticks m in
  exists retried,
    out.1 = Returns retried
    /\ Forall2 (fun job new =>
                  job_hostId new = job_hostId job
                  /\ job_action new = job_action job
                  /\ job_profileId new = job_profileId job
                  /\ job_sketchPath new = job_sketchPath job
                  /\ job_hexPath new = job_hexPath job
                  /\ job_mode new = job_mode job
                  /\ job_status new = Queued
                  /\ attemptOf new = 0
                  /\ Queue.getJob (job_id new) q = None
                  /\ is_Some (Queue.getJob (job_id new) (mgr_jobQueue out.2)))
         (Deployment.failedJobs q) retried
    /\ reachable x (mgr_queueOptions m) (mgr_jobQueue out.2)
    /\ (forall jobId job,
          Queue.getJob jobId q = Some job -> job_status job = Failed ->
          Queue.getJob jobId (mgr_jobQueue out.2) = Some job).
Proof.
  intros q Hreach Hconfig Hknown Hlen Hfresh. cbn zeta.
  unfold Deployment.retryFailedJobs. fold q.
  assert (Hctx : exists contexts,
             Forall2 (fun job context => Deployment.retryContext m job = Returns context)
               (Deployment.failedJobs q) contexts).
  { clear Hlen. induction (Deployment.failedJobs q) as [|job l IH].
    - exists []. constructor.
    - destruct IH as [contexts IH].
      { intros j Hj. apply Hknown. right. exact Hj. }
      destruct (Hknown job) as ([host Hhost] & Htruthy & [profile Hprofile]); [left|].
      eexists (_ :: contexts). constructor; [|exact IH].
      exact (retryContext_Returns m job host profile Hconfig Hhost Htruthy Hprofile). }
  destruct Hctx as [contexts Hctx].
  rewrite (retryEach_enqueueAll m _ contexts ticks q [] Hctx). cbn zeta. cbn [fst snd app].
  set (inputs := zip_with Deployment.retryInput (Deployment.failedJobs q) contexts).
  assert (Hcl : length contexts = length (Deployment.failedJobs q))
    by (symmetry; exact (Forall2_length _ _ _ Hctx)).
  destruct (enqueueAll_spec x (mgr_queueOptions m) inputs ticks q Hreach)
    as (E1 & _ & E3 & _ & _ & E6).
  { subst inputs. rewrite length_zip_with. lia. }
  { exact Hfresh. }
  cbn zeta in E1, E3, E6.
  eexists. split; [reflexivity|]. cbn [mgr_jobQueue set_mgr_jobQueue].
  split; [|split; [exact E1|]].
  - subst inputs. clear E1 E6 Hlen Hknown.
    set (enqueued := (Deployment.enqueueAll (mgr_queueOptions m) _ ticks q).1) in *.
    set (q' := (Deployment.enqueueAll (mgr_queueOptions m) _ ticks q).2) in *.
    clearbody enqueued q'. revert contexts enqueued Hctx Hcl E3.
    induction (Deployment.failedJobs q) as [|job l IH];
      intros contexts enqueued Hctx Hcl E3.
    + destruct contexts; [|discriminate]. cbn in E3.
      apply Forall2_nil_inv_l in E3 as ->. constructor.
    + destruct contexts as [|context contexts]; [discriminate|].
      cbn [zip_with] in E3.
      apply Forall2_cons_inv_l in E3 as (new & rest & (u & n & -> & F2 & F3) & E3 & ->).
      apply Forall2_cons in Hctx as [_ Hctx].
      constructor.
      * unfold Queue.getJob. repeat split; assumption.
      * apply (IH contexts); [exact Hctx|cbn in Hcl; lia|exact E3].
  - intros jobId job Hjob Hfailed. unfold Queue.getJob in *. apply E6; [exact Hjob|].
    intros Hw.
    pose proof (reachable_Inv x _ (fun _ => True) q Hreach) as HI.
    destruct (ci_waiting _ _ _ _ _ _ _ _ HI jobId Hw) as (cur & H1 & H2 & _).
    congruence.
Qed.

Lemma retry_after_one_failure :
  let m := ManagerScenario.afterFailure in
  let q := mgr_jobQueue m in
  let out := Deployment.retryFailedJobs [("j3", 30)] m in
  exists retried,
    out.1 = Returns retried
    /\ Forall2 (fun job new =>
                  job_hostId new = job_hostId job
                  /\ job_action new = job_action job
                  /\ job_profileId new = job_profileId job
                  /\ job_sketchPath new = job_sketchPath job
                  /\ job_hexPath new = job_hexPath job
                  /\ job_mode new = job_mode job
                  /\ job_status new = Queued
                  /\ attemptOf new = 0
                  /\ Queue.getJob (job_id new) q = None
                  /\ is_Some (Queue.getJob (job_id new) (mgr_jobQueue out.2)))
         (Deployment.failedJobs q) retried
    /\ reachable anyExecutor (mgr_queueOptions m) (mgr_jobQueue out.2)
    /\ (forall jobId job,
          Queue.getJob jobId q = Some job -> job_status job = Failed ->
          Queue.getJob jobId (mgr_jobQueue out.2) = Some job).
Proof.
  apply (retryFailedJobs_enqueues_copies anyExecutor [("j3", 30)]
           ManagerScenario.afterFailure).
  - apply (run_reachable anyExecutor _ ManagerScenario.failureTurns Queue.new);
      [apply reachable_new|vm_compute; reflexivity].
  - vm_compute. eauto.
  - intros job Hjob.
    let l := eval vm_compute in
      (Deployment.failedJobs (mgr_jobQueue ManagerScenario.afterFailure)) in
    change (Deployment.failedJobs (mgr_jobQueue ManagerScenario.afterFailure)) with l
      in Hjob.
    apply list_elem_of_singleton in Hjob. subst job.
    split; [vm_compute; eauto|]. split; [vm_compute; reflexivity|vm_compute; eauto].
  - vm_compute. reflexivity.
  - vm_compute. reflexivity.
Defined.

(** ** The registry and the profiles of the manager *)


(** X24. On a registry whose hosts are stored under their identifiers, as
    they are in every registry built by its methods, [setHostEnabled] of the
    manager is [toggleHost] of the registry.  An unknown host is ignored.  A
    known host gets the flag and keeps its other fields; the other hosts and
    the groups are untouched, and setting the flag back restores the host
    table. *)
Theorem setHostEnabled_is_toggleHost hostId enabled m :
  Hosts.keyed (mgr_hostRegistry m) ->
  let r := mgr_hostRegistry m in
  let r' := mgr_hostRegistry (Deployment.setHostEnabled hostId enabled m) in
  r' = Hosts.toggleHost hostId enabled r
  /\ match Registry.getHostById r hostId with
     | None => r' = r
     | Some host =>
         (exists host',
             Registry.getHostById r' hostId = Some host'
             /\ host_enabled host' = enabled
             /\ with_enabled (host_enabled host) host' = host)
         /\ (forall other, other <> hostId ->
                           Registry.getHostById r' other = Registry.getHostById r other)
         /\ groups r' = groups r
         /\ hosts (Hosts.toggleHost hostId (host_enabled host) r') = hosts r
     end.
Proof.
  intros [Hh _]. cbn zeta.
  unfold Deployment.setHostEnabled, Registry.getHostById.
  destruct (hosts (mgr_hostRegistry m) !! hostId) as [host|] eqn:Hhost.
  - cbn [mgr_hostRegistry set_mgr_hostRegistry].
    assert (E : Registry.upsertHost (with_enabled enabled host) (mgr_hostRegistry m)
                = Registry.publish
                    (Hosts.with_hosts
                       (<[hostId := with_enabled enabled host]> (hosts (mgr_hostRegistry m)))
                       (mgr_hostRegistry m))).
    { unfold Registry.upsertHost. cbn [with_enabled host_id].
      rewrite (Hh hostId host Hhost). reflexivity. }
    rewrite E. split.
    + unfold Hosts.toggleHost. rewrite Hhost. reflexivity.
    + cbn [Registry.publish Hosts.with_hosts groups hosts].
      split; [|split; [|split]].
      * eexists. split; [apply lookup_insert_eq|]. split; [reflexivity|].
        destruct host. reflexivity.
      * intros other Hne. apply lookup_insert_ne. congruence.
      * reflexivity.
      * unfold Hosts.toggleHost.
        cbn [Registry.publish Hosts.with_hosts groups hosts]. rewrite lookup_insert_eq.
        cbn [Registry.publish Hosts.with_hosts groups hosts].
        rewrite insert_insert_eq.
        replace (with_enabled (host_enabled host) (with_enabled enabled host)) with host
          by (destruct host; reflexivity).
        apply insert_id. exact Hhost.
  - split; [|reflexivity]. unfold Hosts.toggleHost. rewrite Hhost. reflexivity.
Qed.

Lemma setHostEnabled_in_the_room :
  let r := mgr_hostRegistry ManagerScenario.manager in
  let r' := mgr_hostRegistry
              (Deployment.setHostEnabled "pc-01" false ManagerScenario.manager) in
  r' = Hosts.toggleHost "pc-01" false r
  /\ match Registry.getHostById r "pc-01" with
     | None => r' = r
     | Some host =>
         (exists host',
             Registry.getHostById r' "pc-01" = Some host'
             /\ host_enabled host' = false
             /\ with_enabled (host_enabled host) host' = host)
         /\ (forall other, other <> "pc-01" ->
                           Registry.getHostById r' other = Registry.getHostById r other)
         /\ groups r' = groups r
         /\ hosts (Hosts.toggleHost "pc-01" (host_enabled host) r') = hosts r
     end.
Proof.
  apply (setHostEnabled_is_toggleHost "pc-01" false ManagerScenario.manager).
  exact (keyed_call (Hosts.SetGroups []) _
           (keyed_call (Hosts.SetHosts (config_hosts ManagerScenario.config)) _
              keyed_empty)).
Defined.

Section ProfileFacts.

Lemma find_upsertProfile profile profiles id :
  List.find (fun p => String.eqb (profile_id p) id)
    (Deployment.upsertProfile profile profiles)
  = if String.eqb (profile_id profile) id then Some profile
    else List.find (fun p => String.eqb (profile_id p) id) profiles.
Proof.
  induction profiles as [|item rest IH]; cbn [Deployment.upsertProfile List.find].
  - destruct (String.eqb (profile_id profile) id); reflexivity.
  - destruct (String.eqb_spec (profile_id item) (profile_id profile)) as [E|Hne];
      cbn [List.find].
    + rewrite E. destruct (String.eqb (profile_id profile) id); reflexivity.
    + destruct (String.eqb_spec (profile_id item) id) as [E1|Hne1].
      * destruct (String.eqb_spec (profile_id profile) id) as [E2|_]; [congruence|].
        reflexivity.
      * exact IH.
Qed.

Lemma length_upsertProfile profile profiles :
  length (Deployment.upsertProfile profile profiles)
  = match List.find (fun p => String.eqb (profile_id p) (profile_id profile)) profiles with
    | Some _ => length profiles
    | None => S (length profiles)
    end.
Proof.
  induction profiles as [|item rest IH]; cbn [Deployment.upsertProfile List.find];
    [reflexivity|].
  destruct (String.eqb (profile_id item) (profile_id profile)); [reflexivity|].
  cbn [length]. rewrite IH.
  destruct (List.find _ rest); reflexivity.
Qed.

End ProfileFacts.

(** X25. A saved profile is the one found, selected and resolved under its
    identifier.  After [saveProfile], [getProfile] returns the profile for
    its identifier and what it returned before for any other one; the list
    of profiles grows by one when the identifier was unknown and keeps its
    length otherwise; the profile can be selected, and it is then the one
    [resolveProfile] returns, unless its identifier is empty: the selection
    succeeds, and no profile is active. *)
Theorem saved_profile_is_resolved profile m m1 :
  Deployment.saveProfile profile m = Returns m1 ->
  let id := profile_id profile in
  let m2 := set_mgr_currentProfileId (Some id) m1 in
  Deployment.getProfile m1 id = Some profile
  /\ (forall other, other <> id ->
                    Deployment.getProfile m1 other = Deployment.getProfile m other)
  /\ length (Deployment.getProfiles m1)
     = match Deployment.getProfile m id with
       | Some _ => length (Deployment.getProfiles m)
       | None => S (length (Deployment.getProfiles m))
       end
  /\ Deployment.selectProfile id m1 = Returns m2
  /\ Deployment.resolveProfile m2 None
     = (if Js.truthy id then Returns profile else Throws Deployment.noActiveProfile)
  /\ Deployment.getActiveProfile m2 = (if Js.truthy id then Some profile else None).
Proof.
  unfold Deployment.saveProfile.
  destruct (mgr_config m) as [config|] eqn:Hconfig; [|discriminate].
  intros H. injection H as <-. cbn zeta.
  assert (Hfound : Deployment.getProfile
                     (set_mgr_config
                        (Some (mkClassroomConfig
                                 (Deployment.upsertProfile profile (config_profiles config))
                                 (config_hosts config))) m) (profile_id profile)
                   = Some profile).
  { unfold Deployment.getProfile. cbn [mgr_config set_mgr_config config_profiles].
    rewrite find_upsertProfile, String.eqb_refl. reflexivity. }
  split; [exact Hfound|]. split; [|split; [|split; [|split]]].
  - intros other Hne. unfold Deployment.getProfile.
    cbn [mgr_config set_mgr_config config_profiles]. rewrite Hconfig.
    rewrite find_upsertProfile.
    destruct (String.eqb_spec (profile_id profile) other) as [E|_]; [congruence|].
    reflexivity.
  - unfold Deployment.getProfiles, Deployment.getProfile.
    cbn [mgr_config set_mgr_config config_profiles]. rewrite Hconfig.
    apply length_upsertProfile.
  - unfold Deployment.selectProfile. rewrite Hfound. reflexivity.
  - unfold Deployment.resolveProfile. cbn [mgr_currentProfileId set_mgr_currentProfileId].
    destruct (Js.truthy (profile_id profile)); cbn [negb]; [|reflexivity].
    change (Deployment.getProfile (set_mgr_currentProfileId _ ?m0) ?i)
      with (Deployment.getProfile m0 i).
    rewrite Hfound. reflexivity.
  - unfold Deployment.getActiveProfile.
    cbn [mgr_currentProfileId set_mgr_currentProfileId].
    destruct (Js.truthy (profile_id profile)); [|reflexivity].
    change (Deployment.getProfile (set_mgr_currentProfileId _ ?m0) ?i)
      with (Deployment.getProfile m0 i).
    exact Hfound.
Qed.

Lemma mega_profile_is_resolved :
  let profile := mkDeploymentProfile "mega" "arduino:avr:mega" 2 120000 (Some 2) in
  exists m1,
    Deployment.saveProfile profile ManagerScenario.manager = Returns m1
    /\ let m2 := set_mgr_currentProfileId (Some "mega") m1 in
       Deployment.getProfile m1 "mega" = Some profile
       /\ (forall other, other <> "mega" ->
                         Deployment.getProfile m1 other
                         = Deployment.getProfile ManagerScenario.manager other)
       /\ length (Deployment.getProfiles m1)
          = match Deployment.getProfile ManagerScenario.manager "mega" with
            | Some _ => length (Deployment.getProfiles ManagerScenario.manager)
            | None => S (length (Deployment.getProfiles ManagerScenario.manager))
            end
       /\ Deployment.selectProfile "mega" m1 = Returns m2
       /\ Deployment.resolveProfile m2 None = Returns profile
       /\ Deployment.getActiveProfile m2 = Some profile.
Proof.
  cbn zeta. eexists. split; [reflexivity|].
  exact (saved_profile_is_resolved
           (mkDeploymentProfile "mega" "arduino:avr:mega" 2 120000 (Some 2))
           ManagerScenario.manager _ eq_refl).
Defined.

Section SummaryFacts.

Lemma jobValues_elem q job :
  job ∈ Queue.jobValues q <-> exists k, jobs q !! k = Some job.
Proof.
  unfold Queue.jobValues. rewrite list_elem_of_fmap. split.
  - intros ([k j] & -> & H). exists k. apply elem_of_map_to_list. exact H.
  - intros [k H]. exists (k, job). split; [reflexivity|].
    apply elem_of_map_to_list. exact H.
Qed.

Lemma jobValues_ids q :
  (forall k job, jobs q !! k = Some job -> job_id job = k) ->
  NoDup (job_id <$> Queue.jobValues q).
Proof.
  intros Hkeys. unfold Queue.jobValues.
  assert (E : job_id <$> (map_to_list (jobs q)).*2 = (map_to_list (jobs q)).*1).
  { assert (H : Forall (fun p => job_id p.2 = p.1) (map_to_list (jobs q))).
    { apply Forall_forall. intros [k job] Hin. apply elem_of_map_to_list in Hin.
      exact (Hkeys k job Hin). }
    induction H as [|p l Hp _ IH]; [reflexivity|].
    cbn [fmap list_fmap]. rewrite Hp. f_equal. exact IH. }
  rewrite E. apply NoDup_fst_map_to_list.
Qed.

Lemma NoDup_fmap_filter {A} (f : A -> string) (p : A -> bool) l :
  NoDup (f <$> l) -> NoDup (f <$> List.filter p l).
Proof.
  induction l as [|a l IH]; [intros H; exact H|].
  cbn [fmap list_fmap List.filter]. intros H. apply NoDup_cons in H as [Ha Hl].
  destruct (p a); [|apply IH; exact Hl].
  cbn [fmap list_fmap]. apply NoDup_cons. split; [|apply IH; exact Hl].
  intros Hin. apply Ha. apply list_elem_of_fmap in Hin as (b & -> & Hb).
  apply list_elem_of_fmap. exists b. split; [reflexivity|].
  apply list_elem_of_In, List.filter_In in Hb as [Hb _].
  apply list_elem_of_In. exact Hb.
Qed.

Lemma filter_all {A} (p : A -> bool) l :
  Forall (fun a => p a = true) l -> List.filter p l = l.
Proof.
  induction 1 as [|a l Ha _ IH]; [reflexivity|].
  cbn [List.filter]. rewrite Ha, IH. reflexivity.
Qed.

End SummaryFacts.

(** X26. The summary of a deployment lists the jobs that have succeeded,
    have failed or were cancelled, each once and each with a duration; once
    the waiting list of the queue is empty and no frame is suspended it
    lists every job of the queue. *)
Theorem summarizeDeployment_lists_settled_jobs x m :
  let q := mgr_jobQueue m in
  reachable x (mgr_queueOptions m) q ->
  Forall (fun s =>
            summary_status s ∈ [Succeeded; Failed; Cancelled]
            /\ is_Some (summary_elapsedMs s)
            /\ exists job,
                 Queue.getJob (summary_jobId s) q = Some job
                 /\ s = Deployment.summaryOf job)
    (Deployment.summarizeDeployment m)
  /\ NoDup (summary_jobId <$> Deployment.summarizeDeployment m)
  /\ (waitingQueue q = [] -> suspended q = [] ->
      length (Deployment.summarizeDeployment m) = size (jobs q)).
Proof.
  intros q Hreach.
  pose proof (reachable_TrackInv x _ q Hreach) as HT. unfold TrackInv in HT.
  unfold Deployment.summarizeDeployment. fold q. cbn [Queue.getSnapshot snapshot_jobs].
  split; [|split].
  - apply Forall_forall. intros s Hs.
    apply list_elem_of_In, List.in_map_iff in Hs as (job & <- & Hjob).
    apply List.filter_In in Hjob as [Hjob Hterminal].
    apply bool_decide_eq_true in Hterminal.
    apply list_elem_of_In, jobValues_elem in Hjob as [k Hk].
    destruct (tr_keys _ _ _ _ HT k job Hk) as (Hid & _).
    pose proof (tr_times _ _ _ _ HT k job Hk) as Htimes.
    cbn [Deployment.summaryOf summary_status summary_elapsedMs summary_jobId].
    split; [exact Hterminal|]. split.
    + unfold timesAgree in Htimes. rewrite !elem_of_cons, elem_of_nil in Hterminal.
      destruct Hterminal as [E|[E|[E|[]]]]; rewrite E in Htimes; apply Htimes.
    + exists job. split; [|reflexivity]. unfold Queue.getJob. rewrite Hid. exact Hk.
  - rewrite <- list_fmap_compose.
    change (summary_jobId ∘ Deployment.summaryOf) with job_id.
    apply NoDup_fmap_filter, jobValues_ids.
    intros k job Hk. apply (tr_keys _ _ _ _ HT k job Hk).
  - intros HW HS. rewrite length_map, filter_all.
    + unfold Queue.jobValues. rewrite length_fmap. apply length_map_to_list.
    + apply Forall_forall. intros job Hjob. apply bool_decide_eq_true.
      apply jobValues_elem in Hjob as [k Hk].
      pose proof (tr_times _ _ _ _ HT k job Hk) as Htimes.
      pose proof (tr_queued _ _ _ _ HT k job Hk) as HQ.
      pose proof (tr_running _ _ _ _ HT k job Hk) as HR.
      fold q in HQ, HR. rewrite HW, HS in *. unfold timesAgree in Htimes.
      rewrite !elem_of_cons, elem_of_nil.
      destruct (job_status job); try tauto.
      * destruct (HQ eq_refl) as [H|(j & c & H & _)]; inversion H.
      * destruct (HR eq_refl) as (j & c & H & _). inversion H.
Qed.

Lemma summary_after_one_failure :
  let m := ManagerScenario.afterFailure in
  let q := mgr_jobQueue m in
  Forall (fun s =>
            summary_status s ∈ [Succeeded; Failed; Cancelled]
            /\ is_Some (summary_elapsedMs s)
            /\ exists job,
                 Queue.getJob (summary_jobId s) q = Some job
                 /\ s = Deployment.summaryOf job)
    (Deployment.summarizeDeployment m)
  /\ NoDup (summary_jobId <$> Deployment.summarizeDeployment m)
  /\ (waitingQueue q = [] -> suspended q = [] ->
      length (Deployment.summarizeDeployment m) = size (jobs q)).
Proof.
  apply (summarizeDeployment_lists_settled_jobs anyExecutor ManagerScenario.afterFailure).
  apply (run_reachable anyExecutor _ ManagerScenario.failureTurns Queue.new);
    [apply reachable_new|vm_compute; reflexivity].
Defined.

(** ** The strategies of the manager *)

Section StrategyFacts.

Lemma ids_registerStrategy s l :
  strategy_id <$> Manager.registerStrategy s l
  = if bool_decide (strategy_id s ∈ strategy_id <$> l) then strategy_id <$> l
    else (strategy_id <$> l) ++ [strategy_id s].
Proof.
  induction l as [|s' l IH]; cbn [Manager.registerStrategy fmap list_fmap].
  - rewrite bool_decide_eq_false_2 by apply not_elem_of_nil. reflexivity.
  - destruct (String.eqb_spec (strategy_id s') (strategy_id s)) as [E|Hne].
    + rewrite bool_decide_eq_true_2 by (rewrite E; left).
      cbn [fmap list_fmap]. rewrite E. reflexivity.
    + cbn [fmap list_fmap]. change (list_fmap _ _ strategy_id ?l0) with (strategy_id <$> l0).
      rewrite IH.
      rewrite (bool_decide_ext (strategy_id s ∈ strategy_id s' :: (strategy_id <$> l))
                 (strategy_id s ∈ strategy_id <$> l)).
      * destruct (bool_decide (strategy_id s ∈ strategy_id <$> l)); reflexivity.
      * rewrite elem_of_cons. split; [intros [H|H]; [congruence|exact H]|tauto].
Qed.

Lemma find_registerStrategy s l id :
  List.find (fun s' => String.eqb (strategy_id s') id) (Manager.registerStrategy s l)
  = if String.eqb (strategy_id s) id then Some s
    else List.find (fun s' => String.eqb (strategy_id s') id) l.
Proof.
  induction l as [|item rest IH]; cbn [Manager.registerStrategy List.find].
  - destruct (String.eqb (strategy_id s) id); reflexivity.
  - destruct (String.eqb_spec (strategy_id item) (strategy_id s)) as [E|Hne];
      cbn [List.find].
    + rewrite E. destruct (String.eqb (strategy_id s) id); reflexivity.
    + destruct (String.eqb_spec (strategy_id item) id) as [E1|Hne1].
      * destruct (String.eqb_spec (strategy_id s) id) as [E2|_]; [congruence|].
        reflexivity.
      * exact IH.
Qed.

Lemma unique_snoc xs (x : string) :
  Arrays.unique (xs ++ [x])
  = if bool_decide (x ∈ Arrays.unique xs) then Arrays.unique xs
    else Arrays.unique xs ++ [x].
Proof.
  unfold Arrays.unique. rewrite unique_from_snoc.
  rewrite (bool_decide_ext (x ∈ [] \/ x ∈ xs) (x ∈ Arrays.unique_from [] xs));
    [reflexivity|].
  destruct (unique_from_spec xs []) as [E _]. rewrite E, elem_of_nil. tauto.
Qed.

Lemma getStrategyForHost_find l host :
  Manager.getStrategyForHost l host = List.find (fun s => supports s host) l.
Proof.
  induction l as [|s l IH]; [reflexivity|].
  cbn [Manager.getStrategyForHost List.find]. rewrite IH. reflexivity.
Qed.

End StrategyFacts.

(** X27. The manager keeps one strategy per identifier.  After any sequence
    of registrations the strategies stand in the order in which their
    identifiers were first registered, each identifier once, and the
    strategy kept under an identifier is the last one registered under it;
    the strategy chosen for a host is the first one, in that order, that
    supports the host. *)
Theorem registerStrategy_keeps_one_per_id registrations :
  let strategies := foldl (fun acc s => Manager.registerStrategy s acc) [] registrations in
  strategy_id <$> strategies = Arrays.unique (strategy_id <$> registrations)
  /\ NoDup (strategy_id <$> strategies)
  /\ (forall id,
        List.find (fun s => String.eqb (strategy_id s) id) strategies
        = Arrays.findLast (fun s => String.eqb (strategy_id s) id) registrations)
  /\ (forall host,
        Manager.getStrategyForHost strategies host
        = List.find (fun s => supports s host) strategies).
Proof.
  cbn zeta.
  assert (Hids : strategy_id <$> foldl (fun acc s => Manager.registerStrategy s acc) []
                                   registrations
                 = Arrays.unique (strategy_id <$> registrations)).
  { induction registrations as [|s l IH] using rev_ind; [reflexivity|].
    rewrite foldl_app. cbn [foldl]. rewrite ids_registerStrategy, IH, fmap_app.
    symmetry. apply unique_snoc. }
  split; [exact Hids|]. split; [rewrite Hids; apply unique_NoDup|]. split.
  - intros id. clear Hids.
    induction registrations as [|s l IH] using rev_ind; [reflexivity|].
    rewrite foldl_app. cbn [foldl]. rewrite find_registerStrategy, findLast_snoc.
    destruct (String.eqb (strategy_id s) id); [reflexivity|exact IH].
  - intros host. apply getStrategyForHost_find.
Qed.

(** ** A call of the executor that resolves *)

Section Resolved.
Variables (x : ExecutorModel) (o : JobQueueOptions).

Lemma take_first_executor jobId S c others :
  take_first (awaits_executor jobId) S = Some (c, others) ->
  exists job ctx, c = AwaitExecutor job ctx /\ job_id job = jobId.
Proof.
  intros H. apply take_first_perm in H as [_ H].
  destruct c as [job ctx| | |]; try discriminate.
  exists job, ctx. split; [reflexivity|]. apply String.eqb_eq. exact H.
Qed.

(** The turn in which the call for [jobId] resolves with [result]. *)
Lemma resolved_turn now q q' jobId result :
  reachable x o q ->
  turn x o now (ExecutorSettles jobId (Resolves result)) q = Some q' ->
  exists job ctx,
    (exists others,
        take_first (awaits_executor jobId) (suspended q)
        = Some (AwaitExecutor job ctx, others))
    /\ job_id job = jobId
    /\ x job ctx (Resolves result) = true
    /\ contextByJob q !! jobId = Some ctx
    /\ attemptOf job = callsFor jobId q
    /\ jobs q' !! jobId = Some (Queue.completedJob now result job)
    /\ (jobId ∉ waitingQueue q')
    /\ completedDurations q'
       = completedDurations
           (Queue.trackMetrics o now (Queue.completedJob now result job) q).
Proof.
  intros Hreach Ht. cbn [turn] in Ht.
  destruct (take_first (awaits_executor jobId) (suspended q)) as [[c others]|] eqn:Htake;
    [|discriminate].
  destruct (take_first_executor _ _ _ _ Htake) as (job & ctx & -> & Hid).
  subst jobId.
  apply take_first_perm in Htake as [HP _].
  destruct (x job ctx (Resolves result)) eqn:Hx; [|discriminate].
  injection Ht as <-.
  pose proof (reachable_Inv x o (fun _ => True) q Hreach) as HI.
  pose proof (reachable_TrackInv x o q Hreach) as HT.
  assert (Hin : AwaitExecutor job ctx ∈ suspended q) by (rewrite HP; left).
  destruct (ci_executing _ _ _ _ _ _ _ _ HI job ctx Hin) as (cur & Hcur & Hatt & _ & Hctx).
  destruct (ci_attempts _ _ _ _ _ _ _ _ HI _ cur Hcur) as [_ Hcalls].
  assert (HnW : job_id job ∉ waitingQueue q).
  { intros Hw.
    apply (frame_not_waiting x o (fun _ => True) _ _ _ _ _ (AwaitExecutor job ctx)
             (job_id job) HI); [exact Hin|reflexivity|exact Hw]. }
  exists job, ctx.
  split; [exists others; reflexivity|].
  split; [reflexivity|]. split; [exact Hx|]. split; [exact Hctx|].
  split; [unfold callsFor; rewrite Hcalls; symmetry; exact Hatt|].
  unfold Queue.executorResolved, Queue.releaseSlot.
  set (q1 := set_jobs _ (set_suspended others q)).
  set (q2 := Queue.publishJobs _).
  assert (HT2 : TrackInv q2).
  { pose proof (TrackInv_resolved x o (fun _ => True) now job ctx result others q HI HT HP)
      as H1.
    apply (TrackInv_trackMetrics o now (Queue.completedJob now result job)) in H1.
    exact H1. }
  destruct (processQueue_jobs o now q2 HT2) as (_ & E2 & E3). cbn zeta in E2, E3.
  destruct (trackMetrics_history o now (Queue.completedJob now result job) q1)
    as (_ & T2 & _).
  assert (HW2 : waitingQueue q2 = waitingQueue q).
  { subst q2 q1. queue_simpl. unfold Queue.trackMetrics.
    destruct (elapsedMs _) as [e|]; [destruct (e =? 0)|]; reflexivity. }
  split; [|split].
  - rewrite E2 by (rewrite HW2; exact HnW).
    subst q2. queue_simpl. rewrite T2. subst q1. queue_simpl.
    apply lookup_insert_eq.
  - intros Hw. apply E3 in Hw. rewrite HW2 in Hw. contradiction.
  - destruct (windows_processQueue o now q2) as [D1 _]. rewrite D1.
    subst q2 q1. queue_simpl. unfold Queue.trackMetrics.
    destruct (elapsedMs _) as [e|]; [destruct (e =? 0)|]; reflexivity.
Qed.

End Resolved.

(** X20. A call of the executor that resolves settles the job for good,
    whatever the retry count: the job has succeeded when the status of the
    result is [OK] and has failed otherwise, it carries the result and its
    error, it is not put back in the waiting list and no call of the
    executor is in flight for it.  Only a rejection is retried. *)
Theorem resolved_call_settles_the_job x o now q q' jobId result :
  reachable x o q ->
  turn x o now (ExecutorSettles jobId (Resolves result)) q = Some q' ->
  exists job,
    Queue.getJob jobId q' = Some job
    /\ job_status job = (if bool_decide (result_status result = OK) then Succeeded else Failed)
    /\ job_result job = Some result
    /\ job_error job = result_error result
    /\ attemptOf job = callsFor jobId q
    /\ callsFor jobId q' = callsFor jobId q
    /\ (jobId ∉ waitingQueue q')
    /\ ~ executing jobId (suspended q').
Proof.
  intros Hreach Ht.
  destruct (resolved_turn x o now q q' jobId result Hreach Ht)
    as (job & ctx & _ & Hid & _ & _ & Hatt & Hjob & HnW & _).
  assert (Hreach' : reachable x o q') by (eapply reachable_turn; eassumption).
  pose proof (reachable_Inv x o (fun _ => True) q' Hreach') as HI'.
  pose proof (reachable_TrackInv x o q' Hreach') as HT'.
  exists (Queue.completedJob now result job). unfold Queue.getJob.
  split; [exact Hjob|].
  assert (Hst : job_status (Queue.completedJob now result job)
                = if bool_decide (result_status result = OK) then Succeeded else Failed).
  { cbn. destruct (result_status result); reflexivity. }
  split; [exact Hst|]. split; [reflexivity|]. split; [reflexivity|].
  split; [exact Hatt|]. split.
  - destruct (ci_attempts _ _ _ _ _ _ _ _ HI' jobId _ Hjob) as [_ Hcalls].
    unfold callsFor at 1. rewrite Hcalls. exact Hatt.
  - split; [exact HnW|].
    intros (job' & ctx' & Hin & Hk).
    destruct (tr_executing _ _ _ _ HT' job' ctx' Hin) as (cur & Hcur & Hrc).
    rewrite Hk, Hjob in Hcur. injection Hcur as <-. rewrite Hst in Hrc.
    destruct (bool_decide (result_status result = OK)); destruct Hrc; discriminate.
Qed.

Lemma error_result_is_not_retried :
  let o := Scenario.options 1 3 in
  let q := Scenario.after anyExecutor o
             [ (0, CallStart); (10, CallEnqueue "A" (Scenario.upload "windows")) ] in
  let result := mkDeploymentResult ERROR None (Some 40) [] (Some "avrdude: no device") None in
  exists q',
    turn anyExecutor o 50 (ExecutorSettles "A" (Resolves result)) q = Some q'
    /\ exists job,
         Queue.getJob "A" q' = Some job
         /\ job_status job = Failed
         /\ job_result job = Some result
         /\ job_error job = Some "avrdude: no device"
         /\ attemptOf job = callsFor "A" q
         /\ callsFor "A" q' = callsFor "A" q
         /\ ("A" ∉ waitingQueue q')
         /\ ~ executing "A" (suspended q').
Proof.
  cbn zeta. eexists. split; [vm_compute; reflexivity|].
  apply (resolved_call_settles_the_job anyExecutor (Scenario.options 1 3) 50
           (Scenario.after anyExecutor (Scenario.options 1 3)
              [ (0, CallStart); (10, CallEnqueue "A" (Scenario.upload "windows")) ])
           _ "A"
           (mkDeploymentResult ERROR None (Some 40) [] (Some "avrdude: no device") None)).
  - apply after_reachable. vm_compute. eauto.
  - vm_compute. reflexivity.
Defined.

(** ** The WinRM client *)

(** X28. The WinRM client rejects in three cases only: the host is not a
    Windows host; outside a dry run, [spawn] throws; outside a dry run, the
    agent exits with code 0 and prints the JSON text [null], of which
    [execute] cannot read the status.  In every other case the call
    resolves, whatever the child does (a non-zero exit code, a kill, an
    [error] event, an output that is not JSON), with a duration and without
    checksum; and the status of the result is [OK] only in a dry run, or when
    the agent exited with code 0 and printed a value whose status is [OK].
    Every outcome is one the strategy is taken to have in the runs of the
    queue. *)
Theorem winrm_execute_rejects_in_three_cases dryRun job context run :
  let outcome := WinRM.execute dryRun job context run in
  let dry := dryRun || bool_decide (job_mode job = DryRun) in
  ((exists error, outcome = Rejects error)
   <-> isWindowsHost (ctx_host context) = false
       \/ (dry = false
           /\ ((exists error, WinRM.child_end run = WinRM.SpawnThrows error)
               \/ (WinRM.child_end run = WinRM.Closed (Some 0%nat)
                   /\ WinRM.child_json run = Some WinRM.JsonNull))))
  /\ (forall result,
        outcome = Resolves result ->
        is_Some (result_elapsedMs result)
        /\ result_checksum result = None
        /\ (result_status result = OK ->
            dry = true
            \/ (WinRM.child_end run = WinRM.Closed (Some 0%nat)
                /\ exists response,
                     WinRM.child_json run = Some (WinRM.JsonValue response)
                     /\ WinRM.response_status response = OK)))
  /\ execute (WinRMClient dryRun) job context outcome = true.
Proof.
  cbn zeta. unfold WinRM.execute, WinRM.invokeRemoteAgent.
  cbn [WinRMClient supports execute].
  destruct (isWindowsHost (ctx_host context)); cbn [negb].
  2:{ split; [|split].
      - split; [intros _; left; reflexivity|intros _; eexists; reflexivity].
      - intros result H. discriminate.
      - apply bool_decide_eq_true. reflexivity. }
  destruct (dryRun || bool_decide (job_mode job = DryRun)).
  { split; [|split].
    - split; [intros [e H]; discriminate|].
      intros [H|[H _]]; discriminate.
    - intros result H. injection H as <-. cbn. split; [eauto|]. split; [reflexivity|].
      intros _. left. reflexivity.
    - apply bool_decide_eq_true. reflexivity. }
  destruct (WinRM.child_end run) as [error|code|error].
  - split; [|split].
    + split; [intros _; right; split; [reflexivity|left; eexists; reflexivity]|].
      intros _. eexists. reflexivity.
    + intros result H. discriminate.
    + reflexivity.
  - destruct (bool_decide (code = Some 0%nat)) eqn:Hcode; cbn [negb].
    + apply bool_decide_eq_true in Hcode. subst code.
      destruct (WinRM.child_json run) as [[|response]|].
      * split; [|split].
        -- split; [intros _; right; split; [reflexivity|right; split; reflexivity]|].
           intros _. eexists. reflexivity.
        -- intros result H. discriminate.
        -- reflexivity.
      * split; [|split].
        -- split; [intros [e H]; discriminate|].
           intros [H|[_ [[e H]|[_ H]]]]; discriminate.
        -- intros result H. injection H as <-. cbn. split; [eauto|]. split; [reflexivity|].
           intros Hok. right. split; [reflexivity|]. eexists. split; [reflexivity|exact Hok].
        -- cbn [result_elapsedMs result_checksum]. rewrite andb_true_iff, !bool_decide_eq_true. split; [eauto|reflexivity].
      * split; [|split].
        -- split; [intros [e H]; discriminate|].
           intros [H|[_ [[e H]|[_ H]]]]; discriminate.
        -- intros result H. injection H as <-. cbn. split; [eauto|]. split; [reflexivity|].
           intros Hok. discriminate.
        -- cbn [result_elapsedMs result_checksum]. rewrite andb_true_iff, !bool_decide_eq_true. split; [eauto|reflexivity].
    + apply bool_decide_eq_false in Hcode.
      split; [|split].
      * split; [intros [e H]; discriminate|].
        intros [H|[_ [[e H]|[H _]]]]; try discriminate.
        injection H as H. contradiction.
      * intros result H. injection H as <-. cbn. split; [eauto|]. split; [reflexivity|].
        intros Hok. discriminate.
      * cbn [result_elapsedMs result_checksum]. rewrite andb_true_iff, !bool_decide_eq_true. split; [eauto|reflexivity].
  - split; [|split].
    + split; [intros [e H]; discriminate|].
      intros [H|[_ [[e H]|[H _]]]]; discriminate.
    + intros result H. injection H as <-. cbn. split; [eauto|]. split; [reflexivity|].
      intros Hok. discriminate.
    + cbn [result_elapsedMs result_checksum]. rewrite andb_true_iff, !bool_decide_eq_true. split; [eauto|reflexivity].
Qed.

Section AgentFacts.

Lemma truthy_append (a b : string) : Js.truthy a = true -> Js.truthy (a +:+ b) = true.
Proof. destruct a; [discriminate|]. intros _. reflexivity. Qed.

End AgentFacts.

(** X29. A remote agent that does not exit with code 0 (a non-zero code, or
    no code because the child was killed, as the timeout of the client
    does) gives a result with the status [ERROR], never [TIMEOUT], whose
    error text is not empty: the error output of the agent when there is
    one, a text with the exit code otherwise; the logs are the non-empty
    lines of its standard output.  The job of such a call fails; as a call
    that resolves is not retried, it fails at once. *)
Theorem failed_agent_gives_an_error_result job context run code :
  isWindowsHost (ctx_host context) = true ->
  job_mode job = Normal ->
  WinRM.child_end run = WinRM.Closed code ->
  code <> Some 0%nat ->
  exists result message,
    WinRM.execute false job context run = Resolves result
    /\ result_status result = ERROR
    /\ result_elapsedMs result = Some (WinRM.run_elapsedMs run)
    /\ result_error result = Some message
    /\ Js.truthy message = true
    /\ (Js.truthy (WinRM.child_stderr run) = true -> message = WinRM.child_stderr run)
    /\ Forall (fun line => Js.truthy line = true) (result_logs result)
    /\ (forall now, job_status (Queue.completedJob now result job) = Failed).
Proof.
  intros Hwin Hmode Hend Hcode.
  unfold WinRM.execute, WinRM.invokeRemoteAgent. rewrite Hwin, Hmode, Hend.
  cbn [negb orb]. rewrite (bool_decide_eq_false_2 (Normal = DryRun)) by discriminate.
  rewrite (bool_decide_eq_false_2 (code = Some 0%nat)) by exact Hcode.
  cbn [negb WinRM.response_status WinRM.response_port WinRM.response_error
         WinRM.response_logs Js.nullish].
  eexists. eexists. split; [reflexivity|].
  cbn [result_status result_elapsedMs result_error result_logs].
  split; [reflexivity|]. split; [reflexivity|]. split; [reflexivity|].
  split; [|split; [|split]].
  - destruct (Js.truthy (WinRM.child_stderr run)) eqn:E; [exact E|].
    apply truthy_append. reflexivity.
  - intros E. rewrite E. reflexivity.
  - destruct (0 <? Z.of_nat (String.length (WinRM.child_stdout run))); [|constructor].
    apply Forall_forall. intros line Hline.
    apply list_elem_of_In, List.filter_In in Hline as [_ H]. exact H.
  - intros now. reflexivity.
Qed.

Lemma killed_agent_gives_an_error_result :
  let job := Queue.runningJob 20 (Queue.createInitialJob "A" 10 (Scenario.upload "windows")) in
  let run := WinRM.mkAgentRun (WinRM.Closed None) "" "" None 180000 in
  exists result message,
    WinRM.execute false job (Scenario.context "windows") run = Resolves result
    /\ result_status result = ERROR
    /\ result_elapsedMs result = Some 180000
    /\ result_error result = Some message
    /\ Js.truthy message = true
    /\ (Js.truthy "" = true -> message = "")
    /\ Forall (fun line => Js.truthy line = true) (result_logs result)
    /\ (forall now, job_status (Queue.completedJob now result job) = Failed).
Proof.
  exact (failed_agent_gives_an_error_result
           (Queue.runningJob 20 (Queue.createInitialJob "A" 10 (Scenario.upload "windows")))
           (Scenario.context "windows")
           (WinRM.mkAgentRun (WinRM.Closed None) "" "" None 180000) None
           eq_refl eq_refl eq_refl
           (fun H => eq_ind None (fun c => match c with None => True | Some _ => False end)
                       I _ H)).
Defined.

Section Extension.
Variable o : JobQueueOptions.

Lemma extension_outcome job ctx outcome :
  Manager.executeJob WinRM.extensionStrategies job ctx outcome = true ->
  if isWindowsHost (ctx_host ctx)
  then outcome = Resolves (WinRM.dryRunResult job (ctx_host ctx))
  else outcome = Rejects (Manager.noStrategyError (ctx_host ctx)).
Proof.
  unfold Manager.executeJob, WinRM.extensionStrategies.
  cbn [Manager.registerStrategy Manager.getStrategyForHost WinRMClient supports execute].
  destruct (isWindowsHost (ctx_host ctx)) eqn:Hw.
  - cbn [WinRMClient execute]. rewrite Hw. cbn [negb orb].
    intros H. apply bool_decide_eq_true in H. exact H.
  - intros H. apply bool_decide_eq_true in H. exact H.
Qed.

Lemma extension_records_nothing q :
  reachable (Manager.executeJob WinRM.extensionStrategies) o q ->
  completedDurations q = [].
Proof.
  induction 1 as [|q now t q' Hq IH Ht]; [reflexivity|].
  pose proof (windows_turn _ o now t q q' Ht) as H.
  destruct t as [| |uuid input|jobId| |jobId [result|error]|jobId|jobId|];
    try (destruct H as [E1 _]; rewrite E1; exact IH).
  destruct (resolved_turn _ o now q q' jobId result Hq Ht)
    as (job & ctx & _ & _ & Hx & _ & _ & _ & _ & HD).
  apply extension_outcome in Hx.
  destruct (isWindowsHost (ctx_host ctx)); [|discriminate].
  injection Hx as ->. rewrite HD. unfold Queue.trackMetrics.
  cbn [Queue.completedJob WinRM.dryRunResult result_elapsedMs Js.nullish job_metrics
         with_error with_result with_metrics with_status elapsedMs].
  cbn. exact IH.
Qed.

End Extension.

(** X30. With the client the extension builds, whose [dryRun] option is
    set, every deployment is a dry run: a call of the executor for a Windows
    host resolves with the dry-run result and the job succeeds with a
    duration of 0; for any other host the call is rejected for want of a
    strategy.  No duration is ever recorded, and the average duration of the
    telemetry is always 0. *)
Theorem extension_deployments_are_dry_runs o q :
  reachable (Manager.executeJob WinRM.extensionStrategies) o q ->
  completedDurations q = []
  /\ (forall now, averageDurationMs (Queue.getTelemetry o now q) = 0%Q)
  /\ (forall now jobId outcome q',
        turn (Manager.executeJob WinRM.extensionStrategies) o now
          (ExecutorSettles jobId outcome) q = Some q' ->
        exists ctx,
          contextByJob q !! jobId = Some ctx
          /\ if isWindowsHost (ctx_host ctx)
             then exists job,
                    Queue.getJob jobId q' = Some job
                    /\ job_status job = Succeeded
                    /\ elapsedMs (job_metrics job) = Some 0
                    /\ job_result job = Some (WinRM.dryRunResult job (ctx_host ctx))
             else outcome = Rejects (Manager.noStrategyError (ctx_host ctx))).
Proof.
  intros Hreach. pose proof (extension_records_nothing o q Hreach) as HD.
  split; [exact HD|]. split.
  - intros now. unfold Queue.getTelemetry. cbn [averageDurationMs]. rewrite HD.
    unfold slice_from. rewrite drop_nil. reflexivity.
  - intros now jobId outcome q' Ht.
    assert (Hframe : exists job ctx others,
               take_first (awaits_executor jobId) (suspended q)
               = Some (AwaitExecutor job ctx, others)
               /\ Manager.executeJob WinRM.extensionStrategies job ctx outcome = true
               /\ contextByJob q !! jobId = Some ctx).
    { cbn [turn] in Ht.
      destruct (take_first (awaits_executor jobId) (suspended q)) as [[c others]|] eqn:Htake;
        [|discriminate].
      destruct (take_first_executor _ _ _ _ Htake) as (job & ctx & -> & Hid).
      pose proof Htake as Htaken.
      apply take_first_perm in Htake as [HP _].
      destruct (Manager.executeJob WinRM.extensionStrategies job ctx outcome) eqn:Hx;
        [|discriminate].
      pose proof (reachable_Inv _ o (fun _ => True) q Hreach) as HI.
      destruct (ci_executing _ _ _ _ _ _ _ _ HI job ctx) as (_ & _ & _ & _ & Hctx);
        [rewrite HP; left|].
      exists job, ctx, others. rewrite <- Hid. repeat split; assumption. }
    destruct Hframe as (job & ctx & others & Htake & Hx & Hctx).
    exists ctx. split; [exact Hctx|].
    pose proof (extension_outcome job ctx outcome Hx) as Hout.
    destruct (isWindowsHost (ctx_host ctx)); [|exact Hout].
    subst outcome.
    destruct (resolved_turn _ o now q q' jobId _ Hreach Ht)
      as (job' & ctx' & [others' Htake'] & _ & _ & _ & _ & Hjob & _).
    rewrite Htake in Htake'. injection Htake' as <- <- <-.
    eexists. unfold Queue.getJob. split; [exact Hjob|].
    split; [reflexivity|]. split; [reflexivity|]. reflexivity.
Qed.

Lemma extension_upload_is_a_dry_run :
  let x := Manager.executeJob WinRM.extensionStrategies in
  let o := Scenario.options 2 1 in
  let q := Scenario.after x o
             [ (0, CallStart); (10, CallEnqueue "A" (Scenario.upload "windows")) ] in
  completedDurations q = []
  /\ (forall now, averageDurationMs (Queue.getTelemetry o now q) = 0%Q)
  /\ (forall now jobId outcome q',
        turn x o now (ExecutorSettles jobId outcome) q = Some q' ->
        exists ctx,
          contextByJob q !! jobId = Some ctx
          /\ if isWindowsHost (ctx_host ctx)
             then exists job,
                    Queue.getJob jobId q' = Some job
                    /\ job_status job = Succeeded
                    /\ elapsedMs (job_metrics job) = Some 0
                    /\ job_result job = Some (WinRM.dryRunResult job (ctx_host ctx))
             else outcome = Rejects (Manager.noStrategyError (ctx_host ctx))).
Proof.
  apply (extension_deployments_are_dry_runs (Scenario.options 2 1)).
  apply after_reachable. vm_compute. eauto.
Defined.

(** ** The order of a scheduling pass *)

Section Fifo.
Variables (x : ExecutorModel) (o : JobQueueOptions).

Lemma processLoop_fifo now W :
  forall q,
    waitingQueue q = W -> TrackInv q ->
    let r := Queue.processLoop o now W q in
    running r.1 = running q
    /\ processing r.1 = processing q
    /\ exists calls,
         executorCalls r.1 = executorCalls q ++ calls
         /\ Forall (fun c => job_status c.1 = Running) calls
         /\ if r.2
            then exists held,
                   throttled held (suspended r.1)
                   /\ W = ((fun c => job_id c.1) <$> calls) ++ held :: waitingQueue r.1
            else W = ((fun c => job_id c.1) <$> calls) ++ waitingQueue r.1
                 /\ (waitingQueue r.1 = [] \/ running q = false
                     \/ maxParallel o <= Z.of_nat (size (activeJobs r.1))).
Proof.
  induction W as [|j rest IH]; intros q HW HT; cbn zeta; cbn [Queue.processLoop].
  - cbn [fst snd]. split; [reflexivity|]. split; [reflexivity|].
    exists []. rewrite app_nil_r. split; [reflexivity|]. split; [constructor|].
    split; [symmetry; exact HW|]. left. exact HW.
  - destruct (running q) eqn:Hrun; cbn [andb].
    2:{ cbn [fst snd]. split; [exact Hrun|]. split; [reflexivity|].
        exists []. rewrite app_nil_r. split; [reflexivity|]. split; [constructor|].
        split; [symmetry; exact HW|]. right. left. reflexivity. }
    destruct (bool_decide_reflect (Z.of_nat (size (activeJobs q)) < maxParallel o))
      as [Hslot|Hslot].
    2:{ cbn [fst snd]. split; [exact Hrun|]. split; [reflexivity|].
        exists []. rewrite app_nil_r. split; [reflexivity|]. split; [constructor|].
        split; [symmetry; exact HW|]. right. right. lia. }
    pose proof HT as HT0. unfold TrackInv in HT. rewrite HW in HT.
    destruct (tr_waiting _ _ _ _ HT j) as (job & Hjob & Hnone); [left|].
    destruct (tr_keys _ _ _ _ HT j job Hjob) as (Hid & Htruthy & [ctx Hctx]).
    rewrite Htruthy. cbn [negb]. queue_simpl. rewrite Hjob, Hctx.
    destruct (bool_decide (0 < throttleMs o)
              && bool_decide (now - lastStartTimestamp q < throttleMs o)).
    + cbn [fst snd]. queue_simpl. split; [exact Hrun|]. split; [reflexivity|].
      exists []. rewrite app_nil_r. split; [reflexivity|]. split; [constructor|].
      exists j. split; [|reflexivity].
      exists job, ctx. split; [|exact Hid].
      apply elem_of_app. right. apply list_elem_of_singleton. reflexivity.
    + set (q1 := Queue.startJob now job ctx
                   (set_lastStartTimestamp now (set_waitingQueue rest q))).
      destruct (IH q1) as (R1 & R2 & calls & C1 & C2 & C3).
      * reflexivity.
      * unfold TrackInv. subst q1. queue_simpl. apply (track_begin _ j); assumption.
      * cbn zeta in R1, R2, C1, C3.
        split; [rewrite R1; exact Hrun|]. split; [rewrite R2; reflexivity|].
        exists ((Queue.runningJob now job, ctx) :: calls).
        split; [rewrite C1; subst q1; queue_simpl; rewrite <- app_assoc; reflexivity|].
        split; [constructor; [reflexivity|exact C2]|].
        cbn [fmap list_fmap fst Queue.runningJob job_id with_metrics with_status].
        change (list_fmap _ _ (fun c => job_id c.1) calls)
          with ((fun c : DeploymentJob * DeploymentContext => job_id c.1) <$> calls).
        rewrite Hid.
        destruct (Queue.processLoop o now rest q1) as [q' held]. cbn [fst snd] in *.
        destruct held.
        -- destruct C3 as (h & H1 & H2). exists h. split; [exact H1|].
           rewrite H2. reflexivity.
        -- destruct C3 as (H1 & H2). split; [rewrite H1; reflexivity|].
           destruct H2 as [H2|[H2|H2]]; [left; exact H2| |right; right; exact H2].
           subst q1. queue_simpl. congruence.
Qed.

End Fifo.

(** X19. A scheduling pass starts the waiting jobs in the order of the
    waiting list and skips none.  Run in a reachable state of a started
    queue, it calls the executor for the first jobs of the list, in their
    order, and leaves the others in the list in their order; it stops
    because the list is empty or because the active set has reached
    [maxParallel], unless it has to wait out the throttle delay, and it then
    holds the next job of the list. *)
Theorem scheduling_pass_is_first_come_first_served x o now q :
  reachable x o q ->
  running q = true ->
  processing q = false ->
  let q' := Queue.processQueue o now q in
  exists calls,
    executorCalls q' = executorCalls q ++ calls
    /\ Forall (fun c => job_status c.1 = Running) calls
    /\ ((processing q' = false
         /\ waitingQueue q = ((fun c => job_id c.1) <$> calls) ++ waitingQueue q'
         /\ (waitingQueue q' = []
             \/ maxParallel o <= Z.of_nat (size (activeJobs q'))))
        \/ (processing q' = true
            /\ exists held,
                 throttled held (suspended q')
                 /\ waitingQueue q
                    = ((fun c => job_id c.1) <$> calls) ++ held :: waitingQueue q')).
Proof.
  intros Hreach Hrun Hproc. cbn zeta. unfold Queue.processQueue.
  rewrite Hrun, Hproc. cbn [negb orb].
  pose proof (reachable_TrackInv x o q Hreach) as HT.
  destruct (processLoop_fifo o now (waitingQueue q) (set_processing true q) eq_refl HT)
    as (R1 & R2 & calls & C1 & C2 & C3).
  cbn zeta in R1, R2, C1, C3. unfold Queue.leaveLoop.
  destruct (Queue.processLoop o now (waitingQueue q) (set_processing true q))
    as [q' held].
  cbn [fst snd] in *. exists calls. destruct held.
  - split; [exact C1|]. split; [exact C2|]. right. split; [exact R2|exact C3].
  - queue_simpl. split; [exact C1|]. split; [exact C2|]. left.
    split; [reflexivity|]. destruct C3 as [H1 H2]. split; [exact H1|].
    destruct H2 as [H2|[H2|H2]]; [left; exact H2|congruence|right; exact H2].
Qed.

Lemma retried_job_is_started_first :
  let o := Scenario.options 2 2 in
  let q := Scenario.after anyExecutor o Scenario.firstAttemptRejected in
  let q' := Queue.processQueue o 120 q in
  exists calls,
    executorCalls q' = executorCalls q ++ calls
    /\ Forall (fun c => job_status c.1 = Running) calls
    /\ ((processing q' = false
         /\ waitingQueue q = ((fun c => job_id c.1) <$> calls) ++ waitingQueue q'
         /\ (waitingQueue q' = []
             \/ maxParallel o <= Z.of_nat (size (activeJobs q'))))
        \/ (processing q' = true
            /\ exists held,
                 throttled held (suspended q')
                 /\ waitingQueue q
                    = ((fun c => job_id c.1) <$> calls) ++ held :: waitingQueue q')).
Proof.
  apply (scheduling_pass_is_first_come_first_served anyExecutor (Scenario.options 2 2) 120).
  - apply after_reachable. vm_compute. eauto.
  - vm_compute. reflexivity.
  - vm_compute. reflexivity.
Defined.
